(* ===== verification/_CoqProject ===== *)
-Q . S2P
Prelude.v
WorkerPool.v
Errors.v
Xdr.v
Attributes.v
Rpc.v
XdrTypes.v
Transport.v
MinHeap.v
FileHandle.v
Lru.v
AttrCache.v
Path.v
NetIP.v
Options.v
Auth.v
AllowList.v
ConnTable.v
Accept.v
Sweep.v
Portmapper.v
PortmapConn.v
Tls.v
Lifecycle.v
Logger.v
SafeMount.v
Filesystem.v
Wrappers.v
Composed.v
Fusion.v
DirCache.v
Server.v
RateLimiter.v
RateFacts.v
RateRequests.v
Metrics.v
Operations.v
Safety.v
OpsSafe.v
Procs.v
Access.v
ProcsDir.v
ProcsSafe.v
Reads.v
Sample.v
Node.v
Readdir.v
Service.v
Handles.v
Programs.v
Recording.v
Connection.v
RawMode.v
ReplyTypes.v
Updates.v
OpsFacts.v
Content.v
Defects.v
