(* ===== verification/Prelude.v ===== *)
(** * absnfs: an NFSv3 server over an abstract filesystem

    The program (package absnfs, src/*.go) exports a filesystem that implements
    the interface [absfs.SymlinkFileSystem] over NFSv3 and MOUNT.  A request
    travels as follows: bytes of a TCP stream are reassembled into records
    (rpc_transport.go) and decoded into an RPC call (rpc_types.go); [HandleCall]
    (nfs_handlers.go) authenticates the caller (auth.go) against the policy
    (options.go) and dispatches to a procedure (nfs_proc_*.go,
    mount_handlers.go); the procedure decodes its XDR arguments, validates
    names (nfs_operations.go), finds the node of a file handle
    (filehandle.go), asks the rate limiter (rate_limiter.go) and calls an
    operation on the exported filesystem (operations.go), which consults and
    maintains the attribute and directory caches (cache.go); the reply is
    encoded back (attributes.go, rpc_types.go).  Around this path: calls run on
    a pool of workers (worker_pool.go), the network server listens, optionally
    with TLS (tls_config.go), and registers with a portmapper of its own
    (server.go, portmapper.go), and metrics and a logger (metrics.go,
    logger.go) observe it.  A test server (cmd/testserver) and two examples
    (examples/composed-workspace, examples/fusion-drive) build a filesystem out
    of wrappers of their own and serve it.

    ** Files, in dependency order

    - [Prelude] (this file): machine integers, bytes and their big-endian
      encoding, string slicing, shared list lemmas.
    - [WorkerPool]: worker_pool.go and [ExecuteWithWorker] as a step relation
      over callers, workers and the goroutines in [Start], [Stop] and
      [Resize]; channels and contexts are addresses, since [Resize] replaces
      them under goroutines that hold the old ones.  Specification: a ledger
      of tasks.
    - [Errors]: Go errors as values (errors.go), [errors.Is], [os.IsNotExist]
      and [mapError] of operations.go.
    - [Xdr], [Rpc]: rpc_types.go.  Decoders are a monad over the unread bytes;
      encoders return bytes (a write to a memory buffer cannot fail).
    - [Attributes]: [NFSAttrs] of types.go and the encoders of attributes.go.
    - [XdrTypes]: a small language of XDR types (RFC 4506) with a recogniser,
      and the result types of RFC 1813 written in it.
    - [Transport]: record marking of rpc_transport.go over byte lists.
    - [MinHeap], [FileHandle]: minheap.go on a model of container/heap, and
      the handle map of filehandle.go with deduplication and eviction.
    - [Lru], [AttrCache], [DirCache]: cache.go on a model of container/list.
      Specification: a bounded association list in recency order.
    - [Path]: path.Clean/Join/Base, [sanitizePath], [validateFilename],
      [validateMode].
    - [Portmapper]: the registry and the calls of portmapper.go, from the bytes
      of a record to the reply.
    - [PortmapConn]: the loop of a portmapper connection, bytes to bytes, and
      the semaphore of the accept loop.
    - [Tls]: tls_config.go; the disk, key pairs and certificate pools are a
      class of parameters [Pki].
    - [Lifecycle]: construction, [Listen], [StartWithPortmapper] and [Stop] of
      server.go, [Export] and [Unexport] of operations.go, over a network that
      is a class with laws ([Network], [NetworkLaws]).
    - [Logger]: logger.go and the replacement of the logger in a running server
      (absnfs.go, options.go) by goroutines that interleave, over files that are
      a class with laws.
    - [SafeMount]: integration_test_safety.go over an arbitrary host; what is
      asked and run is recorded in a trace.
    - [ConnTable]: the table of connections of server.go (limit, idle sweep,
      shutdown) as a step relation over the interleavings of its goroutines.
    - [Accept], [Sweep]: the accept loop of server.go round by round, and the
      loop that sweeps idle connections with its ticker, both as functions whose
      rounds are steps of [ConnTable].
    - [NetIP], [Options], [Auth]: net.ParseIP/ParseCIDR, the option records and
      their conversions and defaults (options.go, absnfs.go), authentication
      and squashing (auth.go).
    - [AllowList]: which clients a list of addresses and networks admits, as
      128-bit numbers and prefixes, and that auth.go admits exactly them.
    - [Filesystem]: the interface of the exported filesystem as a class
      [SymlinkFileSystem], the behaviour relied on as a class of laws
      [FSLaws] (operations that only read leave the tree of files alone and a
      read returns no more than asked), a class [FSInv] of the invariants its
      calls keep, and an in-memory instance of all.
    - [Wrappers], [Composed], [Fusion]: the filesystems of the example programs
      (read-only and base-path wrappers, routing by mount point, a cache over a
      cold tier) as instances of that interface over the filesystems they wrap.
    - [Server]: the state of [AbsfsNFS] and of its nodes, the state monad [M]
      ([None] is a Go panic), the clock, and the primitive effects.
    - [RateLimiter], [RateFacts], [RateRequests]: rate_limiter.go, an instance
      of the interface [OpLimiter] the handlers use, and its theorems.
    - [Metrics]: metrics.go and metrics_api.go.  Specification: functions of
      the history of events.
    - [Operations]: operations.go.
    - [Node]: nfs_node.go over descriptors that are a class with laws.
    - [Procs], [ProcsDir]: the 22 NFS procedures, MOUNT and [HandleCall].  What
      a procedure leaves unread of its arguments is part of the state.
    - [Safety], [OpsSafe], [ProcsSafe]: the invariant of the server, a logic of
      safe computations with its proof automation, and one lemma per
      operation and procedure.
    - [Access], [Readdir], [Service], [Updates], [OpsFacts]: theorems about
      ACCESS, directory listing, the server as a whole, live updates of the
      options (absnfs.go, options.go), and the operation layer.
    - [Handles]: how a computation may change the handle map, and that handles
      stay valid between requests.
    - [Connection], [Reads], [RawMode]: the request loop of a connection
      (server.go) from bytes to bytes over the interface [ConnIO] of its two
      framings, what each procedure reads of the stream, and the loop without
      record marking.
    - [ReplyTypes]: every reply has the type RFC 1813 gives it.
    - [Content]: READ and WRITE over a filesystem that is a store of byte
      strings ([FSContent], with its instance in memory).
    - [Programs]: the main functions of the test server and of the examples, up
      to the started server.
    - [Recording]: the packages of a host instrumented to record the calls on
      the disk, and which calls the composed workspace lets through to it.
    - [Sample], [Defects]: a concrete environment and runs in which the code
      departs from its own comments or from RFC 1813.

    ** What the theorems show

    - The server as a whole ([Service], [Updates]): a server built by [New]
      answers every sequence of calls without a panic and keeps its invariant,
      also across updates of its options that leave the transfer size and the
      time-outs usable; it keeps every invariant of the
      wrapped filesystem that the calls allowed by its options keep, so a
      read-only export never changes; calls that are refused have no effect.
    - Files ([Content], [Handles]): READ and WRITE read and overwrite byte
      strings, what a client writes it reads back, and a handle keeps naming the
      same path.
    - Replies ([ReplyTypes]): on success and on failure the bytes of a reply are
      an RPC reply with a value of the result type of the procedure; the two
      kinds of call for which they are not are shown.
    - Connections ([Connection], [ConnTable]): any bytes a peer sends leave the
      server consistent; the replies to conforming calls come back framed, in
      order and with the header of their call, and without record marking so do
      those to inspecting calls that are not turned away ([RawMode]); connections are counted exactly,
      within the limit, and none is leaked; the accept loop serves or closes
      every arrival ([Accept]); an idle connection is closed in time ([Sweep]).
    - Programs ([Recording], [Composed]): every call the composed workspace makes
      on the disk is one it means to let through, whatever the disk does with it,
      and a name is routed to the deepest mount point above it.
    - Workers ([WorkerPool]): in every interleaving no task is run twice and
      no caller gets another's result; while the pool is neither stopped nor
      resized every call is answered.
    - The portmapper's registry is a finite map from services to ports, changed
      only as its guards allow; addresses in it round-trip; a connection
      answers every record in order and ends on any input.
    - The network server ([Lifecycle], [Tls]): starting and stopping leave no
      listener behind, and TLS is only set up as validated.
    - Observation ([Metrics], [Logger]): the metrics are those of the history,
      the health check looks at the window it says, and the log files that are
      open are those of loggers in use.
    - Used as a file to read, a node changes nothing ([Node]); the mounts of the
      integration tests stay within their directory ([SafeMount]).
    - Handles and caches: the handle map is consistent under all operations,
      stays within its limit, and resolves what it hands out; both caches
      refine bounded recency lists; creation and removal leave no
      stale entry, and what renaming drops is stated exactly.
    - Requests and replies: XDR, RPC calls, replies, credentials, attributes
      and record marking round-trip, and what is decoded is within the
      protocol's limits.
    - Access: which callers are admitted, how they are squashed, which ACCESS
      bits they get, which names and paths are accepted, and at what rate.
    - Listing a directory page by page returns every entry once.

    ** Conventions and bounds

    - Go integers are [Z] with the wrap-around written out where the code can
      reach it ([u32], [u64], [i64]); lengths are [zlen].
    - Times are instants in nanoseconds.  Every [time.Now()] is a reading of an
      arbitrary clock; a context has expired when a reading has reached its
      deadline.  Theorems that need the clock to be monotone say so.
    - A method that holds a mutex throughout is one step.  [Get] and
      [PutNegative] of the caches, which take the lock twice, are split into
      their two sections, and the refinement of the caches is for any
      interleaving of these; in the handlers the two follow each other.  The
      limiters are one step per call although [PerIPLimiter.Allow] releases its
      mutex before it takes a token from the bucket.  [HandleCall] runs the
      goroutine of a call to its end before its waiter looks at the deadline;
      where both arms of a [select] are ready an arbitrary [choice] decides.
      Policy and tuning are fixed during a request.
    - A node is an address into the store of attributes, since the handle map
      and the procedures share nodes; its path never changes.
    - Paths use the slash ([filepath] is [path]); [windows] selects the
      reserved names of [validateFilename].
    - Loops that are not structural carry fuel: the bytes of the stream for
      [ReadRecord] (each round reads a header), the length of the record for
      [WriteRecord], the size of the heap for [heap_up] and [heap_down], the
      highest handle number for the eviction loop, the length of the list for
      the eviction of a cache, the bytes of the stream for the request
      loop and for the loop of a portmapper connection, the length of the input
      for the lists a recogniser of [XdrTypes] follows.  The theorems show that
      each is enough.
    - float64 arithmetic is a class with two instances, IEEE binary64 and exact
      rationals; see [RateLimiter].  The bounds on rates and the health check
      are stated in the latter; for the quotients of at most a thousand
      outcomes the health check compares, both give the same answer.
    - On the network of [Lifecycle] a port is listened on once, whatever the
      address.

    ** Not modelled

    The text of log lines, of metrics snapshots and of what the programs print
    (banners, the statistics page of the fusion drive), formatting by log/slog,
    parsing of certificates and the TLS protocol (crypto/tls), the effect of
    socket options and of read and write deadlines, waiting for goroutines at
    shutdown and for a signal in the programs, and the packages the programs
    compose (memfs, osfs, cachefs, lockfs), which are parameters.  The request
    loop hands its calls to the worker pool one at a time; the theorems about
    the pool are stated for its own callers. *)

From Stdlib Require Export ZArith Lia.
From Stdlib Require Strings.Byte Strings.String Strings.Ascii.
From Stdlib Require Export Init.Byte.
From stdpp Require Export base tactics option list gmap strings.
Open Scope Z_scope.

(** ** Machine integers

    A Go [uint32]/[uint64]/[int64] value is a [Z] in range; a conversion is
    the wrap-around written out. *)

Definition u32 (z : Z) : Z := z mod 2 ^ 32.
Definition u64 (z : Z) : Z := z mod 2 ^ 64.
Definition i64 (z : Z) : Z := (z + 2 ^ 63) mod 2 ^ 64 - 2 ^ 63.

Definition is_u32 (z : Z) : Prop := 0 <= z < 2 ^ 32.
Definition is_u64 (z : Z) : Prop := 0 <= z < 2 ^ 64.

Lemma u32_small z : is_u32 z -> u32 z = z.
Proof. apply Z.mod_small. Qed.

Lemma u64_small z : is_u64 z -> u64 z = z.
Proof. apply Z.mod_small. Qed.

Lemma u32_range z : is_u32 (u32 z).
Proof. apply Z.mod_pos_bound. lia. Qed.

Lemma u64_range z : is_u64 (u64 z).
Proof. apply Z.mod_pos_bound. lia. Qed.

Lemma i64_small z : - 2 ^ 63 <= z < 2 ^ 63 -> i64 z = z.
Proof. intros H. unfold i64. rewrite Z.mod_small; lia. Qed.

Create HintDb absnfs.
#[export] Hint Resolve u32_range u64_range : absnfs.

(** Remove wrap-arounds that the context shows to be the identity. *)
Ltac word_simpl :=
  repeat first
    [ rewrite u32_small by (unfold is_u32 in *; lia)
    | rewrite u64_small by (unfold is_u64 in *; lia)
    | rewrite i64_small by lia ].

(** ** Bytes and big-endian numbers *)

#[export] Instance byte_eq_dec : EqDecision byte := Byte.byte_eq_dec.

Definition byteZ (b : byte) : Z := Z.of_N (Byte.to_N b).

Definition Zbyte (z : Z) : byte :=
  match Byte.of_N (Z.to_N (z mod 256)) with
  | Some b => b
  | None => x00
  end.

Lemma byteZ_range b : 0 <= byteZ b < 256.
Proof. unfold byteZ. pose proof (Byte.to_N_bounded b). lia. Qed.

Lemma byteZ_Zbyte z : byteZ (Zbyte z) = z mod 256.
Proof.
  unfold byteZ, Zbyte. pose proof (Z.mod_pos_bound z 256 ltac:(lia)) as Hz.
  destruct (Byte.of_N (Z.to_N (z mod 256))) as [b|] eqn:E.
  - apply Byte.to_of_N in E. rewrite E. lia.
  - apply Byte.of_N_None_iff in E. lia.
Qed.

Lemma byteZ_inj a b : byteZ a = byteZ b -> a = b.
Proof.
  unfold byteZ. intros H. apply N2Z.inj in H.
  pose proof (Byte.of_to_N a). pose proof (Byte.of_to_N b). congruence.
Qed.

Lemma Zbyte_byteZ b : Zbyte (byteZ b) = b.
Proof.
  apply byteZ_inj. rewrite byteZ_Zbyte. apply Z.mod_small, byteZ_range.
Qed.

(** [be_bytes n z]: the [n] low bytes of [z], most significant first, as
    [binary.Write(w, binary.BigEndian, v)] emits them. *)
Fixpoint be_bytes (n : nat) (z : Z) : list byte :=
  match n with
  | O => []
  | S n => be_bytes n (z / 256) ++ [Zbyte z]
  end.

(** [be_val l]: the number a big-endian byte sequence denotes. *)
Definition be_val (l : list byte) : Z :=
  foldl (fun acc b => acc * 256 + byteZ b) 0 l.

Lemma be_bytes_length n z : length (be_bytes n z) = n.
Proof.
  revert z; induction n as [|n IH]; intros z; simpl; [done|].
  rewrite length_app, IH. simpl. lia.
Qed.

Lemma be_val_snoc l b : be_val (l ++ [b]) = be_val l * 256 + byteZ b.
Proof. unfold be_val. by rewrite foldl_app. Qed.

Lemma be_val_bytes n z : be_val (be_bytes n z) = z mod 256 ^ Z.of_nat n.
Proof.
  revert z; induction n as [|n IH]; intros z.
  - simpl. by rewrite Z.mod_1_r.
  - cbn [be_bytes]. rewrite be_val_snoc, IH, byteZ_Zbyte, Nat2Z.inj_succ.
    rewrite Z.pow_succ_r by lia.
    rewrite (Z.mul_comm 256), (Z.mul_comm (256 ^ _) 256).
    rewrite Z.rem_mul_r by lia. lia.
Qed.

Lemma be_bytes_val l : be_bytes (length l) (be_val l) = l.
Proof.
  induction l as [|b l IH] using rev_ind; [done|].
  rewrite length_app, be_val_snoc, Nat.add_comm. cbn [length Nat.add be_bytes].
  pose proof (byteZ_range b).
  rewrite Z.div_add_l, (Z.div_small (byteZ b)), Z.add_0_r, IH by lia.
  f_equal. f_equal. apply byteZ_inj. rewrite byteZ_Zbyte.
  rewrite Z.add_comm, Z.mod_add, Z.mod_small by lia. done.
Qed.

Lemma be_val_range l : 0 <= be_val l < 256 ^ Z.of_nat (length l).
Proof.
  rewrite <- (be_bytes_val l) at 1 2. rewrite be_val_bytes.
  apply Z.mod_pos_bound. lia.
Qed.

Lemma be_val_bytes_u32 z : is_u32 z -> be_val (be_bytes 4 z) = z.
Proof. intros H. rewrite be_val_bytes. by apply Z.mod_small. Qed.

Lemma be_val_bytes_u64 z : is_u64 z -> be_val (be_bytes 8 z) = z.
Proof. intros H. rewrite be_val_bytes. by apply Z.mod_small. Qed.

Lemma be_bytes_inj n x y :
  0 <= x < 256 ^ Z.of_nat n -> 0 <= y < 256 ^ Z.of_nat n ->
  be_bytes n x = be_bytes n y -> x = y.
Proof.
  intros Hx Hy H. apply (f_equal be_val) in H.
  rewrite !be_val_bytes, !Z.mod_small in H; done.
Qed.

#[export] Hint Resolve be_val_bytes_u32 be_val_bytes_u64 : absnfs.

(** ** Go strings

    A Go string is an immutable byte sequence: here a [string], whose
    characters are the bytes. *)

Definition bytes_of_string (s : string) : list byte := String.list_byte_of_string s.
Definition string_of_bytes (l : list byte) : string := String.string_of_list_byte l.

Lemma string_of_bytes_of_string s : string_of_bytes (bytes_of_string s) = s.
Proof. apply String.string_of_list_byte_of_string. Qed.

Lemma bytes_of_string_of_bytes l : bytes_of_string (string_of_bytes l) = l.
Proof. apply String.list_byte_of_string_of_list_byte. Qed.

Lemma bytes_of_string_length s : length (bytes_of_string s) = String.length s.
Proof.
  unfold bytes_of_string, String.list_byte_of_string. rewrite length_map.
  induction s; simpl; congruence.
Qed.

(** [len(s)] of a Go string, as the [int] it is. *)
Definition slen (s : string) : Z := Z.of_nat (String.length s).
(** [len(b)] of a Go slice. *)
Definition zlen {A} (l : list A) : Z := Z.of_nat (length l).

Lemma zlen_app {A} (l1 l2 : list A) : zlen (l1 ++ l2) = zlen l1 + zlen l2.
Proof. unfold zlen. rewrite length_app. lia. Qed.

Lemma zlen_nonneg {A} (l : list A) : 0 <= zlen l.
Proof. unfold zlen. lia. Qed.

Lemma slen_bytes s : slen s = zlen (bytes_of_string s).
Proof. unfold slen, zlen. by rewrite bytes_of_string_length. Qed.

(** ** Lists *)

Lemma list_filter_iff_strong {A} (P Q : A -> Prop) `{!forall x, Decision (P x)} `{!forall x, Decision (Q x)}
    (l : list A) :
  (forall x, x ∈ l -> P x <-> Q x) -> filter P l = filter Q l.
Proof.
  induction l as [|x l IH]; intros HP; [done|]. rewrite !filter_cons.
  rewrite IH by (intros y Hy; apply HP; set_solver).
  specialize (HP x ltac:(set_solver)). repeat case_decide; tauto || done.
Qed.

Lemma filter_all {A} (P : A -> Prop) `{!forall x, Decision (P x)} (l : list A) :
  (forall x, x ∈ l -> P x) -> filter P l = l.
Proof.
  induction l as [|x l IH]; intros HP; [done|]. rewrite filter_cons, decide_True by (apply HP; set_solver).
  rewrite IH; [done|]. intros y Hy. apply HP. set_solver.
Qed.

(** ** Slicing of Go strings

    [s[:n]], [s[n:]] for [n <= len(s)], and the tests the sources make on
    characters. *)

Definition chr_slash : Ascii.ascii := Ascii.ascii_of_nat 47.

Fixpoint str_take (n : nat) (s : string) : string :=
  match n, s with
  | S n, String c s => String c (str_take n s)
  | _, _ => EmptyString
  end.

Fixpoint str_drop (n : nat) (s : string) : string :=
  match n, s with
  | O, _ => s
  | S n, String _ s => str_drop n s
  | S _, EmptyString => EmptyString
  end.

(** [s[i]]; [None] when out of range. *)
Definition str_at (s : string) (i : nat) : option Ascii.ascii :=
  match str_drop i s with String c _ => Some c | EmptyString => None end.

(** Some character of the string satisfies [f]. *)
Fixpoint str_exists (f : Ascii.ascii -> bool) (s : string) : bool :=
  match s with
  | EmptyString => false
  | String c s => f c || str_exists f s
  end.

Definition str_has (c : Ascii.ascii) (s : string) : bool := str_exists (Ascii.eqb c) s.

(** [strings.HasPrefix] *)
Fixpoint str_prefix (p s : string) : bool :=
  match p, s with
  | EmptyString, _ => true
  | String a p, String b s => Ascii.eqb a b && str_prefix p s
  | String _ _, EmptyString => false
  end.

(** [strings.Contains] *)
Fixpoint str_contains (s sub : string) : bool :=
  str_prefix sub s ||
  match s with EmptyString => false | String _ s => str_contains s sub end.

Lemma str_app_cons c s t : (String c s +:+ t)%string = String c (s +:+ t).
Proof. done. Qed.

Lemma str_take_drop n s : (str_take n s +:+ str_drop n s)%string = s.
Proof.
  revert s; induction n as [|n IH]; intros [|c s]; simpl; [done..|].
  rewrite str_app_cons. f_equal. apply IH.
Qed.

Lemma str_take_app s t : str_take (String.length s) (s +:+ t) = s.
Proof. induction s as [|c s IH]; [by destruct t|]. rewrite str_app_cons. simpl. f_equal. apply IH. Qed.

Lemma str_drop_app s t : str_drop (String.length s) (s +:+ t) = t.
Proof. induction s as [|c s IH]; [by destruct t|]. apply IH. Qed.

Lemma str_length_app s t : String.length (s +:+ t) = (String.length s + String.length t)%nat.
Proof. induction s as [|c s IH]; [done|]. rewrite str_app_cons. simpl. f_equal. apply IH. Qed.

Lemma str_app_assoc s t u : ((s +:+ t) +:+ u = s +:+ (t +:+ u))%string.
Proof. induction s as [|c s IH]; [done|]. rewrite !str_app_cons. f_equal. apply IH. Qed.

Lemma str_app_inj s t t' : (s +:+ t = s +:+ t')%string -> t = t'.
Proof. intros H. apply (f_equal (str_drop (String.length s))) in H. by rewrite !str_drop_app in H. Qed.

Lemma str_length_drop n s : String.length (str_drop n s) = (String.length s - n)%nat.
Proof. revert s; induction n as [|n IH]; intros [|c s]; simpl; [done..|]. apply IH. Qed.

Lemma str_drop_S n s : str_drop (S n) s = match str_drop n s with String _ r => r | EmptyString => EmptyString end.
Proof. revert s; induction n as [|n IH]; intros [|c s]; try done. apply IH. Qed.

Lemma length_filter_fmap {A B} (f : A -> B) (P : B -> Prop) `{!forall x, Decision (P x)} (l : list A) :
  length (filter P (f <$> l)) = length (filter (fun x => P (f x)) l).
Proof.
  induction l as [|x l IH]; [done|]. rewrite fmap_cons, !filter_cons.
  destruct (decide (P (f x))); simpl; [by rewrite IH|done].
Qed.

Lemma str_prefix_slash s : str_prefix "/" s = true <-> exists r, s = String chr_slash r.
Proof.
  destruct s as [|c s]; [split; [done|by intros [? ?]]|].
  change (str_prefix "/" (String c s)) with (Ascii.eqb chr_slash c && true).
  rewrite andb_true_r, Ascii.eqb_eq. split; [intros <-; eauto|]. intros [r [= -> _]]. done.
Qed.

(** ** Iteration over Go maps

    The runtime chooses the order anew for each loop. *)
Class MapRange := {
  range_order : nat -> forall A : Type, list A -> list A;
  range_perm : forall k A (l : list A), range_order k A l ≡ₚ l
}.

Lemma range_elem `{MapRange} k {A} (x : A) (l : list A) : x ∈ range_order k A l <-> x ∈ l.
Proof. by rewrite range_perm. Qed.
