(* ===== verification/WorkerPool.v ===== *)
(** * The worker pool (src/worker_pool.go, src/absnfs.go ExecuteWithWorker)

    Goroutines that submit tasks, run them, stop the pool and resize it, as a
    step relation over their interleavings.  Channels, contexts and the pool's
    fields are shared state; a goroutine that has read [p.taskQueue] or [p.ctx]
    keeps the channel or context it read.  A step is one atomic operation or
    one critical section.  Two specifications are refined: a ledger that says
    where each task is ([ledger]), from which follows that no task runs twice
    and that each caller gets the result of its own task; and, while nobody
    stops or resizes the pool, that every call is answered. *)

From stdpp Require Import relations.
From S2P Require Import Prelude.
Open Scope Z_scope.

(** A task is named by the call that submits it; its [ResultChan] is looked up
    under the same name. *)
Definition task : Type := nat.

(** A buffered channel of tasks. *)
Record Chan := mkChan { ch_buf : list task; ch_cap : nat; ch_closed : bool }.

(** [taskQueue] and [ctx] are addresses into the stores below; [resizeHeld] is
    the mutex of [Resize]. *)
Record WorkerPool := mkPool {
  maxWorkers : Z;
  taskQueue : nat;
  p_ctx : nat;
  running : bool;
  activeWorkers : Z;
  resizeHeld : bool
}.

Definition set_running (b : bool) (p : WorkerPool) : WorkerPool :=
  mkPool (maxWorkers p) (taskQueue p) (p_ctx p) b (activeWorkers p) (resizeHeld p).
Definition add_active (d : Z) (p : WorkerPool) : WorkerPool :=
  mkPool (maxWorkers p) (taskQueue p) (p_ctx p) (running p) (activeWorkers p + d) (resizeHeld p).
Definition set_resizeHeld (b : bool) (p : WorkerPool) : WorkerPool :=
  mkPool (maxWorkers p) (taskQueue p) (p_ctx p) (running p) (activeWorkers p) b.

(** A worker at the top of its loop, in its [select] with the context and the
    queue it read there, or executing a task. *)
Inductive worker :=
  | Looping
  | Selecting (ctx ch : nat)
  | Executing (t : task).

(** The progress of [Stop]: before the compare-and-swap, before [cancel],
    before closing the queue, before [wg.Wait]. *)
Inductive stop_pc := StopCAS | StopCancel | StopClose | StopWait.

Section Values.
Context {V : Type}.

(** A goroutine in [ExecuteWithWorker]: before the check of [running], in the
    [select] of [Submit] (holding [closeMu]), waiting for the result, after
    [Submit] returned nil, and returned with a result ([None] is the nil that
    [Resize] sends).  Sending on a closed channel panics. *)
Inductive client :=
  | Calling
  | Sending (ch : nat)
  | Waiting
  | Rejected
  | Returned (r : option V)
  | SendPanicked.

(** A goroutine in [Stop], [Start] or [Resize]. *)
Inductive manager :=
  | Stopping (pc : stop_pc)
  | Starting
  | ResizeLock (n : Z)
  | ResizeLoad (n : Z)
  | ResizeStop (n : Z) (old : nat) (pc : stop_pc)
  | ResizeClose (n : Z) (old : nat)
  | ResizeDrain (n : Z) (old : nat) (was : bool) (pending : list task)
  | ResizeSwap (n : Z) (was : bool) (pending : list task)
  | ResizeStart (pending : list task)
  | ResizeRequeue (pending : list task)
  | ResizeNotify (pending : list task)
  | ResizeUnlock
  | ResizePanicked (pending : list task).

(** [ctxs] tells which contexts were cancelled; [results] the value buffered in
    a result channel; [execs] is the history of executions. *)
Record Sys := mkSys {
  pool : WorkerPool;
  chans : list Chan;
  ctxs : list bool;
  workers : list worker;
  clients : gmap task client;
  results : gmap task (option V);
  managers : list manager;
  execs : list task
}.

(** [NewWorkerPool]: the queue holds twice as many tasks as there are workers. *)
Definition NewWorkerPool (n : Z) : Sys :=
  mkSys (mkPool n 0%nat 0%nat false 0 false) [mkChan [] (Z.to_nat (n * 2)) false] [false] [] ∅ ∅ [] [].

(** [Start]: one compare-and-swap, then the workers are launched. *)
Definition Start (s : Sys) : Sys :=
  if running (pool s) then s
  else mkSys (set_running true (pool s)) (chans s) (ctxs s)
         (workers s ++ replicate (Z.to_nat (maxWorkers (pool s))) Looping)
         (clients s) (results s) (managers s) (execs s).

(** [Stats] *)
Definition Stats (s : Sys) : Z * Z * nat :=
  (maxWorkers (pool s), activeWorkers (pool s),
   match chans s !! taskQueue (pool s) with Some c => length (ch_buf c) | None => 0%nat end).

Definition close_chan (ch : nat) (s : Sys) : Sys :=
  mkSys (pool s) (alter (fun c => mkChan (ch_buf c) (ch_cap c) true) ch (chans s)) (ctxs s)
    (workers s) (clients s) (results s) (managers s) (execs s).

Definition cancel_ctx (ctx : nat) (s : Sys) : Sys :=
  mkSys (pool s) (chans s) (<[ctx := true]> (ctxs s)) (workers s) (clients s) (results s)
    (managers s) (execs s).

Definition upd_pool (f : WorkerPool -> WorkerPool) (s : Sys) : Sys :=
  mkSys (f (pool s)) (chans s) (ctxs s) (workers s) (clients s) (results s) (managers s) (execs s).

Definition set_buf (ch : nat) (b : list task) (s : Sys) : Sys :=
  mkSys (pool s) (alter (fun c => mkChan b (ch_cap c) (ch_closed c)) ch (chans s)) (ctxs s)
    (workers s) (clients s) (results s) (managers s) (execs s).

Definition set_client (t : task) (c : client) (s : Sys) : Sys :=
  mkSys (pool s) (chans s) (ctxs s) (workers s) (<[t := c]> (clients s)) (results s) (managers s) (execs s).

Definition set_workers (ws : list worker) (s : Sys) : Sys :=
  mkSys (pool s) (chans s) (ctxs s) ws (clients s) (results s) (managers s) (execs s).

Definition set_managers (ms : list manager) (s : Sys) : Sys :=
  mkSys (pool s) (chans s) (ctxs s) (workers s) (clients s) (results s) ms (execs s).

Definition set_results (r : gmap task (option V)) (s : Sys) : Sys :=
  mkSys (pool s) (chans s) (ctxs s) (workers s) (clients s) r (managers s) (execs s).

Definition log_exec (t : task) (s : Sys) : Sys :=
  mkSys (pool s) (chans s) (ctxs s) (workers s) (clients s) (results s) (managers s) (execs s ++ [t]).

(** A send to a result channel, which holds one value: the worker's is
    non-blocking. *)
Definition offer (t : task) (r : option V) (s : Sys) : Sys :=
  match results s !! t with Some _ => s | None => set_results (<[t := r]> (results s)) s end.

(** The swap of [Resize]: worker count, queue, context and counter. *)
Definition swap_queue (n : Z) (s : Sys) : Sys :=
  mkSys (mkPool n (length (chans s)) (length (ctxs s)) (running (pool s)) 0 (resizeHeld (pool s)))
    (chans s ++ [mkChan [] (Z.to_nat (n * 2)) false]) (ctxs s ++ [false])
    (workers s) (clients s) (results s) (managers s) (execs s).

(** Nobody holds [closeMu] for reading. *)
Definition no_sender (s : Sys) : Prop := forall t ch, clients s !! t <> Some (Sending ch).

(** The channel is open and its buffer not full. *)
Definition has_room (c : Chan) : bool := negb (ch_closed c) && (length (ch_buf c) <? ch_cap c)%nat.
End Values.

Arguments client V : clear implicits.
Arguments Sys V : clear implicits.

(** ** Steps *)

Section Steps.
Context {V : Type} (exec : task -> V).

(** Callers and workers. *)
Inductive serve_step : Sys V -> Sys V -> Prop :=
  | call t s :
      clients s !! t = None -> serve_step s (set_client t Calling s)
  | submit_not_running t s :
      clients s !! t = Some Calling -> running (pool s) = false ->
      serve_step s (set_client t Rejected s)
  | submit_begin t s :
      clients s !! t = Some Calling -> running (pool s) = true ->
      serve_step s (set_client t (Sending (taskQueue (pool s))) s)
  | submit_send t ch c s :
      clients s !! t = Some (Sending ch) -> chans s !! ch = Some c -> has_room c = true ->
      serve_step s (set_client t Waiting (set_buf ch (ch_buf c ++ [t]) s))
  | submit_panic t ch c s :
      clients s !! t = Some (Sending ch) -> chans s !! ch = Some c -> ch_closed c = true ->
      serve_step s (set_client t SendPanicked s)
  | submit_timeout t ch s :
      clients s !! t = Some (Sending ch) -> serve_step s (set_client t Rejected s)
  | execute_directly t s :
      clients s !! t = Some Rejected ->
      serve_step s (set_client t (Returned (Some (exec t))) (log_exec t s))
  | receive_result t r s :
      clients s !! t = Some Waiting -> results s !! t = Some r ->
      serve_step s (set_client t (Returned r) (set_results (delete t (results s)) s))
  | worker_select ws1 ws2 s :
      workers s = ws1 ++ Looping :: ws2 ->
      serve_step s (set_workers (ws1 ++ Selecting (p_ctx (pool s)) (taskQueue (pool s)) :: ws2) s)
  | worker_cancelled ctx ch ws1 ws2 s :
      workers s = ws1 ++ Selecting ctx ch :: ws2 -> ctxs s !! ctx = Some true ->
      serve_step s (set_workers (ws1 ++ ws2) s)
  | worker_queue_closed ctx ch c ws1 ws2 s :
      workers s = ws1 ++ Selecting ctx ch :: ws2 -> chans s !! ch = Some c ->
      ch_closed c = true -> ch_buf c = [] ->
      serve_step s (set_workers (ws1 ++ ws2) s)
  | worker_take ctx ch c t b ws1 ws2 s :
      workers s = ws1 ++ Selecting ctx ch :: ws2 -> chans s !! ch = Some c -> ch_buf c = t :: b ->
      serve_step s (upd_pool (add_active 1)
        (log_exec t (set_workers (ws1 ++ Executing t :: ws2) (set_buf ch b s))))
  | worker_finish t ws1 ws2 s :
      workers s = ws1 ++ Executing t :: ws2 ->
      serve_step s (upd_pool (add_active (-1))
        (offer t (Some (exec t)) (set_workers (ws1 ++ Looping :: ws2) s))).

(** [Stop], one step at a time; [None] when it has returned. *)
Inductive stop_step : stop_pc -> Sys V -> option stop_pc -> Sys V -> Prop :=
  | stop_not_running s : running (pool s) = false -> stop_step StopCAS s None s
  | stop_cas s : running (pool s) = true -> stop_step StopCAS s (Some StopCancel) (upd_pool (set_running false) s)
  | stop_cancel s : stop_step StopCancel s (Some StopClose) (cancel_ctx (p_ctx (pool s)) s)
  | stop_close s : no_sender s -> stop_step StopClose s (Some StopWait) (close_chan (taskQueue (pool s)) s)
  | stop_wait s : workers s = [] -> stop_step StopWait s None s.

(** The number of workers [Resize] settles on. *)
Definition resize_count (n : Z) : Z := if n <=? 0 then 1 else n.

(** One step of a manager; [None] when it has returned. *)
Inductive manager_step : manager -> Sys V -> option manager -> Sys V -> Prop :=
  | m_start s : manager_step Starting s None (Start s)
  | m_stop pc s pc' s' :
      stop_step pc s pc' s' -> manager_step (Stopping pc) s (Stopping <$> pc') s'
  | m_lock n s :
      resizeHeld (pool s) = false ->
      manager_step (ResizeLock n) s
        (Some (if maxWorkers (pool s) =? resize_count n then ResizeUnlock else ResizeLoad (resize_count n)))
        (upd_pool (set_resizeHeld true) s)
  | m_load n s :
      manager_step (ResizeLoad n) s
        (Some (if running (pool s) then ResizeStop n (taskQueue (pool s)) StopCAS
               else ResizeClose n (taskQueue (pool s)))) s
  | m_resize_stop n old pc s pc' s' :
      stop_step pc s pc' s' ->
      manager_step (ResizeStop n old pc) s
        (Some (match pc' with Some pc => ResizeStop n old pc | None => ResizeDrain n old true [] end)) s'
  | m_close n old s :
      manager_step (ResizeClose n old) s (Some (ResizeDrain n old false [])) (close_chan old s)
  | m_drain n old was pending t b c s :
      chans s !! old = Some c -> ch_buf c = t :: b ->
      manager_step (ResizeDrain n old was pending) s
        (Some (ResizeDrain n old was (pending ++ [t]))) (set_buf old b s)
  | m_drained n old was pending c s :
      chans s !! old = Some c -> ch_buf c = [] -> ch_closed c = true ->
      manager_step (ResizeDrain n old was pending) s (Some (ResizeSwap n was pending)) s
  | m_swap n was pending s :
      manager_step (ResizeSwap n was pending) s
        (Some (if was then ResizeStart pending else ResizeNotify pending)) (swap_queue n s)
  | m_restart pending s : manager_step (ResizeStart pending) s (Some (ResizeRequeue pending)) (Start s)
  | m_requeue t pending c s :
      chans s !! taskQueue (pool s) = Some c -> has_room c = true ->
      manager_step (ResizeRequeue (t :: pending)) s (Some (ResizeRequeue pending))
        (set_buf (taskQueue (pool s)) (ch_buf c ++ [t]) s)
  | m_requeue_full t pending c s :
      chans s !! taskQueue (pool s) = Some c -> ch_closed c = false -> has_room c = false ->
      manager_step (ResizeRequeue (t :: pending)) s (Some (ResizeRequeue pending)) (offer t None s)
  | m_requeue_panic t pending c s :
      chans s !! taskQueue (pool s) = Some c -> ch_closed c = true ->
      manager_step (ResizeRequeue (t :: pending)) s (Some (ResizePanicked (t :: pending)))
        (upd_pool (set_resizeHeld false) s)
  | m_requeue_done s : manager_step (ResizeRequeue []) s (Some ResizeUnlock) s
  | m_notify t pending s :
      manager_step (ResizeNotify (t :: pending)) s (Some (ResizeNotify pending)) (offer t None s)
  | m_notify_done s : manager_step (ResizeNotify []) s (Some ResizeUnlock) s
  | m_unlock s : manager_step ResizeUnlock s None (upd_pool (set_resizeHeld false) s).

(** The calls of [Stop], [Start] and [Resize]. *)
Definition manager_call (m : manager) : Prop :=
  m = Stopping StopCAS \/ m = Starting \/ exists n, m = ResizeLock n.

Inductive step : Sys V -> Sys V -> Prop :=
  | step_serve s s' : serve_step s s' -> step s s'
  | step_manager_call m s : manager_call m -> step s (set_managers (m :: managers s) s)
  | step_manager m m' ms1 ms2 s s' :
      managers s = ms1 ++ m :: ms2 -> manager_step m s m' s' ->
      step s (set_managers (ms1 ++ option_list m' ++ ms2) s').
End Steps.

(** ** Specification: a ledger of tasks *)

(** Where every task is: [l_held] are the tasks accepted and not begun, in no
    particular order, [l_executing] those being executed. *)
Record ledger (V : Type) := mkLedger {
  l_clients : gmap task (client V);
  l_results : gmap task (option V);
  l_held : list task;
  l_executing : list task;
  l_execs : list task
}.
Arguments mkLedger {V}.
Arguments l_clients {V}.
Arguments l_results {V}.
Arguments l_held {V}.
Arguments l_executing {V}.
Arguments l_execs {V}.

Section Ledger.
Context {V : Type} (exec : task -> V).
#[local] Abbreviation ledger := (ledger V).

(** A call whose task has not been handed over. *)
Definition unsubmitted (c : option (client V)) : Prop :=
  match c with None | Some Calling | Some (Sending _) => True | _ => False end.
Definition not_waiting (c : client V) : Prop :=
  match c with Calling | Sending _ | Rejected | SendPanicked => True | _ => False end.

Inductive ledger_step : ledger -> ledger -> Prop :=
  | l_same cs rs h h' e e' x :
      h ≡ₚ h' -> e ≡ₚ e' -> ledger_step (mkLedger cs rs h e x) (mkLedger cs rs h' e' x)
  | l_call t c cs rs h e x :
      unsubmitted (cs !! t) -> not_waiting c ->
      ledger_step (mkLedger cs rs h e x) (mkLedger (<[t := c]> cs) rs h e x)
  | l_accept t ch cs rs h h' e x :
      cs !! t = Some (Sending ch) -> h' ≡ₚ t :: h ->
      ledger_step (mkLedger cs rs h e x) (mkLedger (<[t := Waiting]> cs) rs h' e x)
  | l_direct t cs rs h e x :
      cs !! t = Some Rejected ->
      ledger_step (mkLedger cs rs h e x) (mkLedger (<[t := Returned (Some (exec t))]> cs) rs h e (x ++ [t]))
  | l_take t cs rs h h' e e' x :
      h ≡ₚ t :: h' -> e' ≡ₚ t :: e ->
      ledger_step (mkLedger cs rs h e x) (mkLedger cs rs h' e' (x ++ [t]))
  | l_finish t cs rs h e e' x :
      e ≡ₚ t :: e' -> rs !! t = None ->
      ledger_step (mkLedger cs rs h e x) (mkLedger cs (<[t := Some (exec t)]> rs) h e' x)
  | l_drop t cs rs h h' e x :
      h ≡ₚ t :: h' -> rs !! t = None ->
      ledger_step (mkLedger cs rs h e x) (mkLedger cs (<[t := None]> rs) h' e x)
  | l_receive t r cs rs h e x :
      cs !! t = Some Waiting -> rs !! t = Some r ->
      ledger_step (mkLedger cs rs h e x) (mkLedger (<[t := Returned r]> cs) (delete t rs) h e x).

(** Every task is in one place, begun at most once, and answered with its own
    result. *)
Record ledger_inv (l : ledger) : Prop := {
  li_nodup : NoDup (l_held l ++ l_executing l);
  li_token t : t ∈ l_held l ++ l_executing l -> l_clients l !! t = Some Waiting /\ l_results l !! t = None;
  li_result t r : l_results l !! t = Some r -> l_clients l !! t = Some Waiting;
  li_waiting t : l_clients l !! t = Some Waiting ->
    t ∈ l_held l ++ l_executing l \/ is_Some (l_results l !! t);
  li_execs : NoDup (l_execs l);
  li_executed t : t ∈ l_execs l <->
    t ∈ l_executing l \/ l_results l !! t = Some (Some (exec t)) \/
    l_clients l !! t = Some (Returned (Some (exec t)));
  li_value t v : l_results l !! t = Some (Some v) \/ l_clients l !! t = Some (Returned (Some v)) -> v = exec t
}.

(** What a caller that has returned may rely on. *)
Definition answered_right (l : ledger) : Prop :=
  NoDup (l_execs l) /\
  forall t r, l_clients l !! t = Some (Returned r) ->
    (r = Some (exec t) /\ t ∈ l_execs l) \/ (r = None /\ t ∉ l_execs l).
End Ledger.

(** ** The ledger of a pool *)

Definition pending_of (m : manager) : list task :=
  match m with
  | ResizeDrain _ _ _ p | ResizeSwap _ _ p | ResizeStart p | ResizeRequeue p
  | ResizeNotify p | ResizePanicked p => p
  | _ => []
  end.

Definition executing_of (w : worker) : list task := match w with Executing t => [t] | _ => [] end.

Definition ledger_of {V} (s : Sys V) : ledger V :=
  mkLedger (clients s) (results s)
    ((chans s ≫= ch_buf) ++ (managers s ≫= pending_of)) (workers s ≫= executing_of) (execs s).

(** ** Lemmas: the ledger *)

Section LedgerFacts.
Context {V : Type} (exec : task -> V).
#[local] Abbreviation ledger_inv := (ledger_inv (V := V) exec).

Lemma ledger_inv_same cs rs h h' e e' x :
  h ≡ₚ h' -> e ≡ₚ e' -> ledger_inv (mkLedger cs rs h e x) -> ledger_inv (mkLedger cs rs h' e' x).
Proof.
  intros Hh He [Hn Ht Hr Hw Hx Hd Hv]. constructor; simpl in *; try done.
  - by rewrite <- Hh, <- He.
  - intros t. rewrite <- Hh, <- He. apply Ht.
  - intros t. rewrite <- Hh, <- He. apply Hw.
  - intros t. rewrite <- He. apply Hd.
Qed.

(** A task with no token has no part in the other clauses. *)
Lemma unsubmitted_free l t :
  ledger_inv l -> unsubmitted (l_clients l !! t) \/ l_clients l !! t = Some Rejected ->
  t ∉ l_held l ++ l_executing l /\ l_results l !! t = None /\ t ∉ l_execs l.
Proof.
  intros [Hn Ht Hr Hw Hx Hd Hv] Hu.
  assert (l_clients l !! t <> Some Waiting) as Hnw by (destruct Hu as [Hu|Hu]; intros E; by rewrite E in Hu).
  assert (forall v, l_clients l !! t <> Some (Returned v)) as Hnr.
  { intros v E. destruct Hu as [Hu|Hu]; by rewrite E in Hu. }
  assert (t ∉ l_held l ++ l_executing l) as Htok by (intros Hin; by apply Ht in Hin as [? _]).
  assert (l_results l !! t = None) as Hres by (apply eq_None_not_Some; intros [r E]; by apply Hr in E).
  split; [done|]. split; [done|]. rewrite Hd, Hres. intros [?|[?|?]]; [set_solver|done|by eapply Hnr].
Qed.

Lemma ledger_inv_call t c cs rs h e x :
  unsubmitted (cs !! t) -> not_waiting c ->
  ledger_inv (mkLedger cs rs h e x) -> ledger_inv (mkLedger (<[t := c]> cs) rs h e x).
Proof.
  intros Hu Hc Hi. destruct (unsubmitted_free _ t Hi (or_introl Hu)) as (Htok & Hres & Hex).
  destruct Hi as [Hn Ht Hr Hw Hx Hd Hv]. constructor; simpl in *; try done.
  - intros t' Hin. rewrite lookup_insert_ne; [by apply Ht|]. by intros <-.
  - intros t' r Hr'. rewrite lookup_insert_ne; [by eapply Hr|]. intros <-. by rewrite Hres in Hr'.
  - intros t' [[<- ->]|[Hne Hc']]%lookup_insert_Some; [done|by apply Hw].
  - intros t'. rewrite Hd. destruct (decide (t = t')) as [<-|]; [|by rewrite lookup_insert_ne].
    rewrite lookup_insert_eq. split.
    + intros Hin%Hd. done.
    + intros [?|[?|[= ->]]]; [set_solver|by rewrite Hres in *|done].
  - intros t' v [Hv'|[[<- ->]|[_ Hv']]%lookup_insert_Some]; [by apply Hv; left|done|by apply Hv; right].
Qed.

Lemma ledger_inv_accept t cs rs h h' e x :
  unsubmitted (cs !! t) -> h' ≡ₚ t :: h ->
  ledger_inv (mkLedger cs rs h e x) -> ledger_inv (mkLedger (<[t := Waiting]> cs) rs h' e x).
Proof.
  intros Hu Hh Hi. destruct (unsubmitted_free _ t Hi (or_introl Hu)) as (Htok & Hres & Hex).
  destruct Hi as [Hn Ht Hr Hw Hx Hd Hv]. constructor; simpl in *; try done.
  - rewrite Hh. simpl. by constructor.
  - intros t'. rewrite Hh. simpl. intros [->|Hin]%elem_of_cons; [by rewrite lookup_insert_eq|].
    rewrite lookup_insert_ne; [by apply Ht|]. by intros <-.
  - intros t' r Hr'. rewrite lookup_insert_ne; [by eapply Hr|]. intros <-. by rewrite Hres in Hr'.
  - intros t'. rewrite Hh. simpl. intros [[<- _]|[Hne Hc']]%lookup_insert_Some; [left; left|].
    apply Hw in Hc' as [?|?]; [left; by right|by right].
  - intros t'. rewrite Hd. destruct (decide (t = t')) as [<-|]; [|by rewrite lookup_insert_ne].
    rewrite lookup_insert_eq. split.
    + intros Hin%Hd. done.
    + intros [?|[?|?]]; [set_solver|by rewrite Hres in *|done].
  - intros t' v [Hv'|[[<- ?]|[_ Hv']]%lookup_insert_Some]; [by apply Hv; left|done|by apply Hv; right].
Qed.

Lemma ledger_inv_direct t cs rs h e x :
  cs !! t = Some Rejected -> ledger_inv (mkLedger cs rs h e x) ->
  ledger_inv (mkLedger (<[t := Returned (Some (exec t))]> cs) rs h e (x ++ [t])).
Proof.
  intros Hc Hi. destruct (unsubmitted_free _ t Hi (or_intror Hc)) as (Htok & Hres & Hex).
  destruct Hi as [Hn Ht Hr Hw Hx Hd Hv]. constructor; simpl in *; try done.
  - intros t' Hin. rewrite lookup_insert_ne; [by apply Ht|]. by intros <-.
  - intros t' r Hr'. rewrite lookup_insert_ne; [by eapply Hr|]. intros <-. by rewrite Hres in Hr'.
  - intros t' [[<- ?]|[Hne Hc']]%lookup_insert_Some; [done|by apply Hw].
  - apply NoDup_app. split; [done|]. split; [set_solver|apply NoDup_singleton].
  - intros t'. rewrite elem_of_app, list_elem_of_singleton, Hd.
    destruct (decide (t = t')) as [<-|]; [rewrite lookup_insert_eq|rewrite lookup_insert_ne by done]; naive_solver.
  - intros t' v [Hv'|[[<- [= ->]]|[_ Hv']]%lookup_insert_Some]; [by apply Hv; left|done|by apply Hv; right].
Qed.

Lemma ledger_inv_take t cs rs h h' e e' x :
  h ≡ₚ t :: h' -> e' ≡ₚ t :: e -> ledger_inv (mkLedger cs rs h e x) ->
  ledger_inv (mkLedger cs rs h' e' (x ++ [t])).
Proof.
  intros Hh He [Hn Ht Hr Hw Hx Hd Hv]. simpl in *.
  assert (h' ++ e' ≡ₚ h ++ e) as Hp by (rewrite Hh, He; simpl; by rewrite Permutation_middle).
  destruct (Ht t) as [Hc Hres]; [rewrite Hh; simpl; left|].
  assert (t ∉ x) as Hex.
  { rewrite Hd, Hc, Hres. intros [Hin|[?|?]]; [|done..]. rewrite Hh in Hn. simpl in Hn.
    apply NoDup_cons in Hn as [Hn _]. set_solver. }
  constructor; simpl; try done.
  - by rewrite Hp.
  - intros t'. rewrite Hp. apply Ht.
  - intros t'. rewrite Hp. apply Hw.
  - apply NoDup_app. split; [done|]. split; [set_solver|apply NoDup_singleton].
  - intros t'. rewrite elem_of_app, list_elem_of_singleton, Hd, He, elem_of_cons. tauto.
Qed.

Lemma ledger_inv_finish t cs rs h e e' x :
  e ≡ₚ t :: e' -> ledger_inv (mkLedger cs rs h e x) ->
  ledger_inv (mkLedger cs (<[t := Some (exec t)]> rs) h e' x).
Proof.
  intros He [Hn Ht Hr Hw Hx Hd Hv]. simpl in *.
  assert (h ++ e ≡ₚ t :: (h ++ e')) as Hp by (by rewrite He, Permutation_middle).
  destruct (Ht t) as [Hc Hres]; [rewrite Hp; left|].
  rewrite Hp in Hn. apply NoDup_cons in Hn as [Hnt Hn].
  constructor; simpl; try done.
  - intros t' Hin. rewrite lookup_insert_ne by (by intros <-). apply Ht. rewrite Hp. by right.
  - intros t' r [[<- _]|[_ Hr']]%lookup_insert_Some; [done|by eapply Hr].
  - intros t' Hc'. destruct (decide (t = t')) as [<-|Hne]; [right; rewrite lookup_insert_eq; by eexists|].
    rewrite lookup_insert_ne by done. apply Hw in Hc'. rewrite Hp in Hc'. set_solver.
  - intros t'. rewrite Hd, He, elem_of_cons.
    destruct (decide (t = t')) as [<-|]; [rewrite lookup_insert_eq|rewrite lookup_insert_ne by done]; naive_solver.
  - intros t' v [[[<- [= ->]]|[_ Hv']]%lookup_insert_Some|Hv']; [done|by apply Hv; left|by apply Hv; right].
Qed.

Lemma ledger_inv_drop t cs rs h h' e x :
  h ≡ₚ t :: h' -> ledger_inv (mkLedger cs rs h e x) -> ledger_inv (mkLedger cs (<[t := None]> rs) h' e x).
Proof.
  intros Hh [Hn Ht Hr Hw Hx Hd Hv]. simpl in *.
  assert (h ++ e ≡ₚ t :: (h' ++ e)) as Hp by (by rewrite Hh).
  destruct (Ht t) as [Hc Hres]; [rewrite Hp; left|].
  rewrite Hp in Hn. apply NoDup_cons in Hn as [Hnt Hn].
  constructor; simpl; try done.
  - intros t' Hin. rewrite lookup_insert_ne by (by intros <-). apply Ht. rewrite Hp. by right.
  - intros t' r [[<- _]|[_ Hr']]%lookup_insert_Some; [done|by eapply Hr].
  - intros t' Hc'. destruct (decide (t = t')) as [<-|Hne]; [right; rewrite lookup_insert_eq; by eexists|].
    rewrite lookup_insert_ne by done. apply Hw in Hc'. rewrite Hp in Hc'. set_solver.
  - intros t'. rewrite Hd.
    destruct (decide (t = t')) as [<-|]; [rewrite lookup_insert_eq, Hres|rewrite lookup_insert_ne by done]; naive_solver.
  - intros t' v [[[<- ?]|[_ Hv']]%lookup_insert_Some|Hv']; [done|by apply Hv; left|by apply Hv; right].
Qed.

Lemma ledger_inv_receive t r cs rs h e x :
  cs !! t = Some Waiting -> rs !! t = Some r -> ledger_inv (mkLedger cs rs h e x) ->
  ledger_inv (mkLedger (<[t := Returned r]> cs) (delete t rs) h e x).
Proof.
  intros Hc Hrs [Hn Ht Hr Hw Hx Hd Hv]. simpl in *.
  assert (t ∉ h ++ e) as Htok by (intros Hin; apply Ht in Hin as [_ ?]; congruence).
  constructor; simpl; try done.
  - intros t' Hin. rewrite lookup_insert_ne, lookup_delete_ne by (by intros <-). by apply Ht.
  - intros t' r' [Hne Hr']%lookup_delete_Some. rewrite lookup_insert_ne by done. by eapply Hr.
  - intros t' [[<- ?]|[Hne Hc']]%lookup_insert_Some; [done|]. rewrite lookup_delete_ne by done. by apply Hw.
  - intros t'. rewrite Hd. destruct (decide (t = t')) as [<-|].
    + rewrite lookup_insert_eq, lookup_delete_eq, Hrs, Hc. naive_solver.
    + by rewrite lookup_insert_ne, lookup_delete_ne.
  - intros t' v [[_ Hv']%lookup_delete_Some|[[<- [= ->]]|[_ Hv']]%lookup_insert_Some];
      [by apply Hv; left|by apply Hv; left|by apply Hv; right].
Qed.

Lemma ledger_step_inv l l' : ledger_step exec l l' -> ledger_inv l -> ledger_inv l'.
Proof.
  destruct 1 as [| |t ch cs rs h h' e x Hc Hh| | | | |].
  - by apply ledger_inv_same.
  - by apply ledger_inv_call.
  - apply ledger_inv_accept; [by rewrite Hc|done].
  - by apply ledger_inv_direct.
  - by apply ledger_inv_take.
  - by apply ledger_inv_finish.
  - by apply ledger_inv_drop.
  - by apply ledger_inv_receive.
Qed.

Lemma ledger_inv_empty : ledger_inv (mkLedger ∅ ∅ [] [] []).
Proof.
  constructor; simpl; try constructor; try set_solver; intros *; rewrite !lookup_empty; try done.
Qed.

Lemma ledger_inv_answered l : ledger_inv l -> answered_right exec l.
Proof.
  intros [Hn Ht Hr Hw Hx Hd Hv]. split; [done|]. intros t [v|] Hc.
  - left. pose proof (Hv t v (or_intror Hc)) as ->. split; [done|]. rewrite Hd. by right; right.
  - right. split; [done|]. rewrite Hd, Hc. intros [Hin|[Hrs|?]]; [|by apply Hr in Hrs; congruence|done].
    destruct (Ht t) as [? _]; [set_solver|congruence].
Qed.
End LedgerFacts.

(** ** Lemmas: the pool keeps the ledger *)

Lemma bind_alter {A B} (f : A -> list B) (g : A -> A) (l : list A) k x :
  l !! k = Some x -> (alter g k l ≫= f) ≡ₚ f (g x) ++ (delete k l ≫= f).
Proof.
  revert k. induction l as [|y l IH]; intros [|k] Hk; simplify_eq/=; [done|].
  rewrite (IH k Hk). by rewrite !(assoc_L (++)), (Permutation_app_comm (f y)).
Qed.

Lemma bind_split {A B} (f : A -> list B) (l : list A) k x :
  l !! k = Some x -> (l ≫= f) ≡ₚ f x ++ (delete k l ≫= f).
Proof. intros Hk. rewrite <- (bind_alter f id l k x Hk). f_equiv. by rewrite list_alter_id. Qed.

Lemma bind_alter_same {A B} (f : A -> list B) (g : A -> A) (l : list A) k :
  (forall x, f (g x) = f x) -> (alter g k l ≫= f) = (l ≫= f).
Proof.
  intros Hg. revert k. induction l as [|y l IH]; intros [|k]; simpl; [done..|by rewrite Hg|].
  f_equal. apply IH.
Qed.

Lemma bind_middle {A B} (f : A -> list B) (l1 l2 : list A) x :
  ((l1 ++ x :: l2) ≫= f) ≡ₚ f x ++ ((l1 ++ l2) ≫= f).
Proof. rewrite !bind_app. simpl. by rewrite !(assoc_L (++)), (Permutation_app_comm (f x)). Qed.

Section Simulation.
Context {V : Type} (exec : task -> V).
#[local] Abbreviation Sys := (Sys V).
#[local] Abbreviation ledger_step := (ledger_step exec).
#[local] Abbreviation ledger_inv := (ledger_inv exec).

Lemma set_buf_held ch c b (s : Sys) : chans s !! ch = Some c ->
  (chans (set_buf ch b s) ≫= ch_buf) ≡ₚ b ++ (delete ch (chans s) ≫= ch_buf) /\
  (chans s ≫= ch_buf) ≡ₚ ch_buf c ++ (delete ch (chans s) ≫= ch_buf).
Proof. intros Hc. split; [exact (bind_alter ch_buf _ _ _ _ Hc)|by apply bind_split]. Qed.

(** Rewrites the multisets of the ledger of an updated system. *)
Ltac ledger_simpl := rewrite ?bind_middle, ?bind_app; simpl; rewrite ?app_nil_r, ?app_nil_l.

Lemma serve_simulates s s' :
  serve_step exec s s' -> ledger_inv (ledger_of s) -> ledger_step (ledger_of s) (ledger_of s').
Proof.
  intros Hst Hi. destruct Hst as [t s Hc|t s Hc Hr|t s Hc Hr|t ch c s Hc Hch Hroom|t ch c s Hc Hch Hcl|t ch s Hc
    |t s Hc|t r s Hc Hr|ws1 ws2 s Hw|ctx ch ws1 ws2 s Hw Hx|ctx ch c ws1 ws2 s Hw Hch Hcl Hb
    |ctx ch c t b ws1 ws2 s Hw Hch Hb|t ws1 ws2 s Hw]; unfold ledger_of.
  - apply l_call; [by rewrite Hc|done].
  - apply l_call; [by rewrite Hc|done].
  - apply l_call; [by rewrite Hc|done].
  - destruct (set_buf_held ch c (ch_buf c ++ [t]) s Hch) as [H1 H2].
    eapply l_accept; [done|]. cbn [chans set_client managers]. rewrite H1, H2.
    change (managers (set_buf _ _ _)) with (managers s). solve_Permutation.
  - apply l_call; [by rewrite Hc|done].
  - apply l_call; [by rewrite Hc|done].
  - by apply l_direct.
  - by apply l_receive.
  - apply l_same; [done|]. rewrite Hw. cbn [workers set_workers]. by rewrite !bind_middle.
  - apply l_same; [done|]. rewrite Hw. cbn [workers set_workers]. by rewrite !bind_middle.
  - apply l_same; [done|]. rewrite Hw. cbn [workers set_workers]. by rewrite !bind_middle.
  - destruct (set_buf_held ch c b s Hch) as [H1 H2]. rewrite Hb in H2. eapply l_take.
    + cbn [chans upd_pool log_exec set_workers managers]. rewrite H1, H2.
      change (managers (set_buf _ _ _)) with (managers s). done.
    + rewrite Hw. cbn [workers upd_pool log_exec set_workers]. by rewrite !bind_middle.
  - assert (results s !! t = None) as Hn.
    { apply (li_token _ _ Hi t). simpl. rewrite Hw, bind_middle. set_solver. }
    unfold offer. cbn [results set_workers]. rewrite Hn. apply l_finish; [|done].
    rewrite Hw. cbn. by rewrite !bind_middle.
Qed.

Lemma stop_keeps_ledger pc (s : Sys) pc' s' :
  stop_step pc s pc' s' ->
  clients s' = clients s /\ results s' = results s /\ workers s' = workers s /\ execs s' = execs s /\
  managers s' = managers s /\ (chans s' ≫= ch_buf) = (chans s ≫= ch_buf).
Proof. destruct 1; simpl; repeat split; try done. by apply bind_alter_same. Qed.

Lemma Start_ledger (s : Sys) :
  ledger_of (Start s) = ledger_of s /\ managers (Start s) = managers s.
Proof.
  unfold Start, ledger_of. destruct (running (pool s)); [done|]. simpl. split; [|done]. f_equal.
  rewrite bind_app. rewrite <- (app_nil_r (workers s ≫= executing_of)) at 2. f_equal.
  induction (Z.to_nat (maxWorkers (pool s))); [done|]. simpl. done.
Qed.

Lemma Start_chans (s : Sys) : chans (Start s) = chans s.
Proof. unfold Start. by destruct (running (pool s)). Qed.

(** A manager step that moves tasks between the queues and the manager. *)
Lemma managers_same m m' ms1 ms2 (s s' : Sys) :
  managers s = ms1 ++ m :: ms2 ->
  clients s' = clients s -> results s' = results s -> execs s' = execs s ->
  (workers s' ≫= executing_of) = (workers s ≫= executing_of) ->
  (chans s ≫= ch_buf) ++ pending_of m ≡ₚ (chans s' ≫= ch_buf) ++ from_option pending_of [] m' ->
  ledger_step (ledger_of s) (ledger_of (set_managers (ms1 ++ option_list m' ++ ms2) s')).
Proof.
  intros Hm Ec Er Ex Ew Hp. unfold ledger_of; cbn. rewrite Ec, Er, Ex, Ew. apply l_same; [|done].
  rewrite Hm, bind_middle, (assoc_L (++)), Hp, <- (assoc_L (++)). f_equiv.
  rewrite !bind_app. destruct m' as [m'|]; [|done]. simpl. rewrite app_nil_r. solve_Permutation.
Qed.

(** A manager that gives up a task answers nil. *)
Lemma managers_drop m m' t p ms1 ms2 (s : Sys) :
  managers s = ms1 ++ m :: ms2 -> pending_of m = t :: p -> pending_of m' = p -> ledger_inv (ledger_of s) ->
  ledger_step (ledger_of s) (ledger_of (set_managers (ms1 ++ option_list (Some m') ++ ms2) (offer t None s))).
Proof.
  intros Hm Hp Hp' Hi. assert (results s !! t = None) as Hn.
  { apply (li_token _ _ Hi t). simpl. rewrite Hm, bind_middle, Hp. set_solver. }
  unfold offer. rewrite Hn. apply l_drop; [|done]. cbn. rewrite Hm, !bind_middle, Hp, Hp'.
  simpl. by rewrite <- Permutation_middle.
Qed.

Lemma manager_simulates m m' ms1 ms2 s s' :
  managers s = ms1 ++ m :: ms2 -> manager_step m s m' s' -> ledger_inv (ledger_of s) ->
  ledger_step (ledger_of s) (ledger_of (set_managers (ms1 ++ option_list m' ++ ms2) s')).
Proof.
  intros Hm Hst Hi. destruct Hst as [s|pc s pc' s' Hst|n s Hh|n s|n old pc s pc' s' Hst|n old s|n old was p t b c s Hc Hb
    |n old was p c s Hc Hb Hcl|n was p s|p s|t p c s Hc Hr|t p c s Hc Ho Hr|t p c s Hc Hcl|s|t p s|s|s].
  1,10: destruct (Start_ledger s) as [E _]; injection E as E1 E2 E3 E4 E5;
    apply (managers_same _ _ _ _ _ _ Hm); try done;
    by rewrite (Start_chans s).
  1,4: destruct (stop_keeps_ledger _ _ _ _ Hst) as (E1 & E2 & E3 & E4 & _ & E5);
    apply (managers_same _ _ _ _ _ _ Hm); rewrite ?E3, ?E5; try done; by destruct pc'.
  - apply (managers_same _ _ _ _ _ _ Hm); try done. by destruct (_ =? _).
  - apply (managers_same _ _ _ _ _ _ Hm); try done. by destruct (running (pool s)).
  - apply (managers_same _ _ _ _ _ _ Hm); try done. cbn. by rewrite bind_alter_same.
  - destruct (set_buf_held old c b s Hc) as [H1 H2]. apply (managers_same _ _ _ _ _ _ Hm); try done.
    rewrite H1, H2, Hb. simpl. solve_Permutation.
  - by apply (managers_same _ _ _ _ _ _ Hm).
  - apply (managers_same _ _ _ _ _ _ Hm); try done. cbn. rewrite bind_app. simpl. rewrite !app_nil_r.
    by destruct was.
  - destruct (set_buf_held _ c (ch_buf c ++ [t]) s Hc) as [H1 H2]. apply (managers_same _ _ _ _ _ _ Hm); try done.
    rewrite H1, H2. simpl. solve_Permutation.
  - by eapply managers_drop.
  - by apply (managers_same _ _ _ _ _ _ Hm).
  - by apply (managers_same _ _ _ _ _ _ Hm).
  - by eapply managers_drop.
  - by apply (managers_same _ _ _ _ _ _ Hm).
  - by apply (managers_same _ _ _ _ _ _ Hm).
Qed.

Lemma step_simulates s s' :
  step exec s s' -> ledger_inv (ledger_of s) -> ledger_step (ledger_of s) (ledger_of s').
Proof.
  destruct 1 as [s s' Hst|m s Hm|m m' ms1 ms2 s s' Hm Hst]; intros Hi.
  - by apply serve_simulates.
  - apply l_same; [|done]. cbn.
    assert (pending_of m = []) as -> by (by destruct Hm as [->|[->|[n ->]]]). done.
  - by eapply manager_simulates.
Qed.

Lemma reachable_ledger n s : rtc (step exec) (NewWorkerPool n) s -> ledger_inv (ledger_of s).
Proof.
  intros Hr. assert (ledger_inv (ledger_of (NewWorkerPool (V := V) n))) as Hi by apply ledger_inv_empty.
  revert Hi. induction Hr as [|s1 s2 s3 H1 H2 IH]; [done|]. intros Hi. apply IH.
  eapply ledger_step_inv; [|exact Hi]. by apply step_simulates.
Qed.
End Simulation.

(** ** Lemmas: calls are answered *)

Section Progress.
Context {V : Type} (exec : task -> V).
#[local] Abbreviation Sys := (Sys V).
#[local] Abbreviation client := (client V).

(** A step of callers and workers other than a new call. *)
Definition internal (s s' : Sys) : Prop := serve_step exec s s' /\ dom (clients s') = dom (clients s).

(** How far callers, tasks, workers and results are from done. *)
Definition client_weight (c : client) : nat :=
  match c with Calling => 7 | Sending _ => 6 | Waiting | Rejected => 1 | Returned _ | SendPanicked => 0 end%nat.
Definition worker_weight (w : worker) : nat :=
  match w with Looping => 2 | Selecting _ _ => 1 | Executing _ => 4 end%nat.

Definition clients_weight (m : gmap task client) : nat := map_fold (fun _ c n => client_weight c + n)%nat 0%nat m.
Definition workers_weight (ws : list worker) : nat := sum_list_with worker_weight ws.

Definition weight (s : Sys) : nat :=
  (clients_weight (clients s) + 4 * length (chans s ≫= ch_buf) + workers_weight (workers s) +
   size (results s))%nat.

Lemma clients_weight_insert m t c c' :
  m !! t = Some c -> (clients_weight (<[t := c']> m) + client_weight c = clients_weight m + client_weight c')%nat.
Proof.
  intros Hc. unfold clients_weight. rewrite <- (insert_id m t c Hc) at 2. rewrite <- !insert_delete_eq with (m := m).
  rewrite !map_fold_insert_L by (try apply lookup_delete_eq; intros; lia). lia.
Qed.

Lemma workers_weight_middle ws1 w ws2 :
  workers_weight (ws1 ++ w :: ws2) = (worker_weight w + workers_weight (ws1 ++ ws2))%nat.
Proof. unfold workers_weight. rewrite !sum_list_with_app. simpl. lia. Qed.

Lemma set_buf_length ch c b (s : Sys) : chans s !! ch = Some c ->
  (length (chans (set_buf ch b s) ≫= ch_buf) + length (ch_buf c) =
   length (chans s ≫= ch_buf) + length b)%nat.
Proof.
  intros Hc. destruct (set_buf_held ch c b s Hc) as [H1 H2].
  rewrite (Permutation_length H1), (Permutation_length H2), !length_app. lia.
Qed.

(** Every internal step brings the system nearer to rest. *)
Lemma internal_decreases s s' : internal s s' -> (weight s' < weight s)%nat.
Proof.
  intros [Hst Hd]. destruct Hst as [t s Hc|t s Hc Hr|t s Hc Hr|t ch c s Hc Hch Hroom|t ch c s Hc Hch Hcl|t ch s Hc
    |t s Hc|t r s Hc Hr|ws1 ws2 s Hw|ctx ch ws1 ws2 s Hw Hx|ctx ch c ws1 ws2 s Hw Hch Hcl Hb
    |ctx ch c t b ws1 ws2 s Hw Hch Hb|t ws1 ws2 s Hw]; unfold weight; simpl in *.
  - exfalso. apply not_elem_of_dom in Hc. rewrite <- Hd in Hc. set_solver.
  - pose proof (clients_weight_insert _ _ _ Rejected Hc) as E; simpl in E. lia.
  - pose proof (clients_weight_insert _ _ _ (Sending (taskQueue (pool s))) Hc) as E; simpl in E. lia.
  - pose proof (clients_weight_insert _ _ _ Waiting Hc) as E; simpl in E.
    pose proof (set_buf_length ch c (ch_buf c ++ [t]) s Hch) as El. rewrite length_app in El. simpl in El. lia.
  - pose proof (clients_weight_insert _ _ _ SendPanicked Hc) as E; simpl in E. lia.
  - pose proof (clients_weight_insert _ _ _ Rejected Hc) as E; simpl in E. lia.
  - pose proof (clients_weight_insert _ _ _ (Returned (Some (exec t))) Hc) as E; simpl in E. lia.
  - pose proof (clients_weight_insert _ _ _ (Returned r) Hc) as E; simpl in E.
    rewrite map_size_delete_Some by eauto. lia.
  - rewrite Hw, !workers_weight_middle. simpl. lia.
  - rewrite Hw, !workers_weight_middle. simpl. lia.
  - rewrite Hw, !workers_weight_middle. simpl. lia.
  - rewrite Hw, !workers_weight_middle. simpl.
    pose proof (set_buf_length ch c b s Hch) as El. rewrite Hb in El. simpl in El. lia.
  - unfold offer. cbn [results set_workers]. rewrite Hw. destruct (results s !! t) eqn:Er; simpl.
    + rewrite !workers_weight_middle. simpl. lia.
    + rewrite map_size_insert_None, !workers_weight_middle by done. simpl. lia.
Qed.

Lemma internal_terminates s : sn internal s.
Proof.
  remember (weight s) as n eqn:En. revert s En. induction (lt_wf n) as [n _ IH]; intros s ->.
  constructor. intros s' Hs'. eapply IH; [|done]. by apply internal_decreases.
Qed.

(** *** A pool that nobody stops or resizes *)

(** Tasks go through the one open queue, which the workers watch. *)
Record serving (s : Sys) : Prop := {
  sv_running : running (pool s) = true;
  sv_queue : taskQueue (pool s) = 0%nat /\ p_ctx (pool s) = 0%nat;
  sv_chan : exists b k, chans s = [mkChan b k false];
  sv_ctx : ctxs s = [false];
  sv_managers : managers s = [];
  sv_workers : workers s <> [];
  sv_watch ctx ch : Selecting ctx ch ∈ workers s -> ctx = 0%nat /\ ch = 0%nat;
  sv_sending t ch : clients s !! t = Some (Sending ch) -> ch = 0%nat;
  sv_sent t : clients s !! t <> Some SendPanicked;
  sv_result t : results s !! t <> Some None;
  sv_value t : clients s !! t <> Some (Returned None)
}.

Lemma serving_client s t c :
  serving s -> (forall ch, c = Sending ch -> ch = 0%nat) -> c <> SendPanicked -> c <> Returned None ->
  serving (set_client t c s).
Proof.
  intros [] Hs Hp Hr. constructor; simpl; try done.
  - intros t' ch [[_ ->]|[_ ?]]%lookup_insert_Some; eauto.
  - intros t' [[_ ->]|[_ ?]]%lookup_insert_Some; [done|by eapply sv_sent0].
  - intros t' [[_ ->]|[_ ?]]%lookup_insert_Some; [done|by eapply sv_value0].
Qed.

Lemma serving_workers s ws1 w ws2 w' :
  serving s -> workers s = ws1 ++ w :: ws2 -> (forall ctx ch, w' = Selecting ctx ch -> ctx = 0%nat /\ ch = 0%nat) ->
  serving (set_workers (ws1 ++ w' :: ws2) s).
Proof.
  intros [] Hw Hs. constructor; simpl; try done; [by destruct ws1|].
  intros ctx ch Hin. apply elem_of_app in Hin as [Hin|[E|Hin]%elem_of_cons].
  - apply sv_watch0. rewrite Hw. set_solver.
  - by apply Hs.
  - apply sv_watch0. rewrite Hw. set_solver.
Qed.

Lemma serving_buf s b : serving s -> serving (set_buf 0%nat b s).
Proof. intros []. constructor; simpl; try done. destruct sv_chan0 as (b0 & k & ->). simpl. eauto. Qed.

Lemma serving_results s r :
  serving s -> (forall t, r !! t <> Some None) -> serving (set_results r s).
Proof. intros [] Hr. by constructor. Qed.

Lemma serving_step s s' : serve_step exec s s' -> serving s -> serving s'.
Proof.
  intros Hst Hs. pose proof Hs as [Hrun [Hq Hx] (b0 & k0 & Hch) Hctx Hm Hw Hwatch Hsend Hsent Hres Hval].
  destruct Hst as [t s Hc|t s Hc Hr|t s Hc Hr|t ch c s Hc Hc' Hroom|t ch c s Hc Hc' Hcl|t ch s Hc
    |t s Hc|t r s Hc Hr|ws1 ws2 s Hw'|ctx ch ws1 ws2 s Hw' Hx'|ctx ch c ws1 ws2 s Hw' Hc' Hcl Hb
    |ctx ch c t b ws1 ws2 s Hw' Hc' Hb|t ws1 ws2 s Hw'].
  - by apply serving_client.
  - by apply serving_client.
  - apply serving_client; [done| |done|done]. by intros ch [= <-].
  - apply Hsend in Hc as ->. by apply serving_client; [apply serving_buf|..].
  - apply Hsend in Hc as ->. rewrite Hch in Hc'. injection Hc' as <-. done.
  - by apply serving_client.
  - apply serving_client; [|done..]. by destruct Hs.
  - apply serving_client; [|done|done|].
    + apply serving_results; [done|]. intros t' [_ E]%lookup_delete_Some. by eapply Hres.
    + intros [= ->]. by eapply Hres.
  - eapply serving_workers; [done..|]. rewrite Hq, Hx. by intros ?? [= <- <-].
  - destruct (Hwatch ctx ch) as [-> _]; [rewrite Hw'; set_solver|]. rewrite Hctx in Hx'. done.
  - destruct (Hwatch ctx ch) as [_ ->]; [rewrite Hw'; set_solver|]. rewrite Hch in Hc'. injection Hc' as <-. done.
  - destruct (Hwatch ctx ch) as [_ ->]; [rewrite Hw'; set_solver|].
    assert (serving (set_workers (ws1 ++ Executing t :: ws2) (set_buf 0%nat b s))) as [].
    { eapply serving_workers; [by apply serving_buf|exact Hw'|done]. }
    by constructor.
  - assert (serving (set_workers (ws1 ++ Looping :: ws2) s)) as Hs' by (by eapply serving_workers).
    unfold offer. destruct (results _ !! t) eqn:Er; [by destruct Hs'|].
    assert (serving (set_results (<[t:=Some (exec t)]> (results (set_workers (ws1 ++ Looping :: ws2) s)))
      (set_workers (ws1 ++ Looping :: ws2) s))) as [].
    { apply serving_results; [done|]. intros t' [[_ ?]|[_ ?]]%lookup_insert_Some; [done|by eapply Hres]. }
    by constructor.
Qed.
(** Some step is possible as long as a call is not answered. *)
Lemma internal_client t c c' s s' :
  clients s !! t = Some c -> serve_step exec s (set_client t c' s') -> clients s' = clients s ->
  red internal s.
Proof.
  intros Hc Hst E. eexists. split; [exact Hst|]. simpl. rewrite E. apply dom_insert_lookup_L. by eexists.
Qed.

Lemma worker_can_step s b : serving s -> chans s ≫= ch_buf = b -> b <> [] -> red internal s.
Proof.
  intros [_ _ (b0 & k & Hch) _ _ Hw Hwatch _ _ _ _] <-. rewrite Hch. simpl. rewrite app_nil_r. intros Hb.
  destruct (workers s) as [|w ws] eqn:Ew; [done|]. destruct w as [|ctx ch|t].
  - eexists. split; [by apply (worker_select exec [] ws)|done].
  - destruct (Hwatch ctx ch) as [-> ->]; [left|]. destruct b0 as [|t b0]; [done|].
    eexists. split; [apply (worker_take exec 0%nat 0%nat (mkChan (t :: b0) k false) t b0 [] ws s Ew); [by rewrite Hch|done]|done].
  - eexists. split; [by apply (worker_finish exec t [] ws)|]. unfold offer. by destruct (results _ !! _).
Qed.

Lemma finish_can_step s t : t ∈ (workers s ≫= executing_of) -> red internal s.
Proof.
  intros (w & Hin & Hw)%list_elem_of_bind. destruct w as [| |t']; [set_solver..|].
  apply list_elem_of_split in Hw as (ws1 & ws2 & Ew).
  eexists. split; [by eapply (worker_finish exec t' ws1 ws2)|]. unfold offer. by destruct (results _ !! _).
Qed.

Lemma at_rest s t c :
  serving s -> ledger_inv exec (ledger_of s) -> nf internal s -> clients s !! t = Some c ->
  c = Returned (Some (exec t)).
Proof.
  intros Hs Hl Hnf Hc. destruct c as [|ch| | |r|].
  - destruct Hnf. eapply internal_client; [done| |done]. by apply submit_begin, Hs.
  - destruct Hnf. eapply internal_client; [done| |done]. by eapply submit_timeout.
  - destruct Hnf. destruct (li_waiting _ _ Hl t Hc) as [Hin|[r Hr]].
    + simpl in Hin. rewrite (sv_managers _ Hs), app_nil_r in Hin. simpl in Hin.
      apply elem_of_app in Hin as [Hin|Hin]; [|by eapply finish_can_step].
      eapply worker_can_step; [done|reflexivity|]. intros E. rewrite E in Hin. set_solver.
    + eapply internal_client; [done| |]; [by apply receive_result|done].
  - destruct Hnf. eapply internal_client; [done| |]; [by apply execute_directly|done].
  - destruct r as [v|]; [|by apply (sv_value _ Hs) in Hc].
    by rewrite (li_value _ _ Hl t v (or_intror Hc)).
  - by apply (sv_sent _ Hs) in Hc.
Qed.

Lemma serve_reachable_ledger s s' :
  rtc (serve_step exec) s s' -> ledger_inv exec (ledger_of s) -> ledger_inv exec (ledger_of s').
Proof.
  induction 1 as [|s1 s2 s3 H1 H2 IH]; [done|]. intros Hi. apply IH.
  eapply ledger_step_inv; [|exact Hi]. by apply serve_simulates.
Qed.

Lemma serve_reachable_serving s s' : rtc (serve_step exec) s s' -> serving s -> serving s'.
Proof. induction 1 as [|s1 s2 s3 H1 H2 IH]; [done|]. intros Hi. by apply IH, (serving_step s1). Qed.

Lemma internal_serve s s' : rtc internal s s' -> rtc (serve_step exec) s s' /\ dom (clients s') = dom (clients s).
Proof.
  induction 1 as [|s1 s2 s3 [H1 E1] H2 [IH E2]]; [done|]. split; [by eapply rtc_l|congruence].
Qed.

Lemma started_serving n : 0 < n -> serving (Start (NewWorkerPool n)).
Proof.
  intros Hn. constructor; simpl; try done; try (by intros *; rewrite lookup_empty); [eauto| |].
  - destruct (Z.to_nat n) eqn:E; [lia|done].
  - intros ctx ch [? _]%elem_of_replicate. done.
Qed.

Lemma started_ledger n : ledger_inv exec (ledger_of (Start (NewWorkerPool n))).
Proof. rewrite (proj1 (Start_ledger _)). apply ledger_inv_empty. Qed.
End Progress.

(** ** Properties *)

Section Properties.
Context {V : Type} (exec : task -> V).

(** C16: the pool runs no task twice and answers no caller with another's
    result.  In every interleaving of callers, workers, [Start], [Stop] and
    [Resize], each step is one the ledger of tasks allows, every task has been
    begun at most once, and a caller that has returned either holds the result
    of its own task, begun once (by a worker or by the caller itself), or the
    nil of a [Resize] that gave the task up unbegun. *)
Theorem pool_at_most_once n s :
  rtc (step exec) (NewWorkerPool n) s ->
  answered_right exec (ledger_of s) /\
  forall s', step exec s s' -> ledger_step exec (ledger_of s) (ledger_of s').
Proof.
  intros Hr. pose proof (reachable_ledger exec n s Hr) as Hi.
  split; [by apply ledger_inv_answered|]. intros s' Hst. by apply step_simulates.
Qed.

(** C17: a running pool answers every call.  While the pool is neither stopped
    nor resized, callers and workers cannot run for ever without a new call,
    and when they come to rest every call that was made has returned the result
    of its task. *)
Theorem pool_answers_every_call n s :
  0 < n -> rtc (serve_step exec) (Start (NewWorkerPool n)) s ->
  sn (internal exec) s /\
  forall s', rtc (internal exec) s s' -> nf (internal exec) s' ->
    forall t c, clients s !! t = Some c -> clients s' !! t = Some (Returned (Some (exec t))).
Proof.
  intros Hn Hr. split; [apply internal_terminates|]. intros s' Hi Hnf t c Hc.
  destruct (internal_serve exec s s' Hi) as [Hr' Hd].
  assert (rtc (serve_step exec) (Start (NewWorkerPool n)) s') as Hall by (by etrans).
  assert (is_Some (clients s' !! t)) as [c' Hc'].
  { apply elem_of_dom. rewrite Hd. apply elem_of_dom. by eexists. }
  rewrite Hc'. f_equal. eapply at_rest; [| |done|done].
  - eapply serve_reachable_serving; [done|]. by apply started_serving.
  - eapply serve_reachable_ledger; [done|]. apply started_ledger.
Qed.
End Properties.

(** ** Concrete runs *)

(** The task [t] returns [2 * t]. *)
Definition double (t : task) : Z := 2 * Z.of_nat t.

Ltac run_serve rule := eapply rtc_l; [eapply step_serve, rule; vm_compute; reflexivity|].
Ltac run_manager rule ms :=
  eapply rtc_l; [eapply (step_manager _ _ _ ms []); [vm_compute; reflexivity|eapply rule; try (vm_compute; reflexivity)]|];
  cbn [app option_list fmap option_map option_fmap].

(** A pool of one worker serves one call. *)
Lemma one_call_served :
  exists s, rtc (step double) (NewWorkerPool 1) s /\ clients s !! 7%nat = Some (Returned (Some 14)) /\ execs s = [7%nat].
Proof.
  eexists. split.
  - eapply rtc_l; [apply step_manager_call; right; by left|].
    run_manager (@m_start Z) (@nil manager).
    run_serve (call double 7%nat).
    run_serve (submit_begin double 7%nat).
    run_serve (submit_send double 7%nat).
    run_serve (worker_select double [] []).
    run_serve (worker_take double 0%nat 0%nat (mkChan [7%nat] 2 false) 7%nat [] [] []).
    run_serve (worker_finish double 7%nat [] []).
    run_serve (receive_result double 7%nat).
    apply rtc_refl.
  - vm_compute. done.
Qed.

Lemma pool_at_most_once_witness :
  exists s, clients s !! 7%nat = Some (Returned (Some 14)) /\ answered_right double (ledger_of s) /\
    forall s', step double s s' -> ledger_step double (ledger_of s) (ledger_of s').
Proof.
  destruct one_call_served as (s & Hr & Hc & _). exists s. split; [exact Hc|].
  exact (pool_at_most_once double 1 s Hr).
Defined.

Lemma pool_answers_every_call_witness :
  let s := set_client 7%nat Calling (Start (NewWorkerPool 1)) in
  sn (internal double) s /\
  forall s', rtc (internal double) s s' -> nf (internal double) s' ->
    forall t c, clients s !! t = Some c -> clients s' !! t = Some (Returned (Some (double t))).
Proof.
  intros s. exact (pool_answers_every_call double 1 s ltac:(lia)
    (rtc_once _ _ (call double 7%nat (Start (NewWorkerPool 1)) eq_refl))).
Defined.

(** [Stop] does not answer the callers whose tasks are still queued: the
    workers leave on the cancelled context, and the callers wait for ever. *)
Lemma stopped_forever s s' t :
  rtc (serve_step double) s s' ->
  workers s = [] -> clients s !! t = Some Waiting -> results s !! t = None ->
  clients s' !! t = Some Waiting.
Proof.
  induction 1 as [|s1 s2 s3 H1 H2 IH]; [done|]. intros Hw Hc Hr.
  assert (workers s2 = [] /\ clients s2 !! t = Some Waiting /\ results s2 !! t = None) as (? & ? & ?); [|auto].
  destruct H1 as [t' s Hc'|t' s Hc'|t' s Hc'|t' ch c s Hc'|t' ch c s Hc'|t' ch s Hc'|t' s Hc'|t' r s Hc' Hr'
    |ws1 ws2 s Hw'|ctx ch ws1 ws2 s Hw'|ctx ch c ws1 ws2 s Hw'|ctx ch c t' b ws1 ws2 s Hw'|t' ws1 ws2 s Hw'];
    try (rewrite Hw in Hw'; by destruct ws1); simpl;
    (destruct (decide (t = t')) as [<-|]; [congruence|]); rewrite ?lookup_insert_ne, ?lookup_delete_ne by done; done.
Qed.

Theorem stop_strands_queued_tasks :
  exists s, rtc (step double) (NewWorkerPool 1) s /\ managers s = [] /\
    forall s', rtc (serve_step double) s s' -> clients s' !! 1%nat = Some Waiting.
Proof.
  eexists. split; [|split].
  - eapply rtc_l; [apply step_manager_call; right; by left|].
    run_manager (@m_start Z) (@nil manager).
    run_serve (call double 1%nat).
    run_serve (submit_begin double 1%nat).
    run_serve (submit_send double 1%nat).
    eapply rtc_l; [apply step_manager_call; by left|].
    run_manager (@m_stop Z StopCAS) (@nil manager); [apply stop_cas; reflexivity|].
    run_manager (@m_stop Z StopCancel) (@nil manager); [apply stop_cancel|].
    run_manager (@m_stop Z StopClose) (@nil manager); [apply stop_close|].
    { intros t ch. cbn. destruct (decide (t = 1%nat)) as [->|]; [done|]. by rewrite !lookup_insert_ne by done. }
    run_serve (worker_select double [] []).
    run_serve (worker_cancelled double 0%nat 0%nat [] []).
    run_manager (@m_stop Z StopWait) (@nil manager); [apply stop_wait; reflexivity|].
    apply rtc_refl.
  - reflexivity.
  - intros s' Hr. by eapply stopped_forever.
Qed.

(** A pool that was stopped cannot be started again: [Start] launches workers
    and accepts calls, but the queue stays closed and the call panics. *)
Theorem restart_panics :
  exists s, rtc (step double) (NewWorkerPool 1) s /\ managers s = [] /\
    clients s !! 1%nat = Some SendPanicked.
Proof.
  eexists. split; [|split].
  - eapply rtc_l; [apply step_manager_call; right; by left|].
    run_manager (@m_start Z) (@nil manager).
    eapply rtc_l; [apply step_manager_call; by left|].
    run_manager (@m_stop Z StopCAS) (@nil manager); [apply stop_cas; reflexivity|].
    run_manager (@m_stop Z StopCancel) (@nil manager); [apply stop_cancel|].
    run_manager (@m_stop Z StopClose) (@nil manager); [by apply stop_close; intros t ch|].
    run_serve (worker_select double [] []).
    run_serve (worker_cancelled double 0%nat 0%nat [] []).
    run_manager (@m_stop Z StopWait) (@nil manager); [apply stop_wait; reflexivity|].
    eapply rtc_l; [apply step_manager_call; right; by left|].
    run_manager (@m_start Z) (@nil manager).
    run_serve (call double 1%nat).
    run_serve (submit_begin double 1%nat).
    run_serve (submit_panic double 1%nat 0%nat (mkChan [] 2 true)).
    apply rtc_refl.
  - reflexivity.
  - reflexivity.
Qed.

(** [Resize] closes the queue without [closeMu] when it finds the pool not
    running; racing with a [Stop] that is waiting for that mutex, it closes the
    queue under a caller that is about to send. *)
Theorem resize_closes_under_sender :
  exists s, rtc (step double) (NewWorkerPool 1) s /\ clients s !! 1%nat = Some SendPanicked /\
    managers s = [ResizeDrain 2 0 false []; Stopping StopCancel].
Proof.
  eexists. split; [|split].
  - eapply rtc_l; [apply step_manager_call; right; by left|].
    run_manager (@m_start Z) (@nil manager).
    run_serve (call double 1%nat).
    run_serve (submit_begin double 1%nat).
    eapply rtc_l; [apply step_manager_call; by left|].
    run_manager (@m_stop Z StopCAS) (@nil manager); [apply stop_cas; reflexivity|].
    eapply rtc_l; [apply (step_manager_call double (ResizeLock 2)); right; right; by exists 2|].
    eapply rtc_l; [eapply (step_manager double (ResizeLock 2) (Some (ResizeLoad 2)) [] [Stopping StopCancel]);
      [reflexivity|by apply m_lock]|].
    eapply rtc_l; [eapply (step_manager double (ResizeLoad 2) (Some (ResizeClose 2 0)) [] [Stopping StopCancel]);
      [reflexivity|apply m_load]|].
    eapply rtc_l; [eapply (step_manager double (ResizeClose 2 0) (Some (ResizeDrain 2 0 false [])) [] [Stopping StopCancel]);
      [reflexivity|apply m_close]|].
    run_serve (submit_panic double 1%nat 0%nat (mkChan [] 2 true)).
    apply rtc_refl.
  - reflexivity.
  - reflexivity.
Qed.
