(* ===== verification/Errors.v ===== *)
(** * Go errors and their translation to NFS status codes

    Models src/errors.go, src/nfs_types.go and [mapError] of
    src/operations.go.  A Go [error] value is an inductive: the sentinel
    values and error types the server distinguishes, and the wrappers
    ([fmt.Errorf] with [%w], [*os.PathError]) around them.  Message texts are
    kept as the constant part of the format string. *)

From S2P Require Import Prelude.
Open Scope Z_scope.

(** ** NFS status codes (src/nfs_types.go) *)

Definition NFS_OK := 0.
Definition NFSERR_PERM := 1.
Definition NFSERR_NOENT := 2.
Definition NFSERR_IO := 5.
Definition NFSERR_NXIO := 6.
Definition NFSERR_ACCES := 13.
Definition NFSERR_EXIST := 17.
Definition NFSERR_NODEV := 19.
Definition NFSERR_NOTDIR := 20.
Definition NFSERR_ISDIR := 21.
Definition NFSERR_INVAL := 22.
Definition NFSERR_FBIG := 27.
Definition NFSERR_NOSPC := 28.
Definition NFSERR_ROFS := 30.
Definition NFSERR_NAMETOOLONG := 63.
Definition NFSERR_NOTEMPTY := 66.
Definition NFSERR_DQUOT := 69.
Definition NFSERR_STALE := 70.
Definition NFSERR_WFLUSH := 99.
Definition NFSERR_BADHANDLE := 10001.
Definition NFSERR_NOT_SYNC := 10002.
Definition NFSERR_NOTSUPP := 10004.
Definition NFSERR_JUKEBOX := 10008.
Definition NFSERR_DELAY := 10013.

(** ** Errors *)

(** The [syscall.Errno] values the server looks at; any other one is
    [EOther]. *)
Inductive errno :=
| ENOENT | EACCES | EPERM | EEXIST | ENOTEMPTY
| ENOTDIR | EISDIR | ENOSPC | EFBIG | ENAMETOOLONG
| EOther (n : Z).

#[export] Instance errno_eq_dec : EqDecision errno.
Proof. solve_decision. Defined.

Inductive error :=
| ErrorString (msg : string)                        (* errors.New, fmt.Errorf without %w *)
| wrapError (msg : string) (err : error)            (* fmt.Errorf with %w *)
| PathError (op path : string) (err : error)        (* os.PathError, os.LinkError, os.SyscallError *)
| InvalidFileHandleError (Handle : Z) (Reason : string)
| NotSupportedError (Operation Reason : string)
| Errno (e : errno)
| os_ErrNotExist | os_ErrExist | os_ErrPermission | os_ErrInvalid
| io_EOF | io_ErrUnexpectedEOF
| context_DeadlineExceeded
| ErrTimeout.

#[export] Instance error_eq_dec : EqDecision error.
Proof. solve_decision. Defined.

(** The result of a Go function that returns [(T, error)]. *)
Inductive result (A : Type) :=
| Ok (a : A)
| Err (e : error).
Arguments Ok {A} a.
Arguments Err {A} e.

Definition is_ok {A} (r : result A) : bool :=
  match r with Ok _ => true | Err _ => false end.

(** [syscall.Errno.Is]: the portable errors an errno stands for. *)
Definition errno_is (e : errno) (target : error) : bool :=
  match target, e with
  | os_ErrPermission, (EACCES | EPERM) => true
  | os_ErrExist, (EEXIST | ENOTEMPTY) => true
  | os_ErrNotExist, ENOENT => true
  | _, _ => false
  end.

(** [errors.Is]: walk the chain of wrapped errors. *)
Fixpoint errors_Is (err target : error) : bool :=
  bool_decide (err = target) ||
  match err with
  | wrapError _ e | PathError _ _ e => errors_Is e target
  | Errno n => errno_is n target
  | _ => false
  end.

(** [errors.As] at the two error types of src/errors.go. *)
Fixpoint errors_As_InvalidFileHandle (err : error) : bool :=
  match err with
  | InvalidFileHandleError _ _ => true
  | wrapError _ e | PathError _ _ e => errors_As_InvalidFileHandle e
  | _ => false
  end.

Fixpoint errors_As_NotSupported (err : error) : bool :=
  match err with
  | NotSupportedError _ _ => true
  | wrapError _ e | PathError _ _ e => errors_As_NotSupported e
  | _ => false
  end.

(** [os.IsNotExist], [os.IsExist], [os.IsPermission]: unlike [errors.Is] they
    look through at most one os wrapper and not through [fmt.Errorf]. *)
Definition os_underlyingError (err : error) : error :=
  match err with PathError _ _ e => e | _ => err end.

Definition os_underlyingErrorIs (err target : error) : bool :=
  let err := os_underlyingError err in
  bool_decide (err = target) ||
  match err with Errno n => errno_is n target | _ => false end.

Definition os_IsNotExist (err : error) : bool := os_underlyingErrorIs err os_ErrNotExist.
Definition os_IsExist (err : error) : bool := os_underlyingErrorIs err os_ErrExist.
Definition os_IsPermission (err : error) : bool := os_underlyingErrorIs err os_ErrPermission.

(** [mapError] of src/operations.go on a non-nil error; the [err == nil]
    case of the source is [mapError_nil]. *)
Definition mapError_nil : Z := NFS_OK.

Definition mapError (err : error) : Z :=
  if errors_As_InvalidFileHandle err then NFSERR_BADHANDLE
  else if errors_As_NotSupported err then NFSERR_NOTSUPP
  else if errors_Is err context_DeadlineExceeded || errors_Is err ErrTimeout
  then NFSERR_DELAY
  else if errors_Is err os_ErrNotExist || errors_Is err (Errno ENOENT)
  then NFSERR_NOENT
  else if errors_Is err os_ErrPermission || errors_Is err (Errno EACCES)
          || errors_Is err (Errno EPERM)
  then NFSERR_PERM
  else if errors_Is err os_ErrExist || errors_Is err (Errno EEXIST)
  then NFSERR_EXIST
  else if errors_Is err os_ErrInvalid then NFSERR_INVAL
  else if errors_Is err (Errno ENOTDIR) then NFSERR_NOTDIR
  else if errors_Is err (Errno EISDIR) then NFSERR_ISDIR
  else if errors_Is err (Errno ENOSPC) then NFSERR_NOSPC
  else if errors_Is err (Errno EFBIG) then NFSERR_FBIG
  else if errors_Is err (Errno ENAMETOOLONG) then NFSERR_NAMETOOLONG
  else NFSERR_IO.

(** The status codes [mapError] can return. *)
Definition mapError_codes : list Z :=
  [NFSERR_BADHANDLE; NFSERR_NOTSUPP; NFSERR_DELAY; NFSERR_NOENT; NFSERR_PERM;
   NFSERR_EXIST; NFSERR_INVAL; NFSERR_NOTDIR; NFSERR_ISDIR; NFSERR_NOSPC;
   NFSERR_FBIG; NFSERR_NAMETOOLONG; NFSERR_IO].

Lemma mapError_in_codes err : mapError err ∈ mapError_codes.
Proof.
  unfold mapError, mapError_codes.
  repeat case_match; rewrite !elem_of_cons; tauto.
Qed.

Lemma mapError_u32 err : is_u32 (mapError err).
Proof.
  pose proof (mapError_in_codes err) as H. unfold mapError_codes in H.
  rewrite !elem_of_cons, elem_of_nil in H. unfold is_u32.
  repeat destruct H as [H|H]; try done; rewrite H; by vm_compute.
Qed.

(** [mapError] never reports success for an error. *)
Lemma mapError_not_ok err : mapError err <> NFS_OK.
Proof.
  pose proof (mapError_in_codes err) as H. unfold mapError_codes in H.
  rewrite !elem_of_cons, elem_of_nil in H.
  intros E; rewrite E in H. repeat destruct H as [H|H]; done.
Qed.

#[export] Hint Resolve mapError_u32 mapError_not_ok : absnfs.
