(* ===== verification/Xdr.v ===== *)
(** * XDR encoding and decoding (src/rpc_types.go)

    Writers append to an in-memory buffer and cannot fail: an encoder is a
    byte list.  A decoder reads from an [io.Reader], here the bytes that are
    left; it returns its result or error together with the bytes left over,
    since the callers that ignore an error go on reading. *)

From S2P Require Import Prelude Errors.
Open Scope Z_scope.

Definition MAX_XDR_STRING_LENGTH := 8192.

(** ** Decoders *)

Definition Dec (A : Type) : Type := list byte -> result A * list byte.

#[export] Instance Dec_ret : MRet Dec := fun A a r => (Ok a, r).
#[export] Instance Dec_bind : MBind Dec := fun A B f m r =>
  match m r with
  | (Ok a, r') => f a r'
  | (Err e, r') => (Err e, r')
  end.
Definition Dec_fail {A} (e : error) : Dec A := fun r => (Err e, r).
(** Replace the error of a decoder, as [fmt.Errorf("...: %w", err)] does. *)
Definition Dec_wrap {A} (msg : string) (m : Dec A) : Dec A := fun r =>
  match m r with
  | (Err e, r') => (Err (wrapError msg e), r')
  | ok => ok
  end.

(** [io.ReadFull] of [n] bytes: a short read consumes everything. *)
Definition io_ReadFull (n : nat) : Dec (list byte) := fun r =>
  if (n <=? length r)%nat then (Ok (take n r), drop n r)
  else (Err (if (length r =? 0)%nat then io_EOF else io_ErrUnexpectedEOF), []).

(** [(4 - (n % 4)) % 4] *)
Definition xdr_pad (n : Z) : Z := (4 - n mod 4) mod 4.

(** ** Encoding helpers *)

Definition xdrEncodeUint32 (v : Z) : list byte := be_bytes 4 v.
Definition xdrEncodeUint64 (v : Z) : list byte := be_bytes 8 v.

Definition xdrEncodeString (s : string) : list byte :=
  xdrEncodeUint32 (u32 (slen s)) ++ bytes_of_string s
  ++ replicate (Z.to_nat (xdr_pad (slen s))) x00.

Definition xdrEncodeFileHandle (handle : Z) : list byte :=
  xdrEncodeUint32 8 ++ be_bytes 8 handle.

(** ** Decoding helpers *)

Definition xdrDecodeUint32 : Dec Z :=
  b ← io_ReadFull 4; mret (be_val b).

(** [binary.Read(r, binary.BigEndian, &v)] for a [uint64] *)
Definition binary_ReadUint64 : Dec Z :=
  b ← io_ReadFull 8; mret (be_val b).

(** Round up to a 4-byte boundary: [(n + 3) &^ 3]. *)
Definition round_up4 (n : Z) : Z := Z.ldiff (n + 3) 3.

Definition xdrDecodeFileHandle : Dec Z :=
  length ← Dec_wrap "failed to read handle length" xdrDecodeUint32;
  if 64 <? length
  then Dec_fail (ErrorString "file handle length exceeds NFS3 maximum of 64 bytes")
  else if negb (length =? 8)
  then
    if 0 <? length
    then
      _ ← Dec_wrap "failed to discard handle data"
            (io_ReadFull (Z.to_nat (round_up4 length)));
      Dec_fail (ErrorString "invalid handle length")
    else Dec_fail (ErrorString "invalid handle length")
  else Dec_wrap "failed to read handle data" binary_ReadUint64.

(** [strings.ContainsRune(s, 0)] *)
Definition contains_nul (b : list byte) : bool := existsb (Byte.eqb x00) b.

Definition xdrDecodeString : Dec string :=
  length ← xdrDecodeUint32;
  if MAX_XDR_STRING_LENGTH <? length
  then Dec_fail (ErrorString "XDR string length exceeds maximum allowed length")
  else
    buf ← io_ReadFull (Z.to_nat length);
    _ ← io_ReadFull (Z.to_nat (xdr_pad length));
    if contains_nul buf
    then Dec_fail (ErrorString "XDR string contains NUL byte")
    else mret (string_of_bytes buf).

(** What a decoder whose result is ignored leaves. *)
Definition unread {A} (d : Dec A) (r : list byte) : list byte := (d r).2.

(** ** Lemmas *)

Lemma io_ReadFull_app b r : io_ReadFull (length b) (b ++ r) = (Ok b, r).
Proof.
  unfold io_ReadFull. rewrite length_app.
  destruct (Nat.leb_spec (length b) (length b + length r)); [|lia].
  by rewrite take_app_length, drop_app_length.
Qed.

Lemma io_ReadFull_app' n b r :
  n = length b -> io_ReadFull n (b ++ r) = (Ok b, r).
Proof. intros ->. apply io_ReadFull_app. Qed.

Lemma io_ReadFull_Ok n r b r' :
  io_ReadFull n r = (Ok b, r') -> r = b ++ r' /\ length b = n.
Proof.
  unfold io_ReadFull. destruct (Nat.leb_spec n (length r)); [|done].
  intros [= <- <-]. rewrite take_drop, length_take. split; [done|lia].
Qed.

Lemma xdrDecodeUint32_encode v r :
  is_u32 v -> xdrDecodeUint32 (xdrEncodeUint32 v ++ r) = (Ok v, r).
Proof.
  intros Hv. unfold xdrDecodeUint32, mbind, Dec_bind.
  rewrite io_ReadFull_app' by (symmetry; apply be_bytes_length).
  unfold mret, Dec_ret. by rewrite be_val_bytes_u32.
Qed.

Lemma binary_ReadUint64_encode v r :
  is_u64 v -> binary_ReadUint64 (xdrEncodeUint64 v ++ r) = (Ok v, r).
Proof.
  intros Hv. unfold binary_ReadUint64, mbind, Dec_bind.
  rewrite io_ReadFull_app' by (symmetry; apply be_bytes_length).
  unfold mret, Dec_ret. by rewrite be_val_bytes_u64.
Qed.

Lemma xdrDecodeUint32_Ok r v r' :
  xdrDecodeUint32 r = (Ok v, r') -> is_u32 v /\ r = xdrEncodeUint32 v ++ r'.
Proof.
  unfold xdrDecodeUint32, mbind, Dec_bind, mret, Dec_ret.
  destruct (io_ReadFull 4 r) as [[b|e] r0] eqn:E; [|done].
  intros [= <- <-]. apply io_ReadFull_Ok in E as [-> Hb]. split.
  - pose proof (be_val_range b) as H. rewrite Hb in H. apply H.
  - unfold xdrEncodeUint32. by rewrite <- Hb, be_bytes_val.
Qed.

Lemma xdr_pad_range n : 0 <= xdr_pad n < 4.
Proof. apply Z.mod_pos_bound. lia. Qed.

Lemma xdr_pad_aligned n : (n + xdr_pad n) mod 4 = 0.
Proof. unfold xdr_pad. Z.to_euclidean_division_equations. lia. Qed.

#[export] Hint Resolve xdr_pad_range : absnfs.

Lemma xdrDecodeFileHandle_encode h r :
  is_u64 h -> xdrDecodeFileHandle (xdrEncodeFileHandle h ++ r) = (Ok h, r).
Proof.
  intros Hh. unfold xdrDecodeFileHandle, xdrEncodeFileHandle, Dec_wrap, mbind, Dec_bind.
  rewrite <- app_assoc, xdrDecodeUint32_encode by (unfold is_u32; lia).
  cbn -[binary_ReadUint64 be_bytes]. change (be_bytes 8 h) with (xdrEncodeUint64 h).
  by rewrite binary_ReadUint64_encode.
Qed.

Lemma xdrDecodeFileHandle_range r h r' :
  xdrDecodeFileHandle r = (Ok h, r') -> is_u64 h /\ r = xdrEncodeFileHandle h ++ r'.
Proof.
  unfold xdrDecodeFileHandle, Dec_wrap, mbind, Dec_bind.
  destruct (xdrDecodeUint32 r) as [[n|e] r0] eqn:E; [|done].
  apply xdrDecodeUint32_Ok in E as [_ ->].
  destruct (64 <? n); [done|]. destruct (Z.eqb_spec n 8) as [->|]; cbn [negb].
  - unfold binary_ReadUint64, mbind, Dec_bind, mret, Dec_ret.
    destruct (io_ReadFull 8 r0) as [[b|e] r1] eqn:E; [|done].
    intros [= <- <-]. apply io_ReadFull_Ok in E as [-> Hb].
    pose proof (be_val_range b) as Hr. rewrite Hb in Hr. split; [apply Hr|].
    unfold xdrEncodeFileHandle. rewrite <- app_assoc.
    replace 8%nat with (length b). by rewrite be_bytes_val.
  - destruct (0 <? n); [|done]. by destruct (io_ReadFull _ r0) as [[]].
Qed.

(** The bytes [xdrDecodeString] can have read. *)
Lemma xdrDecodeString_Ok r s r' :
  xdrDecodeString r = (Ok s, r') ->
  exists pad,
    r = xdrEncodeUint32 (slen s) ++ bytes_of_string s ++ pad ++ r' /\
    zlen pad = xdr_pad (slen s) /\
    slen s <= MAX_XDR_STRING_LENGTH /\
    contains_nul (bytes_of_string s) = false.
Proof.
  unfold xdrDecodeString, mbind, Dec_bind.
  destruct (xdrDecodeUint32 r) as [[n|e] r0] eqn:E; [|done].
  apply xdrDecodeUint32_Ok in E as [Hn ->]. unfold is_u32 in Hn.
  destruct (Z.ltb_spec MAX_XDR_STRING_LENGTH n) as [|Hle]; [done|].
  destruct (io_ReadFull (Z.to_nat n) r0) as [[b|e] r1] eqn:Eb; [|done].
  apply io_ReadFull_Ok in Eb as [-> Hb].
  destruct (io_ReadFull _ r1) as [[p|e] r2] eqn:Ep; [|done].
  apply io_ReadFull_Ok in Ep as [-> Hp].
  destruct (contains_nul b) eqn:Hnul; [done|].
  intros [= <- <-]. pose proof (xdr_pad_range n).
  rewrite slen_bytes, bytes_of_string_of_bytes.
  assert (zlen b = n) as -> by (unfold zlen; lia).
  exists p. repeat split; try done. unfold zlen. lia.
Qed.

Lemma xdrDecodeString_encode_pad s pad r :
  slen s <= MAX_XDR_STRING_LENGTH -> contains_nul (bytes_of_string s) = false ->
  zlen pad = xdr_pad (slen s) ->
  xdrDecodeString (xdrEncodeUint32 (slen s) ++ bytes_of_string s ++ pad ++ r) = (Ok s, r).
Proof.
  intros Hl Hn Hp. unfold xdrDecodeString, mbind, Dec_bind, MAX_XDR_STRING_LENGTH in *.
  assert (0 <= slen s) by (unfold slen; lia).
  rewrite xdrDecodeUint32_encode by (unfold is_u32; lia).
  destruct (Z.ltb_spec 8192 (slen s)); [lia|].
  rewrite io_ReadFull_app' by (rewrite slen_bytes; unfold zlen; lia).
  rewrite io_ReadFull_app' by (rewrite <- Hp; unfold zlen; lia).
  rewrite Hn. unfold mret, Dec_ret. by rewrite string_of_bytes_of_string.
Qed.

Lemma xdrEncodeString_small s :
  slen s < 2 ^ 32 ->
  xdrEncodeString s = xdrEncodeUint32 (slen s) ++ bytes_of_string s
                      ++ replicate (Z.to_nat (xdr_pad (slen s))) x00.
Proof.
  intros H. unfold xdrEncodeString.
  rewrite u32_small by (unfold is_u32, slen in *; lia). done.
Qed.

Lemma xdrEncodeString_length s :
  zlen (xdrEncodeString s) = 4 + slen s + xdr_pad (slen s).
Proof.
  unfold xdrEncodeString, xdrEncodeUint32. rewrite !zlen_app, slen_bytes.
  unfold zlen. rewrite be_bytes_length, length_replicate.
  pose proof (xdr_pad_range (Z.of_nat (length (bytes_of_string s)))). lia.
Qed.

(** ** Properties *)

(** [xdrDecodeFileHandle] accepts exactly the handles the server hands
    out.  It succeeds with [h] and leaves [rest] if and only if [h] is a
    64-bit value and the input is its encoding by [xdrEncodeFileHandle]
    followed by [rest]; every other length word, and every truncation, is an
    error. *)
Theorem xdr_file_handle_exact (r rest : list byte) (h : Z) :
  xdrDecodeFileHandle r = (Ok h, rest) <->
  is_u64 h /\ r = xdrEncodeFileHandle h ++ rest.
Proof.
  split.
  - apply xdrDecodeFileHandle_range.
  - intros [Hh ->]. by apply xdrDecodeFileHandle_encode.
Qed.

(** XDR strings survive the wire.  A string of at most
    [MAX_XDR_STRING_LENGTH] bytes without a NUL byte, encoded by
    [xdrEncodeString], is read back by [xdrDecodeString] whatever follows it,
    the reader stands exactly after it, and the encoding occupies a multiple
    of four bytes. *)
Theorem xdr_string_roundtrip (s : string) (rest : list byte)
    (Hlen : slen s <= MAX_XDR_STRING_LENGTH)
    (Hnul : contains_nul (bytes_of_string s) = false) :
  xdrDecodeString (xdrEncodeString s ++ rest) = (Ok s, rest) /\
  zlen (xdrEncodeString s) mod 4 = 0.
Proof.
  split.
  - rewrite xdrEncodeString_small by (unfold MAX_XDR_STRING_LENGTH in *; lia).
    rewrite <- !app_assoc. apply xdrDecodeString_encode_pad; [done..|].
    unfold zlen. rewrite length_replicate. pose proof (xdr_pad_range (slen s)). lia.
  - rewrite xdrEncodeString_length, <- Z.add_assoc, <- (Z.mul_1_l 4), Z.add_comm.
    rewrite Z.mod_add by lia. apply xdr_pad_aligned.
Qed.

Lemma xdr_string_roundtrip_witness :
  xdrDecodeString (xdrEncodeString "hello" ++ [x01]) = (Ok "hello"%string, [x01]) /\
  zlen (xdrEncodeString "hello") mod 4 = 0.
Proof.
  apply (xdr_string_roundtrip "hello" [x01]); [unfold MAX_XDR_STRING_LENGTH; vm_compute; discriminate | reflexivity].
Defined.
