(* ===== verification/Attributes.v ===== *)
(** * File attributes and their wire format (src/types.go, src/attributes.go)

    [NFSAttrs] and the encoders of the NFSv3 structures built from it.  The
    reference is the RFC 1813 record [fattr3] with a decoder of its own: the
    bytes [encodeFileAttributes] writes are read back as the record the
    attributes stand for. *)

From S2P Require Import Prelude Errors Xdr.
Open Scope Z_scope.

(** ** Time

    A [time.Time] is the instant it denotes, in nanoseconds since the Unix
    epoch; the zero [time.Time{}] is the start of year 1. *)

Definition second : Z := 1000000000.
Definition time_zero : Z := -62135596800 * second.
Definition time_IsZero (t : Z) : bool := t =? time_zero.
Definition time_Unix_sec (t : Z) : Z := t / second.
Definition time_Nanosecond (t : Z) : Z := t mod second.
(** [time.Unix(sec, nsec)] *)
Definition time_Unix (sec nsec : Z) : Z := sec * second + nsec.

(** ** os.FileMode *)

Definition os_ModeDir := 2 ^ 31.
Definition os_ModeSymlink := 2 ^ 27.
Definition os_ModeDevice := 2 ^ 26.
Definition os_ModeNamedPipe := 2 ^ 25.
Definition os_ModeSocket := 2 ^ 24.
Definition os_ModeCharDevice := 2 ^ 21.
Definition os_ModeIrregular := 2 ^ 19.
Definition os_ModePerm := 511.
Definition os_ModeType : Z :=
  Z.lor os_ModeDir (Z.lor os_ModeSymlink (Z.lor os_ModeNamedPipe
    (Z.lor os_ModeSocket (Z.lor os_ModeDevice
      (Z.lor os_ModeCharDevice os_ModeIrregular))))).

(** [m & mask != 0] *)
Definition has_bits (m mask : Z) : bool := negb (Z.land m mask =? 0).

(** ** NFSAttrs (src/types.go) *)

Record NFSAttrs := mkNFSAttrs {
  Mode : Z;
  Size : Z;
  FileId : Z;
  mtime : Z;
  atime : Z;
  Uid : Z;
  Gid : Z;
  validUntil : Z
}.

#[export] Instance NFSAttrs_eq_dec : EqDecision NFSAttrs.
Proof. solve_decision. Defined.

(** The Go ranges of the fields; times are unrestricted. *)
Definition attrs_wf (a : NFSAttrs) : Prop :=
  is_u32 (Mode a) /\ - 2 ^ 63 <= Size a < 2 ^ 63 /\ is_u64 (FileId a) /\
  is_u32 (Uid a) /\ is_u32 (Gid a).

Definition set_validUntil (a : NFSAttrs) (t : Z) : NFSAttrs :=
  mkNFSAttrs (Mode a) (Size a) (FileId a) (mtime a) (atime a) (Uid a) (Gid a) t.
Definition SetMtime (a : NFSAttrs) (t : Z) : NFSAttrs :=
  mkNFSAttrs (Mode a) (Size a) (FileId a) t (atime a) (Uid a) (Gid a) (validUntil a).
Definition SetAtime (a : NFSAttrs) (t : Z) : NFSAttrs :=
  mkNFSAttrs (Mode a) (Size a) (FileId a) (mtime a) t (Uid a) (Gid a) (validUntil a).
Definition set_Size (a : NFSAttrs) (n : Z) : NFSAttrs :=
  mkNFSAttrs (Mode a) n (FileId a) (mtime a) (atime a) (Uid a) (Gid a) (validUntil a).

(** The methods that read the clock take the value of [time.Now()]. *)
Definition IsValid (a : NFSAttrs) (now : Z) : bool := now <? validUntil a.
Definition Refresh (a : NFSAttrs) (now : Z) : NFSAttrs := set_validUntil a (now + 2 * second).
Definition Invalidate (a : NFSAttrs) : NFSAttrs := set_validUntil a time_zero.

Definition NewNFSAttrs (mode size mt at_ uid gid : Z) : NFSAttrs :=
  let attrs := mkNFSAttrs mode size 0 time_zero time_zero uid gid time_zero in
  SetAtime (SetMtime attrs mt) at_.

(** ** Encoders (src/attributes.go) *)

Definition NF3REG := 1.
Definition NF3DIR := 2.
Definition NF3BLK := 3.
Definition NF3CHR := 4.
Definition NF3LNK := 5.
Definition NF3SOCK := 6.
Definition NF3FIFO := 7.

(** The [switch mode & os.ModeType] of [encodeFileAttributes]. *)
Definition ftype_of_mode (mode : Z) : Z :=
  let t := Z.land mode os_ModeType in
  if t =? os_ModeDir then NF3DIR
  else if t =? os_ModeSymlink then NF3LNK
  else if t =? os_ModeDevice then NF3BLK
  else if t =? Z.lor os_ModeDevice os_ModeCharDevice then NF3CHR
  else if t =? os_ModeSocket then NF3SOCK
  else if t =? os_ModeNamedPipe then NF3FIFO
  else NF3REG.

Definition encodeFileAttributes (attrs : NFSAttrs) : list byte :=
  let mode := Mode attrs in
  let ftype := ftype_of_mode mode in
  let nlink := if ftype =? NF3DIR then 2 else 1 in
  xdrEncodeUint32 ftype ++
  xdrEncodeUint32 (Z.land mode os_ModePerm) ++
  xdrEncodeUint32 nlink ++
  xdrEncodeUint32 (Uid attrs) ++
  xdrEncodeUint32 (Gid attrs) ++
  xdrEncodeUint64 (u64 (Size attrs)) ++
  xdrEncodeUint64 (u64 (Size attrs)) ++
  xdrEncodeUint32 0 ++
  xdrEncodeUint32 0 ++
  xdrEncodeUint64 0 ++
  xdrEncodeUint64 (FileId attrs) ++
  xdrEncodeUint32 (u32 (time_Unix_sec (atime attrs))) ++
  xdrEncodeUint32 (u32 (time_Nanosecond (atime attrs))) ++
  xdrEncodeUint32 (u32 (time_Unix_sec (mtime attrs))) ++
  xdrEncodeUint32 (u32 (time_Nanosecond (mtime attrs))) ++
  xdrEncodeUint32 (u32 (time_Unix_sec (mtime attrs))) ++
  xdrEncodeUint32 (u32 (time_Nanosecond (mtime attrs))).

Definition encodeWccAttr (attrs : NFSAttrs) : list byte :=
  xdrEncodeUint64 (u64 (Size attrs)) ++
  xdrEncodeUint32 (u32 (time_Unix_sec (mtime attrs))) ++
  xdrEncodeUint32 (u32 (time_Nanosecond (mtime attrs))) ++
  xdrEncodeUint32 (u32 (time_Unix_sec (mtime attrs))) ++
  xdrEncodeUint32 (u32 (time_Nanosecond (mtime attrs))).

Definition encodeAttributesResponse (attrs : NFSAttrs) : list byte :=
  xdrEncodeUint32 NFS_OK ++ encodeFileAttributes attrs.

Definition encodeErrorResponse (errorCode : Z) : list byte := xdrEncodeUint32 errorCode.

(** [encodeWccData], [encodePostOpAttr], [encodeNoPostOpAttr] of
    src/nfs_handlers.go *)
Definition encodeWccData (preAttrs postAttrs : NFSAttrs) : list byte :=
  xdrEncodeUint32 1 ++ encodeWccAttr preAttrs ++
  xdrEncodeUint32 1 ++ encodeFileAttributes postAttrs.

Definition encodePostOpAttr (attrs : NFSAttrs) : list byte :=
  xdrEncodeUint32 1 ++ encodeFileAttributes attrs.

Definition encodeNoPostOpAttr : list byte := xdrEncodeUint32 0.

(** ** The RFC 1813 structures, as a client reads them *)

Record fattr3 := mkFattr3 {
  fa_type : Z; fa_mode : Z; fa_nlink : Z; fa_uid : Z; fa_gid : Z;
  fa_size : Z; fa_used : Z; fa_rdev1 : Z; fa_rdev2 : Z; fa_fsid : Z; fa_fileid : Z;
  fa_atime : Z * Z; fa_mtime : Z * Z; fa_ctime : Z * Z
}.

Definition decode_nfstime3 : Dec (Z * Z) :=
  s ← xdrDecodeUint32; n ← xdrDecodeUint32; mret (s, n).

Definition decode_fattr3 : Dec fattr3 :=
  ty ← xdrDecodeUint32; mode ← xdrDecodeUint32; nlink ← xdrDecodeUint32;
  uid ← xdrDecodeUint32; gid ← xdrDecodeUint32;
  size ← binary_ReadUint64; used ← binary_ReadUint64;
  r1 ← xdrDecodeUint32; r2 ← xdrDecodeUint32;
  fsid ← binary_ReadUint64; fileid ← binary_ReadUint64;
  at_ ← decode_nfstime3; mt ← decode_nfstime3; ct ← decode_nfstime3;
  mret (mkFattr3 ty mode nlink uid gid size used r1 r2 fsid fileid at_ mt ct).

(** An instant as the seconds and nanoseconds the wire carries. *)
Definition nfstime3_of (t : Z) : Z * Z := (u32 (time_Unix_sec t), time_Nanosecond t).

(** The [fattr3] a client is meant to see. *)
Definition fattr3_of (a : NFSAttrs) : fattr3 :=
  mkFattr3 (ftype_of_mode (Mode a)) (Z.land (Mode a) os_ModePerm)
    (if ftype_of_mode (Mode a) =? NF3DIR then 2 else 1)
    (Uid a) (Gid a) (u64 (Size a)) (u64 (Size a)) 0 0 0 (FileId a)
    (nfstime3_of (atime a)) (nfstime3_of (mtime a)) (nfstime3_of (mtime a)).

(** ** Lemmas *)

Lemma ftype_of_mode_range m : 1 <= ftype_of_mode m <= 7.
Proof. unfold ftype_of_mode. repeat case_match; by vm_compute. Qed.

Lemma perm_range m : 0 <= Z.land m os_ModePerm < 2 ^ 9.
Proof.
  change os_ModePerm with (Z.ones 9). rewrite Z.land_ones by lia.
  apply Z.mod_pos_bound. lia.
Qed.

Lemma time_Nanosecond_range t : 0 <= time_Nanosecond t < second.
Proof. apply Z.mod_pos_bound. unfold second. lia. Qed.

Lemma encodeFileAttributes_length a : length (encodeFileAttributes a) = 84%nat.
Proof.
  unfold encodeFileAttributes, xdrEncodeUint32, xdrEncodeUint64.
  by rewrite !length_app, !be_bytes_length.
Qed.

Lemma encodeWccAttr_length a : length (encodeWccAttr a) = 24%nat.
Proof.
  unfold encodeWccAttr, xdrEncodeUint32, xdrEncodeUint64.
  by rewrite !length_app, !be_bytes_length.
Qed.

(** Side conditions of the decoding lemmas. *)
Ltac solve_range :=
  first
    [ apply u32_range | apply u64_range | assumption
    | match goal with
      | |- is_u32 (ftype_of_mode ?m) => pose proof (ftype_of_mode_range m); unfold is_u32; lia
      | |- is_u32 (Z.land ?m os_ModePerm) => pose proof (perm_range m); unfold is_u32; lia
      | |- is_u32 (if _ then _ else _) => case_match; unfold is_u32; lia
      end
    | unfold is_u32, is_u64; lia ].

(** Run the decoders over a concatenation of encodings. *)
Ltac run_dec :=
  repeat first
    [ rewrite xdrDecodeUint32_encode by solve_range
    | rewrite binary_ReadUint64_encode by solve_range
    | progress cbn beta iota ].

Lemma decode_encode_fattr3 a r :
  attrs_wf a ->
  decode_fattr3 (encodeFileAttributes a ++ r) = (Ok (fattr3_of a), r).
Proof.
  intros (Hm & Hs & Hf & Hu & Hg).
  unfold decode_fattr3, decode_nfstime3, encodeFileAttributes, mbind, Dec_bind, mret, Dec_ret.
  rewrite <- !app_assoc. run_dec.
  unfold fattr3_of, nfstime3_of.
  rewrite !(u32_small (time_Nanosecond _))
    by (pose proof (time_Nanosecond_range (atime a)); pose proof (time_Nanosecond_range (mtime a));
        unfold is_u32, second in *; lia).
  done.
Qed.

(** ** Properties *)

(** [encodeFileAttributes] writes the RFC 1813 [fattr3].  For attributes
    in Go's field ranges the 84 bytes it emits are decoded, field by field, as
    the record the attributes stand for: the type from the mode bits, the
    permission bits alone, two links for a directory, the size as an unsigned
    64-bit number, zero device and file-system ids, the file id, and the
    change time equal to the modification time. *)
Theorem encodeFileAttributes_fattr3 (a : NFSAttrs) (rest : list byte) (Hwf : attrs_wf a) :
  decode_fattr3 (encodeFileAttributes a ++ rest) = (Ok (fattr3_of a), rest) /\
  length (encodeFileAttributes a) = 84%nat.
Proof. split; [by apply decode_encode_fattr3 | apply encodeFileAttributes_length]. Qed.

Lemma encodeFileAttributes_fattr3_witness :
  let a := mkNFSAttrs (os_ModeDir + 493) 4096 7 1700000000123456789 1700000000000000000 0 0 0 in
  attrs_wf a /\
  decode_fattr3 (encodeFileAttributes a ++ [])
  = (Ok (mkFattr3 NF3DIR 493 2 0 0 4096 4096 0 0 0 7
           (1700000000, 0) (1700000000, 123456789) (1700000000, 123456789)), []).
Proof.
  intros a. assert (attrs_wf a) as Hwf.
  { repeat split; vm_compute; (discriminate || reflexivity). }
  split; [exact Hwf|].
  destruct (encodeFileAttributes_fattr3 a [] Hwf) as [E _]. rewrite E. reflexivity.
Defined.
