(* ===== verification/Rpc.v ===== *)
(** * ONC RPC messages (src/rpc_types.go)

    The call header and its decoder, the AUTH_SYS credential parser and the
    reply encoder.  The client side ([encode_call], [encode_authsys],
    [decode_reply]) is the RFC 1831 message format, which the round trips are
    stated against. *)

From S2P Require Import Prelude Errors Xdr Attributes.
Open Scope Z_scope.

(** ** Constants *)

Definition RPC_CALL := 0.
Definition RPC_REPLY := 1.
Definition AUTH_NONE := 0.
Definition AUTH_SYS := 1.
Definition AUTH_SHORT := 2.
Definition AUTH_DH := 3.
Definition MAX_RPC_AUTH_LENGTH := 400.
Definition MSG_ACCEPTED := 0.
Definition MSG_DENIED := 1.
Definition SUCCESS := 0.
Definition PROG_UNAVAIL := 1.
Definition PROG_MISMATCH := 2.
Definition PROC_UNAVAIL := 3.
Definition GARBAGE_ARGS := 4.
Definition SYSTEM_ERR := 5.
Definition RPC_MISMATCH := 0.
Definition AUTH_ERROR := 1.
Definition MOUNT_PROGRAM := 100005.
Definition NFS_PROGRAM := 100003.
Definition MOUNT_V3 := 3.
Definition NFS_V3 := 3.

(** ** Messages *)

Record RPCMsgHeader := mkRPCMsgHeader {
  Xid : Z; MsgType : Z; RPCVersion : Z; Program : Z; Version : Z; Procedure : Z
}.

Record RPCCredential := mkRPCCredential { cred_Flavor : Z; cred_Body : list byte }.
Record RPCVerifier := mkRPCVerifier { verf_Flavor : Z; verf_Body : list byte }.

Record RPCCall := mkRPCCall {
  call_Header : RPCMsgHeader;
  Credential : RPCCredential;
  call_Verifier : RPCVerifier
}.

Record AuthSysCredential := mkAuthSys {
  Stamp : Z; MachineName : string; UID : Z; GID : Z; AuxGIDs : list Z
}.

(** The dynamic types [EncodeRPCReply] distinguishes in [reply.Data]. *)
Inductive ReplyData :=
| DataNil
| DataBytes (b : list byte)
| DataAttrs (a : NFSAttrs)
| DataString (s : string)
| DataUint32 (v : Z)
| DataOther.

Record RPCReply := mkRPCReply {
  reply_Header : RPCMsgHeader;
  Status : Z;
  AcceptStatus : Z;
  reply_Verifier : RPCVerifier;
  Data : ReplyData
}.

Definition set_Status (r : RPCReply) (v : Z) : RPCReply :=
  mkRPCReply (reply_Header r) v (AcceptStatus r) (reply_Verifier r) (Data r).
Definition set_AcceptStatus (r : RPCReply) (v : Z) : RPCReply :=
  mkRPCReply (reply_Header r) (Status r) v (reply_Verifier r) (Data r).
Definition set_Data (r : RPCReply) (d : ReplyData) : RPCReply :=
  mkRPCReply (reply_Header r) (Status r) (AcceptStatus r) (reply_Verifier r) d.

(** ** DecodeRPCCall *)

(** An opaque body of at most [MAX_RPC_AUTH_LENGTH] bytes and its padding:
    the credential and verifier bodies of [DecodeRPCCall]. *)
Definition decode_auth_body (what : string) : Dec (list byte) :=
  len ← Dec_wrap ("failed to decode length: " +:+ what) xdrDecodeUint32;
  if MAX_RPC_AUTH_LENGTH <? len
  then Dec_fail (ErrorString (what +:+ " length exceeds maximum allowed length"))
  else
    body ← Dec_wrap ("failed to read body: " +:+ what) (io_ReadFull (Z.to_nat len));
    _ ← Dec_wrap ("failed to read padding: " +:+ what) (io_ReadFull (Z.to_nat (xdr_pad len)));
    mret body.

Definition DecodeRPCCall : Dec RPCCall :=
  xid ← Dec_wrap "failed to decode XID" xdrDecodeUint32;
  msgType ← Dec_wrap "failed to decode message type" xdrDecodeUint32;
  if negb (msgType =? RPC_CALL)
  then Dec_fail (ErrorString "expected RPC call, got message type")
  else
    rpcvers ← Dec_wrap "failed to decode RPC version" xdrDecodeUint32;
    prog ← Dec_wrap "failed to decode program" xdrDecodeUint32;
    vers ← Dec_wrap "failed to decode version" xdrDecodeUint32;
    proc ← Dec_wrap "failed to decode procedure" xdrDecodeUint32;
    cflavor ← Dec_wrap "failed to decode credential flavor" xdrDecodeUint32;
    cbody ← decode_auth_body "credential";
    vflavor ← Dec_wrap "failed to decode verifier flavor" xdrDecodeUint32;
    vbody ← decode_auth_body "verifier";
    mret (mkRPCCall (mkRPCMsgHeader xid msgType rpcvers prog vers proc)
            (mkRPCCredential cflavor cbody) (mkRPCVerifier vflavor vbody)).

(** ** EncodeRPCReply *)

Definition EncodeRPCReply (reply : RPCReply) : list byte :=
  xdrEncodeUint32 (Xid (reply_Header reply)) ++
  xdrEncodeUint32 RPC_REPLY ++
  xdrEncodeUint32 (Status reply) ++
  if Status reply =? MSG_ACCEPTED then
    let vbody := verf_Body (reply_Verifier reply) in
    xdrEncodeUint32 (verf_Flavor (reply_Verifier reply)) ++
    xdrEncodeUint32 (u32 (zlen vbody)) ++
    (if 0 <? zlen vbody
     then vbody ++ replicate (Z.to_nat (xdr_pad (zlen vbody))) x00
     else []) ++
    xdrEncodeUint32 (AcceptStatus reply) ++
    if AcceptStatus reply =? PROG_MISMATCH then
      xdrEncodeUint32 3 ++ xdrEncodeUint32 3
    else if AcceptStatus reply =? SUCCESS then
      match Data reply with
      | DataNil => []
      | DataBytes data => data
      | DataAttrs a => encodeFileAttributes a
      | DataString s => xdrEncodeString s
      | DataUint32 v => xdrEncodeUint32 v
      | DataOther => []
      end
    else []
  else
    xdrEncodeUint32 AUTH_ERROR ++ xdrEncodeUint32 1.

(** ** AUTH_SYS credentials *)

(** [byteReader]: a byte slice and the position in it. *)
Record byteReader := mkByteReader { br_data : list byte; br_pos : Z }.

Definition BR (A : Type) : Type := byteReader -> result (A * byteReader).
#[export] Instance BR_ret : MRet BR := fun A a r => Ok (a, r).
#[export] Instance BR_bind : MBind BR := fun A B f m r =>
  match m r with Ok (a, r') => f a r' | Err e => Err e end.
Definition BR_fail {A} (e : error) : BR A := fun _ => Err e.

(** [data[lo:hi]] *)
Definition slice (data : list byte) (lo hi : Z) : list byte :=
  take (Z.to_nat (hi - lo)) (drop (Z.to_nat lo) data).

Definition readUint32 : BR Z := fun r =>
  if zlen (br_data r) <? br_pos r + 4
  then Err (ErrorString "not enough data for uint32")
  else Ok (be_val (slice (br_data r) (br_pos r) (br_pos r + 4)),
           mkByteReader (br_data r) (br_pos r + 4)).

Definition readString : BR string :=
  length ← readUint32;
  if MAX_XDR_STRING_LENGTH <? length
  then BR_fail (ErrorString "string length exceeds maximum")
  else fun r =>
    let paddedLength := round_up4 length in
    if zlen (br_data r) <? br_pos r + paddedLength
    then Err (ErrorString "not enough data for string")
    else Ok (string_of_bytes (slice (br_data r) (br_pos r) (br_pos r + length)),
             mkByteReader (br_data r) (br_pos r + paddedLength)).

(** The loop over the auxiliary group ids. *)
Fixpoint readUint32s (n : nat) : BR (list Z) :=
  match n with
  | O => mret []
  | S n => g ← readUint32; gs ← readUint32s n; mret (g :: gs)
  end.

Definition ParseAuthSysCredential (body : list byte) : result AuthSysCredential :=
  if zlen body =? 0 then Err (ErrorString "empty AUTH_SYS credential body")
  else
    match
      (stamp ← readUint32;
       machine ← readString;
       uid ← readUint32;
       gid ← readUint32;
       gidCount ← readUint32;
       if 16 <? gidCount then BR_fail (ErrorString "too many auxiliary GIDs")
       else
         gids ← readUint32s (Z.to_nat gidCount);
         mret (mkAuthSys stamp machine uid gid gids)) (mkByteReader body 0)
    with
    | Ok (cred, _) => Ok cred
    | Err e => Err e
    end.

(** ** The client's side of the wire (RFC 1831) *)

Definition encode_opaque (b : list byte) : list byte :=
  xdrEncodeUint32 (zlen b) ++ b ++ replicate (Z.to_nat (xdr_pad (zlen b))) x00.

Definition encode_call (c : RPCCall) : list byte :=
  xdrEncodeUint32 (Xid (call_Header c)) ++ xdrEncodeUint32 (MsgType (call_Header c)) ++
  xdrEncodeUint32 (RPCVersion (call_Header c)) ++ xdrEncodeUint32 (Program (call_Header c)) ++
  xdrEncodeUint32 (Version (call_Header c)) ++ xdrEncodeUint32 (Procedure (call_Header c)) ++
  xdrEncodeUint32 (cred_Flavor (Credential c)) ++ encode_opaque (cred_Body (Credential c)) ++
  xdrEncodeUint32 (verf_Flavor (call_Verifier c)) ++ encode_opaque (verf_Body (call_Verifier c)).

Definition encode_authsys (a : AuthSysCredential) : list byte :=
  xdrEncodeUint32 (Stamp a) ++ xdrEncodeString (MachineName a) ++
  xdrEncodeUint32 (UID a) ++ xdrEncodeUint32 (GID a) ++
  xdrEncodeUint32 (zlen (AuxGIDs a)) ++ mjoin (xdrEncodeUint32 <$> AuxGIDs a).

Definition call_wf (c : RPCCall) : Prop :=
  is_u32 (Xid (call_Header c)) /\ MsgType (call_Header c) = RPC_CALL /\
  is_u32 (RPCVersion (call_Header c)) /\ is_u32 (Program (call_Header c)) /\
  is_u32 (Version (call_Header c)) /\ is_u32 (Procedure (call_Header c)) /\
  is_u32 (cred_Flavor (Credential c)) /\ zlen (cred_Body (Credential c)) <= MAX_RPC_AUTH_LENGTH /\
  is_u32 (verf_Flavor (call_Verifier c)) /\ zlen (verf_Body (call_Verifier c)) <= MAX_RPC_AUTH_LENGTH.

Definition authsys_wf (a : AuthSysCredential) : Prop :=
  is_u32 (Stamp a) /\ slen (MachineName a) <= MAX_XDR_STRING_LENGTH /\
  is_u32 (UID a) /\ is_u32 (GID a) /\ zlen (AuxGIDs a) <= 16 /\ Forall is_u32 (AuxGIDs a).

(** What a client reads from an accepted reply: the transaction id, the
    verifier, the accept status and the bytes that follow. *)
Record accepted_reply := mkAccepted {
  ar_xid : Z; ar_verf : RPCVerifier; ar_stat : Z; ar_rest : list byte
}.

Definition decode_opaque : Dec (list byte) :=
  len ← xdrDecodeUint32;
  b ← io_ReadFull (Z.to_nat len);
  _ ← io_ReadFull (Z.to_nat (xdr_pad len));
  mret b.

(** [None] for a message that is not an accepted reply. *)
Definition decode_accepted (msg : list byte) : option accepted_reply :=
  match
    (xid ← xdrDecodeUint32; mt ← xdrDecodeUint32; st ← xdrDecodeUint32;
     fl ← xdrDecodeUint32; vb ← decode_opaque; ast ← xdrDecodeUint32;
     mret (xid, mt, st, fl, vb, ast)) msg
  with
  | (Ok (xid, mt, st, fl, vb, ast), rest) =>
      if (mt =? RPC_REPLY) && (st =? MSG_ACCEPTED)
      then Some (mkAccepted xid (mkRPCVerifier fl vb) ast rest)
      else None
  | _ => None
  end.

(** ** Lemmas *)

Lemma zlen_xdrEncodeUint32 v : zlen (xdrEncodeUint32 v) = 4.
Proof. unfold zlen, xdrEncodeUint32. by rewrite be_bytes_length. Qed.

Lemma be_val_xdrEncodeUint32 v : is_u32 v -> be_val (xdrEncodeUint32 v) = v.
Proof. apply be_val_bytes_u32. Qed.

Lemma Dec_wrap_Ok {A} msg (m : Dec A) r a r' :
  m r = (Ok a, r') -> Dec_wrap msg m r = (Ok a, r').
Proof. intros E. unfold Dec_wrap. by rewrite E. Qed.

Lemma Dec_wrap_inv {A} msg (m : Dec A) r a r' :
  Dec_wrap msg m r = (Ok a, r') -> m r = (Ok a, r').
Proof. unfold Dec_wrap. by destruct (m r) as [[] ]. Qed.

Lemma Dec_bind_inv {A B} (f : A -> Dec B) (m : Dec A) r b r' :
  (m ≫= f) r = (Ok b, r') -> exists a r1, m r = (Ok a, r1) /\ f a r1 = (Ok b, r').
Proof.
  unfold mbind, Dec_bind. destruct (m r) as [[a|e] r1] eqn:E; [|done].
  intros H. exists a, r1. done.
Qed.

(** Split a successful decoder run into its steps. *)
Ltac dec_inv H :=
  lazymatch type of H with
  | (_ ≫= _) _ = (Ok _, _) =>
      let a := fresh "a" in let r := fresh "r" in let E := fresh "E" in
      apply Dec_bind_inv in H as (a & r & E & H);
      try apply Dec_wrap_inv in E
  end.

Lemma Dec_bind_Ok {A B} (f : A -> Dec B) (m : Dec A) r a r' :
  m r = (Ok a, r') -> (m ≫= f) r = f a r'.
Proof. intros E. unfold mbind, Dec_bind. by rewrite E. Qed.

Lemma decode_opaque_encode b r :
  zlen b < 2 ^ 32 -> decode_opaque (encode_opaque b ++ r) = (Ok b, r).
Proof.
  intros Hb. pose proof (zlen_nonneg b). pose proof (xdr_pad_range (zlen b)).
  unfold decode_opaque, encode_opaque. rewrite <- !app_assoc.
  rewrite (Dec_bind_Ok _ _ _ (zlen b) _)
    by (apply xdrDecodeUint32_encode; unfold is_u32; lia).
  rewrite (Dec_bind_Ok _ _ _ b _) by (apply io_ReadFull_app'; unfold zlen; lia).
  erewrite (Dec_bind_Ok _ _ _ _ r); [done|].
  apply io_ReadFull_app'. by rewrite length_replicate.
Qed.

Lemma decode_auth_body_encode what b r :
  zlen b <= MAX_RPC_AUTH_LENGTH ->
  decode_auth_body what (encode_opaque b ++ r) = (Ok b, r).
Proof.
  intros Hb. pose proof (zlen_nonneg b). pose proof (xdr_pad_range (zlen b)).
  unfold decode_auth_body, encode_opaque, MAX_RPC_AUTH_LENGTH in *. rewrite <- !app_assoc.
  rewrite (Dec_bind_Ok _ _ _ (zlen b) _)
    by (apply Dec_wrap_Ok, xdrDecodeUint32_encode; unfold is_u32; lia).
  destruct (Z.ltb_spec 400 (zlen b)); [lia|].
  rewrite (Dec_bind_Ok _ _ _ b _)
    by (apply Dec_wrap_Ok, io_ReadFull_app'; unfold zlen; lia).
  erewrite (Dec_bind_Ok _ _ _ _ r); [done|].
  apply Dec_wrap_Ok, io_ReadFull_app'. by rewrite length_replicate.
Qed.

Lemma decode_auth_body_Ok what r b r' :
  decode_auth_body what r = (Ok b, r') ->
  zlen b <= MAX_RPC_AUTH_LENGTH /\
  exists pad, r = xdrEncodeUint32 (zlen b) ++ b ++ pad ++ r' /\ zlen pad = xdr_pad (zlen b).
Proof.
  unfold decode_auth_body. intros H. dec_inv H.
  apply xdrDecodeUint32_Ok in E as [Ha ->]. unfold is_u32 in Ha.
  destruct (Z.ltb_spec MAX_RPC_AUTH_LENGTH a); [done|].
  dec_inv H. apply io_ReadFull_Ok in E as [-> Hb].
  dec_inv H. apply io_ReadFull_Ok in E as [-> Hp].
  unfold mret, Dec_ret in H. injection H as <- <-.
  assert (zlen a0 = a) as -> by (unfold zlen; lia).
  split; [done|]. exists a1. split; [done|].
  pose proof (xdr_pad_range a). unfold zlen. lia.
Qed.

#[local] Opaque encode_opaque xdrEncodeUint32 xdrEncodeString.

Lemma DecodeRPCCall_encode c r :
  call_wf c -> DecodeRPCCall (encode_call c ++ r) = (Ok c, r).
Proof.
  destruct c as [[xid mt rv prog vers proc] [cf cb] [vf vb]].
  unfold call_wf, encode_call, DecodeRPCCall; simpl.
  intros (? & -> & ? & ? & ? & ? & ? & ? & ? & ?). rewrite <- !app_assoc.
  assert (forall v q, is_u32 v -> forall m, Dec_wrap m xdrDecodeUint32 (xdrEncodeUint32 v ++ q) = (Ok v, q))
    as Hstep by (intros; by apply Dec_wrap_Ok, xdrDecodeUint32_encode).
  erewrite Dec_bind_Ok by (by apply Hstep).
  erewrite Dec_bind_Ok by (apply Hstep; unfold is_u32, RPC_CALL; lia).
  cbn [negb Z.eqb RPC_CALL].
  erewrite Dec_bind_Ok by (by apply Hstep).
  erewrite Dec_bind_Ok by (by apply Hstep).
  erewrite Dec_bind_Ok by (by apply Hstep).
  erewrite Dec_bind_Ok by (by apply Hstep).
  erewrite Dec_bind_Ok by (by apply Hstep).
  erewrite Dec_bind_Ok by (by apply decode_auth_body_encode).
  erewrite Dec_bind_Ok by (by apply Hstep).
  by erewrite Dec_bind_Ok by (by apply decode_auth_body_encode).
Qed.

Lemma DecodeRPCCall_wf r c r' : DecodeRPCCall r = (Ok c, r') -> call_wf c.
Proof.
  unfold DecodeRPCCall. intros H. do 2 dec_inv H.
  destruct (Z.eqb_spec a0 RPC_CALL) as [->|]; [|done]. cbn [negb] in H.
  do 8 dec_inv H.
  unfold mret, Dec_ret in H. injection H as <- <-.
  repeat match goal with
  | E : xdrDecodeUint32 _ = (Ok _, _) |- _ => apply xdrDecodeUint32_Ok in E as [? _]
  | E : decode_auth_body _ _ = (Ok _, _) |- _ => apply decode_auth_body_Ok in E as [? _]
  end.
  unfold call_wf; simpl. tauto.
Qed.

(** *** The byte reader at the end of a prefix *)

Definition br_at (pre post : list byte) : byteReader := mkByteReader (pre ++ post) (zlen pre).

Lemma slice_mid pre x post :
  slice (pre ++ x ++ post) (zlen pre) (zlen pre + zlen x) = x.
Proof.
  unfold slice, zlen. rewrite Nat2Z.id, drop_app_length.
  replace (Z.to_nat (Z.of_nat (length pre) + Z.of_nat (length x) - Z.of_nat (length pre)))
    with (length x) by lia.
  apply take_app_length.
Qed.

Lemma readUint32_at pre v post :
  is_u32 v ->
  readUint32 (br_at pre (xdrEncodeUint32 v ++ post))
  = Ok (v, br_at (pre ++ xdrEncodeUint32 v) post).
Proof.
  intros Hv. unfold readUint32, br_at; simpl.
  pose proof (zlen_nonneg post).
  rewrite !zlen_app, zlen_xdrEncodeUint32.
  destruct (Z.ltb_spec (zlen pre + (4 + zlen post)) (zlen pre + 4)); [lia|].
  rewrite <- (zlen_xdrEncodeUint32 v) at 1.
  rewrite slice_mid, <- app_assoc. by rewrite be_val_xdrEncodeUint32.
Qed.

Lemma round_up4_pad n : 0 <= n -> round_up4 n = n + xdr_pad n.
Proof.
  intros Hn. unfold round_up4, xdr_pad. change 3 with (Z.ones 2) at 2.
  rewrite Z.ldiff_ones_r by lia. rewrite Z.shiftr_div_pow2, Z.shiftl_mul_pow2 by lia.
  change (2 ^ 2) with 4. Z.to_euclidean_division_equations. lia.
Qed.

Lemma readString_at pre s post :
  slen s <= MAX_XDR_STRING_LENGTH ->
  readString (br_at pre (xdrEncodeString s ++ post))
  = Ok (s, br_at (pre ++ xdrEncodeString s) post).
Proof.
  intros Hs. pose proof (xdr_pad_range (slen s)) as Hpad.
  assert (0 <= slen s) by (unfold slen; lia). pose proof (zlen_nonneg post).
  rewrite xdrEncodeString_small by (unfold MAX_XDR_STRING_LENGTH in *; lia).
  set (pad := replicate (Z.to_nat (xdr_pad (slen s))) x00).
  assert (zlen pad = xdr_pad (slen s)) as Hpl
    by (unfold zlen, pad; rewrite length_replicate; lia).
  unfold readString, mbind, BR_bind. rewrite <- !app_assoc.
  rewrite readUint32_at by (unfold is_u32, MAX_XDR_STRING_LENGTH in *; lia).
  destruct (Z.ltb_spec MAX_XDR_STRING_LENGTH (slen s)); [lia|].
  unfold br_at; cbn [br_data br_pos].
  rewrite round_up4_pad, !zlen_app, <- slen_bytes, Hpl by done.
  match goal with |- context [?a <? ?b] => destruct (Z.ltb_spec a b) end; [lia|].
  f_equal. f_equal.
  - rewrite <- zlen_app. rewrite slen_bytes, slice_mid. apply string_of_bytes_of_string.
  - f_equal; [by rewrite <- !app_assoc|lia].
Qed.

Lemma readUint32s_at pre gs post :
  Forall is_u32 gs ->
  readUint32s (length gs) (br_at pre (mjoin (xdrEncodeUint32 <$> gs) ++ post))
  = Ok (gs, br_at (pre ++ mjoin (xdrEncodeUint32 <$> gs)) post).
Proof.
  intros Hgs. revert pre. induction Hgs as [|g gs Hg Hgs IH]; intros pre; simpl.
  - unfold mret, BR_ret. by rewrite app_nil_r.
  - unfold mbind, BR_bind. rewrite <- app_assoc, readUint32_at by done.
    rewrite IH. unfold mret, BR_ret. by rewrite <- app_assoc.
Qed.

Lemma BR_bind_Ok {A B} (f : A -> BR B) (m : BR A) r a r' :
  m r = Ok (a, r') -> (m ≫= f) r = f a r'.
Proof. intros E. unfold mbind, BR_bind. by rewrite E. Qed.

Lemma ParseAuthSysCredential_encode a :
  authsys_wf a -> ParseAuthSysCredential (encode_authsys a) = Ok a.
Proof.
  destruct a as [st name uid gid gs]. unfold authsys_wf; simpl.
  intros (? & ? & ? & ? & ? & ?). pose proof (zlen_nonneg gs).
  unfold ParseAuthSysCredential.
  destruct (Z.eqb_spec (zlen (encode_authsys (mkAuthSys st name uid gid gs))) 0) as [E|_].
  { unfold encode_authsys in E. rewrite zlen_app, zlen_xdrEncodeUint32 in E.
    pose proof (zlen_nonneg (xdrEncodeString name ++ xdrEncodeUint32 uid ++ xdrEncodeUint32 gid
      ++ xdrEncodeUint32 (zlen gs) ++ mjoin (xdrEncodeUint32 <$> gs))). simpl in E. lia. }
  change (mkByteReader ?d 0) with (br_at [] d).
  unfold encode_authsys; cbn [Stamp MachineName UID GID AuxGIDs].
  rewrite <- (app_nil_r (mjoin _)).
  erewrite BR_bind_Ok by (by apply readUint32_at).
  erewrite BR_bind_Ok by (by apply readString_at).
  erewrite BR_bind_Ok by (by apply readUint32_at).
  erewrite BR_bind_Ok by (by apply readUint32_at).
  erewrite BR_bind_Ok by (apply readUint32_at; unfold is_u32; lia).
  destruct (Z.ltb_spec 16 (zlen gs)); [lia|].
  erewrite BR_bind_Ok; [done|].
  unfold zlen at 1. rewrite Nat2Z.id. by apply readUint32s_at.
Qed.

(** *** Replies *)

(** The procedure results an accepted reply carries. *)
Definition reply_payload (reply : RPCReply) : list byte :=
  if AcceptStatus reply =? PROG_MISMATCH then xdrEncodeUint32 3 ++ xdrEncodeUint32 3
  else if AcceptStatus reply =? SUCCESS then
    match Data reply with
    | DataBytes data => data
    | DataAttrs a => encodeFileAttributes a
    | DataString s => xdrEncodeString s
    | DataUint32 v => xdrEncodeUint32 v
    | DataNil | DataOther => []
    end
  else [].

#[local] Transparent encode_opaque.

Lemma EncodeRPCReply_accepted reply :
  Status reply = MSG_ACCEPTED -> zlen (verf_Body (reply_Verifier reply)) < 2 ^ 32 ->
  EncodeRPCReply reply =
    xdrEncodeUint32 (Xid (reply_Header reply)) ++ xdrEncodeUint32 RPC_REPLY ++
    xdrEncodeUint32 MSG_ACCEPTED ++
    xdrEncodeUint32 (verf_Flavor (reply_Verifier reply)) ++
    encode_opaque (verf_Body (reply_Verifier reply)) ++
    xdrEncodeUint32 (AcceptStatus reply) ++ reply_payload reply.
Proof.
  intros Hs Hv. unfold EncodeRPCReply, encode_opaque, reply_payload. rewrite Hs.
  cbn [Z.eqb MSG_ACCEPTED]. do 4 f_equal.
  pose proof (zlen_nonneg (verf_Body (reply_Verifier reply))).
  rewrite u32_small by (unfold is_u32; lia). rewrite <- !app_assoc. f_equal.
  destruct (verf_Body (reply_Verifier reply)) as [|b l] eqn:E; [done|].
  destruct (Z.ltb_spec 0 (zlen (b :: l))) as [|Hc]; [by rewrite <- !app_assoc|].
  unfold zlen in Hc; simpl in Hc; lia.
Qed.

#[local] Opaque encode_opaque.

(** ** Properties *)

(** RPC calls survive the wire.  Whatever a conforming client sends (any
    32-bit header fields, message type CALL, credential and verifier bodies of
    at most 400 bytes) [DecodeRPCCall] returns it unchanged and leaves the
    procedure arguments in the reader. *)
Theorem rpc_call_roundtrip (c : RPCCall) (args : list byte) (Hwf : call_wf c) :
  DecodeRPCCall (encode_call c ++ args) = (Ok c, args).
Proof. by apply DecodeRPCCall_encode. Qed.

Lemma rpc_call_roundtrip_witness :
  let c := mkRPCCall (mkRPCMsgHeader 77 0 2 NFS_PROGRAM NFS_V3 1)
             (mkRPCCredential AUTH_SYS [x01; x02; x03]) (mkRPCVerifier AUTH_NONE []) in
  DecodeRPCCall (encode_call c ++ [x0a]) = (Ok c, [x0a]).
Proof.
  intros c. apply (rpc_call_roundtrip c [x0a]).
  repeat split; vm_compute; (reflexivity || discriminate).
Defined.

(** Nothing larger than the protocol limits enters the server.  A call
    [DecodeRPCCall] accepts has message type CALL, 32-bit header fields and
    credential and verifier bodies of at most [MAX_RPC_AUTH_LENGTH] bytes. *)
Theorem rpc_call_bounds (r r' : list byte) (c : RPCCall)
    (Hdec : DecodeRPCCall r = (Ok c, r')) :
  call_wf c.
Proof. by eapply DecodeRPCCall_wf. Qed.

Lemma rpc_call_bounds_witness :
  call_wf (mkRPCCall (mkRPCMsgHeader 1 0 2 3 4 5) (mkRPCCredential 0 []) (mkRPCVerifier 0 [])).
Proof.
  eapply (rpc_call_bounds
    (encode_call (mkRPCCall (mkRPCMsgHeader 1 0 2 3 4 5) (mkRPCCredential 0 []) (mkRPCVerifier 0 [])))
    []).
  vm_compute. reflexivity.
Defined.

(** AUTH_SYS credentials survive the wire: [ParseAuthSysCredential]
    recovers the stamp, machine name, user, group and (at most 16) auxiliary
    groups a client encoded. *)
Theorem authsys_roundtrip (a : AuthSysCredential) (Hwf : authsys_wf a) :
  ParseAuthSysCredential (encode_authsys a) = Ok a.
Proof. by apply ParseAuthSysCredential_encode. Qed.

Lemma authsys_roundtrip_witness :
  let a := mkAuthSys 5 "client" 1000 100 [4; 24; 27] in
  ParseAuthSysCredential (encode_authsys a) = Ok a.
Proof.
  intros a. apply (authsys_roundtrip a).
  unfold authsys_wf, is_u32; cbn. unfold slen, zlen, MAX_XDR_STRING_LENGTH; cbn.
  repeat split; try lia. repeat constructor; lia.
Defined.

(** Accepted replies are well framed.  A client that parses the bytes of
    [EncodeRPCReply] finds the transaction id of the call, the verifier and
    the accept status, followed by exactly the procedure results: the version
    range 3..3 for PROG_MISMATCH, the encoded data for SUCCESS and nothing for
    any other status. *)
Theorem rpc_reply_roundtrip (reply : RPCReply)
    (Hacc : Status reply = MSG_ACCEPTED)
    (Hxid : is_u32 (Xid (reply_Header reply)))
    (Hfl : is_u32 (verf_Flavor (reply_Verifier reply)))
    (Hvb : zlen (verf_Body (reply_Verifier reply)) < 2 ^ 32)
    (Hast : is_u32 (AcceptStatus reply)) :
  decode_accepted (EncodeRPCReply reply) =
    Some (mkAccepted (Xid (reply_Header reply)) (reply_Verifier reply)
            (AcceptStatus reply) (reply_payload reply)).
Proof.
  rewrite EncodeRPCReply_accepted by assumption. unfold decode_accepted.
  erewrite Dec_bind_Ok by (by apply xdrDecodeUint32_encode).
  erewrite Dec_bind_Ok by (apply xdrDecodeUint32_encode; unfold is_u32, RPC_REPLY; lia).
  erewrite Dec_bind_Ok by (apply xdrDecodeUint32_encode; unfold is_u32, MSG_ACCEPTED; lia).
  erewrite Dec_bind_Ok by (by apply xdrDecodeUint32_encode).
  erewrite Dec_bind_Ok by (apply decode_opaque_encode; assumption).
  erewrite Dec_bind_Ok by (by apply xdrDecodeUint32_encode).
  cbn. by destruct (reply_Verifier reply).
Qed.

Lemma rpc_reply_roundtrip_witness :
  let r := mkRPCReply (mkRPCMsgHeader 9 0 2 NFS_PROGRAM 3 1) MSG_ACCEPTED SUCCESS
             (mkRPCVerifier 0 []) (DataUint32 70) in
  decode_accepted (EncodeRPCReply r) =
    Some (mkAccepted 9 (mkRPCVerifier 0 []) SUCCESS (xdrEncodeUint32 70)).
Proof.
  intros r. apply (rpc_reply_roundtrip r); try reflexivity;
    vm_compute; repeat split; (reflexivity || discriminate).
Defined.
