(* ===== verification/XdrTypes.v ===== *)
(** * XDR types (RFC 4506) and the results of NFS and MOUNT (RFC 1813)

    The specification the replies are checked against: a language of XDR types
    with a recogniser, and in it the result type of every procedure.  Nothing
    here is taken from the code; the types are those of the RFCs. *)

From S2P Require Import Prelude Errors Xdr Attributes Rpc.
Open Scope Z_scope.

(** ** Types *)

Inductive xdr :=
  | Void
  | Never                                   (* no value: an arm that a union does not have *)
  | Word (ok : Z -> bool)                   (* 32 bits: integers, booleans, enumerations *)
  | Hyper                                   (* 64 bits *)
  | Fixed (n : nat)                         (* [n] bytes, a multiple of four *)
  | Opaque (max : Z)                        (* a length, that many bytes, zeros up to a word *)
  | Seq (t u : xdr)
  | Union (arm : Z -> xdr)                  (* a discriminant and the arm it selects *)
  | Linked (t : xdr).                       (* a list linked by optional data *)

Definition Uint : xdr := Word (fun _ => true).
Definition Boolean : xdr := Word (fun v => (v =? 0) || (v =? 1)).
Definition Optional (t : xdr) : xdr := Union (fun v => if v =? 0 then Void else if v =? 1 then t else Never).

Declare Scope xdr_scope.
Notation "t ;* u" := (Seq t u) (at level 63, right associativity) : xdr_scope.

(** ** The recogniser *)

(** The next word. *)
Definition word (b : list byte) : option (Z * list byte) :=
  match xdrDecodeUint32 b with (Ok v, r) => Some (v, r) | (Err _, _) => None end.

(** The next [n] bytes. *)
Definition bytes (n : nat) (b : list byte) : option (list byte * list byte) :=
  if (n <=? length b)%nat then Some (take n b, drop n b) else None.

(** A linked list: every element follows a word 1, and a word 0 ends it. *)
Fixpoint linked (t : list byte -> option (list byte)) (fuel : nat) (b : list byte) : option (list byte) :=
  match fuel with
  | O => None
  | S fuel =>
      '(v, r) ← word b;
      if v =? 0 then Some r else if v =? 1 then t r ≫= linked t fuel else None
  end.

(** What follows a value of the type at the start of [b]. *)
Fixpoint recognise (t : xdr) (b : list byte) : option (list byte) :=
  match t with
  | Void => Some b
  | Never => None
  | Word ok => '(v, r) ← word b; if ok v then Some r else None
  | Hyper => snd <$> bytes 8 b
  | Fixed n => snd <$> bytes n b
  | Opaque max =>
      '(n, r) ← word b;
      '(_, r) ← bytes (Z.to_nat n) r;
      '(pad, r) ← bytes (Z.to_nat (xdr_pad n)) r;
      if (n <=? max) && forallb (Byte.eqb x00) pad then Some r else None
  | Seq t u => recognise t b ≫= recognise u
  | Union arm => '(v, r) ← word b; recognise (arm v) r
  | Linked t => linked (recognise t) (S (length b)) b
  end.

(** ** The types of RFC 1813 *)

Open Scope xdr_scope.

Definition opaque : xdr := Opaque (2 ^ 32 - 1).
Definition nfs_fh3 : xdr := Opaque 64.
Definition nfstime3 : xdr := Uint ;* Uint.
Definition ftype3 : xdr := Word (fun v => (1 <=? v) && (v <=? 7)).
Definition fattr3_t : xdr :=
  ftype3 ;* Uint ;* Uint ;* Uint ;* Uint ;*         (* mode, nlink, uid, gid *)
  Hyper ;* Hyper ;* Uint ;* Uint ;*                 (* size, used, rdev *)
  Hyper ;* Hyper ;*                                 (* fsid, fileid *)
  nfstime3 ;* nfstime3 ;* nfstime3.
Definition post_op_attr : xdr := Optional fattr3_t.
Definition post_op_fh3 : xdr := Optional nfs_fh3.
Definition wcc_attr : xdr := Hyper ;* nfstime3 ;* nfstime3.
Definition wcc_data : xdr := Optional wcc_attr ;* post_op_attr.

(** A status and what follows it on success and on failure. *)
Definition Result (ok fail : xdr) : xdr := Union (fun status => if status =? NFS_OK then ok else fail).

Definition created3 : xdr := Result (post_op_fh3 ;* post_op_attr ;* wcc_data) wcc_data.
Definition entry3 : xdr := Hyper ;* opaque ;* Hyper.
Definition entryplus3 : xdr := entry3 ;* post_op_attr ;* post_op_fh3.

(** The result types by procedure number. *)
Definition nfs_result (proc : Z) : xdr :=
  match proc with
  | 1 => Result fattr3_t Void                                                        (* GETATTR *)
  | 2 => Result wcc_data wcc_data                                                  (* SETATTR *)
  | 3 => Result (nfs_fh3 ;* post_op_attr ;* post_op_attr) post_op_attr             (* LOOKUP *)
  | 4 => Result (post_op_attr ;* Uint) post_op_attr                                (* ACCESS *)
  | 5 => Result (post_op_attr ;* opaque) post_op_attr                              (* READLINK *)
  | 6 => Result (post_op_attr ;* Uint ;* Boolean ;* opaque) post_op_attr           (* READ *)
  | 7 => Result (wcc_data ;* Uint ;* Word (fun v => (0 <=? v) && (v <=? 2)) ;* Fixed 8) wcc_data (* WRITE *)
  | 8 | 9 | 10 | 11 => created3                                                    (* CREATE to MKNOD *)
  | 12 | 13 => Result wcc_data wcc_data                                            (* REMOVE, RMDIR *)
  | 14 => Result (wcc_data ;* wcc_data) (wcc_data ;* wcc_data)                     (* RENAME *)
  | 15 => Result (post_op_attr ;* wcc_data) (post_op_attr ;* wcc_data)             (* LINK *)
  | 16 => Result (post_op_attr ;* Fixed 8 ;* Linked entry3 ;* Boolean) post_op_attr      (* READDIR *)
  | 17 => Result (post_op_attr ;* Fixed 8 ;* Linked entryplus3 ;* Boolean) post_op_attr  (* READDIRPLUS *)
  | 18 => Result (post_op_attr ;* Hyper ;* Hyper ;* Hyper ;* Hyper ;* Hyper ;* Hyper ;* Uint)
            post_op_attr                                                           (* FSSTAT *)
  | 19 => Result (post_op_attr ;* Uint ;* Uint ;* Uint ;* Uint ;* Uint ;* Uint ;* Uint ;*
                  Hyper ;* nfstime3 ;* Uint) post_op_attr                          (* FSINFO *)
  | 20 => Result (post_op_attr ;* Uint ;* Uint ;* Boolean ;* Boolean ;* Boolean ;* Boolean)
            post_op_attr                                                           (* PATHCONF *)
  | 21 => Result (wcc_data ;* Fixed 8) wcc_data                                    (* COMMIT *)
  | _ => Void                                                                      (* NULL *)
  end.

(** MOUNT version 3; version 1 differs in MNT, whose handle has 32 bytes. *)
Definition groups : xdr := Linked opaque.
Definition mount_result (vers proc : Z) : xdr :=
  match proc with
  | 1 => if vers =? 1 then Result (Fixed 32) Void
         else Result (nfs_fh3 ;* Union (fun n => if n =? 1 then Uint else Never)) Void
           (* one authentication flavor *)
  | 2 => Linked (opaque ;* opaque)                                                 (* DUMP *)
  | 5 => Linked (opaque ;* groups)                                                 (* EXPORT *)
  | _ => Void                                                                      (* NULL, UMNT, UMNTALL *)
  end.

Definition result_type (h : RPCMsgHeader) : xdr :=
  if Program h =? NFS_PROGRAM then nfs_result (Procedure h)
  else if Program h =? MOUNT_PROGRAM then mount_result (Version h) (Procedure h)
  else Void.

(** A reply of RFC 5531 whose results have the type [t]. *)
Definition accepted_reply (t : xdr) : xdr :=
  Uint ;* Opaque 400 ;*
  Union (fun stat =>
    if stat =? SUCCESS then t
    else if stat =? PROG_MISMATCH then Uint ;* Uint
    else if (stat =? PROG_UNAVAIL) || (stat =? PROC_UNAVAIL) || (stat =? GARBAGE_ARGS) || (stat =? SYSTEM_ERR)
    then Void else Never).
Definition rejected_reply : xdr :=
  Union (fun stat => if stat =? RPC_MISMATCH then Uint ;* Uint else if stat =? AUTH_ERROR then Uint else Never).
Definition rpc_reply (t : xdr) : xdr :=
  Uint ;* Word (fun v => v =? RPC_REPLY) ;*
  Union (fun stat =>
    if stat =? MSG_ACCEPTED then accepted_reply t else if stat =? MSG_DENIED then rejected_reply else Never).

Close Scope xdr_scope.

(** ** Values of a type *)

(** [b] is a value of the type, provided it is short enough for the lengths in
    it to be written in 32 bits. *)
Definition typed (t : xdr) (b : list byte) : Prop := zlen b < 2 ^ 32 -> forall r, recognise t (b ++ r) = Some r.

Lemma typed_seq t u x y : typed t x -> typed u y -> typed (Seq t u) (x ++ y).
Proof.
  intros Ht Hu Hl r. rewrite zlen_app in Hl. pose proof (zlen_nonneg x). pose proof (zlen_nonneg y).
  simpl. rewrite <- app_assoc, Ht by lia. simpl. apply Hu. lia.
Qed.

Lemma word_encode v r : word (xdrEncodeUint32 v ++ r) = Some (v mod 2 ^ 32, r).
Proof.
  unfold word, xdrDecodeUint32, mbind, Dec_bind.
  rewrite io_ReadFull_app' by (symmetry; apply be_bytes_length). unfold mret, Dec_ret.
  unfold xdrEncodeUint32. by rewrite be_val_bytes.
Qed.

Lemma bytes_app n x r : n = length x -> bytes n (x ++ r) = Some (x, r).
Proof.
  intros ->. unfold bytes. rewrite length_app. destruct (Nat.leb_spec (length x) (length x + length r)); [|lia].
  by rewrite take_app_length, drop_app_length.
Qed.

Lemma typed_void : typed Void [].
Proof. done. Qed.

Lemma typed_word ok v : ok (v mod 2 ^ 32) = true -> typed (Word ok) (xdrEncodeUint32 v).
Proof. intros Hv _ r. cbn [recognise]. rewrite word_encode. simpl. by rewrite Hv. Qed.

Lemma typed_uint v : typed Uint (xdrEncodeUint32 v).
Proof. by apply typed_word. Qed.

Lemma typed_hyper v : typed Hyper (xdrEncodeUint64 v).
Proof. intros _ r. cbn [recognise]. by rewrite (bytes_app _ (xdrEncodeUint64 v)) by (symmetry; apply be_bytes_length). Qed.

Lemma typed_fixed n b : length b = n -> typed (Fixed n) b.
Proof. intros <- _ r. cbn [recognise]. by rewrite bytes_app. Qed.

Lemma typed_union arm v t b :
  arm (v mod 2 ^ 32) = t -> typed t b -> typed (Union arm) (xdrEncodeUint32 v ++ b).
Proof.
  intros Ha Ht Hl r. rewrite zlen_app in Hl. pose proof (zlen_nonneg (xdrEncodeUint32 v)).
  cbn [recognise]. rewrite <- app_assoc, word_encode. simpl. rewrite Ha. apply Ht. lia.
Qed.

Lemma typed_none t : typed (Optional t) (xdrEncodeUint32 0).
Proof. rewrite <- (app_nil_r (xdrEncodeUint32 0)). by apply (typed_union _ _ Void). Qed.

Lemma typed_some t b : typed t b -> typed (Optional t) (xdrEncodeUint32 1 ++ b).
Proof. intros Ht. by apply (typed_union _ _ t). Qed.

Lemma typed_opaque max b :
  zlen b <= max ->
  typed (Opaque max) (xdrEncodeUint32 (zlen b) ++ b ++ replicate (Z.to_nat (xdr_pad (zlen b))) x00).
Proof.
  intros Hm Hl r. rewrite !zlen_app in Hl. pose proof (zlen_nonneg (xdrEncodeUint32 (zlen b))).
  pose proof (zlen_nonneg (replicate (Z.to_nat (xdr_pad (zlen b))) x00)). pose proof (zlen_nonneg b).
  cbn [recognise]. rewrite <- !app_assoc, word_encode. simpl. rewrite Z.mod_small by lia.
  rewrite bytes_app by (unfold zlen; lia). simpl. rewrite bytes_app by (symmetry; apply length_replicate). simpl.
  rewrite (proj2 (Z.leb_le _ _) Hm). simpl.
  assert (forall n, forallb (Byte.eqb x00) (replicate n x00) = true) as -> by (induction n; done). done.
Qed.

(** Elements of a linked list, each after its word 1. *)
Inductive items (t : xdr) : list byte -> Prop :=
  | items_nil : items t []
  | items_cons x b : typed t x -> items t b -> items t (xdrEncodeUint32 1 ++ x ++ b).

Lemma items_app t b x : items t b -> typed t x -> items t (b ++ xdrEncodeUint32 1 ++ x).
Proof.
  intros Hb Hx. induction Hb as [|y b Hy _ IH].
  - rewrite <- (app_nil_r x). apply items_cons; [done|constructor].
  - rewrite <- !app_assoc. by apply items_cons.
Qed.

Lemma typed_linked t b : items t b -> typed (Linked t) (b ++ xdrEncodeUint32 0).
Proof.
  intros Hb Hl r. rewrite zlen_app in Hl. cbn [recognise].
  assert (forall fuel, (length b < fuel)%nat -> linked (recognise t) fuel ((b ++ xdrEncodeUint32 0) ++ r) = Some r) as Hgo.
  { assert (zlen b < 2 ^ 32) as Hlb by (pose proof (zlen_nonneg (xdrEncodeUint32 0)); lia). clear Hl.
    induction Hb as [|x b Hx Hb IH]; intros [|fuel] Hf; try (simpl in Hf; lia).
    - cbn [linked app]. by rewrite word_encode.
    - rewrite !zlen_app in Hlb. pose proof (zlen_nonneg x). pose proof (zlen_nonneg b).
      pose proof (zlen_nonneg (xdrEncodeUint32 1)). rewrite !length_app in Hf.
      assert (length (xdrEncodeUint32 1) = 4%nat) as H4 by apply be_bytes_length.
      cbn [linked]. rewrite <- !app_assoc, word_encode.
      change (recognise t (x ++ b ++ xdrEncodeUint32 0 ++ r) ≫= linked (recognise t) fuel = Some r).
      rewrite Hx by lia. rewrite (app_assoc b). apply IH; lia. }
  apply Hgo. rewrite !length_app. lia.
Qed.

(** ** The blocks the server writes *)

Lemma mod_u32 v : is_u32 v -> v mod 2 ^ 32 = v.
Proof. unfold is_u32. intros H. apply Z.mod_small. lia. Qed.

Lemma typed_ok ok fail b : typed ok b -> typed (Result ok fail) (xdrEncodeUint32 NFS_OK ++ b).
Proof. intros H. by apply (typed_union _ _ ok). Qed.

(** A status that is not success. *)
Definition failure (status : Z) : Prop := is_u32 status /\ status <> NFS_OK.

Lemma typed_fail ok fail status b :
  failure status -> typed fail b -> typed (Result ok fail) (xdrEncodeUint32 status ++ b).
Proof.
  intros [Hs Hne] H. apply (typed_union _ _ fail); [|done]. rewrite mod_u32 by done.
  by destruct (Z.eqb_spec status NFS_OK).
Qed.

Lemma typed_fail_void ok status : failure status -> typed (Result ok Void) (xdrEncodeUint32 status).
Proof. intros H. rewrite <- (app_nil_r (xdrEncodeUint32 status)). by apply typed_fail. Qed.

Lemma typed_some_seq t u x y : typed t x -> typed u y -> typed (Seq (Optional t) u) (xdrEncodeUint32 1 ++ x ++ y).
Proof. intros Hx Hy. rewrite app_assoc. apply typed_seq; [by apply typed_some|done]. Qed.

Lemma typed_seq_assoc t u v b : typed (Seq t (Seq u v)) b -> typed (Seq (Seq t u) v) b.
Proof.
  intros Hb Hl r. specialize (Hb Hl r). simpl in *. by destruct (recognise t (b ++ r)).
Qed.

Lemma typed_data b :
  typed opaque (xdrEncodeUint32 (zlen b) ++ b ++ replicate (Z.to_nat (xdr_pad (zlen b))) x00).
Proof.
  intros Hl. pose proof Hl as Hb. rewrite !zlen_app in Hb. pose proof (zlen_nonneg b).
  pose proof (zlen_nonneg (xdrEncodeUint32 (zlen b))).
  pose proof (zlen_nonneg (replicate (Z.to_nat (xdr_pad (zlen b))) x00)).
  refine (typed_opaque (2 ^ 32 - 1) _ _ Hl). lia.
Qed.

Lemma typed_string s : typed opaque (xdrEncodeString s).
Proof.
  unfold xdrEncodeString. rewrite slen_bytes. intros Hl. pose proof Hl as Hb. rewrite !zlen_app in Hb.
  pose proof (zlen_nonneg (bytes_of_string s)).
  pose proof (zlen_nonneg (xdrEncodeUint32 (u32 (zlen (bytes_of_string s))))).
  pose proof (zlen_nonneg (replicate (Z.to_nat (xdr_pad (zlen (bytes_of_string s)))) x00)).
  assert (u32 (zlen (bytes_of_string s)) = zlen (bytes_of_string s)) as E by (apply u32_small; unfold is_u32; lia).
  rewrite E in Hl |- *. by apply typed_data.
Qed.

Lemma typed_handle h : typed nfs_fh3 (xdrEncodeFileHandle h).
Proof.
  unfold xdrEncodeFileHandle. pose proof (typed_opaque 64 (be_bytes 8 h)) as Ht.
  assert (zlen (be_bytes 8 h) = 8) as E by (unfold zlen; by rewrite be_bytes_length).
  rewrite E in Ht. change (replicate (Z.to_nat (xdr_pad 8)) x00) with (@nil byte) in Ht. rewrite app_nil_r in Ht. apply Ht. lia.
Qed.

Lemma typed_handle_seq h u y :
  typed u y -> typed (Seq nfs_fh3 u) (xdrEncodeUint32 8 ++ xdrEncodeUint64 h ++ y).
Proof. intros Hy. rewrite app_assoc. apply typed_seq; [apply typed_handle|done]. Qed.

Lemma typed_flag (b : bool) : typed Boolean (xdrEncodeUint32 (if b then 1 else 0)).
Proof. apply typed_word. by destruct b. Qed.

Lemma typed_true : typed Boolean (xdrEncodeUint32 1).
Proof. exact (typed_flag true). Qed.

Lemma typed_false : typed Boolean (xdrEncodeUint32 0).
Proof. exact (typed_flag false). Qed.

(** Leaves of a type: a hint for each; concatenations are split by the type. *)
Create HintDb typed_db.
#[export] Hint Resolve typed_void typed_uint typed_hyper typed_none typed_data typed_string typed_handle typed_flag
  typed_true typed_false : typed_db.
#[export] Hint Extern 1 (typed (Word _) (xdrEncodeUint32 2)) => apply typed_word; by vm_compute : typed_db.

Ltac typed_step :=
  match goal with
  | |- typed (Seq (Seq _ _) _) _ => apply typed_seq_assoc
  | |- typed (Seq (Optional _) _) (xdrEncodeUint32 1 ++ _ ++ _) => apply typed_some_seq
  | |- typed (Seq nfs_fh3 _) (xdrEncodeUint32 8 ++ xdrEncodeUint64 _ ++ _) => apply typed_handle_seq
  | |- typed (Seq _ _) (_ ++ _) => apply typed_seq
  | |- typed (Optional _) (xdrEncodeUint32 1 ++ _) => apply typed_some
  | |- typed _ _ => solve [auto with typed_db nocore]
  end.
Ltac typed_split := unfold post_op_attr, post_op_fh3, nfstime3 in *; repeat typed_step.

Lemma typed_fattr3 a : typed fattr3_t (encodeFileAttributes a).
Proof.
  unfold encodeFileAttributes, fattr3_t. apply typed_seq; [|typed_split].
  apply typed_word. pose proof (ftype_of_mode_range (Mode a)). rewrite Z.mod_small by lia.
  destruct (Z.leb_spec 1 (ftype_of_mode (Mode a))), (Z.leb_spec (ftype_of_mode (Mode a)) 7); simpl; lia || done.
Qed.

Lemma typed_wcc_attr a : typed wcc_attr (encodeWccAttr a).
Proof. unfold encodeWccAttr, wcc_attr. typed_split. Qed.

#[export] Hint Resolve typed_fattr3 typed_wcc_attr : typed_db.

Lemma typed_wcc_data pre post : typed wcc_data (encodeWccData pre post).
Proof. unfold encodeWccData, wcc_data. typed_split. Qed.

Lemma typed_no_wcc : typed wcc_data (xdrEncodeUint32 0 ++ xdrEncodeUint32 0).
Proof. unfold wcc_data. typed_split. Qed.

#[export] Hint Resolve typed_wcc_data typed_no_wcc : typed_db.
