(* ===== verification/Transport.v ===== *)
(** * Record marking over TCP (src/rpc_transport.go)

    [RecordMarkingReader.ReadRecord] reassembles the fragments of a record
    from the byte stream, [RecordMarkingWriter.WriteRecord] splits a record
    into fragments.  The loops carry fuel: the reader consumes at least four
    bytes per round, so the length of the input is enough
    ([ReadRecord_total]); the writer emits at least one byte per round, so the
    length of the record is. *)

From S2P Require Import Prelude Errors Xdr.
Open Scope Z_scope.

Definition LastFragmentFlag := 0x80000000.
Definition MaxFragmentSize := 0x7FFFFFFF.
Definition DefaultMaxFragmentSize := 1048576.
Definition DefaultMaxRecordSize := 1048576.

(** ** Reading *)

Record RecordMarkingReader := mkReader {
  rd_r : list byte;            (* what the underlying reader will deliver *)
  fragmentBuf : list byte;
  lastFragment : bool;
  complete : bool;
  MaxRecordSize : Z
}.

Definition NewRecordMarkingReader (r : list byte) : RecordMarkingReader :=
  mkReader r [] false false DefaultMaxRecordSize.

(** One pass through the body of the [for !rm.complete] loop. *)
Definition read_fragment (maxSize : Z) (rm : RecordMarkingReader)
    : result unit * RecordMarkingReader :=
  match xdrDecodeUint32 (rd_r rm) with
  | (Err e, r) =>
      (Err (wrapError "failed to read fragment header" e),
       mkReader r (fragmentBuf rm) (lastFragment rm) (complete rm) (MaxRecordSize rm))
  | (Ok header, r) =>
      let last := negb (Z.land header LastFragmentFlag =? 0) in
      let fragmentLen := Z.ldiff header LastFragmentFlag in
      let rm := mkReader r (fragmentBuf rm) last (complete rm) (MaxRecordSize rm) in
      if MaxFragmentSize <? fragmentLen
      then (Err (ErrorString "fragment length exceeds maximum"), rm)
      else if maxSize <? zlen (fragmentBuf rm) + fragmentLen
      then (Err (ErrorString "record size exceeds maximum"), rm)
      else
        match (if 0 <? fragmentLen
               then io_ReadFull (Z.to_nat fragmentLen) (rd_r rm)
               else (Ok [], rd_r rm)) with
        | (Err e, r) =>
            (Err (wrapError "failed to read fragment data" e),
             mkReader r (fragmentBuf rm) last (complete rm) (MaxRecordSize rm))
        | (Ok fragment, r) =>
            (Ok tt, mkReader r (fragmentBuf rm ++ fragment) last
                      (if last then true else complete rm) (MaxRecordSize rm))
        end
  end.

Fixpoint ReadRecord_loop (fuel : nat) (maxSize : Z) (rm : RecordMarkingReader)
    : option (result unit * RecordMarkingReader) :=
  if complete rm then Some (Ok tt, rm)
  else
    match fuel with
    | O => None
    | S fuel =>
        match read_fragment maxSize rm with
        | (Err e, rm') => Some (Err e, rm')
        | (Ok _, rm') => ReadRecord_loop fuel maxSize rm'
        end
    end.

(** The record size limit: [MaxRecordSize], or the default when it is not
    positive. *)
Definition max_record_size (rm : RecordMarkingReader) : Z :=
  if MaxRecordSize rm <=? 0 then DefaultMaxRecordSize else MaxRecordSize rm.

Definition ReadRecord (rm : RecordMarkingReader)
    : option (result (list byte) * RecordMarkingReader) :=
  let rm := mkReader (rd_r rm) [] (lastFragment rm) false (MaxRecordSize rm) in
  match ReadRecord_loop (S (length (rd_r rm))) (max_record_size rm) rm with
  | Some (Ok _, rm') => Some (Ok (fragmentBuf rm'), rm')
  | Some (Err e, rm') => Some (Err e, rm')
  | None => None
  end.

(** ** Writing *)

Record RecordMarkingWriter := mkWriter { wr_w : list byte; maxFragment : Z }.

Definition NewRecordMarkingWriter (w : list byte) : RecordMarkingWriter :=
  mkWriter w DefaultMaxFragmentSize.

Definition NewRecordMarkingWriterWithSize (w : list byte) (maxFragment : Z) : RecordMarkingWriter :=
  mkWriter w (if (maxFragment <=? 0) || (MaxFragmentSize <? maxFragment)
              then DefaultMaxFragmentSize else maxFragment).

(** The [for remaining > 0] loop; the record's rest [data[offset:]] stands for
    [offset] and [remaining]. *)
Fixpoint WriteRecord_loop (fuel : nat) (maxFragment : Z) (data : list byte) : option (list byte) :=
  match data with
  | [] => Some []
  | _ =>
    match fuel with
    | O => None
    | S fuel =>
        let remaining := zlen data in
        let fragmentLen := if maxFragment <? remaining then maxFragment else remaining in
        let header := u32 fragmentLen in
        let header := if remaining =? fragmentLen then Z.lor header LastFragmentFlag else header in
        match WriteRecord_loop fuel maxFragment (drop (Z.to_nat fragmentLen) data) with
        | Some out => Some (xdrEncodeUint32 header ++ take (Z.to_nat fragmentLen) data ++ out)
        | None => None
        end
    end
  end.

Definition WriteRecord (rm : RecordMarkingWriter) (data : list byte) : option RecordMarkingWriter :=
  if (length data =? 0)%nat
  then Some (mkWriter (wr_w rm ++ xdrEncodeUint32 (Z.lor 0 LastFragmentFlag)) (maxFragment rm))
  else
    match WriteRecord_loop (length data) (maxFragment rm) data with
    | Some out => Some (mkWriter (wr_w rm ++ out) (maxFragment rm))
    | None => None
    end.

(** [RecordMarkingConn]: a reader and a writer over the same connection. *)
Record RecordMarkingConn := mkConn { reader : RecordMarkingReader; writer : RecordMarkingWriter }.

Definition NewRecordMarkingConn (r w : list byte) : RecordMarkingConn :=
  mkConn (NewRecordMarkingReader r) (NewRecordMarkingWriter w).

(** ** Reference: a record as a sequence of fragments *)

(** The bytes of one fragment, marked as last or not. *)
Definition fragment_bytes (last : bool) (f : list byte) : list byte :=
  xdrEncodeUint32 (zlen f + if last then LastFragmentFlag else 0) ++ f.

(** A record sent as the fragments [fs] followed by the last fragment [l]. *)
Definition record_bytes (fs : list (list byte)) (l : list byte) : list byte :=
  mjoin (fragment_bytes false <$> fs) ++ fragment_bytes true l.

(** [stream] carries the records, each split into fragments in some way. *)
Inductive framed : list (list byte) -> list byte -> Prop :=
  | framed_nil : framed [] []
  | framed_cons fs l rs stream :
      Forall (fun f => zlen f <= MaxFragmentSize) (fs ++ [l]) -> framed rs stream ->
      framed ((mjoin fs ++ l) :: rs) (record_bytes fs l ++ stream).

(** ** Lemmas *)

Lemma header_flag_len (n : Z) (last : bool) :
  0 <= n <= MaxFragmentSize ->
  let h := n + if last then LastFragmentFlag else 0 in
  is_u32 h /\ negb (Z.land h LastFragmentFlag =? 0) = last /\ Z.ldiff h LastFragmentFlag = n.
Proof.
  unfold MaxFragmentSize, LastFragmentFlag. intros Hn.
  assert (Z.land n 2147483648 = 0) as Hl.
  { apply Z.bits_inj'. intros i Hi. rewrite Z.land_spec, Z.bits_0.
    change 2147483648 with (2 ^ 31). rewrite Z.pow2_bits_eqb by lia.
    destruct (Z.eqb_spec 31 i) as [<-|]; [|by rewrite andb_false_r].
    rewrite andb_true_r. apply Z.testbit_false; [lia|].
    rewrite Z.div_small by lia. done. }
  assert (Z.ldiff n 2147483648 = n) as Hd.
  { pose proof (Z.lor_ldiff_and n 2147483648) as E. by rewrite Hl, Z.lor_0_r in E. }
  destruct last; cbn zeta.
  - split; [unfold is_u32; lia|].
    assert (n + 2147483648 = Z.lor n 2147483648) as ->
      by (rewrite Z.add_nocarry_lxor, Z.lxor_lor by done; done).
    rewrite Z.ldiff_land, !Z.land_lor_distr_l, Hl, Z.land_diag, <- Z.ldiff_land, Hd.
    split; [done|]. by rewrite Z.land_lnot_diag, Z.lor_0_r.
  - rewrite Z.add_0_r, Hl. repeat split; unfold is_u32; [lia..|done].
Qed.

Lemma header_lor n :
  0 <= n <= MaxFragmentSize -> Z.lor n LastFragmentFlag = n + LastFragmentFlag.
Proof.
  intros Hn. destruct (header_flag_len n false) as (_ & Hl & _); [done|].
  rewrite Z.add_0_r in Hl. apply negb_false_iff, Z.eqb_eq in Hl.
  rewrite Z.add_nocarry_lxor, Z.lxor_lor by done. done.
Qed.

Lemma read_fragment_ok maxSize rest buf lf cp mx (last : bool) f :
  zlen f <= MaxFragmentSize -> zlen buf + zlen f <= maxSize ->
  read_fragment maxSize (mkReader (fragment_bytes last f ++ rest) buf lf cp mx)
  = (Ok tt, mkReader rest (buf ++ f) last (if last then true else cp) mx).
Proof.
  intros Hf Hm. pose proof (zlen_nonneg f).
  destruct (header_flag_len (zlen f) last) as (Hu & Hl & Hd); [done|].
  unfold read_fragment, fragment_bytes; cbn [rd_r fragmentBuf complete MaxRecordSize].
  rewrite <- app_assoc, xdrDecodeUint32_encode by exact Hu. rewrite Hl, Hd.
  destruct (Z.ltb_spec MaxFragmentSize (zlen f)); [lia|].
  destruct (Z.ltb_spec maxSize (zlen buf + zlen f)); [lia|].
  destruct (Z.ltb_spec 0 (zlen f)).
  - by rewrite io_ReadFull_app' by (unfold zlen; lia).
  - destruct f; [done|]. unfold zlen in *; simpl in *; lia.
Qed.

Lemma record_bytes_cons f fs l :
  record_bytes (f :: fs) l = fragment_bytes false f ++ record_bytes fs l.
Proof. unfold record_bytes. simpl. by rewrite <- app_assoc. Qed.

Lemma mjoin_cons_app {A} (f : list A) fs l : mjoin (f :: fs) ++ l = f ++ mjoin fs ++ l.
Proof. simpl. by rewrite <- app_assoc. Qed.

Lemma ReadRecord_loop_fragments fs l rest maxSize fuel buf lf mx :
  Forall (fun f => zlen f <= MaxFragmentSize) (fs ++ [l]) ->
  zlen buf + zlen (mjoin fs ++ l) <= maxSize ->
  (length fs < fuel)%nat ->
  ReadRecord_loop fuel maxSize (mkReader (record_bytes fs l ++ rest) buf lf false mx)
  = Some (Ok tt, mkReader rest (buf ++ mjoin fs ++ l) true true mx).
Proof.
  revert fuel buf lf. induction fs as [|f fs IH]; intros fuel buf lf HF Hm Hfuel;
    (destruct fuel as [|fuel]; [simpl in Hfuel; lia|]); cbn [ReadRecord_loop complete].
  - unfold record_bytes; cbn [fmap list_fmap mjoin list_join app] in *.
    rewrite read_fragment_ok; [|by inversion HF|done].
    by destruct fuel.
  - inversion HF as [|? ? Hf HF']; subst. cbn beta in Hf.
    rewrite mjoin_cons_app in *. rewrite record_bytes_cons, <- app_assoc.
    rewrite zlen_app in Hm. pose proof (zlen_nonneg (mjoin fs ++ l)).
    rewrite read_fragment_ok by lia.
    rewrite IH; [by rewrite <- app_assoc|done|rewrite zlen_app; lia|simpl in Hfuel; lia].
Qed.

Lemma fragment_bytes_length last f : length (fragment_bytes last f) = (4 + length f)%nat.
Proof.
  unfold fragment_bytes, xdrEncodeUint32. by rewrite length_app, be_bytes_length.
Qed.

Lemma record_bytes_length fs l : (length fs < length (record_bytes fs l))%nat.
Proof.
  unfold record_bytes. rewrite length_app, fragment_bytes_length.
  induction fs as [|f fs IH]; [simpl; lia|].
  change (mjoin (fragment_bytes false <$> f :: fs))
    with (fragment_bytes false f ++ mjoin (fragment_bytes false <$> fs)).
  rewrite length_app, fragment_bytes_length. cbn [length]. lia.
Qed.

Lemma ReadRecord_fragments rm fs l rest :
  rd_r rm = record_bytes fs l ++ rest ->
  Forall (fun f => zlen f <= MaxFragmentSize) (fs ++ [l]) ->
  zlen (mjoin fs ++ l) <= max_record_size rm ->
  ReadRecord rm = Some (Ok (mjoin fs ++ l), mkReader rest (mjoin fs ++ l) true true (MaxRecordSize rm)).
Proof.
  intros Hr HF Hm. unfold ReadRecord; cbn [rd_r]. rewrite Hr.
  rewrite ReadRecord_loop_fragments; [done|done|..].
  - exact Hm.
  - pose proof (record_bytes_length fs l). rewrite length_app. lia.
Qed.

(** Each round either stops or leaves less to read. *)
Lemma read_fragment_progress maxSize rm rm' :
  read_fragment maxSize rm = (Ok tt, rm') -> (length (rd_r rm') < length (rd_r rm))%nat.
Proof.
  unfold read_fragment.
  destruct (xdrDecodeUint32 (rd_r rm)) as [[h|e] r] eqn:E; [|done].
  apply xdrDecodeUint32_Ok in E as [_ ->]. rewrite length_app.
  unfold xdrEncodeUint32. rewrite be_bytes_length.
  cbn [rd_r fragmentBuf complete MaxRecordSize].
  destruct (MaxFragmentSize <? _); [done|]. destruct (maxSize <? _); [done|].
  destruct (0 <? _).
  - destruct (io_ReadFull _ r) as [[b|e] r1] eqn:E; [|done].
    apply io_ReadFull_Ok in E as [-> _]. intros [= <-]. simpl. rewrite length_app. lia.
  - intros [= <-]. simpl. lia.
Qed.

Lemma ReadRecord_loop_total fuel maxSize rm :
  (length (rd_r rm) < fuel)%nat -> is_Some (ReadRecord_loop fuel maxSize rm).
Proof.
  revert rm. induction fuel as [|fuel IH]; intros rm Hf; [lia|].
  cbn [ReadRecord_loop]. destruct (complete rm); [by eexists|].
  destruct (read_fragment maxSize rm) as [[[]|e] rm'] eqn:E; [|by eexists].
  apply IH. apply read_fragment_progress in E. lia.
Qed.

Lemma ReadRecord_is_Some rm : is_Some (ReadRecord rm).
Proof.
  unfold ReadRecord. cbn [rd_r].
  match goal with |- context [ReadRecord_loop ?n ?m ?r] =>
    destruct (ReadRecord_loop_total n m r) as [[[[]|e] rm'] ->]; [simpl; lia|..] end;
  by eexists.
Qed.

Lemma read_fragment_bound maxSize rm rm' :
  read_fragment maxSize rm = (Ok tt, rm') -> zlen (fragmentBuf rm') <= maxSize.
Proof.
  unfold read_fragment.
  destruct (xdrDecodeUint32 (rd_r rm)) as [[h|e] r] eqn:E; [|done].
  cbn [rd_r fragmentBuf complete MaxRecordSize].
  destruct (MaxFragmentSize <? _); [done|].
  destruct (Z.ltb_spec maxSize (zlen (fragmentBuf rm) + Z.ldiff h LastFragmentFlag)); [done|].
  destruct (Z.ltb_spec 0 (Z.ldiff h LastFragmentFlag)).
  - destruct (io_ReadFull _ r) as [[b|e] r1] eqn:E1; [|done].
    apply io_ReadFull_Ok in E1 as [_ Hb]. intros [= <-]. cbn [fragmentBuf].
    rewrite zlen_app. unfold zlen in *. lia.
  - intros [= <-]. cbn [fragmentBuf]. rewrite app_nil_r.
    assert (0 <= Z.ldiff h LastFragmentFlag); [|lia].
    apply xdrDecodeUint32_Ok in E as [Hh _]. apply Z.ldiff_nonneg. left. apply Hh.
Qed.

Lemma ReadRecord_loop_bound fuel maxSize rm rm' :
  complete rm = false ->
  ReadRecord_loop fuel maxSize rm = Some (Ok tt, rm') -> zlen (fragmentBuf rm') <= maxSize.
Proof.
  revert rm. induction fuel as [|fuel IH]; intros rm Hc; cbn [ReadRecord_loop]; rewrite Hc; [done|].
  destruct (read_fragment maxSize rm) as [[[]|e] rm1] eqn:E; [|done].
  destruct (complete rm1) eqn:E1; [|by apply IH].
  intros H. apply read_fragment_bound in E.
  destruct fuel; cbn [ReadRecord_loop] in H; rewrite E1 in H; by simplify_eq.
Qed.

(** *** The writer's output is a fragmentation of the record *)

Lemma WriteRecord_loop_S fuel mf data :
  data <> [] ->
  WriteRecord_loop (S fuel) mf data =
    (let n := if mf <? zlen data then mf else zlen data in
     let header := if zlen data =? n then Z.lor (u32 n) LastFragmentFlag else u32 n in
     match WriteRecord_loop fuel mf (drop (Z.to_nat n) data) with
     | Some out => Some (xdrEncodeUint32 header ++ take (Z.to_nat n) data ++ out)
     | None => None
     end).
Proof. by destruct data. Qed.

Lemma WriteRecord_loop_fragments fuel mf data :
  0 < mf <= MaxFragmentSize -> data <> [] -> (length data <= fuel)%nat ->
  exists fs l,
    WriteRecord_loop fuel mf data = Some (record_bytes fs l) /\
    mjoin fs ++ l = data /\ Forall (fun f => zlen f <= mf) (fs ++ [l]).
Proof.
  revert data. induction fuel as [|fuel IH]; intros data Hmf Hne Hfuel.
  { destruct data; simpl in *; [done|lia]. }
  assert (0 < zlen data) by (destruct data; [done|unfold zlen; simpl; lia]).
  rewrite WriteRecord_loop_S by done. cbn zeta. unfold MaxFragmentSize in *.
  destruct (Z.ltb_spec mf (zlen data)) as [Hlt|Hge].
  - destruct (Z.eqb_spec (zlen data) mf); [lia|].
    destruct (IH (drop (Z.to_nat mf) data)) as (fs & l & Hw & Hj & HF); [done|..].
    { intros E. apply (f_equal length) in E. rewrite length_drop in E.
      unfold zlen in *. simpl in E. lia. }
    { rewrite length_drop. unfold zlen in *. lia. }
    rewrite Hw. exists (take (Z.to_nat mf) data :: fs), l.
    assert (zlen (take (Z.to_nat mf) data) = mf) as Hz
      by (unfold zlen in *; rewrite length_take; lia).
    split; [|split].
    + rewrite u32_small by (unfold is_u32; lia).
      rewrite record_bytes_cons. unfold fragment_bytes.
      rewrite Hz, Z.add_0_r, <- !app_assoc. done.
    + by rewrite mjoin_cons_app, Hj, take_drop.
    + constructor; [lia|done].
  - destruct (Z.eqb_spec (zlen data) (zlen data)); [|done].
    assert (Z.to_nat (zlen data) = length data) as -> by (unfold zlen; lia).
    rewrite drop_all, take_ge by lia. exists [], data.
    split; [|split; [done|by repeat constructor]].
    assert (WriteRecord_loop fuel mf [] = Some []) as -> by (by destruct fuel).
    unfold record_bytes, fragment_bytes; cbn [fmap list_fmap mjoin list_join app].
    rewrite app_nil_r, u32_small by (unfold is_u32; lia).
    do 3 f_equal. apply header_lor. unfold MaxFragmentSize; lia.
Qed.

Lemma WriteRecord_fragments rm data :
  0 < maxFragment rm <= MaxFragmentSize ->
  exists fs l,
    WriteRecord rm data = Some (mkWriter (wr_w rm ++ record_bytes fs l) (maxFragment rm)) /\
    mjoin fs ++ l = data /\ Forall (fun f => zlen f <= maxFragment rm) (fs ++ [l]).
Proof.
  intros Hmf. unfold WriteRecord. destruct data as [|b d] eqn:Ed.
  - exists [], []. split; [done|]. split; [done|]. repeat constructor. unfold zlen; simpl; lia.
  - rewrite <- Ed. destruct (WriteRecord_loop_fragments (length data) (maxFragment rm) data)
      as (fs & l & Hw & Hj & HF); [done|by rewrite Ed|done|].
    rewrite Hw. exists fs, l. rewrite Ed at 1. done.
Qed.

Lemma ReadRecord_loop_progress fuel maxSize rm rm' :
  ReadRecord_loop fuel maxSize rm = Some (Ok tt, rm') ->
  (length (rd_r rm') <= length (rd_r rm))%nat /\
  (complete rm = false -> (length (rd_r rm') < length (rd_r rm))%nat).
Proof.
  revert rm. induction fuel as [|fuel IH]; intros rm; cbn [ReadRecord_loop].
  - destruct (complete rm); [|done]. intros [= <-]. done.
  - destruct (complete rm); [by intros [= <-]|].
    destruct (read_fragment maxSize rm) as [[[]|e] rm1] eqn:E; [|done].
    intros Hl. apply IH in Hl as [? _]. apply read_fragment_progress in E. lia.
Qed.

(** A record takes bytes off the stream. *)
Lemma ReadRecord_progress rm data rm' :
  ReadRecord rm = Some (Ok data, rm') -> (length (rd_r rm') < length (rd_r rm))%nat.
Proof.
  intros E. unfold ReadRecord in E; cbn [rd_r] in E.
  match type of E with context [ReadRecord_loop ?n ?m ?r] =>
    destruct (ReadRecord_loop n m r) as [[[[]|e] rm1]|] eqn:El end; [|done|done].
  injection E as _ <-. by apply ReadRecord_loop_progress in El as [_ ?]; auto.
Qed.

Lemma framed_length rs stream : framed rs stream -> (length rs <= length stream)%nat.
Proof.
  induction 1 as [|fs l rs stream _ _ IH]; [done|]. simpl. rewrite length_app.
  pose proof (record_bytes_length fs l). lia.
Qed.

(** ** Properties *)

(** Reassembly does not depend on how the peer fragments.  Whatever
    fragments [fs] and last fragment [l] a record is sent as, as long as each
    fits the 31-bit length field and the whole does not exceed the limit,
    [ReadRecord] returns their concatenation and leaves the stream after the
    record. *)
Theorem read_record_any_fragmentation (rm : RecordMarkingReader)
    (fs : list (list byte)) (l rest : list byte)
    (Hr : rd_r rm = record_bytes fs l ++ rest)
    (Hfrag : Forall (fun f => zlen f <= MaxFragmentSize) (fs ++ [l]))
    (Hsize : zlen (mjoin fs ++ l) <= max_record_size rm) :
  exists rm', ReadRecord rm = Some (Ok (mjoin fs ++ l), rm') /\ rd_r rm' = rest.
Proof.
  eexists. split; [by apply ReadRecord_fragments|done].
Qed.

Lemma read_record_any_fragmentation_witness :
  let rm := NewRecordMarkingReader (record_bytes [[x01; x02]; []] [x03] ++ [xff]) in
  exists rm', ReadRecord rm = Some (Ok [x01; x02; x03], rm') /\ rd_r rm' = [xff].
Proof.
  intros rm. apply (read_record_any_fragmentation rm [[x01; x02]; []] [x03] [xff]).
  - reflexivity.
  - repeat constructor; vm_compute; discriminate.
  - vm_compute; discriminate.
Defined.

(** [ReadRecord] always terminates with a result, and a record it accepts
    never exceeds the configured maximum, whatever bytes the peer sends: the
    size is checked before the fragment is read. *)
Theorem read_record_bounded (rm : RecordMarkingReader) :
  exists res rm', ReadRecord rm = Some (res, rm') /\
    forall data, res = Ok data -> zlen data <= max_record_size rm.
Proof.
  destruct (ReadRecord_is_Some rm) as [[res rm'] E]. exists res, rm'. split; [done|].
  intros data ->. unfold ReadRecord in E. cbn [rd_r] in E.
  match type of E with context [ReadRecord_loop ?n ?m ?r] =>
    destruct (ReadRecord_loop n m r) as [[[[]|e] rm1]|] eqn:El end; [|done|done].
  injection E as <- <-. by apply ReadRecord_loop_bound in El.
Qed.

(** What [WriteRecord] writes, [ReadRecord] reads.  With any fragment
    size the constructor allows, a record that fits the reader's limit comes
    back unchanged, and the bytes after it are left in the stream. *)
Theorem record_marking_roundtrip (w : list byte) (size : Z) (data rest : list byte)
    (Hsize : zlen data <= DefaultMaxRecordSize) :
  exists out, WriteRecord (NewRecordMarkingWriterWithSize w size) data
      = Some (mkWriter (w ++ out) (maxFragment (NewRecordMarkingWriterWithSize w size))) /\
    exists rm', ReadRecord (NewRecordMarkingReader (out ++ rest)) = Some (Ok data, rm') /\
      rd_r rm' = rest.
Proof.
  set (wr := NewRecordMarkingWriterWithSize w size).
  assert (0 < maxFragment wr <= MaxFragmentSize) as Hmf.
  { unfold wr, NewRecordMarkingWriterWithSize, MaxFragmentSize, DefaultMaxFragmentSize; simpl.
    destruct (Z.leb_spec size 0); simpl; [lia|].
    destruct (Z.ltb_spec 2147483647 size); lia. }
  destruct (WriteRecord_fragments wr data Hmf) as (fs & l & Hw & Hj & HF).
  exists (record_bytes fs l). split; [done|].
  rewrite <- Hj. eexists. split; [apply ReadRecord_fragments|done]; [done|..].
  - eapply Forall_impl; [exact HF|]. cbn beta. intros f Hf. lia.
  - by rewrite Hj.
Qed.

Lemma record_marking_roundtrip_witness :
  exists out, WriteRecord (NewRecordMarkingWriterWithSize [] 2) [x01; x02; x03]
      = Some (mkWriter ([] ++ out) 2) /\
    exists rm', ReadRecord (NewRecordMarkingReader (out ++ [xee])) = Some (Ok [x01; x02; x03], rm') /\
      rd_r rm' = [xee].
Proof.
  apply (record_marking_roundtrip [] 2 [x01; x02; x03] [xee]). vm_compute. discriminate.
Defined.
