(* ===== verification/MinHeap.v ===== *)
(** * The free-handle heap (src/minheap.go)

    [uint64MinHeap] is a slice with the methods [container/heap] asks for;
    [heap_up], [heap_down], [heap_Push], [heap_Pop] and [heap_Init] are the
    standard library's sift loops over those methods.  The abstract
    specification is a finite multiset with minimum extraction: [PushValue]
    adds an element, [PopMin] removes a least one, and the slice stays heap
    ordered. *)

From S2P Require Import Prelude.
Open Scope Z_scope.

(** ** heap.Interface of uint64MinHeap *)

Definition Len (h : list Z) : nat := length h.
Definition Less (h : list Z) (i j : nat) : bool := h !!! i <? h !!! j.
Definition Swap (h : list Z) (i j : nat) : list Z := <[i := h !!! j]> (<[j := h !!! i]> h).
Definition Push (h : list Z) (x : Z) : list Z := h ++ [x].
(** The last element and the slice without it. *)
Definition Pop (h : list Z) : Z * list Z :=
  let n := length h in (h !!! (n - 1)%nat, take (n - 1) h).

(** ** container/heap *)

Definition parent (j : nat) : nat := ((j - 1) / 2)%nat.

(** [up(h, j)]: at most [j] rounds, since the index decreases. *)
Fixpoint heap_up (fuel : nat) (h : list Z) (j : nat) : list Z :=
  match fuel with
  | O => h
  | S fuel =>
      let i := parent j in
      if (i =? j)%nat || negb (Less h j i) then h
      else heap_up fuel (Swap h i j) i
  end.

(** [down(h, i, n)]: at most [n] rounds, since the index increases. *)
Fixpoint heap_down (fuel : nat) (h : list Z) (i n : nat) : list Z :=
  match fuel with
  | O => h
  | S fuel =>
      let j1 := (2 * i + 1)%nat in
      if (n <=? j1)%nat then h
      else
        let j2 := (j1 + 1)%nat in
        let j := if (j2 <? n)%nat && Less h j2 j1 then j2 else j1 in
        if negb (Less h j i) then h
        else heap_down fuel (Swap h i j) j n
  end.

Definition heap_Push (h : list Z) (x : Z) : list Z :=
  let h := Push h x in heap_up (Len h) h (Len h - 1).

Definition heap_Pop (h : list Z) : Z * list Z :=
  let n := (Len h - 1)%nat in
  let h := Swap h 0 n in
  Pop (heap_down n h 0 n).

(** [for i := n/2 - 1; i >= 0; i-- { down(h, i, n) }] *)
Definition heap_Init (h : list Z) : list Z :=
  let n := Len h in
  foldr (fun i h => heap_down n h i n) h (seq 0 (n / 2)).

(** ** The operations of src/minheap.go *)

Definition NewUint64MinHeap : list Z := heap_Init [].

Definition IsEmpty (h : list Z) : bool := (Len h =? 0)%nat.

Definition PopMin (h : list Z) : option Z * list Z :=
  if IsEmpty h then (None, h)
  else let '(x, h') := heap_Pop h in (Some x, h').

Definition PushValue (h : list Z) (val : Z) : list Z := heap_Push h val.

(** ** Invariant *)

Definition heap_ordered (h : list Z) : Prop :=
  forall k, (0 < k < length h)%nat -> h !!! parent k <= h !!! k.

(** Ordered except possibly between [j] and its parent; the children of [j]
    respect [j]'s parent. *)
Definition up_inv (h : list Z) (j : nat) : Prop :=
  (forall k, (0 < k < length h)%nat -> k <> j -> h !!! parent k <= h !!! k) /\
  (forall k, (0 < k < length h)%nat -> parent k = j -> (0 < j)%nat -> h !!! parent j <= h !!! k).

(** The first [n] elements are ordered except possibly between [i] and its
    children, which respect [i]'s parent. *)
Definition down_inv (h : list Z) (i n : nat) : Prop :=
  (forall k, (0 < k < n)%nat -> parent k <> i -> h !!! parent k <= h !!! k) /\
  (forall k, (0 < k < n)%nat -> parent k = i -> (0 < i)%nat -> h !!! parent i <= h !!! k).

(** ** Lemmas *)

Lemma parent_lt j : (0 < j)%nat -> (parent j < j)%nat.
Proof. unfold parent. intros. apply Nat.Div0.div_lt_upper_bound. lia. Qed.

Lemma parent_child k i :
  (0 < k)%nat -> parent k = i -> k = (2 * i + 1)%nat \/ k = (2 * i + 2)%nat.
Proof.
  unfold parent. intros Hk <-.
  pose proof (Nat.div_mod_eq (k - 1) 2). pose proof (Nat.mod_upper_bound (k - 1) 2 ltac:(lia)). lia.
Qed.

Lemma parent_left i : parent (2 * i + 1) = i.
Proof. unfold parent. replace (2 * i + 1 - 1)%nat with (i * 2)%nat by lia. by apply Nat.div_mul. Qed.

Lemma parent_right i : parent (2 * i + 2) = i.
Proof.
  unfold parent. replace (2 * i + 2 - 1)%nat with (1 + i * 2)%nat by lia.
  rewrite Nat.div_add by lia. done.
Qed.

Lemma Swap_length h i j : length (Swap h i j) = length h.
Proof. unfold Swap. by rewrite !length_insert. Qed.

Lemma Swap_lookup h i j k :
  (i < length h)%nat -> (j < length h)%nat ->
  Swap h i j !!! k = if decide (k = i) then h !!! j else if decide (k = j) then h !!! i else h !!! k.
Proof.
  intros Hi Hj. unfold Swap.
  destruct (decide (k = i)) as [->|].
  { by rewrite list_lookup_total_insert_eq by (rewrite length_insert; lia). }
  rewrite list_lookup_total_insert_ne by done.
  destruct (decide (k = j)) as [->|].
  - by rewrite list_lookup_total_insert_eq.
  - by rewrite list_lookup_total_insert_ne.
Qed.

Lemma Swap_perm h i j :
  (i < length h)%nat -> (j < length h)%nat -> Swap h i j ≡ₚ h.
Proof.
  intros Hi Hj. apply Permutation_inj. split; [apply Swap_length|].
  exists (fun k => if decide (k = i) then j else if decide (k = j) then i else k). split.
  - intros a b. repeat case_decide; congruence.
  - intros k. destruct (decide (k < length h)%nat) as [Hk|Hk].
    + rewrite (list_lookup_lookup_total_lt (Swap h i j)) by (rewrite Swap_length; done).
      rewrite Swap_lookup by done.
      repeat case_decide; by rewrite list_lookup_lookup_total_lt.
    + rewrite lookup_ge_None_2 by (rewrite Swap_length; lia).
      repeat case_decide; try lia. by rewrite lookup_ge_None_2 by lia.
Qed.

Lemma heap_up_perm fuel h j : (j < length h)%nat -> heap_up fuel h j ≡ₚ h.
Proof.
  revert h j. induction fuel as [|fuel IH]; intros h j Hj; simpl; [done|].
  destruct (Nat.eqb_spec (parent j) j); [done|]. simpl.
  destruct (Less h j (parent j)); simpl; [|done].
  assert (parent j < j)%nat by (apply parent_lt; destruct j; [done|lia]).
  rewrite IH by (rewrite Swap_length; lia). apply Swap_perm; lia.
Qed.

Lemma heap_down_perm fuel h i n :
  (i < length h)%nat -> (n <= length h)%nat -> heap_down fuel h i n ≡ₚ h.
Proof.
  revert h i. induction fuel as [|fuel IH]; intros h i Hi Hn; cbn [heap_down]; [done|].
  destruct (Nat.leb_spec n (2 * i + 1)); [done|]. cbn zeta.
  set (j := if _ && _ then _ else _).
  assert (j < n)%nat.
  { subst j. destruct (Nat.ltb_spec (2 * i + 1 + 1) n); simpl; [case_match; lia|lia]. }
  destruct (negb (Less h j i)); [done|].
  rewrite IH by (rewrite Swap_length; lia). apply Swap_perm; lia.
Qed.

Lemma heap_up_ordered fuel h j :
  (j < fuel)%nat -> (j < length h)%nat -> up_inv h j -> heap_ordered (heap_up fuel h j).
Proof.
  revert h j. induction fuel as [|fuel IH]; intros h j Hf Hj [H1 H2]; [lia|].
  cbn [heap_up]. destruct (Nat.eqb_spec (parent j) j) as [E|Hne]; simpl.
  { intros k Hk. destruct (decide (k = j)) as [->|]; [|by apply H1].
    pose proof (parent_lt j). lia. }
  assert (0 < j)%nat as Hj0 by (destruct j; [done|lia]).
  pose proof (parent_lt j Hj0) as Hpj.
  unfold Less. destruct (Z.ltb_spec (h !!! j) (h !!! parent j)) as [Hlt|Hge]; simpl.
  2: { intros k Hk. destruct (decide (k = j)) as [->|]; [lia|by apply H1]. }
  apply IH; [lia|rewrite Swap_length; lia|]. split; rewrite Swap_length.
  - intros k Hk Hki. rewrite !Swap_lookup by lia.
    destruct (decide (k = parent j)); [done|].
    destruct (decide (k = j)) as [->|].
    + rewrite decide_True by done. lia.
    + destruct (decide (parent k = parent j)) as [Ep|].
      * specialize (H1 k Hk n0). rewrite Ep in H1. lia.
      * destruct (decide (parent k = j)) as [Ep|]; [by apply H2|by apply H1].
  - intros k Hk Hki Hi. rewrite !Swap_lookup by lia.
    pose proof (parent_lt (parent j) Hi).
    rewrite (decide_False (P := parent (parent j) = parent j)) by lia.
    rewrite (decide_False (P := parent (parent j) = j)) by lia.
    assert (h !!! parent (parent j) <= h !!! parent j) by (apply H1; lia).
    pose proof (parent_lt k ltac:(lia)).
    destruct (decide (k = parent j)); [lia|].
    destruct (decide (k = j)) as [->|]; [done|].
    specialize (H1 k Hk n0). rewrite Hki in H1. lia.
Qed.

Lemma heap_down_ordered fuel h i n :
  (n - i <= fuel)%nat -> (i < n)%nat -> (n <= length h)%nat -> down_inv h i n ->
  forall k, (0 < k < n)%nat -> heap_down fuel h i n !!! parent k <= heap_down fuel h i n !!! k.
Proof.
  revert h i. induction fuel as [|fuel IH]; intros h i Hf Hi Hn [H1 H2]; [lia|].
  cbn [heap_down]. destruct (Nat.leb_spec n (2 * i + 1)) as [Hle|Hlt].
  { intros k Hk. apply H1; [done|]. intros E. apply parent_child in E; lia. }
  cbn zeta. set (j := if _ && _ then _ else _).
  assert ((j = 2 * i + 1 \/ j = 2 * i + 2)%nat /\ (j < n)%nat /\
          forall k, (0 < k < n)%nat -> parent k = i -> h !!! j <= h !!! k) as (Hjc & Hjn & Hmin).
  { subst j. unfold Less. destruct (Nat.ltb_spec (2 * i + 1 + 1) n); cbn [andb].
    - destruct (Z.ltb_spec (h !!! (2 * i + 1 + 1)%nat) (h !!! (2 * i + 1)%nat));
        (split; [lia|split; [lia|]]); intros k Hk Ek;
        apply parent_child in Ek as [-> | ->]; try lia;
        replace (2 * i + 2)%nat with (2 * i + 1 + 1)%nat by lia; lia.
    - split; [lia|split; [lia|]]. intros k Hk Ek.
      apply parent_child in Ek as [-> | ->]; [lia|lia|lia]. }
  assert (parent j = i) as Epj
    by (destruct Hjc as [-> | ->]; [apply parent_left|apply parent_right]).
  clearbody j. unfold Less. destruct (Z.ltb_spec (h !!! j) (h !!! i)) as [Hl|Hg]; simpl.
  2: { intros k Hk. destruct (decide (parent k = i)) as [E|E]; [|by apply H1].
       specialize (Hmin k Hk E). rewrite E. lia. }
  apply IH; [lia|lia|rewrite Swap_length; lia|]. split.
  - intros k Hk Hkj. rewrite !Swap_lookup by lia.
    destruct (decide (parent k = i)) as [E|E].
    + specialize (Hmin k Hk E). destruct (decide (k = i)); [subst; lia|].
      destruct (decide (k = j)); lia.
    + rewrite (decide_False (P := parent k = j)) by done.
      destruct (decide (k = i)) as [->|].
      * apply H2; [lia|done|lia].
      * destruct (decide (k = j)) as [->|]; [done|by apply H1].
  - intros k Hk Hkj _. rewrite !Swap_lookup by lia. rewrite Epj, decide_True by done.
    assert (j < k)%nat by (rewrite <- Hkj; apply parent_lt; lia).
    rewrite !decide_False by lia. rewrite <- Hkj. apply H1; [done|lia].
Qed.

Lemma heap_root_min h k : heap_ordered h -> (k < length h)%nat -> h !!! 0%nat <= h !!! k.
Proof.
  intros Ho. induction k as [k IH] using lt_wf_ind. intros Hk.
  destruct (decide (k = 0%nat)) as [->|]; [lia|].
  pose proof (parent_lt k ltac:(lia)).
  specialize (IH (parent k) ltac:(lia) ltac:(lia)). specialize (Ho k ltac:(lia)). lia.
Qed.

Lemma heap_ordered_ext h h' :
  length h = length h' ->
  (forall k, (k < length h)%nat -> h !!! k = h' !!! k) -> heap_ordered h -> heap_ordered h'.
Proof.
  intros Hl He Ho k Hk. rewrite <- Hl in Hk. pose proof (parent_lt k ltac:(lia)).
  rewrite <- !He by lia. by apply Ho.
Qed.

Lemma PushValue_spec h x :
  heap_ordered h -> heap_ordered (PushValue h x) /\ PushValue h x ≡ₚ x :: h.
Proof.
  intros Ho. unfold PushValue, heap_Push, Push, Len.
  rewrite length_app; cbn [length]. replace (length h + 1 - 1)%nat with (length h) by lia. split.
  - apply heap_up_ordered; [lia|rewrite length_app; simpl; lia|]. split; rewrite length_app; simpl.
    + intros k Hk Hne. pose proof (parent_lt k ltac:(lia)).
      rewrite !lookup_total_app_l by lia. apply Ho. lia.
    + intros k Hk E _. pose proof (parent_lt k ltac:(lia)). lia.
  - rewrite heap_up_perm by (rewrite length_app; simpl; lia).
    by rewrite Permutation_app_comm.
Qed.

Lemma lookup_total_take_lt (h : list Z) n k : (k < n)%nat -> take n h !!! k = h !!! k.
Proof. intros. rewrite !list_lookup_total_alt, lookup_take_lt by done. done. Qed.

Lemma heap_down_length fuel h i n : length (heap_down fuel h i n) = length h.
Proof.
  revert h i. induction fuel as [|fuel IH]; intros h i; cbn [heap_down]; [done|].
  destruct (n <=? _)%nat; [done|]. cbn zeta. destruct (negb _); [done|]. by rewrite IH, Swap_length.
Qed.

(** [heap_down] with bound [n] does not touch the elements from [n] on. *)
Lemma heap_down_frame fuel h i n k :
  (n <= k)%nat -> (i < n)%nat -> (n <= length h)%nat -> heap_down fuel h i n !!! k = h !!! k.
Proof.
  revert h i. induction fuel as [|fuel IH]; intros h i Hk Hi Hn; cbn [heap_down]; [done|].
  destruct (Nat.leb_spec n (2 * i + 1)); [done|]. cbn zeta.
  set (j := if _ && _ then _ else _).
  assert (j < n)%nat.
  { subst j. destruct (Nat.ltb_spec (2 * i + 1 + 1) n); simpl; [case_match; lia|lia]. }
  destruct (negb (Less h j i)); [done|].
  rewrite IH by (rewrite ?Swap_length; lia). rewrite Swap_lookup by lia.
  by rewrite !decide_False by lia.
Qed.

Lemma PopMin_spec h :
  heap_ordered h -> h <> [] ->
  exists x h', PopMin h = (Some x, h') /\ heap_ordered h' /\ h ≡ₚ x :: h' /\
    Forall (fun y => x <= y) h.
Proof.
  intros Ho Hne. unfold PopMin, IsEmpty, heap_Pop, Pop, Len.
  destruct (Nat.eqb_spec (length h) 0) as [E|_]; [by destruct h|].
  set (n := (length h - 1)%nat). assert (length h = S n) as Hl by (destruct h; [done|simpl in *; lia]).
  set (h1 := Swap h 0 n). assert (length h1 = S n) as Hl1 by (unfold h1; rewrite Swap_length; lia).
  set (h2 := heap_down n h1 0 n).
  assert (length h2 = S n) as Hl2 by (unfold h2; rewrite heap_down_length; lia).
  rewrite Hl2. replace (S n - 1)%nat with n by lia.
  assert (h2 !!! n = h !!! 0%nat) as Hx.
  { destruct (decide (n = 0%nat)) as [E|].
    - unfold h2, h1. rewrite E. cbn [heap_down]. rewrite Swap_lookup by lia. by case_decide.
    - unfold h2. rewrite heap_down_frame by lia. unfold h1. rewrite Swap_lookup by lia.
      rewrite decide_False by lia. by rewrite decide_True. }
  assert (h2 ≡ₚ h) as Hp.
  { unfold h2, h1. rewrite heap_down_perm by (rewrite Swap_length; lia).
    apply Swap_perm; lia. }
  exists (h !!! 0%nat), (take n h2). rewrite Hx. split; [done|split; [|split]].
  - intros k. rewrite length_take. intros Hk. pose proof (parent_lt k ltac:(lia)).
    rewrite !lookup_total_take_lt by lia. unfold h2.
    apply heap_down_ordered; [lia|lia|lia| |lia]. split; [|lia].
    intros k' Hk' Hpk. pose proof (parent_lt k' ltac:(lia)). unfold h1.
    rewrite !Swap_lookup by lia. rewrite !decide_False by lia. apply Ho. lia.
  - transitivity h2; [by symmetry|]. rewrite <- (take_drop n h2) at 1.
    assert (drop n h2 = [h !!! 0%nat]) as ->.
    { rewrite <- Hx. rewrite (drop_S h2 (h2 !!! n) n).
      - rewrite drop_ge by lia. done.
      - apply list_lookup_lookup_total_lt. lia. }
    by rewrite Permutation_app_comm.
  - apply Forall_lookup. intros k y Hk. pose proof (lookup_lt_Some _ _ _ Hk).
    apply list_lookup_total_correct in Hk. rewrite <- Hk. by apply heap_root_min.
Qed.

(** ** Properties *)

(** [PushValue] and [PopMin] implement a multiset with minimum
    extraction.  On a heap-ordered slice, pushing adds the value and popping
    removes and returns a least element; both keep the heap order, popping the
    empty heap returns nothing, and a new heap is ordered. *)
Theorem minheap_refines_multiset (h : list Z) (x : Z) (Ho : heap_ordered h) :
  heap_ordered (PushValue h x) /\ PushValue h x ≡ₚ x :: h /\
  match PopMin h with
  | (None, h') => h = [] /\ h' = []
  | (Some y, h') => heap_ordered h' /\ h ≡ₚ y :: h' /\ Forall (fun z => y <= z) h
  end /\
  heap_ordered NewUint64MinHeap /\ NewUint64MinHeap = [].
Proof.
  destruct (PushValue_spec h x Ho) as [Hpo Hpp].
  split; [done|]. split; [done|]. split; [|split; [intros k Hk; simpl in Hk; lia|done]].
  destruct (decide (h = [])) as [->|Hne]; [done|].
  destruct (PopMin_spec h Ho Hne) as (y & h' & -> & ? & ? & ?). done.
Qed.

Lemma minheap_refines_multiset_witness :
  heap_ordered [2; 5; 3] /\ heap_ordered (PushValue [2; 5; 3] 1) /\
  PopMin (PushValue [2; 5; 3] 1) = (Some 1, [2; 5; 3]).
Proof.
  assert (heap_ordered [2; 5; 3]) as Ho.
  { intros k Hk. cbn [length] in Hk.
    destruct k as [|[|[|k]]]; [lia|vm_compute; discriminate|vm_compute; discriminate|lia]. }
  split; [exact Ho|]. split; [|reflexivity].
  exact (proj1 (minheap_refines_multiset [2; 5; 3] 1 Ho)).
Defined.
