(* ===== verification/FileHandle.v ===== *)
(** * File handle allocation (src/filehandle.go, types of src/types.go)

    [FileHandleMap] maps 64-bit handles to files, deduplicates handles by
    path, reuses released handles (smallest first) and evicts the lowest
    handles when the map exceeds its limit.  Besides its result every
    operation returns the files it closed. *)

From S2P Require Import Prelude Errors MinHeap.
Open Scope Z_scope.

Definition DefaultMaxHandles := 100000.
Definition MaxUint64 := 2 ^ 64 - 1.

(** A [*NFSNode]: the address of the node and its path, which no code changes
    after the node is built.  The mutable attributes live in the node store of
    the server state. *)
Record NFSNode := mkNode { node_addr : nat; path : string }.

#[export] Instance NFSNode_eq_dec : EqDecision NFSNode.
Proof. solve_decision. Defined.

(** An [absfs.File]: a node of this server or a file of another type. *)
Inductive File :=
| FNode (n : NFSNode)
| FOther (id : nat).

#[export] Instance File_eq_dec : EqDecision File.
Proof. solve_decision. Defined.

Record FileHandleMap := mkFM {
  handles : gmap Z File;
  pathHandles : gmap string Z;
  nextHandle : Z;
  freeHandles : list Z;
  maxHandles : Z
}.

(** The map built by [New] of src/absnfs.go; [maxHandles] is 0 there. *)
Definition NewFileHandleMap (maxH : Z) : FileHandleMap :=
  mkFM ∅ ∅ 1 NewUint64MinHeap maxH.

(** The path under which [f] is deduplicated: [f.( *NFSNode)] with a
    non-empty path. *)
Definition dedup_path (f : File) : option string :=
  match f with
  | FNode n => if bool_decide (path n = EmptyString) then None else Some (path n)
  | FOther _ => None
  end.

(** [delete(fm.pathHandles, node.path)] when the file is a node. *)
Definition forget_path (ph : gmap string Z) (f : File) : gmap string Z :=
  match f with FNode n => delete (path n) ph | FOther _ => ph end.

(** Close and remove the file at [h], and queue [h] for reuse: the common body
    of [Release] and of the eviction loop. *)
Definition drop_handle (fm : FileHandleMap) (h : Z) (f : File) : FileHandleMap :=
  mkFM (delete h (handles fm)) (forget_path (pathHandles fm) f) (nextHandle fm)
    (PushValue (freeHandles fm) h) (maxHandles fm).

(** [for h := minHandle; evictCount > 0; h++]; returns the files closed. *)
Fixpoint evict_loop (fuel : nat) (fm : FileHandleMap) (h evictCount : Z)
    : option (list File * FileHandleMap) :=
  if evictCount <=? 0 then Some ([], fm)
  else
    match fuel with
    | O => None
    | S fuel =>
        match handles fm !! h with
        | Some file =>
            match evict_loop fuel (drop_handle fm h file) (u64 (h + 1)) (evictCount - 1) with
            | Some (closed, fm') => Some (file :: closed, fm')
            | None => None
            end
        | None => evict_loop fuel fm (u64 (h + 1)) evictCount
        end
    end.

(** [minHandle]: the least handle in the map. *)
Definition min_handle (hs : gmap Z File) : Z :=
  map_fold (fun h _ m => if h <? m then h else m) MaxUint64 hs.

Definition effective_max (fm : FileHandleMap) : Z :=
  if maxHandles fm <=? 0 then DefaultMaxHandles else maxHandles fm.

(** The eviction at the end of [Allocate].  No handle reaches [nextHandle],
    so that many rounds are enough. *)
Definition evict (fm : FileHandleMap) : option (list File * FileHandleMap) :=
  let maxH := effective_max fm in
  if maxH <? Z.of_nat (size (handles fm)) then
    let evictCount := maxH / 10 in
    let evictCount := if evictCount <? 1 then 1 else evictCount in
    evict_loop (Z.to_nat (nextHandle fm)) fm (min_handle (handles fm)) evictCount
  else Some ([], fm).

(** The handle a new file gets and the map without it. *)
Definition pick_handle (fm : FileHandleMap) : Z * FileHandleMap :=
  match PopMin (freeHandles fm) with
  | (Some val, free) =>
      (val, mkFM (handles fm) (pathHandles fm) (nextHandle fm) free (maxHandles fm))
  | (None, free) =>
      (nextHandle fm,
       mkFM (handles fm) (pathHandles fm) (u64 (nextHandle fm + 1)) free (maxHandles fm))
  end.

Definition Allocate (fm : FileHandleMap) (f : File) : option (Z * list File * FileHandleMap) :=
  match dedup_path f ≫= (fun p => pathHandles fm !! p) with
  | Some existing =>
      Some (existing, [],
            mkFM (<[existing := f]> (handles fm)) (pathHandles fm) (nextHandle fm)
              (freeHandles fm) (maxHandles fm))
  | None =>
      let '(handle, fm) := pick_handle fm in
      let fm := mkFM (<[handle := f]> (handles fm))
                  (match dedup_path f with
                   | Some p => <[p := handle]> (pathHandles fm)
                   | None => pathHandles fm
                   end) (nextHandle fm) (freeHandles fm) (maxHandles fm) in
      match evict fm with
      | Some (closed, fm) => Some (handle, closed, fm)
      | None => None
      end
  end.

Definition Get (fm : FileHandleMap) (handle : Z) : option File := handles fm !! handle.

Definition GetOrError (fm : FileHandleMap) (handle : Z) : result File :=
  match handles fm !! handle with
  | None => Err (InvalidFileHandleError handle "handle not found in file handle map")
  | Some f => Ok f
  end.

Definition Release (fm : FileHandleMap) (handle : Z) : list File * FileHandleMap :=
  match handles fm !! handle with
  | Some f => ([f], drop_handle fm handle f)
  | None => ([], fm)
  end.

Definition ReleaseAll (fm : FileHandleMap) : list File * FileHandleMap :=
  (snd <$> map_to_list (handles fm),
   mkFM ∅ ∅ (nextHandle fm) NewUint64MinHeap (maxHandles fm)).

Definition Count (fm : FileHandleMap) : Z := Z.of_nat (size (handles fm)).

(** ** Invariant *)

Record fm_inv (fm : FileHandleMap) : Prop := {
  fi_next : 1 <= nextHandle fm < 2 ^ 64;
  fi_range : forall h f, handles fm !! h = Some f -> 1 <= h < nextHandle fm;
  fi_free : forall h, h ∈ freeHandles fm -> 1 <= h < nextHandle fm /\ handles fm !! h = None;
  fi_nodup : NoDup (freeHandles fm);
  fi_heap : heap_ordered (freeHandles fm);
  fi_path : forall p h,
    pathHandles fm !! p = Some h <->
    exists f, handles fm !! h = Some f /\ dedup_path f = Some p
}.

(** ** Lemmas *)

Lemma fm_inv_new maxH : fm_inv (NewFileHandleMap maxH).
Proof.
  constructor; simpl.
  - lia.
  - intros h f Hf. by rewrite lookup_empty in Hf.
  - intros h Hh. by apply elem_of_nil in Hh.
  - constructor.
  - intros k Hk. simpl in Hk. lia.
  - intros p h. split; [by rewrite lookup_empty|]. intros (f & Hf & _). by rewrite lookup_empty in Hf.
Qed.

Lemma dedup_path_Some f p :
  dedup_path f = Some p <-> exists n, f = FNode n /\ path n = p /\ p <> EmptyString.
Proof.
  destruct f as [n|]; simpl; [|naive_solver].
  case_bool_decide; naive_solver.
Qed.

(** Two live handles never share a path. *)
Lemma fm_path_unique fm h1 h2 f1 f2 p :
  fm_inv fm -> handles fm !! h1 = Some f1 -> handles fm !! h2 = Some f2 ->
  dedup_path f1 = Some p -> dedup_path f2 = Some p -> h1 = h2.
Proof.
  intros Hi H1 H2 D1 D2.
  assert (pathHandles fm !! p = Some h1) by (apply fi_path; eauto).
  assert (pathHandles fm !! p = Some h2) by (apply fi_path; eauto). congruence.
Qed.

Lemma forget_path_lookup fm h f p h' :
  fm_inv fm -> handles fm !! h = Some f ->
  forget_path (pathHandles fm) f !! p = Some h' <->
  pathHandles fm !! p = Some h' /\ h' <> h.
Proof.
  intros Hi Hf. destruct f as [n|id]; simpl.
  - rewrite lookup_delete_Some. split.
    + intros [Hne Hp]. split; [done|]. intros ->.
      apply (fi_path _ Hi) in Hp as (f & Hf' & Hd). rewrite Hf in Hf'. simplify_eq.
      simpl in Hd. case_bool_decide; naive_solver.
    + intros [Hp Hne]. split; [|done]. intros <-.
      pose proof Hp as Hp'. apply (fi_path _ Hi) in Hp' as (f & Hf' & Hd).
      apply Hne. eapply fm_path_unique; [done|done|done|done|].
      apply dedup_path_Some in Hd as (n' & -> & E & Hn). simpl. case_bool_decide; naive_solver.
  - split; [|naive_solver]. intros Hp. split; [done|]. intros ->.
    apply (fi_path _ Hi) in Hp as (f & Hf' & Hd). rewrite Hf in Hf'. by simplify_eq.
Qed.

Lemma drop_handle_inv fm h f :
  fm_inv fm -> handles fm !! h = Some f -> fm_inv (drop_handle fm h f).
Proof.
  intros Hi Hf. destruct (PushValue_spec (freeHandles fm) h (fi_heap _ Hi)) as [Ho Hp].
  split; simpl.
  - apply Hi.
  - intros h' f' [_ H']%lookup_delete_Some. by eapply fi_range.
  - intros h'. rewrite Hp, elem_of_cons. intros [-> | Hin].
    + split; [by eapply fi_range|apply lookup_delete_eq].
    + apply (fi_free _ Hi) in Hin as [? Hn]. split; [done|].
      rewrite lookup_delete_None. by right.
  - rewrite Hp. constructor; [|apply Hi]. intros Hin. apply (fi_free _ Hi) in Hin as [_ Hn]. congruence.
  - done.
  - intros p h'. rewrite forget_path_lookup by done. rewrite (fi_path _ Hi). split.
    + intros [(f' & Hf' & Hd) Hne]. exists f'. by rewrite lookup_delete_ne.
    + intros (f' & [Hne Hf']%lookup_delete_Some & Hd). naive_solver.
Qed.

Lemma pick_handle_spec fm h fm' :
  fm_inv fm -> nextHandle fm < 2 ^ 64 - 1 -> pick_handle fm = (h, fm') ->
  handles fm !! h = None /\ handles fm' = handles fm /\ pathHandles fm' = pathHandles fm /\
  maxHandles fm' = maxHandles fm /\ h ∉ freeHandles fm' /\ 1 <= h < nextHandle fm' /\
  nextHandle fm <= nextHandle fm' <= nextHandle fm + 1 /\ fm_inv fm'.
Proof.
  intros Hi Hn. pose proof (fi_next _ Hi) as Hnx. unfold pick_handle.
  destruct (decide (freeHandles fm = [])) as [E|Hne].
  - rewrite E. cbn [PopMin IsEmpty Len length Nat.eqb]. intros [= <- <-]; simpl.
    rewrite u64_small by (unfold is_u64; lia).
    assert (handles fm !! nextHandle fm = None) as Hfresh.
    { destruct (handles fm !! nextHandle fm) eqn:Ef; [|done].
      apply (fi_range _ Hi) in Ef. lia. }
    repeat (split; [done || lia || set_solver|]). constructor; simpl.
    + lia.
    + intros h' f Hf. apply (fi_range _ Hi) in Hf. lia.
    + intros h' Hh'. by apply elem_of_nil in Hh'.
    + constructor.
    + intros k Hk. simpl in Hk. lia.
    + apply (fi_path _ Hi).
  - destruct (PopMin_spec _ (fi_heap _ Hi) Hne) as (x & free & -> & Ho & Hp & Hmin).
    intros [= <- <-]; simpl.
    assert (x ∈ freeHandles fm) as Hin by (rewrite Hp; set_solver).
    pose proof (fi_nodup _ Hi) as Hnd. rewrite Hp in Hnd. apply NoDup_cons in Hnd as [Hx Hnd].
    apply (fi_free _ Hi) in Hin as [Hr Hh].
    repeat (split; [done || lia|]). constructor; simpl; try apply Hi; try done.
    intros h' Hh'. apply (fi_free _ Hi). rewrite Hp. set_solver.
Qed.

(** *** Eviction *)

(** The live handles from [h] on. *)
Definition live_from (fm : FileHandleMap) (h : Z) : gset Z :=
  filter (fun k => h <= k) (dom (handles fm)).

Lemma live_from_next fm h : fm_inv fm -> nextHandle fm <= h -> live_from fm h = ∅.
Proof.
  intros Hi Hh. apply set_eq. intros k. unfold live_from.
  rewrite elem_of_filter, elem_of_dom. split; [|set_solver].
  intros [Hk [f Hf]]. apply (fi_range _ Hi) in Hf. lia.
Qed.

Lemma live_from_dead fm h : handles fm !! h = None -> live_from fm (h + 1) = live_from fm h.
Proof.
  intros Hn. apply set_eq. intros k. unfold live_from. rewrite !elem_of_filter, elem_of_dom.
  split; intros [Hk [f Hf]]; (split; [|by exists f]).
  - lia.
  - destruct (decide (k = h)) as [->|]; [congruence|lia].
Qed.

Lemma live_from_drop fm h f :
  handles fm !! h = Some f ->
  size (live_from fm h) = S (size (live_from (drop_handle fm h f) (h + 1))).
Proof.
  intros Hf. assert (live_from fm h = {[h]} ∪ live_from (drop_handle fm h f) (h + 1)) as ->.
  { apply set_eq. intros k. unfold live_from, drop_handle; simpl.
    rewrite elem_of_union, elem_of_singleton, !elem_of_filter, !elem_of_dom.
    destruct (decide (k = h)) as [->|].
    - split; [by left|]. intros _. split; [lia|by eexists].
    - rewrite lookup_delete_ne by done. split; [right; split; [lia|tauto]|].
      intros [?|[? ?]]; [done|]. split; [lia|done]. }
  rewrite size_union, size_singleton; [done|].
  unfold live_from. intros k. rewrite elem_of_singleton, elem_of_filter. lia.
Qed.

(** What an eviction pass from [h] does to the map: it removes the pairs [rm],
    lowest handles first, and nothing else. *)
Record evicted (fm : FileHandleMap) (h : Z) (rm : list (Z * File)) (fm' : FileHandleMap) : Prop := {
  ev_inv : fm_inv fm';
  ev_next : nextHandle fm' = nextHandle fm;
  ev_max : maxHandles fm' = maxHandles fm;
  ev_size : (size (handles fm) = size (handles fm') + length rm)%nat;
  ev_free : (length (freeHandles fm') = length (freeHandles fm) + length rm)%nat;
  ev_split : forall k f, handles fm !! k = Some f <-> handles fm' !! k = Some f \/ (k, f) ∈ rm;
  ev_gone : forall k f, (k, f) ∈ rm -> handles fm' !! k = None;
  ev_low : forall k f k' f', (k, f) ∈ rm -> handles fm' !! k' = Some f' -> h <= k' -> h <= k < k'
}.

Lemma evicted_refl fm h : fm_inv fm -> evicted fm h [] fm.
Proof.
  intros Hi. constructor; try done; simpl; try lia; set_solver.
Qed.

(** Dropping the live handle [h] and then evicting from the next one on. *)
Lemma evicted_cons fm h file rm fm' :
  fm_inv fm -> handles fm !! h = Some file -> evicted (drop_handle fm h file) (h + 1) rm fm' ->
  evicted fm h ((h, file) :: rm) fm'.
Proof.
  intros Hi Eh He.
  destruct He as [Hinv Hnext Hmax Hsize Hfree Hsplit Hgone Hlow]. constructor; try done.
  - simpl in Hsize. rewrite map_size_delete_Some in Hsize by by eexists.
    assert (size (handles fm) <> 0%nat).
    { intros E. apply map_size_empty_inv in E. rewrite E in Eh. by rewrite lookup_empty in Eh. }
    simpl. lia.
  - simpl in Hfree. destruct (PushValue_spec (freeHandles fm) h (fi_heap _ Hi)) as [_ Hp].
    rewrite Hp in Hfree. simpl in *. lia.
  - intros k f. rewrite elem_of_cons. simpl in Hsplit. destruct (decide (k = h)) as [->|Hne].
    + split; [intros; right; left; congruence|]. intros [Hk|[?|Hk]].
      * assert (delete h (handles fm) !! h = Some f) as Hd by (apply Hsplit; by left).
         by rewrite lookup_delete_eq in Hd.
      * congruence.
      * assert (delete h (handles fm) !! h = Some f) as Hd by (apply Hsplit; by right).
         by rewrite lookup_delete_eq in Hd.
    + specialize (Hsplit k f). rewrite lookup_delete_ne in Hsplit by done. rewrite Hsplit. naive_solver.
  - intros k f. rewrite elem_of_cons. intros [Hk|Hk]; [|by eapply Hgone].
    injection Hk as -> ->. destruct (handles fm' !! h) as [f'|] eqn:E; [|done].
    assert (delete h (handles fm) !! h = Some f') as Hd by (apply Hsplit; by left).
    by rewrite lookup_delete_eq in Hd.
  - intros k f k' f' Hk Hk' Hle. rewrite elem_of_cons in Hk.
    assert (k' <> h) as Hne.
    { intros ->. assert (delete h (handles fm) !! h = Some f') as Hd by (apply Hsplit; by left).
      by rewrite lookup_delete_eq in Hd. }
    destruct Hk as [Hk|Hk]; [injection Hk as -> ->; lia|].
    specialize (Hlow k f k' f' Hk Hk' ltac:(lia)). lia.
Qed.

Lemma evict_loop_spec fuel fm h cnt :
  fm_inv fm -> 1 <= h -> nextHandle fm - h <= Z.of_nat fuel ->
  cnt <= Z.of_nat (size (live_from fm h)) ->
  exists rm fm', evict_loop fuel fm h cnt = Some (snd <$> rm, fm') /\
    evicted fm h rm fm' /\ zlen rm = Z.max cnt 0.
Proof.
  revert fm h cnt. induction fuel as [|fuel IH]; intros fm h cnt Hi Hh Hf Hc;
    cbn [evict_loop]; (destruct (Z.leb_spec cnt 0) as [Hz|Hz];
      [exists [], fm; split; [done|]; split; [by apply evicted_refl|unfold zlen; simpl; lia]|]).
  { rewrite live_from_next in Hc by (done || lia). rewrite size_empty in Hc. lia. }
  pose proof (fi_next _ Hi) as Hnx.
  destruct (decide (h < nextHandle fm)) as [Hlt|Hge].
  2: { rewrite live_from_next in Hc by (done || lia). rewrite size_empty in Hc. lia. }
  rewrite u64_small by (unfold is_u64; lia).
  destruct (handles fm !! h) as [file|] eqn:Eh.
  - pose proof (drop_handle_inv fm h file Hi Eh) as Hi'.
    rewrite (live_from_drop fm h file Eh) in Hc.
    destruct (IH (drop_handle fm h file) (h + 1) (cnt - 1)) as (rm & fm' & -> & He & Hl);
      [done|lia|simpl; lia|lia|].
    exists ((h, file) :: rm), fm'. split; [done|]. split; [by apply evicted_cons|unfold zlen in *; simpl; lia].
  - rewrite <- live_from_dead in Hc by done.
    destruct (IH fm (h + 1) cnt) as (rm & fm' & -> & He & Hl); [done|lia|lia|lia|].
    exists rm, fm'. split; [done|]. split; [|done].
    destruct He as [Hinv Hnext Hmax Hsize Hfree Hsplit Hgone Hlow]. constructor; try done.
    intros k f k' f' Hk Hk' Hle. assert (k' <> h).
    { intros ->. assert (handles fm !! h = Some f') by (apply Hsplit; by left). congruence. }
    specialize (Hlow k f k' f' Hk Hk' ltac:(lia)). lia.
Qed.

Lemma min_handle_spec hs :
  (forall h f, hs !! h = Some f -> min_handle hs <= h) /\
  (min_handle hs = MaxUint64 \/ is_Some (hs !! min_handle hs)).
Proof.
  unfold min_handle.
  apply (map_fold_weak_ind (fun m (hs : gmap Z File) =>
    (forall h f, hs !! h = Some f -> m <= h) /\ (m = MaxUint64 \/ is_Some (hs !! m)))).
  - split; [|by left]. intros h f Hf. by rewrite lookup_empty in Hf.
  - intros h f hs' m Hn [H1 H2]. split.
    + intros h' f' Hf'. destruct (decide (h = h')) as [<-|Hne].
      * destruct (Z.ltb_spec h m); lia.
      * rewrite lookup_insert_ne in Hf' by done. apply H1 in Hf'. destruct (Z.ltb_spec h m); lia.
    + destruct (Z.ltb_spec h m); [right; by rewrite lookup_insert_eq|].
      destruct H2 as [?|[f' Hf']]; [by left|]. right.
      destruct (decide (h = m)) as [->|]; [by rewrite lookup_insert_eq|].
      rewrite lookup_insert_ne by done. by eexists.
Qed.

Lemma live_from_min fm : live_from fm (min_handle (handles fm)) = dom (handles fm).
Proof.
  apply set_eq. intros k. unfold live_from. rewrite elem_of_filter, elem_of_dom.
  split; [tauto|]. intros [f Hf]. split; [|by exists f]. by eapply min_handle_spec.
Qed.

Lemma evict_spec fm :
  fm_inv fm ->
  exists rm fm', evict fm = Some (snd <$> rm, fm') /\ evicted fm 1 rm fm' /\
    (Z.of_nat (size (handles fm)) <= effective_max fm -> rm = []) /\
    (effective_max fm < Z.of_nat (size (handles fm)) ->
     zlen rm = Z.max 1 (effective_max fm / 10)).
Proof.
  intros Hi. unfold evict.
  destruct (Z.ltb_spec (effective_max fm) (Z.of_nat (size (handles fm)))) as [Hlt|Hge].
  2: { exists [], fm. split; [done|]. split; [by apply evicted_refl|]. split; [done|lia]. }
  assert (0 < effective_max fm) as Hmax.
  { unfold effective_max, DefaultMaxHandles. destruct (Z.leb_spec (maxHandles fm) 0); lia. }
  destruct (min_handle_spec (handles fm)) as [Hmin Hin].
  assert (1 <= min_handle (handles fm)) as Hm1.
  { destruct Hin as [-> | [f Hf]]; [unfold MaxUint64; lia|]. apply (fi_range _ Hi) in Hf. lia. }
  set (cnt := if effective_max fm / 10 <? 1 then 1 else effective_max fm / 10).
  assert (cnt = Z.max 1 (effective_max fm / 10)) as Hcnt
    by (subst cnt; destruct (Z.ltb_spec (effective_max fm / 10) 1); lia).
  assert (effective_max fm / 10 <= effective_max fm) by (apply Z.div_le_upper_bound; lia).
  destruct (evict_loop_spec (Z.to_nat (nextHandle fm)) fm (min_handle (handles fm)) cnt)
    as (rm & fm' & -> & He & Hl); [done|done| | |].
  { pose proof (fi_next _ Hi). lia. }
  { rewrite live_from_min, size_dom. lia. }
  exists rm, fm'. split; [done|]. split; [|split; [lia|intros; lia]].
  destruct He as [Hinv Hnext Hmx Hsize Hfree Hsplit Hgone Hlow]. constructor; try done.
  intros k f k' f' Hk Hk' _.
  assert (min_handle (handles fm) <= k').
  { eapply Hmin. apply Hsplit. by left. }
  specialize (Hlow k f k' f' Hk Hk' ltac:(done)). lia.
Qed.

(** *** Allocate *)

(** The map after the new file is stored and before any eviction. *)
Definition store (fm : FileHandleMap) (h : Z) (f : File) : FileHandleMap :=
  mkFM (<[h := f]> (handles fm))
    (match dedup_path f with Some p => <[p := h]> (pathHandles fm) | None => pathHandles fm end)
    (nextHandle fm) (freeHandles fm) (maxHandles fm).

Lemma store_inv fm h f :
  fm_inv fm -> handles fm !! h = None -> h ∉ freeHandles fm -> 1 <= h < nextHandle fm ->
  dedup_path f ≫= (fun p => pathHandles fm !! p) = None ->
  fm_inv (store fm h f).
Proof.
  intros Hi Hh Hfree Hr Hd. constructor; simpl; try apply Hi.
  - intros k g. rewrite lookup_insert_Some. intros [[<- _]|[_ Hk]]; [done|]. by eapply fi_range.
  - intros k Hk. assert (k <> h) by (by intros ->). rewrite lookup_insert_ne by done. by apply fi_free.
  - intros p k. destruct (dedup_path f) as [q|] eqn:Eq.
    + simpl in Hd. rewrite lookup_insert_Some. split.
      * intros [[<- <-]|[Hne Hp]]; [exists f; by rewrite lookup_insert_eq|].
        apply (fi_path _ Hi) in Hp as (g & Hg & Hgd). exists g.
        rewrite lookup_insert_ne; [done|]. intros <-. congruence.
      * intros (g & Hg & Hgd). apply lookup_insert_Some in Hg as [[<- <-]|[Hne Hg]].
        -- left. split; congruence.
        -- right. assert (pathHandles fm !! p = Some k) by (apply (fi_path _ Hi); eauto).
           split; [|done]. intros ->. congruence.
    + rewrite (fi_path _ Hi). split; intros (g & Hg & Hgd); exists g.
      * rewrite lookup_insert_ne; [done|]. intros <-. congruence.
      * apply lookup_insert_Some in Hg as [[<- <-]|[Hne Hg]]; [congruence|done].
Qed.

Lemma update_inv fm h f p :
  fm_inv fm -> dedup_path f = Some p -> pathHandles fm !! p = Some h ->
  fm_inv (mkFM (<[h := f]> (handles fm)) (pathHandles fm) (nextHandle fm) (freeHandles fm) (maxHandles fm)).
Proof.
  intros Hi Hd Hp. pose proof Hp as (g & Hg & Hgd)%(fi_path _ Hi).
  constructor; simpl; try apply Hi.
  - intros k g'. rewrite lookup_insert_Some. intros [[<- _]|[_ Hk]]; by eapply fi_range.
  - intros k Hk. pose proof (fi_free _ Hi k Hk) as [? Hn]. split; [done|].
    rewrite lookup_insert_ne; [done|]. intros <-. congruence.
  - intros q k. rewrite (fi_path _ Hi). split; intros (g' & Hg' & Hgd').
    + destruct (decide (h = k)) as [<-|].
      * exists f. rewrite lookup_insert_eq. split; [done|]. congruence.
      * exists g'. by rewrite lookup_insert_ne.
    + apply lookup_insert_Some in Hg' as [[<- <-]|[Hne Hg']]; [|by exists g'].
      exists g. split; congruence.
Qed.

(** [Allocate] on a map in order: a known path keeps its handle; otherwise the
    handle is fresh, the file is stored under it and an eviction follows. *)
Lemma Allocate_spec fm f :
  fm_inv fm -> nextHandle fm < 2 ^ 64 - 1 ->
  match dedup_path f ≫= (fun p => pathHandles fm !! p) with
  | Some h =>
      is_Some (handles fm !! h) /\
      exists fm', Allocate fm f = Some (h, [], fm') /\ fm_inv fm' /\
        handles fm' = <[h := f]> (handles fm) /\ maxHandles fm' = maxHandles fm /\
        nextHandle fm' = nextHandle fm
  | None =>
      exists h fm1 rm fm', Allocate fm f = Some (h, snd <$> rm, fm') /\
        handles fm !! h = None /\ handles fm1 = <[h := f]> (handles fm) /\
        maxHandles fm1 = maxHandles fm /\ evicted fm1 1 rm fm' /\
        nextHandle fm' <= nextHandle fm + 1 /\
        (Z.of_nat (size (handles fm1)) <= effective_max fm -> rm = []) /\
        (effective_max fm < Z.of_nat (size (handles fm1)) ->
         zlen rm = Z.max 1 (effective_max fm / 10))
  end.
Proof.
  intros Hi Hn. unfold Allocate.
  destruct (dedup_path f ≫= (fun p => pathHandles fm !! p)) as [h|] eqn:E.
  - apply bind_Some in E as (p & Hd & Hp). split.
    + apply (fi_path _ Hi) in Hp as (g & Hg & _). by exists g.
    + eexists. split; [done|]. split; [by eapply update_inv|]. done.
  - destruct (pick_handle fm) as [h fm0] eqn:Ep.
    apply pick_handle_spec in Ep as (Hh & Hhs & Hph & Hmx & Hfr & Hr & Hnx & Hi0); [|done..].
    change (mkFM (<[h := f]> (handles fm0)) _ (nextHandle fm0) (freeHandles fm0) (maxHandles fm0))
      with (store fm0 h f).
    assert (fm_inv (store fm0 h f)) as His
      by (apply store_inv; [done|by rewrite Hhs|done|done|by rewrite Hph]).
    destruct (evict_spec _ His) as (rm & fm' & -> & He & Hno & Hyes).
    exists h, (store fm0 h f), rm, fm'. simpl in *. rewrite Hhs in *.
    split; [done|]. split; [done|]. split; [done|]. split; [done|]. split; [done|].
    split; [rewrite (ev_next _ _ _ _ He); simpl; lia|].
    unfold effective_max in *; simpl in *. rewrite Hmx in *. done.
Qed.

Lemma Allocate_inv fm f :
  fm_inv fm -> nextHandle fm < 2 ^ 64 - 1 ->
  exists h closed fm', Allocate fm f = Some (h, closed, fm') /\ fm_inv fm' /\
    nextHandle fm' <= nextHandle fm + 1.
Proof.
  intros Hi Hn. pose proof (Allocate_spec fm f Hi Hn) as H.
  destruct (dedup_path f ≫= (fun p => pathHandles fm !! p)) as [h|].
  - destruct H as (_ & fm' & -> & Hi' & _ & _ & Hnx). exists h, [], fm'.
    split; [done|]. split; [done|lia].
  - destruct H as (h & fm1 & rm & fm' & -> & _ & _ & _ & He & Hnx & _).
    exists h, (snd <$> rm), fm'. split; [done|]. split; [apply He|done].
Qed.

(** *** The handle counter

    A handle is live, queued for reuse, or was dropped by an earlier
    [ReleaseAll]; [fm_base] counts the last kind and [Allocate] keeps it.  A
    map within its limit therefore never lets the counter pass its base by
    more than the limit plus one, and the counter cannot wrap around. *)

Definition fm_base (fm : FileHandleMap) : Z :=
  nextHandle fm - Z.of_nat (size (handles fm)) - zlen (freeHandles fm).

Definition fm_bounded (fm : FileHandleMap) : Prop :=
  Count fm <= effective_max fm /\
  nextHandle fm <= fm_base fm + effective_max fm + 1 /\
  fm_base fm + effective_max fm + 1 < 2 ^ 64 - 1.

Lemma effective_max_pos fm : 0 < effective_max fm.
Proof. unfold effective_max, DefaultMaxHandles. destruct (Z.leb_spec (maxHandles fm) 0); lia. Qed.

Lemma pick_handle_base fm h fm' :
  fm_inv fm -> nextHandle fm < 2 ^ 64 - 1 -> pick_handle fm = (h, fm') ->
  fm_base fm' = fm_base fm + 1 /\
  (nextHandle fm' = nextHandle fm \/
   nextHandle fm' = nextHandle fm + 1 /\ zlen (freeHandles fm) = 0).
Proof.
  intros Hi Hn. pose proof (fi_next _ Hi). unfold pick_handle, fm_base.
  destruct (decide (freeHandles fm = [])) as [E|Hne].
  - rewrite E. cbn [PopMin IsEmpty Len length Nat.eqb]. intros [= <- <-]; simpl.
    rewrite u64_small by (unfold is_u64; lia). unfold zlen; simpl. lia.
  - destruct (PopMin_spec _ (fi_heap _ Hi) Hne) as (x & free & -> & _ & Hp & _).
    intros [= <- <-]; simpl. unfold zlen. rewrite Hp. simpl. lia.
Qed.

Lemma Allocate_bounded fm f :
  fm_inv fm -> fm_bounded fm ->
  exists h closed fm', Allocate fm f = Some (h, closed, fm') /\ fm_inv fm' /\ fm_bounded fm' /\
    maxHandles fm' = maxHandles fm /\ is_u64 h /\
    (forall k g, handles fm' !! k = Some g -> handles fm !! k = Some g \/ g = f).
Proof.
  intros Hi (Hc & Hnx & Hb). unfold Allocate.
  assert (nextHandle fm < 2 ^ 64 - 1) as Hn by lia.
  destruct (dedup_path f ≫= (fun p => pathHandles fm !! p)) as [h|] eqn:E.
  - apply bind_Some in E as (p & Hd & Hp). pose proof Hp as (g & Hg & _)%(fi_path _ Hi).
    do 3 eexists. split; [done|]. split; [by eapply update_inv|]. split.
    + unfold fm_bounded, Count, fm_base, effective_max in *; simpl.
      rewrite map_size_insert_Some by by eexists. done.
    + split; [done|]. split; [pose proof (fi_range _ Hi _ _ Hg); unfold is_u64; lia|].
      cbn [handles]. intros k g' Hk. apply lookup_insert_Some in Hk as [[_ <-]|[_ Hk]]; auto.
  - destruct (pick_handle fm) as [h fm0] eqn:Ep.
    destruct (pick_handle_base fm h fm0 Hi Hn Ep) as [Hb0 Hn0].
    apply pick_handle_spec in Ep as (Hh & Hhs & Hph & Hmx & Hfr & Hr & Hnx0 & Hi0); [|done..].
    change (mkFM (<[h := f]> (handles fm0)) _ (nextHandle fm0) (freeHandles fm0) (maxHandles fm0))
      with (store fm0 h f).
    assert (fm_inv (store fm0 h f)) as His
      by (apply store_inv; [done|by rewrite Hhs|done|done|by rewrite Hph]).
    destruct (evict_spec _ His) as (rm & fm' & -> & He & Hno & Hyes).
    do 3 eexists. split; [done|]. split; [apply He|].
    pose proof (ev_size _ _ _ _ He) as Hsz. pose proof (ev_free _ _ _ _ He) as Hfree.
    pose proof (ev_next _ _ _ _ He) as Hnext. pose proof (ev_max _ _ _ _ He) as Hmax. simpl in *.
    assert (size (<[h := f]> (handles fm0)) = S (size (handles fm0))) as Hs1
      by (apply map_size_insert_None; by rewrite Hhs).
    assert (effective_max fm' = effective_max fm) as Hem by (unfold effective_max; by rewrite Hmax, Hmx).
    assert (effective_max (store fm0 h f) = effective_max fm) as Hem'
      by (unfold effective_max; simpl; by rewrite Hmx).
    rewrite Hem' in Hno, Hyes. pose proof (effective_max_pos fm).
    assert (fm_base fm' = fm_base fm) as Hbase by (unfold fm_base, zlen in *; lia).
    split; [|split; [congruence|split]].
    + unfold fm_bounded. rewrite Hem, Hbase. unfold Count in *. split; [|split; [|done]].
      * destruct (decide (Z.of_nat (size (<[h := f]> (handles fm0))) <= effective_max fm)) as [Hle|Hgt].
        -- rewrite (Hno Hle) in Hsz. simpl in Hsz. lia.
        -- specialize (Hyes ltac:(lia)). unfold zlen in Hyes. rewrite Hhs in *. lia.
      * rewrite Hnext. destruct Hn0 as [->|[-> Hz]]; [lia|]. unfold fm_base in *. rewrite Hz in *. lia.
    + pose proof (fi_next _ Hi0). unfold is_u64. lia.
    + intros k g Hg. assert (<[h := f]> (handles fm0) !! k = Some g) as Hk
        by (apply (ev_split _ _ _ _ He); by left).
      apply lookup_insert_Some in Hk as [[_ <-]|[_ Hk]]; [by right|]. left. by rewrite <- Hhs.
Qed.

Lemma fm_bounded_new maxH : maxH < 2 ^ 63 -> fm_bounded (NewFileHandleMap maxH).
Proof.
  intros Hm. pose proof (effective_max_pos (NewFileHandleMap maxH)) as Hp.
  assert (effective_max (NewFileHandleMap maxH) < 2 ^ 63) as Hlt.
  { unfold effective_max, DefaultMaxHandles; simpl. destruct (Z.leb_spec maxH 0); lia. }
  unfold fm_bounded, Count, fm_base; cbn [handles freeHandles nextHandle NewFileHandleMap].
  rewrite map_size_empty. change (zlen NewUint64MinHeap) with 0. lia.
Qed.

Lemma Release_inv fm h : fm_inv fm -> fm_inv (snd (Release fm h)).
Proof.
  intros Hi. unfold Release. destruct (handles fm !! h) eqn:E; [|done]. by apply drop_handle_inv.
Qed.

Lemma ReleaseAll_inv fm : fm_inv fm -> fm_inv (snd (ReleaseAll fm)).
Proof.
  intros Hi. pose proof (fm_inv_new (maxHandles fm)) as Hn. constructor; simpl; try apply Hi; try apply Hn.
  - intros h f Hf. by rewrite lookup_empty in Hf.
  - intros h Hh. by apply elem_of_nil in Hh.
Qed.

(** ** Properties *)

(** The operations a client of the map performs, as labels of steps. *)
Inductive fm_op := OpAllocate (f : File) | OpRelease (h : Z) | OpReleaseAll.

Inductive fm_step : FileHandleMap -> fm_op -> FileHandleMap -> Prop :=
| step_allocate fm f h closed fm' :
    Allocate fm f = Some (h, closed, fm') -> fm_step fm (OpAllocate f) fm'
| step_release fm h : fm_step fm (OpRelease h) (snd (Release fm h))
| step_release_all fm : fm_step fm OpReleaseAll (snd (ReleaseAll fm)).

(** [fm_run n fm fm']: [fm'] is reached from [fm] by [n] operations. *)
Inductive fm_run : nat -> FileHandleMap -> FileHandleMap -> Prop :=
| run_nil fm : fm_run 0 fm fm
| run_snoc n fm fm1 op fm2 : fm_run n fm fm1 -> fm_step fm1 op fm2 -> fm_run (S n) fm fm2.

Lemma fm_run_inv n maxH fm :
  fm_run n (NewFileHandleMap maxH) fm -> Z.of_nat n < 2 ^ 64 - 2 ->
  fm_inv fm /\ nextHandle fm <= 1 + Z.of_nat n.
Proof.
  intros Hr. remember (NewFileHandleMap maxH) as fm0 eqn:E0.
  induction Hr as [fm|n fm fm1 op fm2 Hr IH Hs]; intros Hn.
  - subst fm. split; [apply fm_inv_new|simpl; lia].
  - destruct (IH E0 ltac:(lia)) as [Hi Hnx]. destruct Hs as [fm1 f h closed fm2 Ha|fm1 h|fm1].
    + destruct (Allocate_inv fm1 f Hi ltac:(lia)) as (h' & cl' & fm' & Ha' & Hi' & Hnx').
      rewrite Ha in Ha'. simplify_eq. split; [done|lia].
    + split; [by apply Release_inv|]. unfold Release. case_match; simpl; lia.
    + split; [by apply ReleaseAll_inv|]. simpl. lia.
Qed.

(** C19: the handle map stays consistent.  After any sequence of fewer than
    [2^64 - 2] [Allocate], [Release] and [ReleaseAll] calls on a new map: live
    and free handles are disjoint and below the counter, no free handle is
    queued twice, the free list is heap ordered, and [pathHandles] is exactly
    the inverse of the paths of the live nodes, so two live handles never name
    the same path. *)
Theorem file_handle_map_invariant (n : nat) (maxH : Z) (fm : FileHandleMap)
    (Hrun : fm_run n (NewFileHandleMap maxH) fm) (Hn : Z.of_nat n < 2 ^ 64 - 2) :
  fm_inv fm.
Proof. by eapply fm_run_inv. Qed.

(** C20: [Allocate] always returns, and its eviction keeps the map within its
    limit.  On a consistent map it yields a handle; when the path is already
    known it is the existing handle, now bound to the new file, and no other
    binding changes; otherwise the handle was not in use, every file that
    leaves the map is closed, nothing else is closed, and if the map was
    within its limit before it is within it afterwards. *)
Theorem allocate_correct (fm : FileHandleMap) (f : File)
    (Hi : fm_inv fm) (Hn : nextHandle fm < 2 ^ 64 - 1) :
  exists h closed fm', Allocate fm f = Some (h, closed, fm') /\ fm_inv fm' /\
    match dedup_path f ≫= (fun p => pathHandles fm !! p) with
    | Some existing =>
        h = existing /\ closed = [] /\ handles fm' = <[existing := f]> (handles fm)
    | None =>
        Get fm h = None /\
        (exists rm, closed = snd <$> rm /\
          forall k g, <[h := f]> (handles fm) !! k = Some g <-> Get fm' k = Some g \/ (k, g) ∈ rm) /\
        (Count fm <= effective_max fm -> Count fm' <= effective_max fm)
    end.
Proof.
  pose proof (Allocate_spec fm f Hi Hn) as H.
  destruct (dedup_path f ≫= (fun p => pathHandles fm !! p)) as [h|].
  - destruct H as (_ & fm' & Ha & Hi' & Hh & _). by exists h, [], fm'.
  - destruct H as (h & fm1 & rm & fm' & Ha & Hfresh & Hh1 & Hm1 & He & _ & Hno & Hyes).
    exists h, (snd <$> rm), fm'. split; [done|]. split; [apply He|]. split; [done|]. split.
    + exists rm. split; [done|]. intros k g. rewrite <- Hh1. apply (ev_split _ _ _ _ He).
    + unfold Count. intros Hc. pose proof (ev_size _ _ _ _ He) as Hs.
      rewrite Hh1 in *. rewrite map_size_insert_None in * by done.
      destruct (decide (Z.of_nat (S (size (handles fm))) <= effective_max fm)) as [Hle|Hgt].
      * rewrite (Hno Hle) in Hs. simpl in Hs. lia.
      * specialize (Hyes ltac:(lia)). unfold zlen in Hyes. lia.
Qed.

(** A handle obtained below the limit works.  When the map has room,
    [Get] of the handle [Allocate] returned finds the file, and every other
    handle still finds the file it found before. *)
Theorem allocate_then_get (fm : FileHandleMap) (f : File)
    (Hi : fm_inv fm) (Hn : nextHandle fm < 2 ^ 64 - 1) (Hroom : Count fm < effective_max fm) :
  exists h closed fm', Allocate fm f = Some (h, closed, fm') /\ closed = [] /\
    Get fm' h = Some f /\ forall k, k <> h -> Get fm' k = Get fm k.
Proof.
  pose proof (Allocate_spec fm f Hi Hn) as H. unfold Get.
  destruct (dedup_path f ≫= (fun p => pathHandles fm !! p)) as [h|].
  - destruct H as (_ & fm' & Ha & Hi' & Hh & _). exists h, [], fm'. rewrite Hh.
    split; [done|]. split; [done|]. split; [apply lookup_insert_eq|].
    intros k Hk. by apply lookup_insert_ne.
  - destruct H as (h & fm1 & rm & fm' & Ha & Hfresh & Hh1 & Hm1 & He & _ & Hno & _).
    unfold Count in Hroom. rewrite Hh1, map_size_insert_None in Hno by done.
    specialize (Hno ltac:(lia)) as ->. exists h, [], fm'.
    assert (handles fm' = <[h := f]> (handles fm)) as ->.
    { rewrite <- Hh1. apply map_eq. intros k. apply option_eq. intros g.
      rewrite (ev_split _ _ _ _ He k g). set_solver. }
    split; [done|]. split; [done|]. split; [apply lookup_insert_eq|].
    intros k Hk. by apply lookup_insert_ne.
Qed.

(** *** Concrete runs *)

(** A node whose path is ["/"] repeated [i] times and ["f"]. *)
Definition sample_node (i : nat) : File := FNode (mkNode i (String.concat "/" (replicate (S i) "f"))).

(** Allocate handles for the files of a list, in order. *)
Fixpoint allocate_all (fm : FileHandleMap) (fs : list File) : option (list Z * FileHandleMap) :=
  match fs with
  | [] => Some ([], fm)
  | f :: fs =>
      '(h, _, fm1) ← Allocate fm f;
      '(hs, fm2) ← allocate_all fm1 fs;
      Some (h :: hs, fm2)
  end.

(** The new map with one file in it. *)
Definition sample_map : FileHandleMap :=
  default (NewFileHandleMap 0) (snd <$> Allocate (NewFileHandleMap 0) (sample_node 0)).

Lemma file_handle_map_invariant_witness : fm_inv (snd (Release sample_map 1)).
Proof.
  apply (file_handle_map_invariant 2 0).
  - apply (run_snoc 1 _ sample_map (OpRelease 1)); [|apply step_release].
    apply (run_snoc 0 _ (NewFileHandleMap 0) (OpAllocate (sample_node 0))); [apply run_nil|].
    apply (step_allocate _ _ 1 []). reflexivity.
  - reflexivity.
Defined.

Lemma allocate_correct_witness :
  exists h closed fm', Allocate (NewFileHandleMap 0) (sample_node 3) = Some (h, closed, fm') /\
    fm_inv fm' /\ Get (NewFileHandleMap 0) h = None /\
    (Count (NewFileHandleMap 0) <= effective_max (NewFileHandleMap 0) ->
     Count fm' <= effective_max (NewFileHandleMap 0)).
Proof.
  destruct (allocate_correct (NewFileHandleMap 0) (sample_node 3) (fm_inv_new 0) ltac:(vm_compute; reflexivity))
    as (h & closed & fm' & Ha & Hi & Hrest).
  exists h, closed, fm'. split; [exact Ha|]. split; [exact Hi|].
  cbn in Hrest. destruct Hrest as (Hg & _ & Hc). split; [exact Hg|exact Hc].
Defined.

Lemma allocate_then_get_witness :
  exists h closed fm', Allocate (NewFileHandleMap 0) (sample_node 3) = Some (h, closed, fm') /\
    closed = [] /\ Get fm' h = Some (sample_node 3) /\
    forall k, k <> h -> Get fm' k = Get (NewFileHandleMap 0) k.
Proof.
  apply (allocate_then_get (NewFileHandleMap 0) (sample_node 3) (fm_inv_new 0));
    vm_compute; reflexivity.
Defined.

(** At capacity [Allocate] can return a handle that is already dead.  With
    a limit of 10 handles, allocating twelve files in a row leaves the twelfth
    with the reused handle 1, which the eviction of the same call, taking the
    lowest handles for the oldest, has just removed: [Get] does not find it. *)
Theorem allocate_at_capacity_returns_dead_handle :
  exists hs fm, allocate_all (NewFileHandleMap 10) (sample_node <$> seq 0 12) = Some (hs, fm) /\
    last hs = Some 1 /\ Get fm 1 = None.
Proof.
  eexists _, _. split; [vm_compute; reflexivity|]. split; reflexivity.
Qed.
