(* ===== verification/Lru.v ===== *)
(** * The LRU structure of the caches (src/cache.go)

    [AttrCache] and [DirCache] keep a map from paths to entries and a
    [container/list] of the paths, most recently used first; each entry holds
    a reference to its list element.  This file models that shared structure
    over the type [V] of what an entry caches, and proves that it implements a
    bounded association list in recency order: an entry is found, added,
    moved to the front, removed or evicted in the map and in the list alike. *)

From S2P Require Import Prelude.
Open Scope Z_scope.

(** ** container/list

    A list element is a reference: a number, unique in its list, with the
    value it carries.  [MoveToFront] and [Remove] of an element that is not in
    the list do nothing. *)

Record GoList := mkGoList { next_elem : nat; elems : list (nat * string) }.

Definition list_New : GoList := mkGoList 0 [].
Definition list_Len (l : GoList) : Z := zlen (elems l).
Definition list_Back (l : GoList) : option (nat * string) := last (elems l).
Definition list_PushFront (l : GoList) (v : string) : nat * GoList :=
  (next_elem l, mkGoList (S (next_elem l)) ((next_elem l, v) :: elems l)).
Definition without (e : nat) (es : list (nat * string)) : list (nat * string) :=
  filter (fun x => x.1 <> e) es.
Definition list_Remove (l : GoList) (e : nat) : GoList :=
  mkGoList (next_elem l) (without e (elems l)).
Definition list_MoveToFront (l : GoList) (e : nat) : GoList :=
  match list_find (fun x => x.1 = e) (elems l) with
  | Some (_, x) => mkGoList (next_elem l) (x :: without e (elems l))
  | None => l
  end.

Section Lru.
Context {V : Type}.

Record Entry := mkEntry { value : V; listElement : option nat }.

(** The two fields of a cache that the LRU code touches. *)
Record Lru := mkLru { table : gmap string Entry; accessList : GoList }.

(** [updateAccessLog] *)
Definition updateAccessLog (c : Lru) (p : string) : Lru :=
  match table c !! p with
  | None => c
  | Some e =>
      match listElement e with
      | Some el => mkLru (table c) (list_MoveToFront (accessList c) el)
      | None =>
          let '(el, l) := list_PushFront (accessList c) p in
          mkLru (<[p := mkEntry (value e) (Some el)]> (table c)) l
      end
  end.

(** [removeFromAccessLog] of AttrCache, [removeFromAccessList] of DirCache *)
Definition removeFromAccessLog (c : Lru) (p : string) : Lru :=
  match table c !! p with
  | None => c
  | Some e =>
      match listElement e with
      | None => c
      | Some el =>
          mkLru (<[p := mkEntry (value e) None]> (table c)) (list_Remove (accessList c) el)
      end
  end.

(** [c.removeFromAccessLog(path); delete(c.cache, path)] *)
Definition lru_delete (c : Lru) (p : string) : Lru :=
  let c := removeFromAccessLog c p in mkLru (delete p (table c)) (accessList c).

(** Evict the least recently used entry. *)
Definition evict_back (c : Lru) : Lru :=
  if 0 <? list_Len (accessList c) then
    match list_Back (accessList c) with
    | Some (el, lruPath) =>
        mkLru (delete lruPath (table c)) (list_Remove (accessList c) el)
    | None => c
    end
  else c.

Definition lru_len (c : Lru) : Z := Z.of_nat (size (table c)).

(** The common part of [Put] and [PutNegative]: make room, store the entry
    with the element it had, and mark it most recently used. *)
Definition lru_put (maxSize : Z) (c : Lru) (p : string) (v : V) : Lru :=
  let existing := table c !! p in
  let c := if (maxSize <=? lru_len c) && bool_decide (existing = None)
           then evict_back c else c in
  let listElem := existing ≫= listElement in
  updateAccessLog (mkLru (<[p := mkEntry v listElem]> (table c)) (accessList c)) p.

(** The eviction loop of [Resize]: one element leaves the list per round. *)
Fixpoint shrink_loop (fuel : nat) (maxSize : Z) (c : Lru) : Lru :=
  match fuel with
  | O => c
  | S fuel =>
      if (maxSize <? lru_len c) && (0 <? list_Len (accessList c))
      then shrink_loop fuel maxSize (evict_back c)
      else c
  end.

Definition lru_shrink (maxSize : Z) (c : Lru) : Lru :=
  shrink_loop (length (elems (accessList c))) maxSize c.

(** [Clear]: a new map and a new list. *)
Definition lru_clear (c : Lru) : Lru := mkLru ∅ (mkGoList (next_elem (accessList c)) []).

Definition lru_new : Lru := mkLru ∅ list_New.

(** ** Abstract specification: an association list in recency order *)

Definition a_lookup (l : list (string * V)) (p : string) : option V :=
  snd ∘ snd <$> list_find (fun x => x.1 = p) l.
Definition a_remove (l : list (string * V)) (p : string) : list (string * V) := filter (fun x => x.1 <> p) l.
Definition a_touch (l : list (string * V)) (p : string) : list (string * V) :=
  match a_lookup l p with Some v => (p, v) :: a_remove l p | None => l end.
Definition a_evict (l : list (string * V)) : list (string * V) := take (length l - 1) l.
Definition a_put (maxSize : Z) (l : list (string * V)) (p : string) (v : V) : list (string * V) :=
  let l := if (maxSize <=? zlen l) && bool_decide (a_lookup l p = None) then a_evict l else l in
  (p, v) :: a_remove l p.

(** The association list a cache stands for. *)
Definition render (t : gmap string Entry) (es : list (nat * string)) : list (string * V) :=
  omap (fun x => (fun e => (x.2, value e)) <$> t !! x.2) es.
Definition abs (c : Lru) : list (string * V) := render (table c) (elems (accessList c)).

(** ** Invariant: the map and the list describe the same entries *)

Record lru_inv (c : Lru) : Prop := {
  li_ids : NoDup (elems (accessList c)).*1;
  li_next : forall i p, (i, p) ∈ elems (accessList c) -> (i < next_elem (accessList c))%nat;
  li_link : forall i p, (i, p) ∈ elems (accessList c) <->
              exists e, table c !! p = Some e /\ listElement e = Some i;
  li_all : forall p e, table c !! p = Some e -> is_Some (listElement e)
}.

(** ** Lemmas *)

Lemma lru_inv_new : lru_inv lru_new.
Proof.
  constructor; simpl; [constructor|set_solver| |].
  - intros i p. split; [set_solver|]. intros (e & He & _). by rewrite lookup_empty in He.
  - intros p e He. by rewrite lookup_empty in He.
Qed.

Lemma li_path_unique c i j p :
  lru_inv c -> (i, p) ∈ elems (accessList c) -> (j, p) ∈ elems (accessList c) -> i = j.
Proof.
  intros Hi H1 H2. apply (li_link _ Hi) in H1 as (e & He & E1).
  apply (li_link _ Hi) in H2 as (e' & He' & E2). congruence.
Qed.

Lemma li_id_unique c i p q :
  lru_inv c -> (i, p) ∈ elems (accessList c) -> (i, q) ∈ elems (accessList c) -> p = q.
Proof.
  intros Hi H1 H2. pose proof (li_ids _ Hi) as Hnd.
  apply list_elem_of_lookup in H1 as [a Ha]. apply list_elem_of_lookup in H2 as [b Hb].
  assert (a = b) as ->; [|congruence].
  eapply (NoDup_lookup _ a b i Hnd); rewrite list_lookup_fmap; by rewrite ?Ha, ?Hb.
Qed.

(** Removing the element of [p] is removing the elements that carry [p]. *)
Lemma without_path c i p :
  lru_inv c -> (i, p) ∈ elems (accessList c) ->
  without i (elems (accessList c)) = filter (fun x => x.2 <> p) (elems (accessList c)).
Proof.
  intros Hi Hin. unfold without. apply list_filter_iff_strong.
  intros [j q] Hx; simpl. split; intros Hne E; apply Hne; subst.
  - by eapply li_path_unique.
  - by eapply li_id_unique.
Qed.

Lemma render_cons t i q es :
  render t ((i, q) :: es) =
    match t !! q with Some e => (q, value e) :: render t es | None => render t es end.
Proof. unfold render; simpl. by destruct (t !! q). Qed.

Lemma render_filter t es p :
  render t (filter (fun x => x.2 <> p) es) = a_remove (render t es) p.
Proof.
  unfold a_remove. induction es as [|[i q] es IH]; [done|].
  rewrite render_cons, filter_cons.
  destruct (decide ((i, q).2 <> p)) as [Hq|Hq]; simpl in Hq.
  - rewrite render_cons, IH. destruct (t !! q); [|done].
    by rewrite filter_cons_True.
  - rewrite IH. destruct (t !! q); [|done]. by rewrite filter_cons_False.
Qed.

Lemma render_ext t t' es :
  (forall i p, (i, p) ∈ es -> value <$> t !! p = value <$> t' !! p) -> render t es = render t' es.
Proof.
  induction es as [|[i q] es IH]; intros H; [done|]. rewrite !render_cons.
  rewrite IH by (intros j p Hj; apply (H j p); by apply elem_of_cons; right).
  specialize (H i q ltac:(by apply elem_of_cons; left)).
  destruct (t !! q), (t' !! q); simpl in *; congruence.
Qed.

(** Every listed path has an entry. *)
Lemma render_total c : lru_inv c ->
  (abs c).*1 = (elems (accessList c)).*2.
Proof.
  intros Hi. unfold abs.
  assert (forall i p, (i, p) ∈ elems (accessList c) -> is_Some (table c !! p)) as H.
  { intros i p Hin. apply (li_link _ Hi) in Hin as (e & -> & _). by eexists. }
  induction (elems (accessList c)) as [|[i q] es IH]; [done|]. rewrite render_cons.
  destruct (H i q ltac:(by apply elem_of_cons; left)) as [e ->]. simpl. f_equal.
  apply IH. intros j p Hj. apply (H j p). by apply elem_of_cons; right.
Qed.

Lemma abs_nodup c : lru_inv c -> NoDup (abs c).*1.
Proof.
  intros Hi. rewrite render_total by done. apply NoDup_fmap_2_strong; [|eapply NoDup_fmap_1, li_ids, Hi].
  intros [i p] [j q] H1 H2 E; simpl in *; subst. f_equal. by eapply li_path_unique.
Qed.

Lemma abs_elem c p v :
  lru_inv c -> (p, v) ∈ abs c <-> exists e, table c !! p = Some e /\ value e = v.
Proof.
  intros Hi. unfold abs, render. rewrite list_elem_of_omap. split.
  - intros ([i q] & Hin & E). simpl in E. destruct (table c !! q) eqn:Eq; [|done].
    simpl in E. injection E as <- <-. eauto.
  - intros (e & He & <-). destruct (li_all _ Hi p e He) as [i Hl].
    exists (i, p). split; [apply (li_link _ Hi); eauto|]. simpl. by rewrite He.
Qed.

Lemma a_lookup_elem l p v :
  NoDup l.*1 -> a_lookup l p = Some v <-> (p, v) ∈ l.
Proof.
  intros Hnd. unfold a_lookup. rewrite fmap_Some. split.
  - intros ([i [q w]] & Hf & ->). apply list_find_Some in Hf as (Hl & Hq & _). simpl in *. subst.
    by eapply list_elem_of_lookup_2.
  - intros Hin. destruct (list_find_elem_of (fun x => x.1 = p) l (p, v) Hin eq_refl) as [[i [q w]] Hf].
    exists (i, (q, w)). split; [done|]. apply list_find_Some in Hf as (Hl & Hq & _). simpl in *. subst.
    apply list_elem_of_lookup in Hin as [j Hj].
    assert (i = j) as ->; [|congruence].
    eapply (NoDup_lookup _ i j p Hnd); rewrite list_lookup_fmap; by rewrite ?Hl, ?Hj.
Qed.

Lemma abs_lookup c p : lru_inv c -> a_lookup (abs c) p = value <$> table c !! p.
Proof.
  intros Hi. apply option_eq. intros v. rewrite a_lookup_elem by by apply abs_nodup.
  rewrite abs_elem by done. rewrite fmap_Some. naive_solver.
Qed.

Lemma abs_lookup_None c p : lru_inv c -> a_lookup (abs c) p = None <-> table c !! p = None.
Proof. intros Hi. rewrite abs_lookup by done. by rewrite fmap_None. Qed.

Lemma abs_size c : lru_inv c -> zlen (abs c) = lru_len c.
Proof.
  intros Hi. unfold lru_len. rewrite <- size_dom.
  assert (dom (table c) = list_to_set (abs c).*1) as ->.
  { apply set_eq. intros p. rewrite elem_of_dom, elem_of_list_to_set, list_elem_of_fmap. split.
    - intros [e He]. exists (p, value e). split; [done|]. apply abs_elem; eauto.
    - intros ([q v] & -> & Hin). apply abs_elem in Hin as (e & He & _); [by eexists|done]. }
  rewrite size_list_to_set by by apply abs_nodup. by rewrite length_fmap.
Qed.

(** *** Operations preserve the invariant and refine the specification *)

Lemma find_elem c i p :
  lru_inv c -> (i, p) ∈ elems (accessList c) ->
  exists k, list_find (fun x => x.1 = i) (elems (accessList c)) = Some (k, (i, p)).
Proof.
  intros Hi Hin.
  destruct (list_find_elem_of (fun x => x.1 = i) _ (i, p) Hin eq_refl) as [[k [j q]] Hf].
  exists k. rewrite Hf. apply list_find_Some in Hf as (Hl & Hj & _). simpl in Hj. subst.
  apply list_elem_of_lookup_2 in Hl. do 2 f_equal. by rewrite (li_id_unique c i p q).
Qed.

Lemma elem_without i j p es : (j, p) ∈ without i es <-> j <> i /\ (j, p) ∈ es.
Proof. unfold without. by rewrite list_elem_of_filter. Qed.

Lemma nodup_without i es : NoDup es.*1 -> NoDup (without i es).*1.
Proof.
  intros H. unfold without. induction es as [|[j q] es IH]; [done|].
  rewrite fmap_cons, NoDup_cons in H. destruct H as [Hj H].
  rewrite filter_cons. case_decide; [|by apply IH].
  rewrite fmap_cons, NoDup_cons. split; [|by apply IH].
  intros Hin. apply Hj. apply list_elem_of_fmap in Hin as (x & -> & Hx).
  apply list_elem_of_filter in Hx as [_ Hx]. by apply list_elem_of_fmap_2.
Qed.

(** Touching a linked entry. *)
Lemma update_linked c p e i :
  lru_inv c -> table c !! p = Some e -> listElement e = Some i ->
  lru_inv (updateAccessLog c p) /\
  abs (updateAccessLog c p) = (p, value e) :: a_remove (abs c) p /\
  table (updateAccessLog c p) = table c.
Proof.
  intros Hi He Hl. assert ((i, p) ∈ elems (accessList c)) as Hin by (apply (li_link _ Hi); eauto).
  unfold updateAccessLog. rewrite He, Hl. unfold list_MoveToFront.
  destruct (find_elem c i p Hi Hin) as [k ->]. split; [|split; [|done]].
  - constructor; cbn [table accessList elems next_elem].
    + rewrite fmap_cons. constructor; [|apply nodup_without, Hi].
      intros Hx. apply list_elem_of_fmap in Hx as ([j q] & E & Hx). simpl in E. subst.
      apply elem_without in Hx as [? _]. done.
    + intros j q. rewrite elem_of_cons, elem_without. intros [E|[_ Hx]].
      * injection E as -> ->. by eapply li_next.
      * by eapply li_next.
    + intros j q. rewrite elem_of_cons, elem_without, <- (li_link _ Hi). split.
      * intros [E|[_ Hx]]; [by injection E as -> ->|done].
      * intros Hx. destruct (decide (j = i)) as [->|]; [|by right].
        left. by rewrite (li_id_unique c i p q).
    + apply Hi.
  - unfold abs; cbn [table accessList elems]. rewrite render_cons, He.
    by rewrite (without_path c i p), render_filter by done.
Qed.

Lemma update_touch c p :
  lru_inv c ->
  lru_inv (updateAccessLog c p) /\ abs (updateAccessLog c p) = a_touch (abs c) p /\
  table (updateAccessLog c p) = table c.
Proof.
  intros Hi. unfold a_touch. rewrite abs_lookup by done.
  destruct (table c !! p) as [e|] eqn:He; simpl.
  - destruct (li_all _ Hi p e He) as [i Hl]. by apply (update_linked c p e i).
  - unfold updateAccessLog. by rewrite He.
Qed.

Lemma delete_spec c p :
  lru_inv c ->
  lru_inv (lru_delete c p) /\ abs (lru_delete c p) = a_remove (abs c) p /\
  table (lru_delete c p) = delete p (table c).
Proof.
  intros Hi. unfold lru_delete, removeFromAccessLog.
  destruct (table c !! p) as [e|] eqn:He.
  - destruct (li_all _ Hi p e He) as [i Hl]. rewrite Hl. cbn [table accessList].
    rewrite delete_insert_eq.
    assert ((i, p) ∈ elems (accessList c)) as Hin by (apply (li_link _ Hi); eauto).
    split; [|split; [|done]].
    + constructor; cbn [table accessList list_Remove elems next_elem].
      * apply nodup_without, Hi.
      * intros j q. rewrite elem_without. intros [_ Hx]. by eapply li_next.
      * intros j q. rewrite elem_without, (li_link _ Hi). split.
        -- intros [Hne (e' & He' & Hl')]. exists e'. split; [|done].
           rewrite lookup_delete_ne; [done|]. intros <-. congruence.
        -- intros (e' & [Hne He']%lookup_delete_Some & Hl'). split; [|by exists e'].
           intros ->. apply Hne. eapply (li_id_unique c i); [done|done|]. apply (li_link _ Hi); eauto.
      * intros q e' [_ He']%lookup_delete_Some. by eapply li_all.
    + unfold abs; cbn [table accessList list_Remove elems].
      rewrite (without_path c i p) by done. rewrite <- render_filter. apply render_ext.
      intros j q Hx. apply list_elem_of_filter in Hx as [Hne _]. simpl in Hne.
      by rewrite lookup_delete_ne by done.
  - destruct c as [t l]; simpl in *. rewrite delete_id by done. split; [done|]. split; [|done].
    unfold a_remove. symmetry. apply filter_all. intros [q v] Hx. simpl. intros ->.
    apply abs_elem in Hx as (e & He' & _); [|done]. simpl in He'. congruence.
Qed.

Lemma evict_back_spec c :
  lru_inv c ->
  lru_inv (evict_back c) /\ abs (evict_back c) = a_evict (abs c) /\
  (forall p, table c !! p = None -> table (evict_back c) !! p = None).
Proof.
  intros Hi. unfold evict_back, list_Len, list_Back, a_evict.
  destruct (last (elems (accessList c))) as [[i p]|] eqn:El.
  2: { apply last_None in El.
       assert (abs c = []) as E by (unfold abs; by rewrite El).
       destruct (0 <? zlen (elems (accessList c))); rewrite E; by repeat split; try apply Hi. }
  apply last_Some in El as [es El].
  destruct (Z.ltb_spec 0 (zlen (elems (accessList c)))) as [_|Hz].
  2: { rewrite El, zlen_app in Hz. unfold zlen in Hz. simpl in Hz. lia. }
  assert ((i, p) ∈ elems (accessList c)) as Hin by (rewrite El; apply elem_of_app; right; by apply elem_of_cons; left).
  pose proof Hin as (e & He & Hl)%(li_link _ Hi).
  assert (mkLru (delete p (table c)) (list_Remove (accessList c) i) = lru_delete c p) as ->.
  { unfold lru_delete, removeFromAccessLog. rewrite He, Hl. cbn [table accessList].
    by rewrite delete_insert_eq. }
  destruct (delete_spec c p Hi) as (Hi' & Ha & Ht). split; [done|]. split.
  - rewrite Ha. pose proof (abs_nodup c Hi) as Hnd. pose proof (render_total c Hi) as Hr.
    rewrite El, fmap_app in Hr. simpl in Hr.
    destruct (abs c) as [|x l _] using rev_ind.
    { apply (f_equal length) in Hr. rewrite length_app in Hr. simpl in Hr. lia. }
    rewrite fmap_app in Hr. simpl in Hr. apply app_inj_2 in Hr as [_ Hx]; [|done].
    injection Hx as Hx. rewrite length_app; cbn [length].
    replace (length l + 1 - 1)%nat with (length l) by lia. rewrite take_app_length.
    unfold a_remove. rewrite filter_app, filter_cons_False, app_nil_r by (by intros ?).
    apply filter_all. intros y Hy Ey.
    rewrite fmap_app in Hnd. apply NoDup_app in Hnd as (_ & Hd & _).
    apply (Hd x.1); [|simpl; set_solver]. rewrite Hx, <- Ey. by apply list_elem_of_fmap_2.
  - intros q Hq. rewrite Ht. apply lookup_delete_None. by right.
Qed.

(** Storing a new path links a fresh element. *)
Lemma insert_new c p v :
  lru_inv c -> table c !! p = None ->
  let c' := updateAccessLog (mkLru (<[p := mkEntry v None]> (table c)) (accessList c)) p in
  lru_inv c' /\ abs c' = (p, v) :: abs c.
Proof.
  intros Hi Hn. unfold updateAccessLog; cbn [table accessList].
  rewrite lookup_insert_eq; cbn [listElement list_PushFront value].
  rewrite insert_insert_eq. set (n := next_elem (accessList c)).
  assert (forall j q, (j, q) ∈ elems (accessList c) -> q <> p /\ j <> n) as Hfresh.
  { intros j q Hx. pose proof (li_next _ Hi j q Hx).
    apply (li_link _ Hi) in Hx as (e & He & _). split; [intros ->; congruence|lia]. }
  split.
  - constructor; cbn [table accessList elems next_elem].
    + rewrite fmap_cons. constructor; [|apply Hi]. intros Hx.
      apply list_elem_of_fmap in Hx as ([j q] & E & Hx). simpl in E. subst j.
      by apply Hfresh in Hx as [_ ?].
    + intros j q. rewrite elem_of_cons. intros [E|Hx]; [injection E as -> ->; subst n; lia|].
      pose proof (li_next _ Hi j q Hx). subst n. lia.
    + intros j q. rewrite elem_of_cons, (li_link _ Hi). split.
      * intros [E|(e & He & Hl)]; [injection E as -> ->; exists (mkEntry v (Some n)); by rewrite lookup_insert_eq|].
        exists e. rewrite lookup_insert_ne; [done|]. intros <-. congruence.
      * intros (e & He & Hl). apply lookup_insert_Some in He as [[<- <-]|[Hne He]]; [left|right].
        -- simpl in Hl. congruence.
        -- by exists e.
    + intros q e He. apply lookup_insert_Some in He as [[<- <-]|[Hne He]]; [by eexists|by eapply li_all].
  - unfold abs; cbn [table accessList elems]. rewrite render_cons, lookup_insert_eq. simpl. f_equal.
    apply render_ext. intros j q Hx. apply Hfresh in Hx as [Hne _].
    by rewrite lookup_insert_ne.
Qed.

(** Overwriting the value of a path keeps its element. *)
Lemma overwrite_inv c p e v :
  lru_inv c -> table c !! p = Some e ->
  let c' := mkLru (<[p := mkEntry v (listElement e)]> (table c)) (accessList c) in
  lru_inv c' /\ a_remove (abs c') p = a_remove (abs c) p.
Proof.
  intros Hi He c'. split.
  - constructor; subst c'; cbn [table accessList]; [apply Hi|apply (li_next _ Hi)| |].
    + intros j q. rewrite (li_link _ Hi). split.
      * intros (e' & He' & Hl). destruct (decide (p = q)) as [<-|].
        -- exists (mkEntry v (listElement e)). rewrite lookup_insert_eq. split; [done|]. simpl. congruence.
        -- exists e'. by rewrite lookup_insert_ne.
      * intros (e' & He' & Hl). apply lookup_insert_Some in He' as [[<- <-]|[Hne He']]; eauto.
    + intros q e' He'. apply lookup_insert_Some in He' as [[<- <-]|[Hne He']]; [exact (li_all _ Hi p e He)|exact (li_all _ Hi q e' He')].
  - unfold abs; cbn [table accessList c']. rewrite <- !render_filter. apply render_ext.
    intros j q Hx. apply list_elem_of_filter in Hx as [Hne _]. simpl in Hne.
    by rewrite lookup_insert_ne by done.
Qed.

Lemma a_remove_absent (l : list (string * V)) p : a_lookup l p = None -> a_remove l p = l.
Proof.
  intros Hn. apply filter_all. intros [q v] Hx E. simpl in E. subst q.
  unfold a_lookup in Hn. apply fmap_None, list_find_None in Hn.
  rewrite Forall_forall in Hn. by apply (Hn (p, v) Hx).
Qed.

Lemma put_spec maxSize c p v :
  lru_inv c ->
  lru_inv (lru_put maxSize c p v) /\ abs (lru_put maxSize c p v) = a_put maxSize (abs c) p v.
Proof.
  intros Hi. unfold lru_put, a_put. rewrite abs_size, abs_lookup by done.
  destruct (table c !! p) as [e|] eqn:He; simpl.
  - rewrite andb_false_r. destruct (overwrite_inv c p e v Hi He) as [Hi' Hr].
    destruct (li_all _ Hi p e He) as [i Hl].
    set (c' := mkLru _ _) in *.
    destruct (update_linked c' p (mkEntry v (listElement e)) i) as (Hi2 & Ha & _);
      [done|apply lookup_insert_eq|done|].
    split; [done|]. rewrite Ha. simpl. by rewrite Hr.
  - rewrite andb_true_r. destruct (maxSize <=? lru_len c).
    + destruct (evict_back_spec c Hi) as (Hie & Hae & Hne). specialize (Hne p He).
      destruct (insert_new (evict_back c) p v Hie Hne) as [Hi' Ha]. split; [done|].
      rewrite Ha, <- Hae, a_remove_absent; [done|]. by apply abs_lookup_None.
    + destruct (insert_new c p v Hi He) as [Hi' Ha]. split; [done|].
      rewrite Ha, a_remove_absent; [done|]. by apply abs_lookup_None.
Qed.

Lemma shrink_loop_spec fuel maxSize c :
  lru_inv c -> 0 <= maxSize -> zlen (abs c) <= Z.of_nat fuel ->
  lru_inv (shrink_loop fuel maxSize c) /\
  abs (shrink_loop fuel maxSize c) = take (Z.to_nat maxSize) (abs c).
Proof.
  revert c. induction fuel as [|fuel IH]; intros c Hi Hm Hf.
  - split; [done|]. assert (abs c = []) as E by (apply length_zero_iff_nil; unfold zlen in Hf; lia).
    cbn [shrink_loop]. by rewrite E, take_nil.
  - cbn [shrink_loop]. rewrite <- abs_size by done.
    assert (list_Len (accessList c) = zlen (abs c)) as Hll.
    { unfold list_Len, zlen. rewrite <- (length_fmap fst (abs c)), render_total by done.
      by rewrite length_fmap. }
    rewrite Hll. destruct (Z.ltb_spec maxSize (zlen (abs c))) as [Hlt|Hge]; simpl.
    + destruct (Z.ltb_spec 0 (zlen (abs c))) as [Hpos|]; [|lia].
      destruct (evict_back_spec c Hi) as (Hie & Hae & _).
      destruct (IH (evict_back c) Hie Hm) as [Hi' Ha].
      { rewrite Hae. unfold a_evict, zlen in *. rewrite length_take. lia. }
      split; [done|]. rewrite Ha, Hae. unfold a_evict. rewrite take_take.
      f_equal. unfold zlen in *. lia.
    + split; [done|]. rewrite take_ge; [done|]. unfold zlen in *. lia.
Qed.

Lemma shrink_spec maxSize c :
  lru_inv c -> 0 <= maxSize ->
  lru_inv (lru_shrink maxSize c) /\
  abs (lru_shrink maxSize c) = take (Z.to_nat maxSize) (abs c).
Proof.
  intros Hi Hm. apply shrink_loop_spec; [done|done|].
  unfold zlen. rewrite <- (length_fmap fst (abs c)), render_total, length_fmap by done. lia.
Qed.

Lemma clear_spec c : lru_inv (lru_clear c) /\ abs (lru_clear c) = [].
Proof.
  split; [|done]. constructor; simpl; [constructor|set_solver| |].
  - intros i p. split; [set_solver|]. intros (e & He & _). by rewrite lookup_empty in He.
  - intros p e He. by rewrite lookup_empty in He.
Qed.

(** Sizes under the specification. *)
Lemma a_remove_length (l : list (string * V)) p : (length (a_remove l p) <= length l)%nat.
Proof. apply length_filter. Qed.

Lemma a_remove_length_lt (l : list (string * V)) p :
  a_lookup l p <> None -> (length (a_remove l p) < length l)%nat.
Proof.
  unfold a_remove, a_lookup. induction l as [|[q w] l IH]; [done|]. simpl.
  destruct (decide (q = p)) as [->|Hq].
  - intros _. rewrite filter_cons_False by (simpl; by intros ?).
    pose proof (length_filter (fun x : string * V => x.1 <> p) l). lia.
  - intros H. rewrite filter_cons_True by done. cbn [length].
    enough (length (filter (fun x : string * V => x.1 <> p) l) < length l)%nat by lia. apply IH.
    intros E. apply H. destruct (list_find (fun x => x.1 = p) l) as [[]|]; done.
Qed.

Lemma a_put_length maxSize (l : list (string * V)) p v :
  0 < maxSize -> zlen l <= maxSize -> zlen (a_put maxSize l p v) <= maxSize.
Proof.
  intros Hm Hl. unfold a_put, zlen in *.
  destruct (decide (a_lookup l p = None)) as [E|E].
  - rewrite bool_decide_true by done. rewrite andb_true_r.
    destruct (Z.leb_spec maxSize (Z.of_nat (length l))) as [Hle|Hlt]; simpl.
    + pose proof (a_remove_length (a_evict l) p) as H. unfold a_evict in *. rewrite length_take in H. lia.
    + pose proof (a_remove_length l p). lia.
  - rewrite bool_decide_false by done. rewrite andb_false_r; simpl.
    pose proof (a_remove_length_lt l p E). lia.
Qed.

End Lru.
Arguments Entry V : clear implicits.
Arguments Lru V : clear implicits.
