(* ===== verification/AttrCache.v ===== *)
(** * The attribute cache (src/cache.go, AttrCache)

    A size-bounded LRU map from paths to attributes, or to the fact that the
    path does not exist (a negative entry), each with an expiry time.  An
    operation holds the cache's mutex for its whole effect, but for [Get] and
    [PutNegative], which read under the read lock and write under the write
    lock: their two sections are steps of their own besides, so that runs are
    interleavings of what is atomic.  The value of each [time.Now()] is an
    argument.  The specification is a bounded association list in recency
    order, and every run on the cache returns what the specification
    returns. *)

From S2P Require Import Prelude Errors Xdr Attributes Lru.
Open Scope Z_scope.

(** ** State *)

(** [CachedAttrs] without the list element, which [Lru.Entry] holds. *)
Record CachedAttrs := mkCachedAttrs {
  ca_attrs : option NFSAttrs;
  expireAt : Z;
  isNegative : bool
}.

Record AttrCache := mkAttrCache {
  ac_lru : Lru CachedAttrs;      (* cache, accessList *)
  ac_ttl : Z;
  ac_negativeTTL : Z;
  ac_maxSize : Z;
  ac_enableNegative : bool
}.

Definition ac_with_lru (c : AttrCache) (l : Lru CachedAttrs) : AttrCache :=
  mkAttrCache l (ac_ttl c) (ac_negativeTTL c) (ac_maxSize c) (ac_enableNegative c).

(** ** Operations *)

Definition NewAttrCache (ttl maxSize : Z) : AttrCache :=
  let maxSize := if maxSize <=? 0 then 10000 else maxSize in
  mkAttrCache lru_new ttl (5 * second) maxSize false.

Definition ConfigureNegativeCaching (c : AttrCache) (enable : bool) (ttl : Z) : AttrCache :=
  mkAttrCache (ac_lru c) (ac_ttl c)
    (if 0 <? ttl then ttl else ac_negativeTTL c) (ac_maxSize c) enable.

(** The field by field copy [Get] and [Put] make: [validUntil] is left at the
    zero time. *)
Definition copyAttrs (a : NFSAttrs) : NFSAttrs :=
  SetAtime (SetMtime (mkNFSAttrs (Mode a) (Size a) (FileId a) time_zero time_zero (Uid a) (Gid a) time_zero)
    (mtime a)) (atime a).

(** What [Get] has left to do under the write lock. *)
Inductive get_rest := GetDone | GetTouch | GetExpire.

(** [Get] under the read lock: its result, and what is left to do.  [None] is
    the dereference of a nil [attrs]. *)
Definition Get_read (c : AttrCache) (path : string) (now : Z) : option (option NFSAttrs * bool * get_rest) :=
  match table (ac_lru c) !! path with
  | Some e =>
      if now <? expireAt (value e) then
        if isNegative (value e) then Some (None, true, GetTouch)
        else
          match ca_attrs (value e) with
          | Some a => Some (Some (copyAttrs a), true, GetTouch)
          | None => None
          end
      else Some (None, false, GetExpire)
  | None => Some (None, false, GetDone)
  end.

(** [Get] under the write lock: the entry is looked up again. *)
Definition Get_write (c : AttrCache) (path : string) (rest : get_rest) (now' : Z) : AttrCache :=
  match rest, table (ac_lru c) !! path with
  | GetTouch, Some _ => ac_with_lru c (updateAccessLog (ac_lru c) path)
  | GetExpire, Some e => if expireAt (value e) <? now' then ac_with_lru c (lru_delete (ac_lru c) path) else c
  | _, _ => c
  end.

(** [Get] with nothing in between.  The pair is the Go result.  The metric
    recorded on the server is determined by it: (nil, true) a negative hit,
    (attrs, true) a hit, (nil, false) a miss. *)
Definition AttrCache_Get (c : AttrCache) (path : string) (now now' : Z)
    : option (option NFSAttrs * bool * AttrCache) :=
  '(a, ok, rest) ← Get_read c path now;
  Some (a, ok, Get_write c path rest now').

Definition AttrCache_Put (c : AttrCache) (path : string) (attrs : NFSAttrs) (now : Z) : AttrCache :=
  ac_with_lru c (lru_put (ac_maxSize c) (ac_lru c) path
    (mkCachedAttrs (Some (copyAttrs attrs)) (now + ac_ttl c) false)).

(** [PutNegative]: the TTL, if negative caching is enabled, is read under the
    read lock. *)
Definition PutNegative_read (c : AttrCache) : option Z :=
  if ac_enableNegative c then Some (ac_negativeTTL c) else None.

Definition PutNegative_write (c : AttrCache) (path : string) (negativeTTL now : Z) : AttrCache :=
  ac_with_lru c (lru_put (ac_maxSize c) (ac_lru c) path (mkCachedAttrs None (now + negativeTTL) true)).

Definition PutNegative (c : AttrCache) (path : string) (now : Z) : AttrCache :=
  match PutNegative_read c with
  | Some negativeTTL => PutNegative_write c path negativeTTL now
  | None => c
  end.

Definition AttrCache_Invalidate (c : AttrCache) (path : string) : AttrCache :=
  ac_with_lru c (lru_delete (ac_lru c) path).

Definition AttrCache_Clear (c : AttrCache) : AttrCache := ac_with_lru c (lru_clear (ac_lru c)).

Definition AttrCache_Size (c : AttrCache) : Z := lru_len (ac_lru c).
Definition AttrCache_Stats (c : AttrCache) : Z * Z := (lru_len (ac_lru c), ac_maxSize c).

(** The entries of the map, in some iteration order. *)
Definition ac_entries (c : AttrCache) : list (string * Entry CachedAttrs) :=
  map_to_list (table (ac_lru c)).

Definition NegativeStats (c : AttrCache) : Z :=
  zlen (filter (fun kv => isNegative (value kv.2) = true) (ac_entries c)).

Definition isChildOf (path dirPath : string) : bool :=
  let direct remainder := negb (str_has chr_slash remainder) && (0 <? slen remainder) in
  if String.eqb dirPath "/" then
    if String.eqb path "/" || (slen path <? 2) then false
    else direct (str_drop 1 path)
  else if slen path <=? slen dirPath + 1 then false
  else if negb (String.eqb (str_take (String.length dirPath) path) dirPath) then false
  else if negb (bool_decide (str_at path (String.length dirPath) = Some chr_slash)) then false
  else direct (str_drop (String.length dirPath + 1) path).

Definition InvalidateNegativeInDir (c : AttrCache) (dirPath : string) : AttrCache :=
  let toDelete :=
    (filter (fun kv => isNegative (value kv.2) && isChildOf kv.1 dirPath = true) (ac_entries c)).*1 in
  ac_with_lru c (foldl lru_delete (ac_lru c) toDelete).

Definition AttrCache_Resize (c : AttrCache) (newSize : Z) : AttrCache :=
  let newSize := if newSize <=? 0 then 10000 else newSize in
  if ac_maxSize c =? newSize then c
  else mkAttrCache (lru_shrink newSize (ac_lru c)) (ac_ttl c) (ac_negativeTTL c) newSize
         (ac_enableNegative c).

Definition AttrCache_UpdateTTL (c : AttrCache) (newTTL : Z) : AttrCache :=
  let newTTL := if newTTL <=? 0 then 5 * second else newTTL in
  mkAttrCache (ac_lru c) newTTL (ac_negativeTTL c) (ac_maxSize c) (ac_enableNegative c).

(** ** Specification: a bounded association list in recency order *)

Record ac_spec := mkSpec {
  s_list : list (string * CachedAttrs);
  s_ttl : Z; s_negttl : Z; s_max : Z; s_neg : bool
}.

Inductive ac_op :=
  | OpGet (path : string) (now now' : Z)
  | OpPut (path : string) (attrs : NFSAttrs) (now : Z)
  | OpPutNegative (path : string) (now : Z)
  | OpInvalidate (path : string)
  | OpInvalidateNegativeInDir (dir : string)
  | OpClear
  | OpResize (n : Z)
  | OpUpdateTTL (ttl : Z)
  | OpConfigure (enable : bool) (ttl : Z)
  | OpSize
  | OpNegativeStats
  | OpGetRead (path : string) (now : Z)
  | OpGetWrite (path : string) (rest : get_rest) (now' : Z)
  | OpPutNegativeRead
  | OpPutNegativeWrite (path : string) (negativeTTL now : Z).

Inductive ac_out :=
  | OutGet (attrs : option NFSAttrs) (ok : bool)
  | OutInt (n : Z)
  | OutTTL (ttl : option Z)
  | OutUnit.

(** One operation of the code; [None] is a panic. *)
Definition ac_step (c : AttrCache) (o : ac_op) : option (ac_out * AttrCache) :=
  match o with
  | OpGet p now now' => '(a, ok, c) ← AttrCache_Get c p now now'; Some (OutGet a ok, c)
  | OpPut p a now => Some (OutUnit, AttrCache_Put c p a now)
  | OpPutNegative p now => Some (OutUnit, PutNegative c p now)
  | OpInvalidate p => Some (OutUnit, AttrCache_Invalidate c p)
  | OpInvalidateNegativeInDir d => Some (OutUnit, InvalidateNegativeInDir c d)
  | OpClear => Some (OutUnit, AttrCache_Clear c)
  | OpResize n => Some (OutUnit, AttrCache_Resize c n)
  | OpUpdateTTL t => Some (OutUnit, AttrCache_UpdateTTL c t)
  | OpConfigure e t => Some (OutUnit, ConfigureNegativeCaching c e t)
  | OpSize => Some (OutInt (AttrCache_Size c), c)
  | OpNegativeStats => Some (OutInt (NegativeStats c), c)
  | OpGetRead p now => '(a, ok, _) ← Get_read c p now; Some (OutGet a ok, c)
  | OpGetWrite p rest now' => Some (OutUnit, Get_write c p rest now')
  | OpPutNegativeRead => Some (OutTTL (PutNegative_read c), c)
  | OpPutNegativeWrite p ttl now => Some (OutUnit, PutNegative_write c p ttl now)
  end.

Fixpoint ac_run (c : AttrCache) (os : list ac_op) : option (list ac_out * AttrCache) :=
  match os with
  | [] => Some ([], c)
  | o :: os =>
      '(r, c) ← ac_step c o;
      '(rs, c) ← ac_run c os;
      Some (r :: rs, c)
  end.

Definition spec_with (s : ac_spec) (l : list (string * CachedAttrs)) : ac_spec :=
  mkSpec l (s_ttl s) (s_negttl s) (s_max s) (s_neg s).

(** What the operations promise: a look-up returns the attributes last stored
    for the path while they have not expired, storing puts the path in front
    and drops the least recently used one when the cache is full. *)
Definition spec_step (s : ac_spec) (o : ac_op) : ac_out * ac_spec :=
  match o with
  | OpGet p now now' =>
      match a_lookup (s_list s) p with
      | Some e =>
          if now <? expireAt e then
            (OutGet (if isNegative e then None else ca_attrs e) true,
             spec_with s (a_touch (s_list s) p))
          else (OutGet None false,
                if expireAt e <? now' then spec_with s (a_remove (s_list s) p) else s)
      | None => (OutGet None false, s)
      end
  | OpPut p a now =>
      (OutUnit, spec_with s (a_put (s_max s) (s_list s) p
        (mkCachedAttrs (Some (set_validUntil a time_zero)) (now + s_ttl s) false)))
  | OpPutNegative p now =>
      (OutUnit, if s_neg s then spec_with s (a_put (s_max s) (s_list s) p
        (mkCachedAttrs None (now + s_negttl s) true)) else s)
  | OpInvalidate p => (OutUnit, spec_with s (a_remove (s_list s) p))
  | OpInvalidateNegativeInDir d =>
      (OutUnit, spec_with s (filter (fun kv => isNegative kv.2 && isChildOf kv.1 d = false) (s_list s)))
  | OpClear => (OutUnit, spec_with s [])
  | OpResize n =>
      let n := if n <=? 0 then 10000 else n in
      (OutUnit, mkSpec (take (Z.to_nat n) (s_list s)) (s_ttl s) (s_negttl s) n (s_neg s))
  | OpUpdateTTL t =>
      (OutUnit, mkSpec (s_list s) (if t <=? 0 then 5 * second else t) (s_negttl s) (s_max s) (s_neg s))
  | OpConfigure e t =>
      (OutUnit, mkSpec (s_list s) (s_ttl s) (if 0 <? t then t else s_negttl s) (s_max s) e)
  | OpSize => (OutInt (zlen (s_list s)), s)
  | OpNegativeStats => (OutInt (zlen (filter (fun kv => isNegative kv.2 = true) (s_list s))), s)
  | OpGetRead p now =>
      (match a_lookup (s_list s) p with
       | Some e => if now <? expireAt e then OutGet (if isNegative e then None else ca_attrs e) true else OutGet None false
       | None => OutGet None false
       end, s)
  | OpGetWrite p rest now' =>
      (OutUnit,
       match rest, a_lookup (s_list s) p with
       | GetTouch, Some _ => spec_with s (a_touch (s_list s) p)
       | GetExpire, Some e => if expireAt e <? now' then spec_with s (a_remove (s_list s) p) else s
       | _, _ => s
       end)
  | OpPutNegativeRead => (OutTTL (if s_neg s then Some (s_negttl s) else None), s)
  | OpPutNegativeWrite p ttl now =>
      (OutUnit, spec_with s (a_put (s_max s) (s_list s) p (mkCachedAttrs None (now + ttl) true)))
  end.

Fixpoint spec_run (s : ac_spec) (os : list ac_op) : list ac_out * ac_spec :=
  match os with
  | [] => ([], s)
  | o :: os =>
      let '(r, s) := spec_step s o in
      let '(rs, s) := spec_run s os in (r :: rs, s)
  end.

Definition ac_abs (c : AttrCache) : ac_spec :=
  mkSpec (abs (ac_lru c)) (ac_ttl c) (ac_negativeTTL c) (ac_maxSize c) (ac_enableNegative c).

(** ** Invariant *)

(** A positive entry has attributes, already stripped of [validUntil]. *)
Definition entry_ok (e : CachedAttrs) : Prop :=
  isNegative e = false -> exists a, ca_attrs e = Some a /\ validUntil a = time_zero.

Record ac_inv (c : AttrCache) : Prop := {
  aci_lru : lru_inv (ac_lru c);
  aci_max : 0 < ac_maxSize c;
  aci_size : AttrCache_Size c <= ac_maxSize c;
  aci_entries : forall p e, (p, e) ∈ abs (ac_lru c) -> entry_ok e
}.

(** ** Lemmas *)

Lemma copyAttrs_spec a : copyAttrs a = set_validUntil a time_zero.
Proof. done. Qed.

Lemma copyAttrs_id a : validUntil a = time_zero -> copyAttrs a = a.
Proof. destruct a; simpl. by intros ->. Qed.

Lemma NewAttrCache_inv ttl n : ac_inv (NewAttrCache ttl n).
Proof.
  constructor; simpl.
  - apply lru_inv_new.
  - destruct (Z.leb_spec n 0); lia.
  - unfold AttrCache_Size, lru_len; simpl. rewrite map_size_empty. destruct (Z.leb_spec n 0); lia.
  - intros p e H. by apply elem_of_nil in H.
Qed.

Lemma lru_len_abs {V} (c : Lru V) : lru_inv c -> lru_len c = zlen (abs c).
Proof. intros H. symmetry. by apply abs_size. Qed.

(** The invariant after an update of the LRU structure alone. *)
Lemma ac_inv_update c l :
  ac_inv c -> lru_inv l -> zlen (abs l) <= ac_maxSize c ->
  (forall p e, (p, e) ∈ abs l -> (p, e) ∈ abs (ac_lru c) \/ entry_ok e) ->
  ac_inv (ac_with_lru c l).
Proof.
  intros Hc Hl Hs He. constructor; simpl; [done|apply Hc| |].
  - unfold AttrCache_Size; simpl. by rewrite lru_len_abs.
  - intros p e [Hin|]%He; [by eapply aci_entries|done].
Qed.

Lemma a_put_elem {V} n (l : list (string * V)) p v q w :
  (q, w) ∈ a_put n l p v -> (q, w) ∈ l \/ w = v.
Proof.
  unfold a_put, a_remove, a_evict. rewrite elem_of_cons. intros [E|H]; [right; congruence|].
  left. apply list_elem_of_filter in H as [_ H].
  destruct (_ && _); [|done].
  rewrite <- (take_drop (length l - 1) l). apply elem_of_app. by left.
Qed.

Lemma a_touch_elem {V} (l : list (string * V)) p q w : (q, w) ∈ a_touch l p -> (q, w) ∈ l.
Proof.
  unfold a_touch, a_lookup. destruct (list_find (fun x => x.1 = p) l) as [[i [r v]]|] eqn:E; simpl; [|done].
  apply list_find_Some in E as (Hl & Hr & _). simpl in Hr. subst.
  rewrite elem_of_cons. intros [E|H]; [injection E as -> ->; by eapply list_elem_of_lookup_2|].
  by apply list_elem_of_filter in H as [_ H].
Qed.

Lemma a_touch_length {V} (l : list (string * V)) p : (length (a_touch l p) <= length l)%nat.
Proof.
  unfold a_touch. destruct (a_lookup l p) as [v|] eqn:E; [|done].
  pose proof (a_remove_length_lt l p ltac:(congruence)). simpl. lia.
Qed.

Lemma foldl_a_remove {V} ps (l : list (string * V)) :
  foldl a_remove l ps = filter (fun kv => kv.1 ∉ ps) l.
Proof.
  revert l. induction ps as [|p ps IH]; intros l; simpl.
  - symmetry. apply filter_all. intros x _ H. by apply elem_of_nil in H.
  - rewrite IH. unfold a_remove. rewrite list_filter_filter. apply list_filter_iff_strong.
    intros x _. rewrite not_elem_of_cons. tauto.
Qed.

Lemma foldl_lru_delete {V} ps (c : Lru V) :
  lru_inv c ->
  lru_inv (foldl lru_delete c ps) /\ abs (foldl lru_delete c ps) = foldl a_remove (abs c) ps.
Proof.
  revert c. induction ps as [|p ps IH]; intros c Hi; [done|]. simpl.
  destruct (delete_spec c p Hi) as (Hi' & <- & _). by apply IH.
Qed.

(** The paths [InvalidateNegativeInDir] collects, seen in the specification. *)
Lemma toDelete_elem c p d e :
  ac_inv c -> (p, e) ∈ abs (ac_lru c) ->
  p ∈ (filter (fun kv => isNegative (value kv.2) && isChildOf kv.1 d = true) (ac_entries c)).*1 <->
  isNegative e && isChildOf p d = true.
Proof.
  intros Hc Hin. apply abs_elem in Hin as (x & Hx & <-); [|apply Hc].
  rewrite list_elem_of_fmap. split.
  - intros ([q y] & -> & [Hf Hy]%list_elem_of_filter). apply elem_of_map_to_list in Hy.
    simpl in *. congruence.
  - intros Hf. exists (p, x). split; [done|]. apply list_elem_of_filter. split; [done|].
    by apply elem_of_map_to_list.
Qed.

Lemma invalidate_dir_abs c d :
  ac_inv c ->
  lru_inv (ac_lru (InvalidateNegativeInDir c d)) /\
  abs (ac_lru (InvalidateNegativeInDir c d)) =
    filter (fun kv => isNegative kv.2 && isChildOf kv.1 d = false) (abs (ac_lru c)).
Proof.
  intros Hc. unfold InvalidateNegativeInDir; simpl.
  destruct (foldl_lru_delete
    (filter (fun kv => isNegative (value kv.2) && isChildOf kv.1 d = true) (ac_entries c)).*1
    (ac_lru c) (aci_lru _ Hc)) as [Hi ->].
  split; [done|]. rewrite foldl_a_remove. apply list_filter_iff_strong.
  intros [p e] Hin; cbn [fst snd]. rewrite (toDelete_elem c p d e Hc Hin).
  by rewrite not_true_iff_false.
Qed.

Lemma NegativeStats_abs c :
  ac_inv c ->
  NegativeStats c = zlen (filter (fun kv => isNegative kv.2 = true) (abs (ac_lru c))).
Proof.
  intros Hc. unfold NegativeStats, zlen, ac_entries.
  assert (abs (ac_lru c) ≡ₚ (fun kv => (kv.1, value kv.2)) <$> map_to_list (table (ac_lru c))) as Hp.
  { apply NoDup_Permutation.
    - eapply NoDup_fmap_1, abs_nodup, Hc.
    - apply (NoDup_fmap_1 fst). rewrite <- list_fmap_compose. apply NoDup_fst_map_to_list.
    - intros [p e]. rewrite abs_elem by apply Hc. rewrite list_elem_of_fmap. split.
      + intros (x & Hx & <-). exists (p, x). split; [done|]. by apply elem_of_map_to_list.
      + intros ([q x] & E & Hx). injection E as -> ->. exists x. split; [|done].
        by apply elem_of_map_to_list. }
  rewrite Hp. by rewrite length_filter_fmap.
Qed.

(** ** One operation refines one step of the specification *)

Lemma get_read_refines c p now :
  ac_inv c ->
  exists a ok rest, Get_read c p now = Some (a, ok, rest) /\
    spec_step (ac_abs c) (OpGetRead p now) = (OutGet a ok, ac_abs c).
Proof.
  intros Hc. unfold Get_read. cbn [spec_step ac_abs s_list]. rewrite abs_lookup by apply Hc.
  destruct (table (ac_lru c) !! p) as [e|] eqn:He; simpl; [|by eauto].
  destruct (now <? expireAt (value e)); [|by eauto].
  assert ((p, value e) ∈ abs (ac_lru c)) as Hin by (apply abs_elem; [apply Hc|eauto]).
  destruct (isNegative (value e)) eqn:En; [by eauto|].
  destruct (aci_entries _ Hc _ _ Hin En) as (a & -> & Hv). rewrite copyAttrs_id by done. eauto.
Qed.

Lemma get_write_refines c p rest now' :
  ac_inv c ->
  ac_inv (Get_write c p rest now') /\
  spec_step (ac_abs c) (OpGetWrite p rest now') = (OutUnit, ac_abs (Get_write c p rest now')).
Proof.
  intros Hc. unfold Get_write. cbn [spec_step ac_abs s_list]. rewrite abs_lookup by apply Hc.
  pose proof (aci_size _ Hc) as Hs. unfold AttrCache_Size in Hs. rewrite lru_len_abs in Hs by apply Hc.
  destruct rest, (table (ac_lru c) !! p) as [e|]; simpl; try done.
  - destruct (update_touch _ p (aci_lru _ Hc)) as (Hi & Ha & _).
    split; [|by unfold spec_with, ac_abs; simpl; rewrite Ha]. apply ac_inv_update; [done|done| |].
    + rewrite Ha. pose proof (a_touch_length (abs (ac_lru c)) p). unfold zlen in *. lia.
    + intros q x Hx. left. rewrite Ha in Hx. by eapply a_touch_elem.
  - destruct (expireAt (value e) <? now'); [|done].
    destruct (delete_spec _ p (aci_lru _ Hc)) as (Hi & Ha & _).
    split; [|by unfold spec_with, ac_abs; simpl; rewrite Ha]. apply ac_inv_update; [done|done| |].
    + rewrite Ha. pose proof (a_remove_length (abs (ac_lru c)) p). unfold zlen in *. lia.
    + intros q x Hx. left. rewrite Ha in Hx. by apply list_elem_of_filter in Hx as [_ Hx].
Qed.

(** The two sections with nothing in between. *)
Lemma get_refines c p now now' :
  ac_inv c ->
  exists a ok c', AttrCache_Get c p now now' = Some (a, ok, c') /\ ac_inv c' /\
    spec_step (ac_abs c) (OpGet p now now') = (OutGet a ok, ac_abs c').
Proof.
  intros Hc. destruct (get_read_refines c p now Hc) as (a & ok & rest & E & Er).
  destruct (get_write_refines c p rest now' Hc) as [Hi Ew]. exists a, ok, (Get_write c p rest now').
  split; [unfold AttrCache_Get; by rewrite E|]. split; [done|].
  cbn [spec_step ac_abs s_list] in *. rewrite abs_lookup in * by apply Hc. unfold Get_read in E.
  destruct (table (ac_lru c) !! p) as [e|]; simpl in *; [|by simplify_eq; rewrite <- Ew].
  destruct (now <? expireAt (value e)); [|by simplify_eq; rewrite <- Ew].
  injection Er as <- <-.
  destruct (isNegative (value e)); [|destruct (ca_attrs (value e)); [|done]]; simplify_eq; by rewrite <- Ew.
Qed.

Lemma put_refines c p e :
  ac_inv c -> entry_ok e ->
  ac_inv (ac_with_lru c (lru_put (ac_maxSize c) (ac_lru c) p e)) /\
  ac_abs (ac_with_lru c (lru_put (ac_maxSize c) (ac_lru c) p e)) =
    spec_with (ac_abs c) (a_put (ac_maxSize c) (abs (ac_lru c)) p e).
Proof.
  intros Hc He. destruct (put_spec (ac_maxSize c) (ac_lru c) p e (aci_lru _ Hc)) as [Hi Ha].
  unfold ac_abs; simpl. rewrite Ha. split; [|done].
  pose proof (aci_size _ Hc) as Hs. unfold AttrCache_Size in Hs. rewrite lru_len_abs in Hs by apply Hc.
  apply ac_inv_update; [done|done| |].
  - rewrite Ha. apply a_put_length; [apply Hc|done].
  - rewrite Ha. intros q x Hx. apply a_put_elem in Hx as [Hx| ->]; auto.
Qed.

Lemma filter_update c l (P : string * CachedAttrs -> Prop) `{!forall x, Decision (P x)} :
  ac_inv c -> lru_inv l -> abs l = filter P (abs (ac_lru c)) -> ac_inv (ac_with_lru c l).
Proof.
  intros Hc Hl Ha. pose proof (aci_size _ Hc) as Hs.
  unfold AttrCache_Size in Hs. rewrite lru_len_abs in Hs by apply Hc.
  apply ac_inv_update; [done|done| |].
  - rewrite Ha. pose proof (length_filter P (abs (ac_lru c))). unfold zlen in *. lia.
  - rewrite Ha. intros p e [_ Hx]%list_elem_of_filter. by left.
Qed.

Lemma Resize_refines c n :
  ac_inv c ->
  ac_inv (AttrCache_Resize c n) /\
  (OutUnit, ac_abs (AttrCache_Resize c n)) = spec_step (ac_abs c) (OpResize n).
Proof.
  intros Hc. unfold AttrCache_Resize. cbn [spec_step ac_abs s_list s_ttl s_negttl s_max s_neg].
  set (m := if n <=? 0 then 10000 else n).
  assert (0 < m) as Hm by (unfold m; destruct (Z.leb_spec n 0); lia).
  pose proof (aci_size _ Hc) as Hs. unfold AttrCache_Size in Hs. rewrite lru_len_abs in Hs by apply Hc.
  destruct (Z.eqb_spec (ac_maxSize c) m) as [E|E].
  - split; [done|]. unfold ac_abs. rewrite <- E. rewrite take_ge; [done|]. unfold zlen in Hs. lia.
  - destruct (shrink_spec m (ac_lru c) (aci_lru _ Hc) ltac:(lia)) as [Hi Ha].
    unfold ac_abs; simpl. rewrite Ha. split; [|done].
    constructor; simpl; [done|done| |].
    + unfold AttrCache_Size; simpl. rewrite lru_len_abs, Ha by done.
      unfold zlen. rewrite length_take. lia.
    + intros p e. rewrite Ha. intros H. eapply aci_entries; [done|].
      rewrite <- (take_drop (Z.to_nat m) (abs (ac_lru c))). apply elem_of_app. by left.
Qed.

Lemma step_refines c o :
  ac_inv c ->
  exists r c', ac_step c o = Some (r, c') /\ ac_inv c' /\ spec_step (ac_abs c) o = (r, ac_abs c').
Proof.
  intros Hc. pose proof (aci_lru _ Hc) as Hi. destruct o; cbn [ac_step].
  - destruct (get_refines c path now now' Hc) as (a & ok & c' & -> & Hc' & E). simpl. eauto.
  - destruct (put_refines c path (mkCachedAttrs (Some (copyAttrs attrs)) (now + ac_ttl c) false) Hc)
      as [Hc' E]; [by intros _; eexists|]. do 2 eexists. split; [done|]. split; [done|].
    unfold AttrCache_Put. by rewrite E.
  - unfold PutNegative, PutNegative_read, PutNegative_write. cbn [spec_step ac_abs s_neg].
    destruct (ac_enableNegative c) eqn:En; simpl.
    + destruct (put_refines c path (mkCachedAttrs None (now + ac_negativeTTL c) true) Hc)
        as [Hc' E]; [by intros|]. do 2 eexists. split; [done|]. split; [done|].
      rewrite E. unfold ac_abs, spec_with; simpl. by rewrite En.
    + do 2 eexists. split; [done|]. split; [done|]. unfold ac_abs. by rewrite En.
  - destruct (delete_spec _ path Hi) as (Hi' & Ha & _). do 2 eexists. split; [done|]. split.
    + by eapply filter_update.
    + unfold AttrCache_Invalidate, ac_abs; simpl. by rewrite Ha.
  - destruct (invalidate_dir_abs c dir Hc) as [Hi' Ha]. do 2 eexists. split; [done|]. split.
    + by eapply filter_update.
    + cbn [spec_step ac_abs s_list]. rewrite <- Ha. done.
  - destruct (clear_spec (ac_lru c)) as [Hi' Ha]. do 2 eexists. split; [done|]. split; [|done].
    apply ac_inv_update; [done|done| |].
    + rewrite Ha. pose proof (aci_max _ Hc). unfold zlen; simpl. lia.
    + rewrite Ha. intros p e H. by apply elem_of_nil in H.
  - destruct (Resize_refines c n Hc) as [Hc' E]. eauto.
  - do 2 eexists. split; [done|]. split; [|done].
    constructor; simpl; [done|apply Hc|apply (aci_size _ Hc)|apply Hc].
  - do 2 eexists. split; [done|]. split; [|done].
    constructor; simpl; [done|apply Hc|apply (aci_size _ Hc)|apply Hc].
  - do 2 eexists. split; [done|]. split; [done|]. simpl. unfold AttrCache_Size.
    by rewrite lru_len_abs.
  - do 2 eexists. split; [done|]. split; [done|]. simpl. by rewrite NegativeStats_abs.
  - destruct (get_read_refines c path now Hc) as (a & ok & rest & -> & E). simpl. eauto.
  - destruct (get_write_refines c path rest now' Hc) as [Hc' E]. eauto.
  - by do 2 eexists.
  - destruct (put_refines c path (mkCachedAttrs None (now + negativeTTL) true) Hc) as [Hc' E]; [by intros|].
    do 2 eexists. split; [done|]. split; [done|]. unfold PutNegative_write. by rewrite E.
Qed.

Lemma run_refines os c :
  ac_inv c ->
  exists rs c', ac_run c os = Some (rs, c') /\ ac_inv c' /\ spec_run (ac_abs c) os = (rs, ac_abs c').
Proof.
  revert c. induction os as [|o os IH]; intros c Hc; [by eauto 10|].
  destruct (step_refines c o Hc) as (r & c' & E & Hc' & Es). cbn [ac_run spec_run].
  rewrite E, Es. simpl. destruct (IH c' Hc') as (rs & c'' & E' & Hc'' & Es').
  rewrite E', Es'. simpl. eauto 10.
Qed.

(** Direct children of a directory, as paths. *)
Definition dir_prefix (d : string) : string := if String.eqb d "/" then "/" else d +:+ "/".

Lemma isChildOf_spec p d :
  str_prefix "/" p = true ->
  isChildOf p d = true <->
  exists name, name <> EmptyString /\ str_has chr_slash name = false /\ p = dir_prefix d +:+ name.
Proof.
  intros Hp. unfold isChildOf, dir_prefix. destruct (String.eqb_spec d "/") as [->|Hd].
  - apply str_prefix_slash in Hp as [r ->]. cbn [str_drop]. split.
    + destruct (_ || _) eqn:E; [done|]. rewrite andb_true_iff, negb_true_iff. intros [Hs Hl].
      exists r. split; [by intros ->|]. done.
    + intros (name & Hne & Hs & E). injection E as ->. destruct name as [|c name]; [done|].
      change (EmptyString +:+ String c name) with (String c name).
      rewrite Hs. replace (_ || _) with false; [done|]. symmetry. apply orb_false_iff. split; [done|].
      apply Z.ltb_ge. unfold slen. simpl. lia.
  - split.
    + destruct (Z.leb_spec (slen p) (slen d + 1)) as [|Hl]; [done|].
      destruct (String.eqb_spec (str_take (String.length d) p) d) as [Ht|]; [|done].
      case_bool_decide as Ha; [|done]. simpl. rewrite andb_true_iff, negb_true_iff. intros [Hs Hn].
      exists (str_drop (String.length d + 1) p). split; [by intros E; rewrite E in Hn|].
      split; [done|]. rewrite <- (str_take_drop (String.length d) p) at 1. rewrite Ht, str_app_assoc.
      f_equal. rewrite Nat.add_1_r, str_drop_S. unfold str_at in Ha.
      destruct (str_drop (String.length d) p); [done|]. by injection Ha as ->.
    + intros (name & Hne & Hs & ->). rewrite str_app_assoc.
      destruct (Z.leb_spec (slen (d +:+ "/" +:+ name)) (slen d + 1)) as [Hl|_].
      { unfold slen in Hl. rewrite !str_length_app in Hl. destruct name; [done|]. simpl in Hl. lia. }
      rewrite str_take_app, String.eqb_refl. unfold str_at.
      rewrite Nat.add_1_r, str_drop_S, str_drop_app. change ("/" +:+ name) with (String chr_slash name).
      cbn [negb]. rewrite bool_decide_true by done. cbn [negb]. rewrite Hs. cbn [negb andb].
      apply Z.ltb_lt. destruct name; [done|]. unfold slen. simpl. lia.
Qed.

(** ** Properties *)

(** C21: every run of operations on a fresh attribute cache, in any interleaving
    of the sections [Get] and [PutNegative] run under one lock, succeeds (no nil
    entry is ever dereferenced), returns exactly what the bounded recency list
    returns, ends in a state that stands for the list the specification ends
    in, and never holds more than its maximum number of entries. *)
Theorem attr_cache_refines_recency_list ttl n os :
  exists rs c,
    ac_run (NewAttrCache ttl n) os = Some (rs, c) /\
    spec_run (mkSpec [] ttl (5 * second) (if n <=? 0 then 10000 else n) false) os = (rs, ac_abs c) /\
    AttrCache_Size c <= ac_maxSize c.
Proof.
  destruct (run_refines os _ (NewAttrCache_inv ttl n)) as (rs & c & E & Hc & Es).
  exists rs, c. split; [done|]. split; [done|]. apply Hc.
Qed.

(** Attributes stored at time [t] are returned by a look-up of the path,
    with all fields but [validUntil] as stored, until the cache's TTL has
    passed, and from then on the look-up is a miss; a look-up of another path
    that was absent stays a miss. *)
Theorem attr_cache_put_get c p a t now now' :
  ac_inv c ->
  exists c',
    AttrCache_Get (AttrCache_Put c p a t) p now now' =
      Some (if now <? t + ac_ttl c then Some (set_validUntil a time_zero) else None,
            now <? t + ac_ttl c, c') /\ ac_inv c'.
Proof.
  intros Hc.
  destruct (put_refines c p (mkCachedAttrs (Some (copyAttrs a)) (t + ac_ttl c) false) Hc)
    as [Hc' E]; [by intros _; eexists|].
  destruct (get_refines (AttrCache_Put c p a t) p now now' Hc') as (r & ok & c' & -> & Hi & Es).
  exists c'. split; [|done]. unfold AttrCache_Put in Es. rewrite E in Es.
  unfold spec_step in Es. cbn [spec_with s_list ac_abs] in Es. unfold a_put, a_lookup in Es.
  simpl in Es. rewrite decide_True in Es by done. simpl in Es.
  destruct (now <? t + ac_ttl c); by injection Es as <- <- _.
Qed.

Lemma attr_cache_put_get_witness :
  let a := mkNFSAttrs 420 10 7 5 6 0 0 99 in
  exists c', AttrCache_Get (AttrCache_Put (NewAttrCache 100 2) "/a" a 1000) "/a" 1050 1051 =
    Some (Some (mkNFSAttrs 420 10 7 5 6 0 0 time_zero), true, c') /\ ac_inv c'.
Proof.
  exact (attr_cache_put_get (NewAttrCache 100 2) "/a" (mkNFSAttrs 420 10 7 5 6 0 0 99) 1000 1050 1051
    (NewAttrCache_inv 100 2)).
Defined.

(** [InvalidateNegativeInDir d], called when an entry of [d] is created,
    removes from the cache exactly the negative entries whose path is [d]
    followed by a separator and one further component; every other path keeps
    its entry. *)
Theorem invalidate_negative_in_dir_exact c d p :
  ac_inv c -> str_prefix "/" p = true ->
  value <$> table (ac_lru (InvalidateNegativeInDir c d)) !! p =
    match value <$> table (ac_lru c) !! p with
    | Some e =>
        if isNegative e && isChildOf p d then None else Some e
    | None => None
    end /\
  (isChildOf p d = true <->
   exists name, name <> EmptyString /\ str_has chr_slash name = false /\ p = dir_prefix d +:+ name).
Proof.
  intros Hc Hp. split; [|by apply isChildOf_spec].
  destruct (invalidate_dir_abs c d Hc) as [Hi Ha]. pose proof (aci_lru _ Hc) as Hi0.
  rewrite <- !abs_lookup by done. pose proof (abs_nodup _ Hi) as Hnd. pose proof (abs_nodup _ Hi0) as Hnd0.
  apply option_eq. intros e. rewrite a_lookup_elem by done. rewrite Ha, list_elem_of_filter.
  destruct (a_lookup (abs (ac_lru c)) p) as [x|] eqn:E.
  - pose proof E as Hx. apply a_lookup_elem in Hx; [|done]. cbn [fst snd]. split.
    + intros [Hf He]. apply a_lookup_elem in He; [|done]. rewrite E in He. injection He as ->. by rewrite Hf.
    + destruct (_ && _) eqn:Hf; [done|]. by intros [= ->].
  - split; [|done]. intros [_ He]. apply a_lookup_elem in He; [|done]. congruence.
Qed.

Lemma invalidate_negative_in_dir_witness :
  let c := PutNegative (ConfigureNegativeCaching (NewAttrCache 100 4) true 50) "/d/x" 0 in
  value <$> table (ac_lru (InvalidateNegativeInDir c "/d")) !! "/d/x" = None.
Proof.
  intros c.
  assert (ac_inv c) as Hc.
  { destruct (run_refines [OpConfigure true 50; OpPutNegative "/d/x" 0] _ (NewAttrCache_inv 100 4))
      as (rs & c' & E & Hi & _). injection E as _ <-. exact Hi. }
  destruct (invalidate_negative_in_dir_exact c "/d" "/d/x" Hc ltac:(vm_compute; reflexivity)) as [E _].
  rewrite E. vm_compute. reflexivity.
Defined.
