(* ===== verification/Path.v ===== *)
(** * Paths and names (src/operations.go sanitizePath, src/nfs_operations.go)

    The [path] functions of the Go library the sources call, over
    slash-separated paths ([filepath] is [path] and [ToSlash] the identity on
    the systems whose separator is the slash), and the checks absnfs makes on
    names and modes that come from the network. *)

From S2P Require Import Prelude Errors Xdr Attributes AttrCache.
Open Scope Z_scope.

(** ** path.Clean, path.Join, path.Base *)

(** [strings.Split(s, "/")] *)
Fixpoint split_slash (s : string) : list string :=
  match s with
  | EmptyString => [EmptyString]
  | String c r =>
      if Ascii.eqb c chr_slash then EmptyString :: split_slash r
      else match split_slash r with
           | x :: l => String c x :: l
           | [] => [String c EmptyString]
           end
  end.

(** [strings.Join(l, "/")] *)
Fixpoint join_slash (l : list string) : string :=
  match l with
  | [] => EmptyString
  | [x] => x
  | x :: l => x +:+ "/" +:+ join_slash l
  end.

(** One component against the stack of components kept so far (last first):
    empty and "." components vanish, ".." removes the previous component, or
    stays when the path is relative and there is none to remove. *)
Definition clean_step (rooted : bool) (st : list string) (c : string) : list string :=
  if bool_decide (c = EmptyString) || String.eqb c "." then st
  else if String.eqb c ".." then
    match st with
    | x :: st' => if String.eqb x ".." then c :: st else st'
    | [] => if rooted then [] else [c]
    end
  else c :: st.

Definition clean_stack (s : string) : list string :=
  foldl (clean_step (str_prefix "/" s)) [] (split_slash s).

Definition path_Clean (s : string) : string :=
  match s with
  | EmptyString => "."
  | _ =>
      let out := join_slash (rev (clean_stack s)) in
      if str_prefix "/" s then "/" +:+ out
      else match out with EmptyString => "." | _ => out end
  end.

(** [path.Join(a, b)] *)
Definition path_Join (a b : string) : string :=
  match a, b with
  | EmptyString, EmptyString => EmptyString
  | EmptyString, _ => path_Clean b
  | _, EmptyString => path_Clean a
  | _, _ => path_Clean (a +:+ "/" +:+ b)
  end.

(** [path.Base]: the last component, trailing slashes removed. *)
Definition path_Base (s : string) : string :=
  match s with
  | EmptyString => "."
  | _ => match last (filter (fun c => c <> EmptyString) (split_slash s)) with
         | Some c => c
         | None => "/"
         end
  end.

(** ** sanitizePath *)

Definition chr_backslash : Ascii.ascii := Ascii.ascii_of_nat 92.

Definition sanitizePath (basePath name : string) : result string :=
  if bool_decide (name = EmptyString) then Err (ErrorString "empty name")
  else if str_has chr_slash name || str_has chr_backslash name then
    Err (ErrorString "invalid name: contains path separator")
  else if String.eqb name ".." || String.eqb name "." then
    Err (ErrorString "invalid name: parent or current directory reference")
  else
    let path := path_Join basePath name in
    let cleanPath := path_Clean path in
    let cleanBase := path_Clean basePath in
    if negb (str_prefix cleanBase cleanPath) then
      Err (ErrorString "invalid path: traversal attempt detected")
    else if str_contains cleanPath ".." then
      Err (ErrorString "invalid path: contains parent directory reference")
    else Ok cleanPath.

(** ** validateFilename, validateMode *)

Definition to_upper (c : Ascii.ascii) : Ascii.ascii :=
  let n := Ascii.nat_of_ascii c in
  if (97 <=? n)%nat && (n <=? 122)%nat then Ascii.ascii_of_nat (n - 32) else c.

Fixpoint strings_ToUpper (s : string) : string :=
  match s with
  | EmptyString => EmptyString
  | String c s => String (to_upper c) (strings_ToUpper s)
  end.

(** The part of the name before its first dot. *)
Fixpoint before_dot (s : string) : string :=
  match s with
  | EmptyString => EmptyString
  | String c s => if Ascii.eqb c (Ascii.ascii_of_nat 46) then EmptyString else String c (before_dot s)
  end.

Definition reservedNames : list string :=
  ["CON"; "PRN"; "AUX"; "NUL";
   "COM1"; "COM2"; "COM3"; "COM4"; "COM5"; "COM6"; "COM7"; "COM8"; "COM9";
   "LPT1"; "LPT2"; "LPT3"; "LPT4"; "LPT5"; "LPT6"; "LPT7"; "LPT8"; "LPT9"]%string.

(** [windows] is [runtime.GOOS == "windows"]. *)
Definition validateFilename (windows : bool) (name : string) : Z :=
  if bool_decide (name = EmptyString) then NFSERR_INVAL
  else if 255 <? slen name then NFSERR_NAMETOOLONG
  else if str_has (Ascii.ascii_of_nat 0) name then NFSERR_INVAL
  else if str_has chr_slash name || str_has chr_backslash name then NFSERR_INVAL
  else if String.eqb name "." || String.eqb name ".." then NFSERR_INVAL
  else if windows && bool_decide (before_dot (strings_ToUpper name) ∈ reservedNames)
  then NFSERR_INVAL
  else NFS_OK.

Definition validateMode (mode : Z) (isDir : bool) : Z :=
  let validPermBits := 4095 in        (* 07777 *)
  let fileTypeMask := 61440 in        (* 0170000 *)
  if negb (Z.land mode fileTypeMask =? 0) then NFSERR_INVAL
  else if negb (Z.ldiff mode validPermBits =? 0) then NFSERR_INVAL
  else NFS_OK.

(** A symlink target with a ".." component. *)
Definition has_dotdot (target : string) : bool :=
  existsb (fun c => String.eqb c "..") (split_slash target).

(** ** Lemmas *)

(** A name that is one path component: what a directory can hold. *)
Definition is_component (c : string) : Prop :=
  c <> EmptyString /\ c <> "."%string /\ c <> ".."%string /\ str_has chr_slash c = false.

Lemma split_slash_nonnil s : split_slash s <> [].
Proof. destruct s as [|c s]; simpl; [done|]. destruct (Ascii.eqb c chr_slash); [done|]. by destruct (split_slash s). Qed.

Lemma split_slash_app a b :
  split_slash (a +:+ "/" +:+ b) = split_slash a ++ split_slash b.
Proof.
  induction a as [|c a IH]; [done|]. rewrite str_app_cons. cbn [split_slash].
  destruct (Ascii.eqb c chr_slash); [by rewrite IH|]. rewrite IH.
  destruct (split_slash a) eqn:E; [by apply split_slash_nonnil in E|done].
Qed.

Lemma split_slash_none c : str_has chr_slash c = false -> split_slash c = [c].
Proof.
  induction c as [|a c IH]; [done|]. unfold str_has. cbn [str_exists split_slash].
  intros [H1 H2]%orb_false_iff.
  assert (Ascii.eqb a chr_slash = false) as -> by by rewrite Ascii.eqb_sym.
  by rewrite IH.
Qed.

Lemma split_slash_no_slash s c : c ∈ split_slash s -> str_has chr_slash c = false.
Proof.
  revert c. induction s as [|a s IH]; intros c; cbn [split_slash].
  - intros ->%list_elem_of_singleton. done.
  - destruct (Ascii.eqb a chr_slash) eqn:E.
    + rewrite elem_of_cons. intros [->|H]; [done|by apply IH].
    + destruct (split_slash s) as [|x l] eqn:Es; [by apply split_slash_nonnil in Es|].
      rewrite elem_of_cons. intros [->|H]; [|by apply IH; apply elem_of_cons; right].
      unfold str_has. cbn [str_exists]. rewrite Ascii.eqb_sym, E.
      apply (IH x). by apply elem_of_cons; left.
Qed.

Lemma str_prefix_app a b : str_prefix a (a +:+ b) = true.
Proof. induction a as [|c a IH]; [done|]. rewrite str_app_cons. cbn [str_prefix]. by rewrite Ascii.eqb_refl. Qed.

Lemma str_prefix_slash_app a b : str_prefix "/" a = true -> str_prefix "/" (a +:+ b) = true.
Proof. rewrite !str_prefix_slash. intros [r ->]. rewrite str_app_cons. by eexists. Qed.

(** The stack of an absolute path holds path components only. *)
Lemma clean_stack_components s c :
  str_prefix "/" s = true -> c ∈ clean_stack s -> is_component c.
Proof.
  intros Hp. unfold clean_stack. rewrite Hp.
  assert (forall l st,
    (forall x, x ∈ l -> str_has chr_slash x = false) ->
    (forall x, x ∈ st -> is_component x) ->
    forall x, x ∈ foldl (clean_step true) st l -> is_component x) as H.
  { induction l as [|y l IH]; intros st Hl Hst x; [apply Hst|]. cbn [foldl].
    apply IH; [intros z Hz; apply Hl; by apply elem_of_cons; right|].
    intros z. unfold clean_step. case_bool_decide as He; [apply Hst|]. cbn [orb].
    destruct (String.eqb_spec y ".") as [|H1]; [apply Hst|].
    destruct (String.eqb_spec y "..") as [->|H2].
    - destruct st as [|w st]; [apply Hst|].
      destruct (String.eqb_spec w "..") as [->|].
      + destruct (Hst ".."%string) as (_ & _ & Hd & _); [by apply elem_of_cons; left|done].
      + intros Hz. apply Hst. by apply elem_of_cons; right.
    - rewrite elem_of_cons. intros [->|Hz]; [|by apply Hst].
      split; [done|]. split; [done|]. split; [done|]. apply Hl. by apply elem_of_cons; left. }
  apply H; [|intros x Hx; by apply elem_of_nil in Hx].
  intros x. apply split_slash_no_slash.
Qed.

Lemma clean_step_component rooted st c : is_component c -> clean_step rooted st c = c :: st.
Proof.
  intros (H1 & H2 & H3 & _). unfold clean_step. rewrite bool_decide_false by done.
  destruct (String.eqb_spec c "."); [done|]. by destruct (String.eqb_spec c "..").
Qed.

Lemma foldl_components rooted l st :
  (forall c, c ∈ l -> is_component c) -> foldl (clean_step rooted) st l = rev l ++ st.
Proof.
  revert st. induction l as [|c l IH]; intros st H; [done|]. cbn [foldl].
  rewrite clean_step_component by (apply H; by apply elem_of_cons; left).
  rewrite IH by (intros x Hx; apply H; by apply elem_of_cons; right).
  simpl. by rewrite <- app_assoc.
Qed.

Lemma join_slash_cons2 x y l : join_slash (x :: y :: l) = x +:+ "/" +:+ join_slash (y :: l).
Proof. done. Qed.

Lemma split_join l :
  l <> [] -> (forall c, c ∈ l -> str_has chr_slash c = false) -> split_slash (join_slash l) = l.
Proof.
  induction l as [|x l IH]; intros Hn H; [done|].
  assert (str_has chr_slash x = false) as Hx by (apply H; by apply elem_of_cons; left).
  destruct l as [|y l]; [by apply split_slash_none|].
  rewrite join_slash_cons2, split_slash_app, split_slash_none by done. simpl. f_equal.
  apply IH; [done|]. intros c Hc. apply H. by apply elem_of_cons; right.
Qed.

Lemma join_snoc l c : l <> [] -> join_slash (l ++ [c]) = join_slash l +:+ "/" +:+ c.
Proof.
  induction l as [|x l IH]; intros Hn; [done|]. destruct l as [|y l]; [done|].
  change ((x :: y :: l) ++ [c]) with (x :: ((y :: l) ++ [c])).
  assert (exists z m, (y :: l) ++ [c] = z :: m) as (z & m & E) by (simpl; eauto).
  rewrite E, join_slash_cons2, <- E, IH by done. rewrite join_slash_cons2, !str_app_assoc. done.
Qed.

(** The absolute path with the given components. *)
Definition abs_path (l : list string) : string := "/" +:+ join_slash l.

Lemma path_Clean_abs s :
  str_prefix "/" s = true -> path_Clean s = abs_path (rev (clean_stack s)).
Proof. intros H. unfold path_Clean. destruct s; [done|]. by rewrite H. Qed.

Lemma abs_path_rooted l : str_prefix "/" (abs_path l) = true.
Proof. apply str_prefix_slash. by eexists. Qed.

Lemma clean_stack_abs_path l :
  (forall c, c ∈ l -> is_component c) -> clean_stack (abs_path l) = rev l.
Proof.
  intros H. unfold clean_stack. rewrite abs_path_rooted. unfold abs_path.
  destruct l as [|x l]; [done|].
  assert (split_slash ("/" +:+ join_slash (x :: l)) = EmptyString :: x :: l) as ->.
  { change ("/" +:+ join_slash (x :: l)) with (EmptyString +:+ "/" +:+ join_slash (x :: l)).
    rewrite split_slash_app, split_join; [done|done|]. intros c Hc. apply H in Hc. apply Hc. }
  change (foldl (clean_step true) [] (EmptyString :: x :: l))
    with (foldl (clean_step true) [] (x :: l)).
  by rewrite foldl_components, app_nil_r by done.
Qed.

(** [Clean] is idempotent on absolute paths. *)
Lemma path_Clean_idem s : str_prefix "/" s = true -> path_Clean (path_Clean s) = path_Clean s.
Proof.
  intros H. rewrite (path_Clean_abs s) by done. rewrite path_Clean_abs by apply abs_path_rooted.
  rewrite clean_stack_abs_path, rev_involutive; [done|].
  intros c Hc. eapply clean_stack_components; [done|]. by apply list_elem_of_In, in_rev, list_elem_of_In.
Qed.

(** Joining a component to an absolute path. *)
Lemma clean_stack_join s c :
  str_prefix "/" s = true -> is_component c ->
  clean_stack (s +:+ "/" +:+ c) = c :: clean_stack s.
Proof.
  intros Hs Hc. unfold clean_stack. rewrite str_prefix_slash_app by done. rewrite Hs.
  rewrite split_slash_app, foldl_app, (split_slash_none c) by apply Hc. simpl.
  by rewrite clean_step_component.
Qed.

Lemma abs_path_snoc l c :
  (forall x, x ∈ l -> is_component x) -> abs_path (l ++ [c]) = dir_prefix (abs_path l) +:+ c.
Proof.
  intros Hl. unfold abs_path, dir_prefix. destruct l as [|x l]; [done|].
  destruct (String.eqb_spec ("/" +:+ join_slash (x :: l)) "/") as [E|_].
  - exfalso. assert (is_component x) as [Hx _] by (apply Hl; by apply elem_of_cons; left).
    apply (str_app_inj "/" _ EmptyString) in E. destruct x; [done|]. by destruct l.
  - rewrite join_snoc by done. by rewrite !str_app_assoc.
Qed.

Lemma path_Join_component s c :
  str_prefix "/" s = true -> is_component c ->
  path_Join s c = dir_prefix (path_Clean s) +:+ c.
Proof.
  intros Hs Hc. unfold path_Join. pose proof Hc as [Hne _].
  destruct s as [|a s]; [done|]. destruct c as [|b c]; [done|].
  rewrite path_Clean_abs by by apply str_prefix_slash_app.
  rewrite clean_stack_join by done. cbn [rev]. rewrite abs_path_snoc.
  - by rewrite path_Clean_abs.
  - intros x Hx. eapply clean_stack_components; [done|]. by apply list_elem_of_In, in_rev, list_elem_of_In.
Qed.

Lemma dir_prefix_slash d : exists d', dir_prefix d = d' +:+ "/".
Proof. unfold dir_prefix. destruct (String.eqb d "/"); [by exists EmptyString|by exists d]. Qed.

Lemma dir_prefix_extends d : exists r, dir_prefix d = d +:+ r.
Proof.
  unfold dir_prefix. destruct (String.eqb_spec d "/") as [->|]; [by exists EmptyString|by exists "/"%string].
Qed.

(** The last component of a path built by joining. *)
Lemma path_Base_join d c : is_component c -> path_Base (dir_prefix d +:+ c) = c.
Proof.
  intros Hc. destruct (dir_prefix_slash d) as [d' ->]. unfold path_Base.
  rewrite str_app_assoc, split_slash_app, (split_slash_none c) by apply Hc.
  rewrite filter_app, filter_cons_True by apply Hc. rewrite filter_nil, last_snoc.
  destruct (d' +:+ "/" +:+ c) eqn:E; [|done]. by destruct d'.
Qed.

Lemma dir_prefix_rooted d c : str_prefix "/" d = true -> str_prefix "/" (dir_prefix d +:+ c) = true.
Proof.
  intros H. destruct (dir_prefix_extends d) as [r ->]. rewrite str_app_assoc.
  by apply str_prefix_slash_app.
Qed.

Lemma path_Clean_rooted s : str_prefix "/" s = true -> str_prefix "/" (path_Clean s) = true.
Proof. intros H. rewrite path_Clean_abs by done. apply abs_path_rooted. Qed.

Lemma path_Join_clean s c :
  str_prefix "/" s = true -> is_component c ->
  path_Clean (path_Join s c) = path_Join s c.
Proof.
  intros Hs Hc. unfold path_Join. pose proof Hc as [Hne _].
  destruct s as [|a s]; [done|]. destruct c as [|b c]; [done|].
  apply path_Clean_idem. by apply str_prefix_slash_app.
Qed.

(** ** Properties *)

(** C35: [sanitizePath] on an absolute directory path either refuses the name
    or returns the cleaned directory path followed by a separator and the
    name, which is then a direct child of the directory; it refuses exactly
    the names that are not one path component, the names with a backslash and
    the results that contain two consecutive dots. *)
Theorem sanitize_path_exact basePath name :
  str_prefix "/" basePath = true ->
  match sanitizePath basePath name with
  | Ok p =>
      is_component name /\ str_has chr_backslash name = false /\
      p = dir_prefix (path_Clean basePath) +:+ name /\ str_contains p ".." = false /\
      isChildOf p (path_Clean basePath) = true
  | Err _ =>
      ~ is_component name \/ str_has chr_backslash name = true \/
      str_contains (dir_prefix (path_Clean basePath) +:+ name) ".." = true
  end.
Proof.
  intros Hb. unfold sanitizePath.
  case_bool_decide as H1; [left; by intros [? _]|].
  destruct (str_has chr_slash name) eqn:H2; [left; intros (_ & _ & _ & ?); congruence|].
  destruct (str_has chr_backslash name) eqn:H3; [by right; left|].
  destruct (String.eqb_spec name "..") as [->|H4]; [left; by intros (_ & _ & ? & _)|].
  destruct (String.eqb_spec name ".") as [->|H5]; [left; by intros (_ & ? & _)|].
  cbn [orb]. assert (is_component name) as Hc by (repeat split; done).
  rewrite path_Join_clean, path_Join_component by done.
  destruct (dir_prefix_extends (path_Clean basePath)) as [r Hr].
  assert (str_prefix (path_Clean basePath) (dir_prefix (path_Clean basePath) +:+ name) = true) as ->
    by (rewrite Hr, str_app_assoc; apply str_prefix_app).
  cbn [negb]. destruct (str_contains _ "..") eqn:H6; [by right; right|].
  repeat (split; [done|]). apply isChildOf_spec; [by apply dir_prefix_rooted, path_Clean_rooted|].
  by exists name.
Qed.

Lemma sanitize_path_exact_witness :
  str_prefix "/" "/d/../e" = true /\
  sanitizePath "/d/../e" "f" = Ok "/e/f"%string /\ isChildOf "/e/f" "/e" = true.
Proof.
  split; [reflexivity|]. split; [reflexivity|].
  destruct (sanitize_path_exact "/d/../e" "f" ltac:(reflexivity)) as (_ & _ & _ & _ & H). exact H.
Defined.

(** A name [validateFilename] accepts, on any system, is one path
    component of at most 255 bytes without NUL or backslash; on systems other
    than Windows it accepts every such name. *)
Theorem validate_filename_exact windows name :
  (validateFilename windows name = NFS_OK ->
   is_component name /\ slen name <= 255 /\ str_has (Ascii.ascii_of_nat 0) name = false /\
   str_has chr_backslash name = false) /\
  (is_component name -> slen name <= 255 -> str_has (Ascii.ascii_of_nat 0) name = false ->
   str_has chr_backslash name = false -> validateFilename false name = NFS_OK).
Proof.
  unfold validateFilename. split.
  - case_bool_decide as H1; [done|]. destruct (Z.ltb_spec 255 (slen name)) as [|H2]; [done|].
    destruct (str_has (Ascii.ascii_of_nat 0) name); [done|].
    destruct (str_has chr_slash name) eqn:H4; [done|].
    destruct (str_has chr_backslash name); [done|].
    destruct (String.eqb_spec name "."); [done|]. destruct (String.eqb_spec name ".."); [done|].
    intros _. repeat split; done.
  - intros (H1 & H2 & H3 & H4) H5 H6 H7. rewrite bool_decide_false by done.
    destruct (Z.ltb_spec 255 (slen name)); [lia|]. rewrite H6, H4, H7.
    destruct (String.eqb_spec name "."); [done|]. by destruct (String.eqb_spec name "..").
Qed.

Lemma validate_filename_exact_witness :
  is_component "notes.txt" /\ validateFilename false "notes.txt" = NFS_OK.
Proof.
  split; [apply (proj1 (validate_filename_exact false "notes.txt") eq_refl)|].
  apply (validate_filename_exact false "notes.txt"); try reflexivity; [|vm_compute; discriminate].
  repeat split; discriminate.
Defined.

(** The name "a..b" is one path component that [validateFilename]
    accepts, but [sanitizePath], through which every mutation goes, refuses
    it: the test for ".." looks at substrings, not at components. *)
Theorem sanitize_path_refuses_inner_dots :
  is_component "a..b" /\ validateFilename false "a..b" = NFS_OK /\
  path_Join "/d" "a..b" = "/d/a..b"%string /\
  sanitizePath "/d" "a..b" = Err (ErrorString "invalid path: contains parent directory reference").
Proof. repeat split; discriminate || reflexivity. Qed.
