(* ===== verification/NetIP.v ===== *)
(** * Internet addresses: the functions of Go's [net] the server uses

    [net.ParseIP], [net.ParseCIDR], [IP.To4], [IP.Equal] and
    [IPNet.Contains], as src/auth.go calls them.  An address is the byte slice
    Go has: 16 bytes from the parsers, 4 bytes from [To4]. *)

From S2P Require Import Prelude.
Open Scope Z_scope.

Definition chr_dot : Ascii.ascii := Ascii.ascii_of_nat 46.
Definition chr_colon : Ascii.ascii := Ascii.ascii_of_nat 58.
Definition chr_percent : Ascii.ascii := Ascii.ascii_of_nat 37.

Definition chr_val (c : Ascii.ascii) : Z := Z.of_N (Ascii.N_of_ascii c).

Definition dec_digit (c : Ascii.ascii) : option Z :=
  let n := chr_val c in if (48 <=? n) && (n <=? 57) then Some (n - 48) else None.

Definition hex_digit (c : Ascii.ascii) : option Z :=
  let n := chr_val c in
  if (48 <=? n) && (n <=? 57) then Some (n - 48)
  else if (97 <=? n) && (n <=? 102) then Some (n - 97 + 10)
  else if (65 <=? n) && (n <=? 70) then Some (n - 65 + 10)
  else None.

(** The fields of a dotted address, read from left to right: [val] and
    [digLen] are the value and the number of digits of the current field,
    [fields] the finished ones.  Exactly four fields of one to three digits,
    none above 255, none with a leading zero. *)
Fixpoint parse_v4_fields (s : string) (val digLen : Z) (fields : list Z) : option (list Z) :=
  match s with
  | EmptyString =>
      if (zlen fields =? 3) && (0 <? digLen) then Some (fields ++ [val]) else None
  | String c r =>
      match dec_digit c with
      | Some d =>
          if (digLen =? 1) && (val =? 0) then None
          else if 255 <? val * 10 + d then None
          else parse_v4_fields r (val * 10 + d) (digLen + 1) fields
      | None =>
          if Ascii.eqb c chr_dot then
            if (digLen =? 0) || (zlen fields =? 3) then None
            else parse_v4_fields r 0 0 (fields ++ [val])
          else None
      end
  end.

Definition parse_v4 (s : string) : option (list Z) := parse_v4_fields s 0 0 [].

(** The hexadecimal digits at the front: their value, their number and the
    rest; more than four digits are refused. *)
Fixpoint hex_prefix (fuel : nat) (s : string) (acc off : Z) {struct s} : option (Z * Z * string) :=
  match s with
  | String c r =>
      match hex_digit c with
      | Some d =>
          match fuel with
          | O => None
          | S fuel => hex_prefix fuel r (acc * 16 + d) (off + 1)
          end
      | None => Some (acc, off, s)
      end
  | EmptyString => Some (acc, off, s)
  end.

(** The loop of [parseIPv6]: [ip] holds the bytes read so far, [ellipsis] the
    position of "::".  Each round consumes a field, so at most eight run. *)
Fixpoint parse_v6_loop (fuel : nat) (s : string) (ip : list Z) (ellipsis : option Z)
    : option (list Z * option Z * string) :=
  match fuel with
  | O => Some (ip, ellipsis, s)
  | S fuel =>
      '(acc, off, rest) ← hex_prefix 4 s 0 0;
      if off =? 0 then None
      else if match rest with String c _ => Ascii.eqb c chr_dot | EmptyString => false end then
        if (match ellipsis with None => negb (zlen ip =? 12) | Some _ => false end)
           || (16 <? zlen ip + 4) then None
        else v4 ← parse_v4 s; Some (ip ++ v4, ellipsis, EmptyString)
      else
        let ip := ip ++ [acc / 256; acc mod 256] in
        match rest with
        | EmptyString => Some (ip, ellipsis, EmptyString)
        | String c r =>
            if negb (Ascii.eqb c chr_colon) then None
            else match r with
                 | EmptyString => None
                 | String c' r' =>
                     if Ascii.eqb c' chr_colon then
                       match ellipsis with
                       | Some _ => None
                       | None =>
                           match r' with
                           | EmptyString => Some (ip, Some (zlen ip), EmptyString)
                           | _ => parse_v6_loop fuel r' ip (Some (zlen ip))
                           end
                       end
                     else parse_v6_loop fuel r ip ellipsis
                 end
        end
  end.

Definition parse_v6_finish (r : list Z * option Z * string) : option (list Z) :=
  let '(ip, ellipsis, rest) := r in
  match rest with
  | String _ _ => None
  | EmptyString =>
      if zlen ip <? 16 then
        e ← ellipsis;
        Some (take (Z.to_nat e) ip ++ replicate (Z.to_nat (16 - zlen ip)) 0 ++ drop (Z.to_nat e) ip)
      else match ellipsis with Some _ => None | None => Some ip end
  end.

Definition parse_v6 (s : string) : option (list Z) :=
  if str_prefix "::" s then
    match str_drop 2 s with
    | EmptyString => Some (replicate 16 0)
    | s' => parse_v6_loop 8 s' [] (Some 0) ≫= parse_v6_finish
    end
  else parse_v6_loop 8 s [] None ≫= parse_v6_finish.

Definition v4InV6Prefix : list Z := replicate 10 0 ++ [255; 255].

(** [netip.ParseAddr]: the first of '.', ':' and '%' decides.  A zone is
    refused here, as [ParseIP] and [ParseCIDR] refuse it.  The flag is
    [Is4]. *)
Fixpoint addr_kind (s : string) : option bool :=
  match s with
  | EmptyString => None
  | String c r =>
      if Ascii.eqb c chr_dot then Some true
      else if Ascii.eqb c chr_colon then Some false
      else if Ascii.eqb c chr_percent then None
      else addr_kind r
  end.

Definition ParseAddr (s : string) : option (bool * list Z) :=
  match addr_kind s with
  | None => None
  | Some true => v4 ← parse_v4 s; Some (true, v4InV6Prefix ++ v4)
  | Some false => if str_has chr_percent s then None else v6 ← parse_v6 s; Some (false, v6)
  end.

Definition ParseIP (s : string) : option (list Z) := snd <$> ParseAddr s.

Definition To4 (ip : list Z) : option (list Z) :=
  if zlen ip =? 4 then Some ip
  else if (zlen ip =? 16) && bool_decide (take 12 ip = v4InV6Prefix) then Some (drop 12 ip)
  else None.

(** [IP.Equal] *)
Definition IP_Equal (a b : list Z) : bool :=
  if zlen a =? zlen b then bool_decide (a = b)
  else if (zlen a =? 4) && (zlen b =? 16) then
    bool_decide (take 12 b = v4InV6Prefix) && bool_decide (a = drop 12 b)
  else if (zlen a =? 16) && (zlen b =? 4) then
    bool_decide (take 12 a = v4InV6Prefix) && bool_decide (drop 12 a = b)
  else false.

(** [net.CIDRMask(ones, bits)] for [0 <= ones <= bits]: byte [i] has the ones
    that fall into it. *)
Fixpoint CIDRMask (bytes : nat) (ones : Z) : list Z :=
  match bytes with
  | O => []
  | S bytes =>
      if 8 <=? ones then 255 :: CIDRMask bytes (ones - 8)
      else (255 - (2 ^ (8 - ones) - 1)) :: CIDRMask bytes 0
  end.

Record IPNet := mkIPNet { net_IP : list Z; net_Mask : list Z }.

(** [IP.Mask] at the two mask lengths [ParseCIDR] builds. *)
Definition IP_Mask (ip mask : list Z) : option (list Z) :=
  let ip := if (zlen mask =? 4) && (zlen ip =? 16) && bool_decide (take 12 ip = v4InV6Prefix)
            then drop 12 ip else ip in
  if zlen ip =? zlen mask then Some (zip_with Z.land ip mask) else None.

(** A prefix length: decimal digits only, below the limit of [dtoi]. *)
Fixpoint dtoi (s : string) (n : Z) : option Z :=
  match s with
  | EmptyString => Some n
  | String c r =>
      d ← dec_digit c;
      if 16777215 <=? n * 10 + d then None else dtoi r (n * 10 + d)
  end.

Fixpoint split_at_slash (s : string) : option (string * string) :=
  match s with
  | EmptyString => None
  | String c r =>
      if Ascii.eqb c chr_slash then Some (EmptyString, r)
      else '(a, b) ← split_at_slash r; Some (String c a, b)
  end.

(** The network of [net.ParseCIDR]; [None] on a parse error. *)
Definition ParseCIDR (s : string) : option IPNet :=
  '(addr, mask) ← split_at_slash s;
  '(is4, ip) ← ParseAddr addr;
  match mask with
  | EmptyString => None
  | _ =>
      n ← dtoi mask 0;
      let iplen := if (is4 : bool) then 4%nat else 16%nat in
      if 8 * Z.of_nat iplen <? n then None
      else
        let m := CIDRMask iplen n in
        masked ← IP_Mask ip m;
        Some (mkIPNet masked m)
  end.

(** [networkNumberAndMask] *)
Definition networkNumberAndMask (n : IPNet) : option (list Z * list Z) :=
  let ip := default (net_IP n) (To4 (net_IP n)) in
  if zlen (net_Mask n) =? 4 then
    if zlen ip =? 4 then Some (ip, net_Mask n) else None
  else if zlen (net_Mask n) =? 16 then
    Some (ip, if zlen ip =? 4 then drop 12 (net_Mask n) else net_Mask n)
  else None.

Definition IPNet_Contains (n : IPNet) (ip : list Z) : bool :=
  match networkNumberAndMask n with
  | None => zlen (default ip (To4 ip)) =? 0
  | Some (nn, m) =>
      let ip := default ip (To4 ip) in
      (zlen ip =? zlen nn) &&
      bool_decide (zip_with Z.land nn m = zip_with Z.land ip m)
  end.

Example ParseIP_v4 : ParseIP "192.168.1.10" = Some (v4InV6Prefix ++ [192; 168; 1; 10]).
Proof. reflexivity. Qed.
Example ParseIP_v6 : ParseIP "fe80::1:2" = Some ([254; 128] ++ replicate 10 0 ++ [0; 1; 0; 2]).
Proof. reflexivity. Qed.
Example ParseIP_leading_zero : ParseIP "192.168.01.1" = None.
Proof. reflexivity. Qed.
Example ParseIP_zone : ParseIP "fe80::1%eth0" = None.
Proof. reflexivity. Qed.
Example ParseCIDR_contains :
  (fun n => IPNet_Contains n [10; 1; 2; 3]) <$> ParseCIDR "10.0.0.0/8" = Some true.
Proof. reflexivity. Qed.
Example ParseCIDR_partial_byte :
  (fun n => (IPNet_Contains n [10; 1; 2; 127], IPNet_Contains n [10; 1; 2; 128])) <$> ParseCIDR "10.1.2.0/25"
  = Some (true, false).
Proof. reflexivity. Qed.
