(* ===== verification/Options.v ===== *)
(** * Configuration (src/options.go, src/absnfs.go New)

    The export options, their split into the tuning and the policy snapshot a
    request reads, and the defaults [New] fills in.  Durations are numbers of
    nanoseconds. *)

From S2P Require Import Prelude Errors Xdr Attributes.
Open Scope Z_scope.

(** ** Data *)

Record TimeoutConfig := mkTimeouts {
  ReadTimeout : Z; WriteTimeout : Z; LookupTimeout : Z; ReaddirTimeout : Z;
  CreateTimeout : Z; RemoveTimeout : Z; RenameTimeout : Z; HandleTimeout : Z;
  DefaultTimeout : Z
}.

Record LogConfig := mkLogConfig {
  Level : string; Format : string; Output : string;
  LogClientIPs : bool; LogOperations : bool; LogFileAccess : bool;
  log_MaxSize : Z; MaxBackups : Z; MaxAge : Z; Compress : bool
}.

#[export] Instance LogConfig_eq_dec : EqDecision LogConfig.
Proof. solve_decision. Defined.

Record RateLimiterConfig := mkRateLimiterConfig {
  GlobalRequestsPerSecond : Z;
  PerIPRequestsPerSecond : Z; PerIPBurstSize : Z;
  PerConnectionRequestsPerSecond : Z; PerConnectionBurstSize : Z;
  ReadLargeOpsPerSecond : Z; WriteLargeOpsPerSecond : Z; ReaddirOpsPerSecond : Z;
  MountOpsPerMinute : Z;
  FileHandlesPerIP : Z; FileHandlesGlobal : Z;
  CleanupInterval : Z
}.

(** The configuration fields of [TLSConfig]; the built [tls.Config] and the
    current certificate are not part of a configuration. *)
Record TLSConfig := mkTLSConfig {
  tls_Enabled : bool; CertFile : string; KeyFile : string; CAFile : string;
  ClientAuth : Z; MinVersion : Z; MaxVersion : Z; CipherSuites : list Z;
  PreferServerCipherSuites : bool; InsecureSkipVerify : bool
}.

Record TuningOptions := mkTuning {
  TransferSize : Z;
  AttrCacheTimeout : Z; AttrCacheSize : Z;
  CacheNegativeLookups : bool; NegativeCacheTimeout : Z;
  EnableDirCache : bool; DirCacheTimeout : Z; DirCacheMaxEntries : Z; DirCacheMaxDirSize : Z;
  MaxWorkers : Z; MaxConnections : Z; IdleTimeout : Z;
  TCPKeepAlive : bool; TCPNoDelay : bool; SendBufferSize : Z; ReceiveBufferSize : Z;
  Async : bool;
  t_Log : option LogConfig;
  Timeouts : option TimeoutConfig
}.

Record PolicyOptions := mkPolicy {
  ReadOnly : bool;
  Secure : bool;
  AllowedIPs : list string;
  Squash : string;
  MaxFileSize : Z;
  EnableRateLimiting : bool;
  RateLimitConfig : option RateLimiterConfig;
  p_TLS : option TLSConfig
}.

Record ExportOptions := mkExport {
  o_ReadOnly : bool; o_Secure : bool; o_AllowedIPs : list string; o_Squash : string;
  o_Async : bool; o_MaxFileSize : Z;
  o_TransferSize : Z;
  o_AttrCacheTimeout : Z; o_AttrCacheSize : Z;
  o_CacheNegativeLookups : bool; o_NegativeCacheTimeout : Z;
  o_EnableDirCache : bool; o_DirCacheTimeout : Z; o_DirCacheMaxEntries : Z; o_DirCacheMaxDirSize : Z;
  o_MaxWorkers : Z; o_MaxConnections : Z; o_IdleTimeout : Z;
  o_TCPKeepAlive : bool; o_TCPNoDelay : bool; hasExplicitTCPSettings : bool;
  o_SendBufferSize : Z; o_ReceiveBufferSize : Z;
  o_EnableRateLimiting : bool; o_RateLimitConfig : option RateLimiterConfig;
  o_TLS : option TLSConfig; o_Log : option LogConfig; o_Timeouts : option TimeoutConfig
}.

(** ** Conversions *)

(** [TLSConfig.Clone] *)
Definition TLS_Clone (tc : TLSConfig) : TLSConfig :=
  mkTLSConfig (tls_Enabled tc) (CertFile tc) (KeyFile tc) (CAFile tc) (ClientAuth tc)
    (MinVersion tc) (MaxVersion tc)
    (if 0 <? zlen (CipherSuites tc) then CipherSuites tc else [])
    (PreferServerCipherSuites tc) (InsecureSkipVerify tc).

Definition tuningFromExportOptions (opts : ExportOptions) : TuningOptions :=
  mkTuning (o_TransferSize opts) (o_AttrCacheTimeout opts) (o_AttrCacheSize opts)
    (o_CacheNegativeLookups opts) (o_NegativeCacheTimeout opts)
    (o_EnableDirCache opts) (o_DirCacheTimeout opts) (o_DirCacheMaxEntries opts)
    (o_DirCacheMaxDirSize opts)
    (o_MaxWorkers opts) (o_MaxConnections opts) (o_IdleTimeout opts)
    (o_TCPKeepAlive opts) (o_TCPNoDelay opts) (o_SendBufferSize opts) (o_ReceiveBufferSize opts)
    (o_Async opts) (o_Log opts) (o_Timeouts opts).

Definition policyFromExportOptions (opts : ExportOptions) : PolicyOptions :=
  mkPolicy (o_ReadOnly opts) (o_Secure opts)
    (if 0 <? zlen (o_AllowedIPs opts) then o_AllowedIPs opts else [])
    (o_Squash opts) (o_MaxFileSize opts) (o_EnableRateLimiting opts)
    (o_RateLimitConfig opts) (TLS_Clone <$> o_TLS opts).

Definition exportOptionsFromSnapshots (t : TuningOptions) (p : PolicyOptions) : ExportOptions :=
  mkExport (ReadOnly p) (Secure p)
    (if 0 <? zlen (AllowedIPs p) then AllowedIPs p else []) (Squash p)
    (Async t) (MaxFileSize p)
    (TransferSize t) (AttrCacheTimeout t) (AttrCacheSize t)
    (CacheNegativeLookups t) (NegativeCacheTimeout t)
    (EnableDirCache t) (DirCacheTimeout t) (DirCacheMaxEntries t) (DirCacheMaxDirSize t)
    (MaxWorkers t) (MaxConnections t) (IdleTimeout t)
    (TCPKeepAlive t) (TCPNoDelay t) false
    (SendBufferSize t) (ReceiveBufferSize t)
    (EnableRateLimiting p) (RateLimitConfig p)
    (TLS_Clone <$> p_TLS p) (t_Log t) (Timeouts t).

(** ** Defaults *)

Definition DefaultRateLimiterConfig : RateLimiterConfig :=
  mkRateLimiterConfig 10000 1000 500 500 100 100 50 50 10 10000 1000000 (300 * second).

(** [if x <= 0 { x = d }] *)
Definition pos_or (x d : Z) : Z := if x <=? 0 then d else x.

Definition defaultTimeouts : TimeoutConfig :=
  mkTimeouts (30 * second) (60 * second) (10 * second) (30 * second) (15 * second)
    (15 * second) (20 * second) (5 * second) (30 * second).

Definition fillTimeouts (t : option TimeoutConfig) : TimeoutConfig :=
  match t with
  | None => defaultTimeouts
  | Some t =>
      mkTimeouts (pos_or (ReadTimeout t) (30 * second)) (pos_or (WriteTimeout t) (60 * second))
        (pos_or (LookupTimeout t) (10 * second)) (pos_or (ReaddirTimeout t) (30 * second))
        (pos_or (CreateTimeout t) (15 * second)) (pos_or (RemoveTimeout t) (15 * second))
        (pos_or (RenameTimeout t) (20 * second)) (pos_or (HandleTimeout t) (5 * second))
        (pos_or (DefaultTimeout t) (30 * second))
  end.

Definition to_lower (c : Ascii.ascii) : Ascii.ascii :=
  let n := Ascii.nat_of_ascii c in
  if (65 <=? n)%nat && (n <=? 90)%nat then Ascii.ascii_of_nat (n + 32) else c.

Fixpoint strings_ToLower (s : string) : string :=
  match s with
  | EmptyString => EmptyString
  | String c s => String (to_lower c) (strings_ToLower s)
  end.

(** The option handling at the start of [New]: the squash mode is checked and
    unset values are replaced; [numCPU] is [runtime.NumCPU()]. *)
Definition New_options (numCPU : Z) (o : ExportOptions) : result ExportOptions :=
  let squash := strings_ToLower (o_Squash o) in
  if negb (bool_decide (squash = EmptyString)) && negb (String.eqb squash "root") &&
     negb (String.eqb squash "all") && negb (String.eqb squash "none")
  then Err (ErrorString "invalid squash mode")
  else
    let tcp d := if hasExplicitTCPSettings o then d else true in
    Ok (mkExport (o_ReadOnly o) (o_Secure o) (o_AllowedIPs o) (o_Squash o)
      (o_Async o) (o_MaxFileSize o)
      (pos_or (o_TransferSize o) 65536)
      (pos_or (o_AttrCacheTimeout o) (5 * second)) (pos_or (o_AttrCacheSize o) 10000)
      (o_CacheNegativeLookups o) (pos_or (o_NegativeCacheTimeout o) (5 * second))
      (o_EnableDirCache o) (pos_or (o_DirCacheTimeout o) (10 * second))
      (pos_or (o_DirCacheMaxEntries o) 1000) (pos_or (o_DirCacheMaxDirSize o) 10000)
      (pos_or (o_MaxWorkers o) (numCPU * 4)) (pos_or (o_MaxConnections o) 100)
      (pos_or (o_IdleTimeout o) (300 * second))
      (tcp (o_TCPKeepAlive o)) (tcp (o_TCPNoDelay o)) (hasExplicitTCPSettings o)
      (pos_or (o_SendBufferSize o) 262144) (pos_or (o_ReceiveBufferSize o) 262144)
      (o_EnableRateLimiting o)
      (Some (default DefaultRateLimiterConfig (o_RateLimitConfig o)))
      (o_TLS o) (o_Log o) (Some (fillTimeouts (o_Timeouts o)))).

(** What a request relies on: timeouts are present and transfers are not
    negative. *)
Definition tuning_ok (t : TuningOptions) : Prop :=
  0 <= TransferSize t /\ is_Some (Timeouts t).

(** ** Lemmas *)

Lemma nonempty_or_nil {A} (l : list A) : (if 0 <? zlen l then l else []) = l.
Proof. by destruct l. Qed.

Lemma TLS_Clone_id tc : TLS_Clone tc = tc.
Proof. destruct tc. unfold TLS_Clone; simpl. by rewrite nonempty_or_nil. Qed.

Lemma pos_or_pos x d : 0 < d -> 0 < pos_or x d.
Proof. unfold pos_or. destruct (Z.leb_spec x 0); lia. Qed.

Lemma fmap_TLS_Clone (t : option TLSConfig) : TLS_Clone <$> t = t.
Proof. destruct t as [t|]; [|done]. simpl. by rewrite TLS_Clone_id. Qed.

Lemma New_options_tuning_ok numCPU o o' :
  New_options numCPU o = Ok o' -> tuning_ok (tuningFromExportOptions o').
Proof.
  unfold New_options. destruct (_ && _); [done|]. intros [= <-].
  assert (0 < pos_or (o_TransferSize o) 65536) as Ht by (apply pos_or_pos; lia).
  split; simpl; [lia|by eexists].
Qed.

(** ** Properties *)

(** Splitting export options into the tuning and the policy snapshot and
    reading them back, as [GetExportOptions] does, returns the same options;
    only the internal flag that records explicit TCP settings is lost. *)
Theorem options_snapshot_roundtrip o :
  exportOptionsFromSnapshots (tuningFromExportOptions o) (policyFromExportOptions o) =
    mkExport (o_ReadOnly o) (o_Secure o) (o_AllowedIPs o) (o_Squash o) (o_Async o) (o_MaxFileSize o)
      (o_TransferSize o) (o_AttrCacheTimeout o) (o_AttrCacheSize o) (o_CacheNegativeLookups o)
      (o_NegativeCacheTimeout o) (o_EnableDirCache o) (o_DirCacheTimeout o) (o_DirCacheMaxEntries o)
      (o_DirCacheMaxDirSize o) (o_MaxWorkers o) (o_MaxConnections o) (o_IdleTimeout o)
      (o_TCPKeepAlive o) (o_TCPNoDelay o) false (o_SendBufferSize o) (o_ReceiveBufferSize o)
      (o_EnableRateLimiting o) (o_RateLimitConfig o) (o_TLS o) (o_Log o) (o_Timeouts o).
Proof.
  unfold exportOptionsFromSnapshots, policyFromExportOptions, tuningFromExportOptions; simpl.
  by rewrite !nonempty_or_nil, !fmap_TLS_Clone.
Qed.

(** The options [New] accepts have a squash mode it knows, positive
    sizes and limits, all timeouts set and positive, and a rate limiter
    configuration; so the tuning snapshot satisfies what requests rely on. *)
Theorem new_options_sane numCPU o o' :
  0 < numCPU -> New_options numCPU o = Ok o' ->
  strings_ToLower (o_Squash o') ∈ [EmptyString; "root"; "all"; "none"]%string /\
  tuning_ok (tuningFromExportOptions o') /\
  0 < o_TransferSize o' /\ 0 < o_AttrCacheTimeout o' /\ 0 < o_AttrCacheSize o' /\
  0 < o_DirCacheMaxEntries o' /\ 0 < o_MaxWorkers o' /\ 0 < o_MaxConnections o' /\
  is_Some (o_RateLimitConfig o') /\
  exists t, o_Timeouts o' = Some t /\
    Forall (fun d => 0 < d) [ReadTimeout t; WriteTimeout t; LookupTimeout t; ReaddirTimeout t;
      CreateTimeout t; RemoveTimeout t; RenameTimeout t; HandleTimeout t; DefaultTimeout t].
Proof.
  intros Hn Ho. pose proof (New_options_tuning_ok _ _ _ Ho) as Htun. revert Ho Htun.
  unfold New_options. destruct (_ && _) eqn:Hs; [done|]. intros [= <-] Htun. simpl.
  assert (0 < pos_or (o_TransferSize o) 65536) as Ht by (apply pos_or_pos; lia).
  split.
  { rewrite !elem_of_cons, elem_of_nil. rewrite !andb_false_iff, !negb_false_iff in Hs.
    rewrite bool_decide_eq_true, !String.eqb_eq in Hs. tauto. }
  split; [done|]. split; [done|].
  repeat (split; [apply pos_or_pos; unfold second; lia|]). split; [by eexists|].
  eexists. split; [done|]. unfold fillTimeouts, second.
  destruct (o_Timeouts o); simpl; rewrite !Forall_cons, Forall_nil;
    repeat split; try apply pos_or_pos; lia.
Qed.

Definition empty_options : ExportOptions :=
  mkExport false false [] EmptyString false 0 0 0 0 false 0 false 0 0 0 0 0 0 false false false 0 0
    false None None None None.

Lemma new_options_sane_witness :
  exists o', New_options 8 empty_options = Ok o' /\ o_TransferSize o' = 65536 /\
    tuning_ok (tuningFromExportOptions o').
Proof.
  eexists. split; [reflexivity|]. split; [reflexivity|].
  exact (proj1 (proj2 (new_options_sane 8 empty_options _ ltac:(lia) eq_refl))).
Defined.
