(* ===== verification/Auth.v ===== *)
(** * Authentication and access control (src/auth.go)

    The validation of a call's origin and credential against the policy, and
    the mapping of user and group ids (squashing). *)

From S2P Require Import Prelude Errors Xdr Attributes Rpc Options NetIP.
Open Scope Z_scope.

Record AuthContext := mkAuthContext {
  ClientIP : string;
  ClientPort : Z;
  ctx_Credential : RPCCredential;
  AuthSys : option AuthSysCredential;
  TLSEnabled : bool;
  EffectiveUID : Z;
  EffectiveGID : Z
}.

Definition set_AuthSys (c : AuthContext) (a : AuthSysCredential) : AuthContext :=
  mkAuthContext (ClientIP c) (ClientPort c) (ctx_Credential c) (Some a) (TLSEnabled c)
    (EffectiveUID c) (EffectiveGID c).
Definition set_Effective (c : AuthContext) (uid gid : Z) : AuthContext :=
  mkAuthContext (ClientIP c) (ClientPort c) (ctx_Credential c) (AuthSys c) (TLSEnabled c) uid gid.

(** [AuthResult] without the text of the denial. *)
Record AuthResult := mkAuthResult { Allowed : bool; res_UID : Z; res_GID : Z }.

Definition nobody : Z := 65534.

(** ** isIPAllowed *)

(** [IP.Equal] and [IPNet.Contains] bring both sides into the same form
    themselves. *)
Definition normalizeIP (ip : list Z) : list Z := default ip (To4 ip).

(** One entry of the list against the normalized client address. *)
Definition entry_matches (ip : list Z) (allowed : string) : bool :=
  if str_has chr_slash allowed then
    match ParseCIDR allowed with
    | None => false
    | Some subnet => IPNet_Contains subnet ip
    end
  else
    match ParseIP allowed with
    | Some allowedIP => IP_Equal (normalizeIP allowedIP) ip
    | None => false
    end.

Definition isIPAllowed (clientIP : string) (allowedIPs : list string) : bool :=
  match ParseIP clientIP with
  | None => false
  | Some ip => existsb (entry_matches (normalizeIP ip)) allowedIPs
  end.

(** ** applySquashing: the result and the credential are updated in place *)

Definition set_AuxGIDs (a : AuthSysCredential) (g : list Z) : AuthSysCredential :=
  mkAuthSys (Stamp a) (MachineName a) (UID a) (GID a) g.

Definition applySquashing (result : AuthResult) (authSys : AuthSysCredential) (squash : string)
    : AuthResult * AuthSysCredential :=
  let mode := strings_ToLower squash in
  if String.eqb mode "root" then
    let result :=
      if UID authSys =? 0 then mkAuthResult (Allowed result) nobody nobody
      else if res_GID result =? 0 then mkAuthResult (Allowed result) (res_UID result) nobody
      else result in
    (result,
     if 0 <? zlen (AuxGIDs authSys)
     then set_AuxGIDs authSys ((fun gid => if gid =? 0 then nobody else gid) <$> AuxGIDs authSys)
     else authSys)
  else if String.eqb mode "all" then
    (mkAuthResult (Allowed result) nobody nobody,
     if 0 <? zlen (AuxGIDs authSys)
     then set_AuxGIDs authSys ((fun _ => nobody) <$> AuxGIDs authSys)
     else authSys)
  else if String.eqb mode "none" || bool_decide (mode = EmptyString) then (result, authSys)
  else (mkAuthResult (Allowed result) nobody nobody, authSys).

(** ** ValidateAuthentication: the parsed credential is stored in the context *)

Definition ValidateAuthentication (ctx : AuthContext) (policy : PolicyOptions)
    : AuthResult * AuthContext :=
  let denied := mkAuthResult false nobody nobody in
  if (0 <? zlen (AllowedIPs policy)) && negb (isIPAllowed (ClientIP ctx) (AllowedIPs policy))
  then (denied, ctx)
  else if Secure policy && (1024 <=? ClientPort ctx) then (denied, ctx)
  else
    let flavor := cred_Flavor (ctx_Credential ctx) in
    if flavor =? AUTH_NONE then (mkAuthResult true nobody nobody, ctx)
    else if flavor =? AUTH_SYS then
      let parsed :=
        match AuthSys ctx with
        | Some a => Ok a
        | None => ParseAuthSysCredential (cred_Body (ctx_Credential ctx))
        end in
      match parsed with
      | Err _ => (denied, ctx)
      | Ok a =>
          let '(result, a) := applySquashing (mkAuthResult true (UID a) (GID a)) a (Squash policy) in
          (result, set_AuthSys ctx a)
      end
    else (denied, ctx).

(** ** Lemmas *)

Lemma dec_digit_not c d : dec_digit c = Some d ->
  Ascii.eqb c chr_dot = false /\ Ascii.eqb c chr_colon = false /\ Ascii.eqb c chr_percent = false /\ 0 <= d <= 9.
Proof.
  unfold dec_digit. destruct ((48 <=? chr_val c) && (chr_val c <=? 57)) eqn:E; [|done]. intros [= <-].
  apply andb_true_iff in E as [H1%Z.leb_le H2%Z.leb_le].
  repeat split; try (apply Ascii.eqb_neq; intros ->; vm_compute in H1, H2; congruence); lia.
Qed.

(** A dotted address has four fields, only digits and dots, and is told from
    an IPv6 address by its first dot. *)
Lemma v4_shape s : forall val dl fs l,
  parse_v4_fields s val dl fs = Some l ->
  zlen l = 4 /\ str_has chr_percent s = false /\ (zlen fs < 3 -> addr_kind s = Some true).
Proof.
  induction s as [|c s IH]; intros val dl fs l Hp; cbn [parse_v4_fields] in Hp.
  - destruct (Z.eqb_spec (zlen fs) 3) as [E|]; [|done]. destruct (0 <? dl); [|done].
    injection Hp as <-. rewrite zlen_app, E. split; [done|]. split; [done|]. lia.
  - unfold str_has. cbn [str_exists addr_kind].
    destruct (dec_digit c) as [d|] eqn:Ed.
    + destruct (dec_digit_not _ _ Ed) as (-> & -> & Hc & _).
      rewrite Ascii.eqb_sym, Hc. simpl.
      destruct (_ && _); [done|]. destruct (255 <? _); [done|]. by apply IH in Hp.
    + destruct (Ascii.eqb_spec c chr_dot) as [->|]; [|done].
      destruct (_ || _); [done|]. apply IH in Hp as (H1 & H2 & _). by split; [|split].
Qed.

(** ** Properties *)

(** The parsed credential [ValidateAuthentication] works with. *)
Definition parsed_authsys (ctx : AuthContext) : result AuthSysCredential :=
  match AuthSys ctx with
  | Some a => Ok a
  | None => ParseAuthSysCredential (cred_Body (ctx_Credential ctx))
  end.

Definition origin_ok (ctx : AuthContext) (policy : PolicyOptions) : bool :=
  ((zlen (AllowedIPs policy) =? 0) || isIPAllowed (ClientIP ctx) (AllowedIPs policy)) &&
  (negb (Secure policy) || (ClientPort ctx <? 1024)).

Lemma applySquashing_allowed r a sq : Allowed (fst (applySquashing r a sq)) = Allowed r.
Proof. unfold applySquashing. repeat case_match; done. Qed.

(** C33: a call is admitted exactly when its origin satisfies the policy (the
    address is on the list, if there is one, and the port is privileged, if
    required) and its credential is AUTH_NONE or a well-formed AUTH_SYS; a
    call that is not admitted, or that is admitted with AUTH_NONE, is nobody. *)
Theorem authentication_exact ctx policy :
  let '(r, ctx') := ValidateAuthentication ctx policy in
  (Allowed r = true <->
   origin_ok ctx policy = true /\
   (cred_Flavor (ctx_Credential ctx) = AUTH_NONE \/
    (cred_Flavor (ctx_Credential ctx) = AUTH_SYS /\ exists a, parsed_authsys ctx = Ok a))) /\
  (Allowed r = false \/ cred_Flavor (ctx_Credential ctx) = AUTH_NONE ->
   res_UID r = nobody /\ res_GID r = nobody).
Proof.
  unfold ValidateAuthentication, origin_ok. fold (parsed_authsys ctx).
  assert ((0 <? zlen (AllowedIPs policy)) = negb (zlen (AllowedIPs policy) =? 0)) as ->.
  { by destruct (AllowedIPs policy). }
  destruct (zlen (AllowedIPs policy) =? 0), (isIPAllowed (ClientIP ctx) (AllowedIPs policy)); simpl;
  try (split; [split; [done|by intros [? _]]|done]);
  assert ((1024 <=? ClientPort ctx) = negb (ClientPort ctx <? 1024)) as -> by lia;
  (destruct (Secure policy), (ClientPort ctx <? 1024); simpl;
   try (split; [split; [done|by intros [? _]]|done]));
  (destruct (Z.eqb_spec (cred_Flavor (ctx_Credential ctx)) AUTH_NONE) as [E|E];
   [rewrite E; split; [split; auto|done]|]);
  (destruct (Z.eqb_spec (cred_Flavor (ctx_Credential ctx)) AUTH_SYS) as [E'|E'];
   [|split; [split; [done|intros [_ [?|[? _]]]; done]|done]]);
  (destruct (parsed_authsys ctx) as [a|e];
   [|split; [split; [done|intros [_ [?|[_ [a Ha]]]]; done]|done]]);
  pose proof (applySquashing_allowed (mkAuthResult true (UID a) (GID a)) a (Squash policy)) as Hs;
  (destruct (applySquashing _ _ _) as [r a']; simpl in Hs; rewrite Hs);
  (split; [split; [intros _; split; [done|right; eauto]|done]|intros [?|?]; done]).
Qed.

(** The guarded copy loop maps the auxiliary groups. *)
Lemma AuxGIDs_map (f : Z -> Z) a :
  AuxGIDs (if 0 <? zlen (AuxGIDs a) then set_AuxGIDs a (f <$> AuxGIDs a) else a) = f <$> AuxGIDs a.
Proof. destruct (AuxGIDs a) as [|g gs] eqn:E; simpl; [by rewrite E|done]. Qed.

Lemma root_squash_gids (l : list Z) :
  (0 ∉ ((fun gid => if gid =? 0 then nobody else gid) <$> l)) /\
  forall g, g <> 0 -> g ∈ l -> g ∈ ((fun gid => if gid =? 0 then nobody else gid) <$> l).
Proof.
  split.
  - intros Hin. apply list_elem_of_fmap in Hin as (g & E & _). by destruct (Z.eqb_spec g 0).
  - intros g Hg Hin. apply list_elem_of_fmap. exists g. split; [|done]. by destruct (Z.eqb_spec g 0).
Qed.

(** C34: squashing.  For an admitted AUTH_SYS call: in mode "root" no root id
    survives, neither as user, nor as group, nor among the auxiliary groups,
    and other ids are kept; in mode "all" every id becomes nobody; in mode
    "none" the credential is used as sent.  The mode is compared without
    regard to case. *)
Theorem squash_guarantees ctx policy a :
  origin_ok ctx policy = true -> cred_Flavor (ctx_Credential ctx) = AUTH_SYS ->
  parsed_authsys ctx = Ok a ->
  let '(r, ctx') := ValidateAuthentication ctx policy in
  exists a', AuthSys ctx' = Some a' /\
    (strings_ToLower (Squash policy) = "root"%string ->
       res_UID r <> 0 /\ res_GID r <> 0 /\ (0 ∉ AuxGIDs a') /\
       (UID a <> 0 -> res_UID r = UID a /\ (GID a <> 0 -> res_GID r = GID a)) /\
       length (AuxGIDs a') = length (AuxGIDs a) /\
       (forall g, g <> 0 -> g ∈ AuxGIDs a -> g ∈ AuxGIDs a')) /\
    (strings_ToLower (Squash policy) = "all"%string ->
       res_UID r = nobody /\ res_GID r = nobody /\ forall g, g ∈ AuxGIDs a' -> g = nobody) /\
    (strings_ToLower (Squash policy) = "none"%string ->
       res_UID r = UID a /\ res_GID r = GID a /\ a' = a).
Proof.
  intros Ho Hf Hp. unfold origin_ok in Ho. apply andb_true_iff in Ho as [Ho1 Ho2].
  unfold ValidateAuthentication. fold (parsed_authsys ctx).
  assert ((0 <? zlen (AllowedIPs policy)) && negb (isIPAllowed (ClientIP ctx) (AllowedIPs policy)) = false) as ->.
  { apply orb_true_iff in Ho1 as [H|H]; [|rewrite H; apply andb_false_r].
    apply Z.eqb_eq in H. by rewrite H. }
  assert (Secure policy && (1024 <=? ClientPort ctx) = false) as ->.
  { destruct (Secure policy); [|done]. simpl in *. lia. }
  rewrite Hf. change (AUTH_SYS =? AUTH_NONE) with false. change (AUTH_SYS =? AUTH_SYS) with true.
  cbv beta iota zeta. rewrite Hp. unfold applySquashing.
  destruct (String.eqb_spec (strings_ToLower (Squash policy)) "root") as [Er|Er].
  { rewrite Er. eexists. split; [done|]. split; [|split; done]. intros _. cbn [UID res_GID res_UID Allowed].
    rewrite AuxGIDs_map, length_fmap. destruct (root_squash_gids (AuxGIDs a)) as [H1 H2].
    destruct (Z.eqb_spec (UID a) 0) as [E|E]; [by repeat split|].
    by destruct (Z.eqb_spec (GID a) 0) as [E'|E']; repeat split. }
  destruct (String.eqb_spec (strings_ToLower (Squash policy)) "all") as [Ea|Ea].
  { rewrite Ea. eexists. split; [done|]. split; [done|]. split; [|done]. intros _.
    rewrite AuxGIDs_map. split; [done|]. split; [done|].
    intros g Hg. by apply list_elem_of_fmap in Hg as (? & -> & _). }
  destruct (String.eqb_spec (strings_ToLower (Squash policy)) "none") as [En|En].
  { simpl. eexists. split; [done|]. rewrite En. by repeat split. }
  cbn [orb]. case_bool_decide; simpl; eexists; (split; [done|]);
    (split; [intros Hx; done|]); (split; [intros Hx; done|]); intros Hx; done.
Qed.

Definition sample_policy (squash : string) : PolicyOptions :=
  mkPolicy false false [] squash 0 false None None.
Definition sample_ctx (uid gid : Z) (aux : list Z) : AuthContext :=
  mkAuthContext "10.0.0.1" 700 (mkRPCCredential AUTH_SYS []) (Some (mkAuthSys 0 "host" uid gid aux))
    false 0 0.

Lemma squash_guarantees_witness :
  let '(r, ctx') := ValidateAuthentication (sample_ctx 0 0 [0; 10]) (sample_policy "Root") in
  res_UID r <> 0 /\ res_GID r <> 0.
Proof.
  destruct (squash_guarantees (sample_ctx 0 0 [0; 10]) (sample_policy "Root")
    (mkAuthSys 0 "host" 0 0 [0; 10]) eq_refl eq_refl eq_refl) as (a' & _ & Hr & _).
  destruct (Hr eq_refl) as (H1 & H2 & _). exact (conj H1 H2).
Defined.
