(* ===== verification/AllowList.v ===== *)
(** * Which addresses a list of allowed addresses and networks admits

    The reference for [isIPAllowed] of src/auth.go: addresses are 128-bit
    numbers, an IPv4 address standing at ::ffff:0:0, and a network is a number
    with a prefix length.  The code works on byte slices of 4 or 16 bytes and
    masks. *)

From S2P Require Import Prelude NetIP Auth.
Open Scope Z_scope.

(** ** Specification *)

(** The number a slice of bytes stands for. *)
Fixpoint addr_val (ip : list Z) : Z :=
  match ip with [] => 0 | b :: r => b * 256 ^ Z.of_nat (length r) + addr_val r end.

Definition address (s : string) : option Z := addr_val <$> ParseIP s.

(** A network as net.ParseCIDR reads it: the number and the prefix length out
    of 128 bits. *)
Definition network (s : string) : option (Z * Z) :=
  '(addr, mask) ← split_at_slash s;
  '(is4, ip) ← ParseAddr addr;
  n ← match mask with EmptyString => None | _ => dtoi mask 0 end;
  if (if (is4 : bool) then 32 else 128) <? n then None
  else Some (addr_val ip, if is4 then 96 + n else n).

(** The addresses ::ffff:a.b.c.d *)
Definition is_v4 (v : Z) : Prop := v / 2 ^ 32 = 65535.

(** [v] agrees with [a] in the first [n] bits; an IPv4 address is only in
    networks of IPv4 addresses. *)
Definition in_network (v a n : Z) : Prop :=
  v / 2 ^ (128 - n) = a / 2 ^ (128 - n) /\ (is_v4 v -> 96 <= n).

Definition entry_admits (v : Z) (entry : string) : Prop :=
  if str_has chr_slash entry then exists a n, network entry = Some (a, n) /\ in_network v a n
  else address entry = Some v.

(** ** Bytes *)

Definition bytes (l : list Z) : Prop := Forall (fun b => 0 <= b < 256) l.

Ltac closed_bytes := repeat (apply Forall_cons; split; [lia|]); by apply Forall_nil.

Lemma addr_val_range l : bytes l -> 0 <= addr_val l < 256 ^ Z.of_nat (length l).
Proof.
  induction 1 as [|b l Hb _ IH]; cbn [addr_val length]; [lia|].
  rewrite Nat2Z.inj_succ, Z.pow_succ_r by lia. nia.
Qed.

Lemma addr_val_inj l l' : bytes l -> bytes l' -> length l = length l' -> addr_val l = addr_val l' -> l = l'.
Proof.
  intros Hl. revert l'. induction Hl as [|b l Hb Hl IH]; intros [|b' l'] Hl' Hlen E; try done.
  apply Forall_cons in Hl' as [Hb' Hl']. injection Hlen as Hlen. cbn [addr_val] in E. rewrite Hlen in E.
  pose proof (addr_val_range l Hl) as R. pose proof (addr_val_range l' Hl') as R'. rewrite Hlen in R.
  assert (b = b') as -> by nia. f_equal. apply IH; [done..|lia].
Qed.

Lemma addr_val_app l l' : addr_val (l ++ l') = addr_val l * 256 ^ Z.of_nat (length l') + addr_val l'.
Proof.
  induction l as [|b l IH]; [done|]. cbn [addr_val app]. rewrite IH, length_app, Nat2Z.inj_add, Z.pow_add_r by lia. lia.
Qed.

(** A byte under a mask of [n] leading ones. *)
Definition byte_masks_ok : bool :=
  forallb (fun n => forallb (fun x =>
    Z.land (Z.of_nat x) (255 - (2 ^ (8 - Z.of_nat n) - 1)) =? Z.of_nat x / 2 ^ (8 - Z.of_nat n) * 2 ^ (8 - Z.of_nat n))
    (seq 0 256)) (seq 0 8).

Lemma byte_mask x n :
  0 <= x < 256 -> 0 <= n < 8 -> Z.land x (255 - (2 ^ (8 - n) - 1)) = x / 2 ^ (8 - n) * 2 ^ (8 - n).
Proof.
  intros Hx Hn. assert (byte_masks_ok = true) as Hok by (vm_compute; reflexivity).
  unfold byte_masks_ok in Hok. rewrite forallb_forall in Hok.
  specialize (Hok (Z.to_nat n)). rewrite in_seq, forallb_forall in Hok.
  specialize (Hok ltac:(lia) (Z.to_nat x)). rewrite in_seq, Z.eqb_eq, !Z2Nat.id in Hok by lia. apply Hok. lia.
Qed.

Lemma land_255 x : 0 <= x < 256 -> Z.land x 255 = x.
Proof. intros Hx. change 255 with (Z.ones 8). rewrite Z.land_ones by lia. by apply Z.mod_small. Qed.

Definition masked (k : nat) (n : Z) (l : list Z) : list Z := zip_with Z.land l (CIDRMask k n).

(** Two slices agree under a mask when their numbers agree in the leading bits. *)
Lemma masked_prefix l : forall l' n, bytes l -> bytes l' -> length l = length l' -> 0 <= n <= 8 * Z.of_nat (length l) ->
  masked (length l) n l = masked (length l) n l' <->
  addr_val l / 2 ^ (8 * Z.of_nat (length l) - n) = addr_val l' / 2 ^ (8 * Z.of_nat (length l) - n).
Proof.
  unfold masked. induction l as [|b l IH]; intros [|b' l'] n Hl Hl' Hlen Hn; try done.
  apply Forall_cons in Hl as [Hb Hl], Hl' as [Hb' Hl']. injection Hlen as Hlen.
  cbn [length addr_val CIDRMask zip_with] in *. rewrite <- Hlen. rewrite Nat2Z.inj_succ in *.
  pose proof (addr_val_range l Hl) as R. pose proof (addr_val_range l' Hl') as R'. rewrite <- Hlen in R'.
  set (k := Z.of_nat (length l)) in *. assert (256 ^ k = 2 ^ (8 * k)) as Hpow
    by (change 256 with (2 ^ 8); rewrite <- Z.pow_mul_r by lia; done). rewrite Hpow in *.
  destruct (Z.leb_spec 8 n) as [Hn8|Hn8].
  - rewrite !land_255 by done. specialize (IH l' (n - 8) Hl Hl' Hlen ltac:(lia)).
    replace (8 * Z.succ k - n) with (8 * k - (n - 8)) by lia. set (D := 2 ^ (8 * k - (n - 8))) in *.
    assert (2 ^ (8 * k) = 2 ^ (n - 8) * D) as E by (unfold D; rewrite <- Z.pow_add_r by lia; f_equal; lia).
    assert (0 < D) by (unfold D; apply Z.pow_pos_nonneg; lia).
    rewrite E, !Z.mul_assoc, !Z.div_add_l by lia. rewrite E in R, R'.
    pose proof (Z.div_pos (addr_val l) D ltac:(lia) ltac:(lia)).
    pose proof (Z.div_pos (addr_val l') D ltac:(lia) ltac:(lia)).
    pose proof (Z.div_lt_upper_bound (addr_val l) D (2 ^ (n - 8)) ltac:(lia) ltac:(lia)).
    pose proof (Z.div_lt_upper_bound (addr_val l') D (2 ^ (n - 8)) ltac:(lia) ltac:(lia)).
    split; [intros [= -> Er]; apply IH in Er; lia|]. intros Ev.
    assert (b = b') as -> by nia. f_equal. apply IH. lia.
  - rewrite !byte_mask by lia. specialize (IH l' 0 Hl Hl' Hlen ltac:(lia)). rewrite Z.sub_0_r in IH.
    rewrite !Z.div_small in IH by lia.
    replace (8 * Z.succ k - n) with (8 * k + (8 - n)) by lia. rewrite Z.pow_add_r by lia.
    assert (0 < 2 ^ (8 * k)) by (apply Z.pow_pos_nonneg; lia).
    assert (0 < 2 ^ (8 - n)) by (apply Z.pow_pos_nonneg; lia).
    rewrite <- !Z.div_div, !Z.div_add_l, !(Z.div_small (addr_val _)), !Z.add_0_r by lia.
    split; [intros [= Eb _]; nia|]. intros ->. f_equal. by apply IH.
Qed.

Lemma CIDRMask_length k n : length (CIDRMask k n) = k.
Proof. revert n. induction k as [|k IH]; intros n; [done|]. cbn [CIDRMask]. by destruct (8 <=? n); simpl; rewrite IH. Qed.

(** The leading bytes of a mask. *)
Lemma CIDRMask_ones j k n :
  8 * Z.of_nat j <= n -> CIDRMask (j + k) n = replicate j 255 ++ CIDRMask k (n - 8 * Z.of_nat j).
Proof.
  revert n. induction j as [|j IH]; intros n Hn; [by rewrite Z.sub_0_r|]. cbn [Nat.add CIDRMask replicate app].
  destruct (Z.leb_spec 8 n); [|lia]. rewrite IH by lia. do 3 f_equal. lia.
Qed.

Lemma masked_length k n l : length l = k -> length (masked k n l) = k.
Proof. intros Hl. unfold masked. rewrite length_zip_with, CIDRMask_length. lia. Qed.

Lemma masked_idem k n l : masked k n (masked k n l) = masked k n l.
Proof.
  unfold masked. revert n l. induction k as [|k IH]; intros n [|b l]; try done. cbn [CIDRMask].
  destruct (8 <=? n); cbn [zip_with]; rewrite IH; f_equal; by rewrite <- Z.land_assoc, Z.land_diag.
Qed.

(** With 96 leading ones or more the first twelve bytes are left as they are. *)
Lemma masked_96 n l :
  bytes l -> length l = 16%nat -> 96 <= n ->
  masked 16 n l = take 12 l ++ masked 4 (n - 96) (drop 12 l).
Proof.
  intros Hl Hlen Hn. unfold masked. change (CIDRMask 16 n) with (CIDRMask (12 + 4) n).
  rewrite (CIDRMask_ones 12 4 n) by lia. change (8 * Z.of_nat 12) with 96.
  rewrite <- (take_drop 12 l) at 1. rewrite zip_with_app by (rewrite length_take, length_replicate; lia).
  f_equal. apply Forall_take with (n := 12%nat) in Hl.
  assert (length (take 12 l) = 12%nat) as Hl12 by (rewrite length_take; lia). revert Hl Hl12.
  generalize (take 12 l). clear. intros l Hl Hlen.
  assert (forall j l, length l = j -> bytes l -> zip_with Z.land l (replicate j 255) = l) as Hz; [|by apply Hz].
  clear. induction j as [|j IH]; intros [|b l] Hlen Hl; try done. apply Forall_cons in Hl as [Hb Hl].
  injection Hlen as Hlen. cbn. rewrite land_255, IH by done. done.
Qed.

(** ** What the parsers return *)

Lemma v4_fields_bytes s : forall val dl fs l,
  parse_v4_fields s val dl fs = Some l -> 0 <= val < 256 -> bytes fs -> bytes l.
Proof.
  induction s as [|c s IH]; intros val dl fs l Hp Hv Hf; cbn [parse_v4_fields] in Hp.
  - destruct (_ && _); [|done]. injection Hp as <-. apply Forall_app. split; [done|]. by apply Forall_singleton.
  - destruct (dec_digit c) as [d|] eqn:Ed.
    + destruct (_ && _); [done|]. destruct (Z.ltb_spec 255 (val * 10 + d)); [done|].
      apply dec_digit_not in Ed as (_ & _ & _ & Hd). eapply IH; [exact Hp|lia|done].
    + destruct (Ascii.eqb c chr_dot); [|done]. destruct (_ || _); [done|]. eapply IH; [exact Hp|lia|].
      apply Forall_app. split; [done|]. by apply Forall_singleton.
Qed.

Lemma parse_v4_ok s l : parse_v4 s = Some l -> bytes l /\ length l = 4%nat.
Proof.
  intros Hp. split; [by eapply v4_fields_bytes; [exact Hp|lia|constructor]|].
  apply v4_shape in Hp as [Hl _]. unfold zlen in Hl. lia.
Qed.

Lemma hex_digit_range c d : hex_digit c = Some d -> 0 <= d < 16.
Proof.
  unfold hex_digit. generalize (chr_val c). intros n.
  destruct ((48 <=? n) && (n <=? 57)) eqn:E1; [intros [= <-]; lia|].
  destruct ((97 <=? n) && (n <=? 102)) eqn:E2; [intros [= <-]; lia|].
  destruct ((65 <=? n) && (n <=? 70)) eqn:E3; [intros [= <-]; lia|done].
Qed.

Lemma hex_prefix_range s : forall fuel acc off acc' off' r,
  hex_prefix fuel s acc off = Some (acc', off', r) -> 0 <= acc -> (acc + 1) * 16 ^ Z.of_nat fuel <= 65536 ->
  0 <= acc' < 65536.
Proof.
  induction s as [|c s IH]; intros fuel acc off acc' off' r Hp H0 Hf; cbn [hex_prefix] in Hp.
  - injection Hp as <- <- <-. pose proof (Z.pow_pos_nonneg 16 (Z.of_nat fuel)). nia.
  - destruct (hex_digit c) as [d|] eqn:Ed.
    + apply hex_digit_range in Ed. destruct fuel as [|fuel]; [done|].
      rewrite Nat2Z.inj_succ, Z.pow_succ_r in Hf by lia. eapply IH; [exact Hp|lia|nia].
    + injection Hp as <- <- <-. pose proof (Z.pow_pos_nonneg 16 (Z.of_nat fuel)). nia.
Qed.

Definition v6_ok (fuel : nat) (ip : list Z) : Prop := bytes ip /\ (length ip + 2 * fuel <= 16)%nat.

Lemma parse_v6_loop_ok fuel : forall s ip e ip' e' r,
  parse_v6_loop fuel s ip e = Some (ip', e', r) -> v6_ok fuel ip -> v6_ok 0 ip'.
Proof.
  induction fuel as [|fuel IH]; intros s ip e ip' e' r Hp Hok; cbn [parse_v6_loop] in Hp.
  { injection Hp as <- <- <-. done. }
  apply bind_Some in Hp as ([[acc off] rest] & Eh & Hp).
  apply hex_prefix_range in Eh; [|lia|vm_compute; done].
  destruct (off =? 0); [done|]. destruct Hok as [Hb Hl].
  destruct (match rest with String c _ => _ | EmptyString => _ end).
  { destruct (_ || _) eqn:Eo; [done|]. apply orb_false_iff in Eo as [_ Eo%Z.ltb_ge].
    apply bind_Some in Hp as (v4 & E4 & [= <- <- <-]). apply parse_v4_ok in E4 as [Hb4 Hl4].
    unfold zlen in Eo. split; [by apply Forall_app|]. rewrite length_app. lia. }
  set (ip1 := ip ++ [acc / 256; acc mod 256]) in *.
  assert (v6_ok fuel ip1) as Hok1.
  { split; [|unfold ip1; rewrite length_app; simpl; lia]. apply Forall_app. split; [done|].
    repeat (apply Forall_cons; split); [|apply Z.mod_pos_bound; lia|by apply Forall_nil].
    split; [apply Z.div_pos|apply Z.div_lt_upper_bound]; lia. }
  assert (v6_ok 0 ip1) as Hok0 by (destruct Hok1; split; [done|lia]).
  destruct rest as [|c rest]; [by injection Hp as <- <- <-|].
  destruct (negb _); [done|]. destruct rest as [|c' rest]; [done|].
  destruct (Ascii.eqb c' chr_colon); [|by eapply IH]. destruct e; [done|].
  destruct rest; [by injection Hp as <- <- <-|by eapply IH].
Qed.

Lemma parse_v6_finish_ok ip e r l :
  parse_v6_finish (ip, e, r) = Some l -> v6_ok 0 ip -> bytes l /\ length l = 16%nat.
Proof.
  unfold parse_v6_finish, v6_ok, zlen. intros Hp [Hb Hl]. destruct r; [|done].
  destruct (Z.ltb_spec (Z.of_nat (length ip)) 16) as [Hlt|Hge].
  - apply bind_Some in Hp as (n & _ & [= <-]). split.
    + repeat (apply Forall_app; split); [by apply Forall_take|by apply Forall_replicate|by apply Forall_drop].
    + rewrite !length_app, length_replicate, length_take, length_drop. lia.
  - destruct e; [done|]. injection Hp as <-. split; [done|lia].
Qed.

Lemma parse_v6_ok s l : parse_v6 s = Some l -> bytes l /\ length l = 16%nat.
Proof.
  assert (forall s e, parse_v6_loop 8 s [] e ≫= parse_v6_finish = Some l -> bytes l /\ length l = 16%nat) as H.
  { intros s' e Hp. apply bind_Some in Hp as ([[ip e'] r] & El & Hf).
    apply parse_v6_loop_ok in El; [|split; [constructor|done]]. by eapply parse_v6_finish_ok. }
  unfold parse_v6. destruct (str_prefix "::" s); [|apply H].
  destruct (str_drop 2 s); [intros [= <-]; split; [closed_bytes|done]|apply H].
Qed.

(** The parsers return 16 bytes, those of an IPv4 address behind the prefix. *)
Lemma ParseAddr_ok s is4 ip :
  ParseAddr s = Some (is4, ip) ->
  bytes ip /\ length ip = 16%nat /\ (is4 = true -> take 12 ip = v4InV6Prefix).
Proof.
  unfold ParseAddr. destruct (addr_kind s) as [[]|]; [| |done].
  - intros Hp. apply bind_Some in Hp as (v4 & E & [= <- <-]). apply parse_v4_ok in E as [Hb Hl].
    split; [|split; [simpl; lia|done]]. by repeat (apply Forall_cons; split; [lia|]).
  - destruct (str_has chr_percent s); [done|]. intros Hp. apply bind_Some in Hp as (v6 & E & [= <- <-]).
    apply parse_v6_ok in E as [Hb Hl]. done.
Qed.

Lemma ParseIP_ok s ip : ParseIP s = Some ip -> bytes ip /\ length ip = 16%nat.
Proof.
  unfold ParseIP. intros Hp. apply fmap_Some in Hp as ([is4 ip'] & E & ->).
  by apply ParseAddr_ok in E as (? & ? & _).
Qed.

(** ** Addresses and networks against their numbers *)

(** The first twelve bytes and the last four. *)
Lemma addr_split ip :
  length ip = 16%nat -> addr_val ip = addr_val (take 12 ip) * 2 ^ 32 + addr_val (drop 12 ip).
Proof.
  intros Hl. rewrite <- (take_drop 12 ip) at 1. rewrite addr_val_app, length_drop, Hl. done.
Qed.

Lemma drop_12_range ip : bytes ip -> length ip = 16%nat -> 0 <= addr_val (drop 12 ip) < 2 ^ 32.
Proof.
  intros Hb Hl. pose proof (addr_val_range (drop 12 ip) (Forall_drop _ 12 _ Hb)) as R.
  by rewrite length_drop, Hl in R.
Qed.

Lemma mapped_is_v4 ip :
  bytes ip -> length ip = 16%nat -> take 12 ip = v4InV6Prefix <-> is_v4 (addr_val ip).
Proof.
  intros Hb Hl. unfold is_v4. rewrite addr_split by done. pose proof (drop_12_range ip Hb Hl) as R.
  rewrite Z.div_add_l, Z.div_small, Z.add_0_r by lia. split; [by intros ->|]. intros E. apply addr_val_inj.
  - by apply Forall_take.
  - closed_bytes.
  - rewrite length_take, Hl. done.
  - done.
Qed.

(** The two forms [normalizeIP] leaves an address in. *)
Lemma normalize_cases ip :
  length ip = 16%nat ->
  (take 12 ip = v4InV6Prefix /\ normalizeIP ip = drop 12 ip /\ length (drop 12 ip) = 4%nat) \/
  (take 12 ip <> v4InV6Prefix /\ normalizeIP ip = ip).
Proof.
  intros Hl. unfold normalizeIP, To4, zlen. rewrite Hl. simpl. case_bool_decide; [left|by right].
  rewrite length_drop, Hl. done.
Qed.

Lemma To4_16 ip : length ip = 16%nat -> default ip (To4 ip) = normalizeIP ip.
Proof. done. Qed.

Lemma IP_Equal_same_length a b : length a = length b -> IP_Equal a b = true <-> a = b.
Proof. intros Hl. unfold IP_Equal, zlen. rewrite Hl, Z.eqb_refl. apply bool_decide_eq_true. Qed.

Lemma IP_Equal_normalized a b :
  length a = 16%nat -> length b = 16%nat -> IP_Equal (normalizeIP a) (normalizeIP b) = true <-> a = b.
Proof.
  intros Ha Hb.
  destruct (normalize_cases a Ha) as [(Ma & -> & La)|[Ma ->]], (normalize_cases b Hb) as [(Mb & -> & Lb)|[Mb ->]].
  - rewrite IP_Equal_same_length by congruence. split; [|by intros ->].
    intros E. by rewrite <- (take_drop 12 a), <- (take_drop 12 b), Ma, Mb, E.
  - split; [|intros ->; done]. unfold IP_Equal, zlen. rewrite La, Hb. simpl.
    rewrite bool_decide_false by done. done.
  - split; [|intros ->; done]. unfold IP_Equal, zlen. rewrite Lb, Ha. simpl.
    rewrite bool_decide_false by done. done.
  - apply IP_Equal_same_length. congruence.
Qed.

Lemma normalize_twice ip : length ip = 16%nat -> default (normalizeIP ip) (To4 (normalizeIP ip)) = normalizeIP ip.
Proof.
  intros Hl. destruct (normalize_cases ip Hl) as [(M & -> & L)|[M ->]]; unfold To4, zlen.
  - rewrite L. done.
  - rewrite Hl. simpl. by rewrite bool_decide_false.
Qed.

Lemma in_network_masked ip a n :
  bytes ip -> length ip = 16%nat -> bytes a -> length a = 16%nat -> 0 <= n <= 128 ->
  in_network (addr_val ip) (addr_val a) n <->
  masked 16 n ip = masked 16 n a /\ (take 12 ip = v4InV6Prefix -> 96 <= n).
Proof.
  intros Hb Hl Hba Hla Hn. unfold in_network. rewrite <- mapped_is_v4 by done.
  pose proof (masked_prefix ip a n Hb Hba ltac:(congruence)) as E. rewrite Hl in E.
  rewrite (E ltac:(lia)). done.
Qed.

(** A mask byte that is not covered whole is below 255. *)
Lemma CIDRMask_partial k : forall n j m,
  CIDRMask k n !! j = Some m -> 0 <= n < 8 * (Z.of_nat j + 1) -> 0 <= m < 255.
Proof.
  induction k as [|k IH]; intros n j m E Hn; [done|]. cbn [CIDRMask] in E.
  destruct (Z.leb_spec 8 n), j as [|j]; cbn in E.
  - lia.
  - eapply IH; [exact E|lia].
  - injection E as <-. pose proof (Z.pow_le_mono_r 2 (8 - n) 8 ltac:(lia) ltac:(lia)).
    pose proof (Z.pow_le_mono_r 2 1 (8 - n) ltac:(lia) ltac:(lia)). lia.
  - eapply IH; [exact E|lia].
Qed.

(** A masked address behind the IPv4 prefix: the mask covers the prefix. *)
Lemma masked_mapped n a :
  bytes a -> length a = 16%nat -> 0 <= n ->
  take 12 (masked 16 n a) = v4InV6Prefix <-> 96 <= n /\ take 12 a = v4InV6Prefix.
Proof.
  intros Hb Hl Hn. assert (96 <= n -> take 12 (masked 16 n a) = take 12 a) as Ht.
  { intros H. rewrite masked_96 by done. apply take_app_length'. rewrite length_take. lia. }
  split; [|by intros [H E]; rewrite Ht]. intros E. destruct (Z.leb_spec 96 n) as [H|H]; [by rewrite <- Ht|].
  assert (take 12 (masked 16 n a) !! 11%nat = Some 255) as E11 by by rewrite E.
  rewrite lookup_take_lt in E11 by lia. apply lookup_zip_with_Some in E11 as (x & m & Em & Ex & E2).
  pose proof (CIDRMask_partial 16 n 11 m E2 ltac:(lia)) as Hm.
  pose proof (land_255 m ltac:(lia)) as E255. rewrite Em, (Z.land_comm x m), Z.land_assoc, Z.land_diag, Z.land_comm in E255.
  lia.
Qed.

(** A network whose number has four bytes. *)
Lemma contains_v4 nt a k ip :
  networkNumberAndMask nt = Some (masked 4 k (drop 12 a), CIDRMask 4 k) ->
  bytes a -> length a = 16%nat -> take 12 a = v4InV6Prefix -> bytes ip -> length ip = 16%nat -> 0 <= k <= 32 ->
  IPNet_Contains nt (normalizeIP ip) = true <-> in_network (addr_val ip) (addr_val a) (96 + k).
Proof.
  intros En Hba Hla Ma Hb Hl Hk. rewrite in_network_masked by (done || lia).
  rewrite !masked_96, Ma by (done || lia). replace (96 + k - 96) with k by lia.
  unfold IPNet_Contains. rewrite En, normalize_twice by done. unfold zlen.
  rewrite (masked_length 4) by (rewrite length_drop; lia).
  rewrite andb_true_iff, Z.eqb_eq, bool_decide_eq_true. fold (masked 4 k (masked 4 k (drop 12 a))).
  rewrite masked_idem. fold (masked 4 k (normalizeIP ip)).
  destruct (normalize_cases ip Hl) as [(M & -> & L)|[M ->]].
  - rewrite M, L. split; [intros [_ ->]; split; [done|lia]|].
    intros [E%app_inv_head _]. by rewrite E.
  - split; [lia|]. intros [E _]. apply app_inj_1 in E as [E _]; [done|].
    rewrite length_take, Hl. done.
Qed.

(** A network given by an IPv6 address. *)
Lemma contains_v6 a n ip :
  bytes a -> length a = 16%nat -> bytes ip -> length ip = 16%nat -> 0 <= n <= 128 ->
  IPNet_Contains (mkIPNet (masked 16 n a) (CIDRMask 16 n)) (normalizeIP ip) = true <->
  in_network (addr_val ip) (addr_val a) n.
Proof.
  intros Hba Hla Hb Hl Hn. pose proof (masked_length 16 n a Hla) as Hm.
  destruct (normalize_cases (masked 16 n a) Hm) as [(M & EN & L)|[M EN]].
  - apply masked_mapped in M as [H96 Ma]; [|done..|lia]. replace n with (96 + (n - 96)) at 3 by lia.
    apply contains_v4; try done; [|lia]. unfold networkNumberAndMask. cbn [net_IP net_Mask].
    rewrite To4_16, EN by done. unfold zlen. rewrite L, CIDRMask_length. cbn [Z.of_nat Pos.of_succ_nat Z.eqb Pos.eqb Pos.succ].
    f_equal. f_equal.
    + rewrite masked_96 by done. apply drop_app_length'. rewrite length_take. lia.
    + change (CIDRMask 16 n) with (CIDRMask (12 + 4) n). by rewrite (CIDRMask_ones 12 4 n) by lia.
  - assert (networkNumberAndMask (mkIPNet (masked 16 n a) (CIDRMask 16 n)) = Some (masked 16 n a, CIDRMask 16 n)) as Enn.
    { unfold networkNumberAndMask. cbn [net_IP net_Mask]. rewrite To4_16, EN by done. unfold zlen.
      by rewrite CIDRMask_length, Hm. }
    unfold IPNet_Contains. rewrite Enn, normalize_twice, in_network_masked by done. unfold zlen. rewrite Hm.
    rewrite andb_true_iff, Z.eqb_eq, bool_decide_eq_true. fold (masked 16 n (masked 16 n a)).
    rewrite masked_idem. fold (masked 16 n (normalizeIP ip)).
    destruct (normalize_cases ip Hl) as [(Mi & -> & Li)|[Mi ->]]; [|rewrite Hl; split; [by intros [_ ->]|by intros [-> _]]].
    rewrite Li. split; [lia|]. intros [E H]. destruct M. rewrite <- E. apply masked_mapped; [done..|lia|]. auto.
Qed.

Lemma dtoi_nonneg s : forall n r, dtoi s n = Some r -> 0 <= n -> 0 <= r.
Proof.
  induction s as [|c s IH]; intros n r E Hn; cbn [dtoi] in E; [by injection E as <-|].
  apply bind_Some in E as (d & Ed & E). apply dec_digit_not in Ed as (_ & _ & _ & Hd).
  destruct (_ <=? _); [done|]. eapply IH; [exact E|lia].
Qed.

Ltac no_network := split; [done|by intros (? & ? & ? & _)].

(** The network [ParseCIDR] builds contains the addresses of [network]. *)
Lemma ParseCIDR_contains_exact e ip :
  bytes ip -> length ip = 16%nat ->
  match ParseCIDR e with Some nt => IPNet_Contains nt (normalizeIP ip) | None => false end = true <->
  exists a n, network e = Some (a, n) /\ in_network (addr_val ip) a n.
Proof.
  intros Hb Hl. unfold ParseCIDR, network.
  destruct (split_at_slash e) as [[addr mask]|]; [|cbn; no_network]. cbn [mbind option_bind].
  destruct (ParseAddr addr) as [[is4 a]|] eqn:Ea; [|cbn; no_network]. cbn [mbind option_bind].
  apply ParseAddr_ok in Ea as (Hba & Hla & M).
  destruct mask as [|c mask]; [no_network|].
  destruct (dtoi (String c mask) 0) as [n|] eqn:Ed; [|no_network].
  apply dtoi_nonneg in Ed; [|lia]. cbn [mbind option_bind].
  replace (8 * Z.of_nat (if is4 then 4%nat else 16%nat)) with (if is4 then 32 else 128) by by destruct is4.
  destruct (Z.ltb_spec (if is4 then 32 else 128) n) as [|Hn]; [no_network|].
  transitivity (in_network (addr_val ip) (addr_val a) (if is4 then 96 + n else n));
    [|split; [by eauto|by intros (? & ? & [= <- <-] & ?)]].
  unfold IP_Mask, zlen. rewrite CIDRMask_length, Hla. destruct is4; simpl Z.of_nat.
  - rewrite bool_decide_true by auto. cbn [Z.eqb Pos.eqb andb]. rewrite length_drop, Hla.
    cbn [Nat.sub Z.of_nat Pos.of_succ_nat Pos.succ Z.eqb Pos.eqb mbind option_bind].
    fold (masked 4 n (drop 12 a)). apply contains_v4; auto.
    pose proof (masked_length 4 n (drop 12 a) ltac:(rewrite length_drop; lia)) as Hm.
    change (zip_with Z.land _ (CIDRMask 4 n)) with (masked 4 n (drop 12 a)).
    unfold networkNumberAndMask, To4, zlen. cbn [net_IP net_Mask]. rewrite CIDRMask_length, Hm. simpl. by rewrite Hm.
  - cbn [Z.eqb Pos.eqb andb]. rewrite Hla. cbn [Z.of_nat Pos.of_succ_nat Pos.succ Z.eqb Pos.eqb mbind option_bind].
    fold (masked 16 n a). by apply contains_v6.
Qed.

Lemma entry_matches_exact ip e :
  bytes ip -> length ip = 16%nat -> entry_matches (normalizeIP ip) e = true <-> entry_admits (addr_val ip) e.
Proof.
  intros Hb Hl. unfold entry_matches, entry_admits, address. destruct (str_has chr_slash e).
  - rewrite <- ParseCIDR_contains_exact by done. done.
  - destruct (ParseIP e) as [a|] eqn:Ea; [|done]. apply ParseIP_ok in Ea as [Hba Hla]. cbn [fmap option_fmap option_map].
    rewrite IP_Equal_normalized by done. split; [by intros ->|]. intros [= E]. apply addr_val_inj; [done..|congruence|done].
Qed.

(** ** Property *)

(** C32: the list of allowed addresses and networks admits exactly the clients
    it names: the client's address is one, and some entry is the same 128-bit
    number, in whatever notation (so that ::ffff:10.1.2.3 and 10.1.2.3 are one
    client), or a network whose leading bits the address has.  An entry that
    does not parse admits nobody, and a network of IPv6 addresses shorter than
    the IPv4 prefix, ::/0 included, admits no IPv4 client. *)
Theorem allowed_addresses_exact clientIP allowedIPs :
  isIPAllowed clientIP allowedIPs = true <->
  exists v, address clientIP = Some v /\ exists e, e ∈ allowedIPs /\ entry_admits v e.
Proof.
  unfold isIPAllowed, address. destruct (ParseIP clientIP) as [ip|] eqn:Ei; [|split; [done|by intros (? & ? & _)]].
  apply ParseIP_ok in Ei as [Hb Hl]. rewrite existsb_exists. cbn [fmap option_fmap option_map]. split.
  - intros (e & Hin & He). exists (addr_val ip). split; [done|]. exists e.
    rewrite list_elem_of_In, <- entry_matches_exact by done. done.
  - intros (v & [= <-] & e & Hin & He). exists e. rewrite <- list_elem_of_In, entry_matches_exact by done. done.
Qed.

(** An IPv4 client and a list that has it only under an IPv6 network, the
    network of all mapped addresses, and an entry that does not parse. *)
Example allowed_v4_in_v6_network :
  (isIPAllowed "10.1.2.3" ["::/0"], isIPAllowed "10.1.2.3" ["::ffff:0:0/96"], isIPAllowed "10.1.2.3" ["10.0.0.0/33"],
   isIPAllowed "::ffff:a01:203" ["10.1.0.0/16"])%string = (false, true, false, true).
Proof. vm_compute. reflexivity. Qed.
