(* ===== verification/ConnTable.v ===== *)
(** * The table of connections (src/server.go)

    Which connections are accepted, how they are counted, and how they leave
    the table: at the end of their handler, by the sweep of idle connections
    and at shutdown, in any interleaving.  [unregisterConnection] takes the
    mutex twice, with a [sync.Once] in between, so it is two steps; every other
    operation on the table holds the mutex throughout.  The server has a
    handler ([Listen] refuses to start without one). *)

From stdpp Require Import relations.
From S2P Require Import Prelude Attributes Rpc NetIP Options Auth.
Open Scope Z_scope.

(** ** The filter of [acceptLoop] *)

(** [Server.isIPAllowed] *)
Definition Server_isIPAllowed (policy : PolicyOptions) (clientIP : string) : bool :=
  if zlen (AllowedIPs policy) =? 0 then true
  else
    match ParseIP clientIP with
    | None => false
    | Some ip =>
        (fix go (allowed : list string) : bool :=
           match allowed with
           | [] => false
           | allowedIP :: rest =>
               if str_has chr_slash allowedIP then
                 match ParseCIDR allowedIP with
                 | None => go rest
                 | Some ipNet => if IPNet_Contains ipNet (normalizeIP ip) then true else go rest
                 end
               else
                 match ParseIP allowedIP with
                 | Some allowedIPParsed =>
                     if IP_Equal (normalizeIP allowedIPParsed) (normalizeIP ip) then true else go rest
                 | None => go rest
                 end
           end) (AllowedIPs policy)
    end.

(** ** The table *)

(** A connection and the address of a [connectionState]. *)
Definition conn : Type := nat.
Definition state_ptr : Type := nat.

Record connectionState := mkConnState { lastActivity : Z; unregistered : bool }.

(** [connStates] is the store the pointers in [activeConns] refer to; the flag
    is that of [unregisterOnce]. *)
Record ConnTable := mkConnTable {
  activeConns : gmap conn state_ptr;
  connStates : gmap state_ptr connectionState;
  nextState : state_ptr;
  connCount : Z
}.

Definition NewConnTable : ConnTable := mkConnTable ∅ ∅ 0%nat 0.

(** [now] is the reading of the clock, [maxConnections] that of the tuning. *)
Definition registerConnection (maxConnections now : Z) (c : conn) (t : ConnTable) : bool * ConnTable :=
  if (0 <? maxConnections) && (maxConnections <=? connCount t) then (false, t)
  else (true, mkConnTable (<[c := nextState t]> (activeConns t))
                (<[nextState t := mkConnState now false]> (connStates t))
                (S (nextState t)) (connCount t + 1)).

(** The first critical section of [unregisterConnection]: the state, if the
    connection is still there. *)
Definition unregister_lookup (c : conn) (t : ConnTable) : option state_ptr := activeConns t !! c.

(** [state.unregisterOnce.Do]: the function runs for the first caller only. *)
Definition unregister_once (c : conn) (st : state_ptr) (t : ConnTable) : ConnTable :=
  match connStates t !! st with
  | Some cs =>
      if unregistered cs then t
      else
        let states := <[st := mkConnState (lastActivity cs) true]> (connStates t) in
        match activeConns t !! c with
        | Some _ => mkConnTable (delete c (activeConns t)) states (nextState t) (connCount t - 1)
        | None => mkConnTable (activeConns t) states (nextState t) (connCount t)
        end
  | None => t
  end.

Definition updateConnectionActivity (now : Z) (c : conn) (t : ConnTable) : ConnTable :=
  match activeConns t !! c with
  | Some st =>
      mkConnTable (activeConns t)
        (alter (fun cs => mkConnState now (unregistered cs)) st (connStates t)) (nextState t) (connCount t)
  | None => t
  end.

(** The connections [cleanupIdleConnections] collects under the lock. *)
Definition is_idle (idleTimeout now : Z) (t : ConnTable) (st : state_ptr) : bool :=
  match connStates t !! st with
  | Some cs => idleTimeout <? now - lastActivity cs
  | None => false
  end.

Definition idle_conns (idleTimeout now : Z) (t : ConnTable) : list conn :=
  if idleTimeout <=? 0 then []
  else (filter (fun x => is_idle idleTimeout now t x.2 = true) (map_to_list (activeConns t))).*1.

(** The connections [closeAllConnections] collects. *)
Definition all_conns (t : ConnTable) : list conn := (map_to_list (activeConns t)).*1.

(** The interval at which [idleConnectionCleanupLoop] starts to look for idle
    connections, and how a tick changes it. *)
Definition initial_interval (idleTimeout : Z) : Z :=
  if (0 <? idleTimeout) && (idleTimeout / 2 <? 60 * second) then idleTimeout / 2 else 60 * second.

Definition next_interval (idleTimeout checkInterval : Z) : Z :=
  if (0 <? idleTimeout) && (idleTimeout / 2 <? 60 * second) then idleTimeout / 2 else checkInterval.

(** ** The server's goroutines around the table *)

(** [handlers] are the running connection handlers; [calls] the connections
    for which [unregisterConnection] has been called and not begun, by a
    handler that ended, a sweep or a shutdown; [looked] the calls between their
    critical sections. *)
Record System := mkSystem {
  table : ConnTable;
  handlers : gset conn;
  calls : list conn;
  looked : list (conn * state_ptr)
}.

Definition initial : System := mkSystem NewConnTable ∅ [] [].

Section Steps.
Variable maxConnections : Z.

(** [Accept] returns a connection no goroutine has. *)
Inductive step : System -> System -> Prop :=
  | step_accept now c t hs cs ls t' :
      activeConns t !! c = None -> c ∉ hs ->
      registerConnection maxConnections now c t = (true, t') ->
      step (mkSystem t hs cs ls) (mkSystem t' ({[c]} ∪ hs) cs ls)
  | step_activity now c t hs cs ls :
      c ∈ hs -> step (mkSystem t hs cs ls) (mkSystem (updateConnectionActivity now c t) hs cs ls)
  | step_handler_ends c t hs cs ls :
      c ∈ hs -> step (mkSystem t hs cs ls) (mkSystem t (hs ∖ {[c]}) (c :: cs) ls)
  | step_sweep idleTimeout now t hs cs ls :
      step (mkSystem t hs cs ls) (mkSystem t hs (idle_conns idleTimeout now t ++ cs) ls)
  | step_close_all t hs cs ls :
      step (mkSystem t hs cs ls) (mkSystem t hs (all_conns t ++ cs) ls)
  | step_lookup c t hs cs1 cs2 ls :
      step (mkSystem t hs (cs1 ++ c :: cs2) ls)
        (mkSystem t hs (cs1 ++ cs2)
           (match unregister_lookup c t with Some st => (c, st) :: ls | None => ls end))
  | step_once c st t hs cs ls1 ls2 :
      step (mkSystem t hs cs (ls1 ++ (c, st) :: ls2))
        (mkSystem (unregister_once c st t) hs cs (ls1 ++ ls2)).

Definition reachable : System -> Prop := rtc step initial.
End Steps.

(** ** The invariant *)

(** The state [st] exists and has not been unregistered. *)
Definition live (t : ConnTable) (st : state_ptr) : Prop :=
  exists cs, connStates t !! st = Some cs /\ unregistered cs = false.

(** Of the table: the counter is exact and within the limit, registered
    connections have states of their own that were not unregistered. *)
Record table_inv (maxConnections : Z) (t : ConnTable) : Prop := {
  ti_count : connCount t = Z.of_nat (size (activeConns t));
  ti_limit : 0 < maxConnections -> connCount t <= maxConnections;
  ti_live c st : activeConns t !! c = Some st -> live t st;
  ti_own c c' st : activeConns t !! c = Some st -> activeConns t !! c' = Some st -> c = c';
  ti_fresh st : (nextState t <= st)%nat -> connStates t !! st = None
}.

(** Of the goroutines: a registered connection has a goroutine that will
    unregister it, and a call between its critical sections holds the state of
    the connection unless that was unregistered. *)
Record sys_inv (maxConnections : Z) (s : System) : Prop := {
  si_table : table_inv maxConnections (table s);
  si_owed c st : activeConns (table s) !! c = Some st ->
    c ∈ handlers s \/ c ∈ calls s \/ (c, st) ∈ looked s;
  si_looked c st : (c, st) ∈ looked s -> live (table s) st -> activeConns (table s) !! c = Some st;
  si_alloc c st : (c, st) ∈ looked s -> (st < nextState (table s))%nat
}.

(** ** Lemmas *)

Lemma register_inv m now c t t' :
  activeConns t !! c = None -> table_inv m t -> registerConnection m now c t = (true, t') -> table_inv m t'.
Proof.
  intros Hc [Hn Hm Hl Ho Hf]. unfold registerConnection.
  destruct (_ && _) eqn:E; [done|]. intros [= <-].
  assert (forall c st, activeConns t !! c = Some st -> st <> nextState t) as Hne.
  { intros c' st Hst ->. apply Hl in Hst as (cs & Hcs & _). by rewrite Hf in Hcs. }
  constructor; unfold live; simpl.
  - rewrite map_size_insert_None by done. lia.
  - intros Hp. destruct (Z.leb_spec m (connCount t)); [|lia].
    destruct (Z.ltb_spec 0 m); [done|lia].
  - intros c' st [[<- <-]|[Hcc Hst]]%lookup_insert_Some; [eexists; by rewrite lookup_insert_eq|].
    rewrite lookup_insert_ne by (symmetry; by eapply Hne). by eapply Hl.
  - intros c1 c2 st [[<- <-]|[? H1]]%lookup_insert_Some [[<- E2]|[? H2]]%lookup_insert_Some; try done.
    + by apply Hne in H2.
    + subst. by apply Hne in H1.
    + by eapply Ho.
  - intros st Hst. rewrite lookup_insert_ne by lia. apply Hf. lia.
Qed.

Lemma activity_live now c t st : live (updateConnectionActivity now c t) st <-> live t st.
Proof.
  unfold updateConnectionActivity, live. destruct (activeConns t !! c) as [st'|]; [|done]. simpl.
  destruct (decide (st = st')) as [->|]; [|by rewrite lookup_alter_ne].
  rewrite lookup_alter_eq. destruct (connStates t !! st') as [cs|]; simpl; split.
  - intros (? & [= <-] & ?). eauto.
  - intros (? & [= <-] & ?). eauto.
  - by intros (? & ? & _).
  - by intros (? & ? & _).
Qed.

Lemma activity_active now c t :
  activeConns (updateConnectionActivity now c t) = activeConns t /\
  connCount (updateConnectionActivity now c t) = connCount t.
Proof. unfold updateConnectionActivity. by destruct (activeConns t !! c). Qed.

Lemma activity_inv m now c t : table_inv m t -> table_inv m (updateConnectionActivity now c t).
Proof.
  intros [Hn Hm Hl Ho Hf]. destruct (activity_active now c t) as [Ea Ec].
  constructor; rewrite ?Ea, ?Ec; try done.
  - intros c' st Hst. apply activity_live. by eapply Hl.
  - intros st. unfold updateConnectionActivity. destruct (activeConns t !! c) as [st'|]; [|by apply Hf].
    simpl. intros Hst. rewrite lookup_alter_None. by apply Hf.
Qed.

(** What the [Once] of a state that belongs to its connection does. *)
Lemma unregister_once_live c st t :
  live t st -> activeConns t !! c = Some st ->
  activeConns (unregister_once c st t) = delete c (activeConns t) /\
  connCount (unregister_once c st t) = connCount t - 1 /\
  (forall st', live (unregister_once c st t) st' <-> live t st' /\ st' <> st).
Proof.
  intros (cs & Hcs & Hu) Hc. unfold unregister_once, live. rewrite Hcs, Hu, Hc. simpl.
  split; [done|]. split; [done|]. intros st'. destruct (decide (st = st')) as [<-|].
  - rewrite lookup_insert_eq. split; [by intros (? & [= <-] & ?)|naive_solver].
  - rewrite lookup_insert_ne by done. naive_solver.
Qed.

Lemma unregister_once_dead c st t : ~ live t st -> unregister_once c st t = t.
Proof.
  unfold live, unregister_once. intros Hd. destruct (connStates t !! st) as [cs|] eqn:E; [|done].
  destruct (unregistered cs) eqn:Eu; [done|]. destruct Hd. eauto.
Qed.

#[export] Instance live_dec t st : Decision (live t st).
Proof.
  unfold live. destruct (connStates t !! st) as [[a u]|]; [destruct u|].
  - right. naive_solver.
  - left. eauto.
  - right. naive_solver.
Defined.

Lemma unregister_inv m c st t :
  table_inv m t -> (live t st -> activeConns t !! c = Some st) -> table_inv m (unregister_once c st t).
Proof.
  intros Hi Hc. destruct (decide (live t st)) as [Hl|Hd]; [|by rewrite unregister_once_dead].
  specialize (Hc Hl). destruct (unregister_once_live c st t Hl Hc) as (Ea & Ec & El).
  destruct Hi as [Hn Hm Hlv Ho Hf]. constructor; rewrite ?Ea, ?Ec.
  - rewrite map_size_delete_Some by eauto. assert (size (activeConns t) <> 0)%nat; [|lia].
    intros E%map_size_empty_inv. by rewrite E, lookup_empty in Hc.
  - intros Hp. specialize (Hm Hp). lia.
  - intros c' st' [Hne Hst]%lookup_delete_Some. apply El. split; [by eapply Hlv|]. intros ->. eauto.
  - intros c1 c2 st' [_ H1]%lookup_delete_Some [_ H2]%lookup_delete_Some. eauto.
  - intros st' Hst'. destruct Hl as (cs & Hcs & Hu). unfold unregister_once in *. rewrite Hcs, Hu, Hc in *. simpl in *.
    rewrite lookup_insert_ne; [by apply Hf|]. intros <-. by rewrite Hf in Hcs.
Qed.

Section Runs.
Context {maxConnections : Z}.
#[local] Abbreviation step := (step maxConnections).
#[local] Abbreviation sys_inv := (sys_inv maxConnections).

Lemma accept_inv now c t hs cs ls t' :
  activeConns t !! c = None -> registerConnection maxConnections now c t = (true, t') ->
  sys_inv (mkSystem t hs cs ls) -> sys_inv (mkSystem t' ({[c]} ∪ hs) cs ls).
Proof.
  intros Hc Hr [Ht Ho Hk Ha]. pose proof (register_inv _ _ _ _ _ Hc Ht Hr) as Ht'.
  unfold registerConnection in Hr. destruct (_ && _); [done|]. injection Hr as <-.
  constructor; simpl in *; [done|..].
  - intros c' st [[<- <-]|[? Hst]]%lookup_insert_Some; [left; set_solver|].
    apply Ho in Hst as [?|[?|?]]; [left; set_solver|by right; left|by right; right].
  - intros c' st Hin (cs' & Hcs & Hu). pose proof (Ha _ _ Hin). simpl in Hcs.
    rewrite lookup_insert_ne in Hcs by lia.
    assert (activeConns t !! c' = Some st) by (apply Hk; [done|]; by exists cs').
    rewrite lookup_insert_ne by congruence. done.
  - intros c' st Hin. apply Ha in Hin. lia.
Qed.

Lemma lookup_inv c t hs cs1 cs2 ls :
  sys_inv (mkSystem t hs (cs1 ++ c :: cs2) ls) ->
  sys_inv (mkSystem t hs (cs1 ++ cs2)
    (match unregister_lookup c t with Some st => (c, st) :: ls | None => ls end)).
Proof.
  intros [Ht Ho Hk Ha]. unfold unregister_lookup. simpl in *. constructor; simpl; [done|..].
  - intros c' st Hst. destruct (decide (c' = c)) as [->|].
    + rewrite Hst. right; right. apply list_elem_of_here.
    + apply Ho in Hst as [?|[?|?]]; [by left|right; left; set_solver|right; right].
      destruct (activeConns t !! c); [by apply list_elem_of_further|done].
  - intros c' st. destruct (activeConns t !! c) as [st'|] eqn:Ec; [|apply Hk].
    intros [[= -> ->]|Hin]%elem_of_cons; [done|by apply Hk].
  - intros c' st. destruct (activeConns t !! c) as [st'|] eqn:Ec; [|apply Ha].
    intros [[= -> ->]|Hin]%elem_of_cons; [|by eapply Ha].
    destruct (ti_live _ _ Ht _ _ Ec) as (x & Hx & _). apply not_ge. intros Hge.
    rewrite (ti_fresh _ _ Ht) in Hx by lia. done.
Qed.

Lemma once_inv c st t hs cs ls1 ls2 :
  sys_inv (mkSystem t hs cs (ls1 ++ (c, st) :: ls2)) ->
  sys_inv (mkSystem (unregister_once c st t) hs cs (ls1 ++ ls2)).
Proof.
  intros [Ht Ho Hk Ha]. simpl in *.
  assert (live t st -> activeConns t !! c = Some st) as Hc by (apply Hk; set_solver).
  pose proof (unregister_inv _ _ _ _ Ht Hc) as Ht'.
  assert (nextState (unregister_once c st t) = nextState t) as En.
  { unfold unregister_once. repeat case_match; done. }
  constructor; simpl; [done| | |intros c' st' Hin; rewrite En; apply (Ha c'); set_solver].
  - destruct (decide (live t st)) as [Hl|Hd].
    + destruct (unregister_once_live c st t Hl (Hc Hl)) as (Ea & _ & El). rewrite Ea.
      intros c' st' [Hne Hst]%lookup_delete_Some. apply Ho in Hst as [?|[?|?]]; [by left|by right; left|set_solver].
    + rewrite unregister_once_dead by done. intros c' st' Hst. pose proof (ti_live _ _ Ht _ _ Hst) as Hlv.
      apply Ho in Hst as [?|[?|Hin]]; [by left|by right; left|right; right].
      rewrite elem_of_app, elem_of_cons in Hin. destruct Hin as [?|[[= -> ->]|?]]; set_solver.
  - destruct (decide (live t st)) as [Hl|Hd].
    + destruct (unregister_once_live c st t Hl (Hc Hl)) as (Ea & _ & El). rewrite Ea.
      intros c' st' Hin [Hlv Hne]%El. assert (activeConns t !! c' = Some st') as Hst by (apply Hk; set_solver).
      rewrite lookup_delete_ne; [done|]. intros <-. rewrite Hc in Hst by done. congruence.
    + rewrite unregister_once_dead by done. intros c' st' Hin. apply Hk. set_solver.
Qed.

Lemma step_inv s s' : step s s' -> sys_inv s -> sys_inv s'.
Proof.
  intros Hst. destruct Hst as [now c t hs cs ls t' Hc _ Hr|now c t hs cs ls _|c t hs cs ls _| |
    |c t hs cs1 cs2 ls|c st t hs cs ls1 ls2].
  - by eapply accept_inv.
  - intros [Ht Ho Hk Ha]. simpl in *. destruct (activity_active now c t) as [Ea _].
    constructor; simpl; rewrite ?Ea; [by apply activity_inv|done|..].
    + intros c' st' Hin Hl%activity_live. by apply Hk.
    + intros c' st' Hin. apply Ha in Hin. unfold updateConnectionActivity. by destruct (activeConns t !! c).
  - intros [Ht Ho Hk Ha]. constructor; simpl in *; try done.
    intros c' st' [?|[?|?]]%Ho; [destruct (decide (c' = c)); set_solver|set_solver|set_solver].
  - intros [Ht Ho Hk Ha]. constructor; simpl in *; try done. intros c' st' [?|[?|?]]%Ho; set_solver.
  - intros [Ht Ho Hk Ha]. constructor; simpl in *; try done. intros c' st' [?|[?|?]]%Ho; set_solver.
  - apply lookup_inv.
  - apply once_inv.
Qed.

Lemma initial_inv : sys_inv initial.
Proof.
  constructor; simpl; [constructor; simpl|..]; try done; try set_solver; [lia|by intros c st; rewrite lookup_empty..].
Qed.

Lemma reachable_inv s : reachable maxConnections s -> sys_inv s.
Proof.
  intros Hr. pose proof initial_inv as Hi. revert Hi. induction Hr as [|s1 s2 s3 H1 H2 IH]; [done|].
  intros Hi. by apply IH, (step_inv s1).
Qed.

(** Outstanding calls can run to their end without anyone's help. *)
Lemma drain t hs cs ls : exists t', rtc step (mkSystem t hs cs ls) (mkSystem t' hs [] []).
Proof.
  revert t ls. induction cs as [|c cs IH]; intros t ls.
  - revert t. induction ls as [|[c st] ls IH]; intros t; [by exists t|].
    destruct (IH (unregister_once c st t)) as [t' Ht']. exists t'.
    eapply rtc_l; [apply (step_once maxConnections c st t hs [] [] ls)|done].
  - edestruct IH as [t' Ht']. exists t'.
    eapply rtc_l; [apply (step_lookup maxConnections c t hs [] cs ls)|exact Ht'].
Qed.
End Runs.

(** The two filters of client addresses, at [Accept] and in
    [ValidateAuthentication], agree. *)
Lemma Server_isIPAllowed_eq policy ip :
  Server_isIPAllowed policy ip = (zlen (AllowedIPs policy) =? 0) || isIPAllowed ip (AllowedIPs policy).
Proof.
  unfold Server_isIPAllowed, isIPAllowed. destruct (zlen (AllowedIPs policy) =? 0); [done|].
  destruct (ParseIP ip) as [a|]; [|done]. simpl. induction (AllowedIPs policy) as [|x l IH]; [done|].
  cbn [existsb]. unfold entry_matches at 1. destruct (str_has chr_slash x).
  - destruct (ParseCIDR x) as [net|]; [|exact IH]. by destruct (IPNet_Contains net (normalizeIP a)).
  - destruct (ParseIP x) as [b|]; [|exact IH]. by destruct (IP_Equal (normalizeIP b) (normalizeIP a)).
Qed.

(** ** Properties *)

(** C22: the server never serves more connections than its limit, and never
    leaks a slot.  In every interleaving of accepting, handling, sweeping idle
    connections and shutting down, the counter is the number of registered
    connections and within the limit; the calls of [unregisterConnection] that
    are under way can always finish; and when all handlers and calls have
    finished no connection is registered and the counter is zero. *)
Theorem connection_slots_exact maxConnections s :
  reachable maxConnections s ->
  connCount (table s) = Z.of_nat (size (activeConns (table s))) /\
  (0 < maxConnections -> connCount (table s) <= maxConnections) /\
  (exists t, rtc (step maxConnections) s (mkSystem t (handlers s) [] [])) /\
  (handlers s = ∅ -> calls s = [] -> looked s = [] ->
   activeConns (table s) = ∅ /\ connCount (table s) = 0).
Proof.
  intros Hr. destruct (reachable_inv s Hr) as [[Hn Hm _ _ _] Ho _ _]. split; [done|]. split; [done|].
  split; [destruct s as [t hs cs ls]; apply drain|]. intros Hh Hc Hl.
  assert (activeConns (table s) = ∅) as E.
  { apply map_empty. intros c. apply eq_None_not_Some. intros [st Hst].
    apply Ho in Hst. rewrite Hh, Hc, Hl in Hst. set_solver. }
  split; [done|]. by rewrite Hn, E, map_size_empty.
Qed.

(** The accept filter and authentication draw the same line: no call of a
    peer whose connection is refused for its address would pass
    authentication, and an anonymous call of an accepted peer passes it unless
    privileged ports are required. *)
Theorem accept_filter_agrees policy ctx :
  (Server_isIPAllowed policy (ClientIP ctx) = false ->
   Allowed (fst (ValidateAuthentication ctx policy)) = false) /\
  (Server_isIPAllowed policy (ClientIP ctx) = true -> Secure policy = false ->
   cred_Flavor (ctx_Credential ctx) = AUTH_NONE ->
   Allowed (fst (ValidateAuthentication ctx policy)) = true).
Proof.
  rewrite Server_isIPAllowed_eq. unfold ValidateAuthentication.
  pose proof (zlen_nonneg (AllowedIPs policy)).
  destruct (Z.eqb_spec (zlen (AllowedIPs policy)) 0) as [->|]; simpl.
  - split; [done|]. intros _ -> ->. done.
  - destruct (Z.ltb_spec 0 (zlen (AllowedIPs policy))); [|lia]. simpl.
    destruct (isIPAllowed _ _); simpl; [|done]. split; [done|]. by intros _ -> ->.
Qed.

(** ** Concrete runs *)

(** Two connections under a limit of two; a third is turned away. *)
Definition two_conns : ConnTable :=
  (registerConnection 2 20 11%nat (registerConnection 2 10 10%nat NewConnTable).2).2.

Example third_refused : (registerConnection 2 30 12%nat two_conns).1 = false.
Proof. reflexivity. Qed.

(** The handler of connection 10 ends while a sweep has found it idle: both
    call [unregisterConnection] and both pass its first critical section. *)
Definition raced : System := mkSystem two_conns {[11%nat]} [] [(10, 0); (10, 0)]%nat.

Lemma raced_reachable : reachable 2 raced.
Proof.
  eapply rtc_l; [by apply (step_accept 2 10 10%nat); [|set_solver|]|].
  eapply rtc_l; [by apply (step_accept 2 20 11%nat); [|set_solver|]|].
  eapply rtc_l; [apply (step_handler_ends 2 10%nat); set_solver|].
  eapply rtc_l; [apply (step_sweep 2 5 20)|].
  replace ({[11%nat]} ∪ ({[10%nat]} ∪ ∅)) with ({[11; 10]} : gset conn)%nat by (vm_compute; reflexivity).
  replace (({[11; 10]} : gset conn)%nat ∖ {[10%nat]}) with ({[11]} : gset conn)%nat by (vm_compute; reflexivity).
  change (idle_conns 5 20 _) with [10%nat].
  eapply rtc_l; [apply (step_lookup 2 10%nat _ _ [])|].
  eapply rtc_l; [apply (step_lookup 2 10%nat _ _ [])|]. apply rtc_refl.
Qed.

Lemma connection_slots_exact_witness :
  connCount (table raced) = Z.of_nat (size (activeConns (table raced))) /\
  (0 < 2 -> connCount (table raced) <= 2) /\
  (exists t, rtc (step 2) raced (mkSystem t (handlers raced) [] [])) /\
  (handlers raced = ∅ -> calls raced = [] -> looked raced = [] ->
   activeConns (table raced) = ∅ /\ connCount (table raced) = 0).
Proof. exact (connection_slots_exact 2 raced raced_reachable). Defined.

(** The race is settled by the [Once]: the slot is given back once. *)
Example raced_once :
  connCount (unregister_once 10%nat 0%nat (unregister_once 10%nat 0%nat two_conns)) = 1.
Proof. reflexivity. Qed.

(** A connection that becomes active after the sweep collected it is closed
    all the same. *)
Example active_connection_swept :
  idle_conns 5 16 two_conns = [10%nat] /\
  idle_conns 5 16 (updateConnectionActivity 16 10%nat two_conns) = [] /\
  activeConns (unregister_once 10%nat 0%nat (updateConnectionActivity 16 10%nat two_conns)) !! 10%nat = None.
Proof. vm_compute. done. Qed.

(** An idle time-out of a nanosecond makes the interval of the sweep zero,
    which [time.NewTicker] does not accept; and a longer time-out does not
    lengthen an interval set for a short one. *)
Example sweep_intervals :
  initial_interval 1 = 0 /\ next_interval (600 * second) (initial_interval (10 * second)) = 5 * second.
Proof. vm_compute. done. Qed.
