(* ===== verification/Accept.v ===== *)
(** * Accepting connections (src/server.go acceptLoop)

    The loop that accepts connections, round by round: what the listener
    returns, whether the server is stopping, and what the loop does with it.
    A round acts on the table of connections of [ConnTable] and on the counter
    of accept errors; sleeping, closing, setting socket options and starting
    the handler of a connection are its actions. *)

From stdpp Require Import relations.
From S2P Require Import Prelude Errors Attributes Rpc NetIP Options Auth ConnTable.
Open Scope Z_scope.

(** ** net.SplitHostPort *)

Definition chr_colon : Ascii.ascii := Ascii.ascii_of_nat 58.
Definition chr_lbracket : Ascii.ascii := Ascii.ascii_of_nat 91.
Definition chr_rbracket : Ascii.ascii := Ascii.ascii_of_nat 93.

(** [bytealg.IndexByteString], [LastIndexByteString]: [None] for -1. *)
Fixpoint str_index (c : Ascii.ascii) (s : string) : option nat :=
  match s with
  | EmptyString => None
  | String a s => if Ascii.eqb a c then Some O else S <$> str_index c s
  end.
Fixpoint str_last_index (c : Ascii.ascii) (s : string) : option nat :=
  match s with
  | EmptyString => None
  | String a s =>
      match str_last_index c s with
      | Some i => Some (S i)
      | None => if Ascii.eqb a c then Some O else None
      end
  end.

(** The host and the port. *)
Definition SplitHostPort (hostport : string) : result (string * string) :=
  let fail why := Err (wrapError hostport (ErrorString why)) in
  match str_last_index chr_colon hostport with
  | None => fail "missing port in address"
  | Some i =>
      let checked host j k :=
        if str_has chr_lbracket (str_drop j hostport) then fail "unexpected '[' in address"
        else if str_has chr_rbracket (str_drop k hostport) then fail "unexpected ']' in address"
        else Ok (host, str_drop (S i) hostport) in
      if bool_decide (str_at hostport 0 = Some chr_lbracket) then
        match str_index chr_rbracket hostport with
        | None => fail "missing ']' in address"
        | Some e =>
            if (S e =? String.length hostport)%nat then fail "missing port in address"
            else if (S e =? i)%nat then checked (str_take (e - 1) (str_drop 1 hostport)) 1%nat (S e)
            else if bool_decide (str_at hostport (S e) = Some chr_colon) then fail "too many colons in address"
            else fail "missing port in address"
        end
      else
        let host := str_take i hostport in
        if str_has chr_colon host then fail "too many colons in address" else checked host 0%nat 0%nat
  end.

(** ** Network errors *)

(** An error of the network: its text, [Timeout()] when it is a [net.Error],
    and the operation when it is a [*net.OpError]. *)
Record net_error := mkNetError { ne_Error : string; ne_Timeout : option bool; ne_Op : option string }.

Definition isAddrInUse (err : option net_error) : bool :=
  match err with
  | None => false
  | Some err => str_contains (ne_Error err) "address already in use"
  end.

Definition isTimeoutError (err : option net_error) : bool :=
  match err with
  | None => false
  | Some err => match ne_Timeout err with Some t => t | None => false end
  end.

Definition isConnectionResetError (err : option net_error) : bool :=
  match err with
  | None => false
  | Some err =>
      let errStr := ne_Error err in
      str_contains errStr "connection reset by peer" || str_contains errStr "broken pipe" ||
      str_contains errStr "EOF" || str_contains errStr "i/o timeout" ||
      str_contains errStr "use of closed network connection"
  end.

(** ** The loop *)

Inductive sockopt :=
  | KeepAlive | KeepAlivePeriod (d : Z) | NoDelay | WriteBuffer (n : Z) | ReadBuffer (n : Z).

Inductive action :=
  | LogAcceptError (text : string)
  | Sleep (d : Z)
  | CloseConn (c : conn)
  | SetOptions (c : conn) (opts : list sockopt)
  | Serve (c : conn) (recordMarking : bool).

(** What [Accept] returns: a connection with its remote address, a TCP one or
    not, or an error; [stopping] and [stopping'] are the two looks at
    [ctx.Done()]. *)
Inductive accepted := Conn (c : conn) (remoteAddr : string) (tcp : bool) | AcceptError (err : net_error).
Record round := mkRound { stopping : bool; accept : accepted; stopping' : bool; now : Z }.

(** The server as the loop sees it. *)
Record acceptConfig := mkAcceptConfig {
  a_Debug : bool; a_UseRecordMarking : bool; a_policy : PolicyOptions; a_tuning : TuningOptions
}.
Record acceptState := mkAcceptState { acceptErrs : Z; a_table : ConnTable }.

Definition maxAcceptErrors := 3.
Definition acceptErrorDelay := 100 * 1000000.

(** The socket options of a TCP connection. *)
Definition tcp_options (tuning : TuningOptions) : list sockopt :=
  (if TCPKeepAlive tuning then [KeepAlive; KeepAlivePeriod (60 * second)] else []) ++
  (if TCPNoDelay tuning then [NoDelay] else []) ++
  (if 0 <? SendBufferSize tuning then [WriteBuffer (SendBufferSize tuning)] else []) ++
  (if 0 <? ReceiveBufferSize tuning then [ReadBuffer (ReceiveBufferSize tuning)] else []).

(** The IP address of a client. *)
Definition client_ip (clientAddr : string) : string :=
  match SplitHostPort clientAddr with Ok (clientIP, _) => clientIP | Err _ => clientAddr end.

(** The two cases of a [net.Error]: the deadline of the listener passed, and
    the listener was closed. *)
Definition accept_timeout (err : net_error) : bool :=
  match ne_Timeout err with Some timeout => timeout | None => false end.
Definition listener_closed (err : net_error) : bool :=
  match ne_Timeout err, ne_Op err with
  | Some _, Some op => String.eqb op "accept" && str_contains (ne_Error err) "use of closed network connection"
  | _, _ => false
  end.

(** The error branch: [false] ends the loop. *)
Definition accept_error (k : acceptConfig) (err : net_error) (st : acceptState) : bool * list action * acceptState :=
  if accept_timeout err then (true, [], st)
  else if listener_closed err then (false, [], st)
  else if acceptErrs st <? maxAcceptErrors then
    (true,
     (if a_Debug k && negb (str_contains (ne_Error err) "test error") then [LogAcceptError (ne_Error err)] else []) ++
     [Sleep acceptErrorDelay],
     mkAcceptState (acceptErrs st + 1) (a_table st))
  else (true, [], st).

(** One round: whether the loop goes on, what it does, and the state. *)
Definition accept_round (k : acceptConfig) (r : round) (st : acceptState) : bool * list action * acceptState :=
  if stopping r then (false, [], st)
  else
    match accept r with
    | AcceptError err => if stopping' r then (false, [], st) else accept_error k err st
    | Conn c clientAddr tcp =>
        let st := mkAcceptState 0 (a_table st) in
        if negb (Server_isIPAllowed (a_policy k) (client_ip clientAddr)) then (true, [CloseConn c], st)
        else
          let '(ok, t) := registerConnection (MaxConnections (a_tuning k)) (now r) c (a_table st) in
          let st := mkAcceptState 0 t in
          if negb ok then (true, [CloseConn c], st)
          else (true, (if tcp then [SetOptions c (tcp_options (a_tuning k))] else []) ++
                      [Serve c (a_UseRecordMarking k)], st)
    end.

(** The loop over the rounds that come, until it ends. *)
Fixpoint acceptLoop (k : acceptConfig) (rs : list round) (st : acceptState) : list action * acceptState :=
  match rs with
  | [] => ([], st)
  | r :: rs =>
      let '(go, acts, st) := accept_round k r st in
      if (go : bool) then let '(acts', st) := acceptLoop k rs st in (acts ++ acts', st) else (acts, st)
  end.

(** ** Specification *)

Definition served (acts : list action) : list conn :=
  omap (fun a => match a with Serve c _ => Some c | _ => None end) acts.
Definition closed (acts : list action) : list conn :=
  omap (fun a => match a with CloseConn c => Some c | _ => None end) acts.
Definition sleeps (acts : list action) : nat :=
  length (omap (fun a => match a with Sleep d => Some d | _ => None end) acts).

(** The connections a sequence of rounds brings. *)
Definition arrivals (rs : list round) : list conn :=
  omap (fun r => match accept r with Conn c _ _ => Some c | AcceptError _ => None end) rs.

(** The connections of the rounds are new ones. *)
Definition fresh (rs : list round) (t : ConnTable) (hs : gset conn) : Prop :=
  NoDup (arrivals rs) /\ forall c, c ∈ arrivals rs -> activeConns t !! c = None /\ c ∉ hs.

(** The round [r] brings [c], whose address is allowed or not. *)
Definition from_allowed (k : acceptConfig) (r : round) (c : conn) (allowed : bool) : Prop :=
  exists addr tcp, accept r = Conn c addr tcp /\ Server_isIPAllowed (a_policy k) (client_ip addr) = allowed.

(** ** Lemmas *)

Section Loop.
Variable k : acceptConfig.
#[local] Abbreviation brings r c ok := (from_allowed k r c ok).
#[local] Abbreviation max := (MaxConnections (a_tuning k)).

(** A round without a connection leaves the table alone and serves nobody. *)
Lemma accept_error_table err st :
  let '(_, acts, st') := accept_error k err st in
  a_table st' = a_table st /\ served acts = [] /\ closed acts = [] /\
  (0 <= acceptErrs st <= maxAcceptErrors -> 0 <= acceptErrs st' <= maxAcceptErrors).
Proof.
  unfold accept_error. destruct (accept_timeout err); [done|]. destruct (listener_closed err); [done|].
  destruct (Z.ltb_spec (acceptErrs st) maxAcceptErrors); [|done]. simpl.
  split; [done|]. split; [by destruct (_ && _)|]. split; [by destruct (_ && _)|]. lia.
Qed.

(** A round is a step of the system of connections or leaves it as it is; the
    connection it brings is served or closed, and closed for a reason. *)
Lemma accept_round_step r st hs cs ls :
  fresh [r] (a_table st) hs ->
  let '(go, acts, st') := accept_round k r st in
  rtc (step max) (mkSystem (a_table st) hs cs ls) (mkSystem (a_table st') (list_to_set (served acts) ∪ hs) cs ls) /\
  (if go : bool then served acts ++ closed acts = arrivals [r] else served acts ++ closed acts = []) /\
  (forall c, c ∈ served acts -> brings r c true) /\
  (forall c, c ∈ closed acts -> brings r c false \/ 0 < max) /\
  (forall c, c ∉ arrivals [r] -> activeConns (a_table st') !! c = activeConns (a_table st) !! c) /\
  (0 <= acceptErrs st <= maxAcceptErrors -> 0 <= acceptErrs st' <= maxAcceptErrors).
Proof.
  intros [_ Hfresh]. unfold accept_round, from_allowed. destruct (stopping r) eqn:Es.
  { simpl. rewrite union_empty_l_L. split; [done|]. split; [done|]. split; [set_solver|]. split; [set_solver|]. done. }
  unfold arrivals in *. simpl in *. destruct (accept r) as [c addr tcp|err] eqn:Ea.
  2: { destruct (stopping' r).
       { simpl. rewrite union_empty_l_L. split; [done|]. split; [done|]. split; [set_solver|]. split; [set_solver|]. done. }
       pose proof (accept_error_table err st) as He. destruct (accept_error k err st) as [[go acts] st'].
       destruct He as (-> & -> & -> & He). simpl. rewrite union_empty_l_L. split; [done|].
       split; [by destruct go|]. split; [set_solver|]. split; [set_solver|]. done. }
  destruct (Hfresh c) as [Hc Hh]; [set_solver|].
  destruct (Server_isIPAllowed (a_policy k) (client_ip addr)) eqn:Eip; cbn [negb].
  2: { simpl. rewrite union_empty_l_L. split; [done|]. split; [done|]. split; [set_solver|]. split; [|done].
       intros c' ->%list_elem_of_singleton. left. by exists addr, tcp. }
  destruct (registerConnection max (now r) c (a_table st)) as [ok t] eqn:Er.
  unfold registerConnection in Er. destruct (Z.ltb_spec 0 max); [destruct (_ <=? _) eqn:El|]; simpl in Er; simplify_eq; cbn [negb].
  { simpl. rewrite union_empty_l_L. split; [done|]. split; [done|]. split; [set_solver|]. split; [|done]. by right. }
  all: assert (served ((if tcp then [SetOptions c (tcp_options (a_tuning k))] else []) ++ [Serve c (a_UseRecordMarking k)]) = [c])
    as -> by by destruct tcp.
  all: assert (closed ((if tcp then [SetOptions c (tcp_options (a_tuning k))] else []) ++ [Serve c (a_UseRecordMarking k)]) = [])
    as -> by by destruct tcp.
  all: cbn [a_table list_to_set acceptErrs foldr]; rewrite union_empty_r_L; split_and!;
    [apply rtc_once; eapply (step_accept _ (now r)); [done|done|] | done
    |intros c' ->%list_elem_of_singleton; by exists addr, tcp | set_solver
    |intros c' Hc'; simpl; rewrite lookup_insert_ne; [done|set_solver] | done].
  - unfold registerConnection. by rewrite El, andb_false_r.
  - unfold registerConnection. by rewrite (proj2 (Z.ltb_ge _ _)).
Qed.

(** The rounds [acceptLoop] went through bring the connections it served and
    closed, and served ones are steps of the system. *)
Lemma acceptLoop_steps rs st hs cs ls :
  fresh rs (a_table st) hs -> 0 <= acceptErrs st <= maxAcceptErrors ->
  let '(acts, st') := acceptLoop k rs st in
  rtc (step max) (mkSystem (a_table st) hs cs ls) (mkSystem (a_table st') (list_to_set (served acts) ∪ hs) cs ls) /\
  (exists seen, seen `prefix_of` rs /\ served acts ++ closed acts ≡ₚ arrivals seen) /\
  (forall c, c ∈ served acts -> exists r, r ∈ rs /\ brings r c true) /\
  (forall c, c ∈ closed acts -> (exists r, r ∈ rs /\ brings r c false) \/ 0 < max) /\
  0 <= acceptErrs st' <= maxAcceptErrors.
Proof.
  revert st hs. induction rs as [|r rs IH]; intros st hs [Hnd Hf] He; cbn [acceptLoop].
  { simpl. rewrite union_empty_l_L. split; [done|]. split; [by exists []|]. split; [set_solver|]. split; [set_solver|done]. }
  assert (forall seen, arrivals (r :: seen) = arrivals [r] ++ arrivals seen) as Harr.
  { intros seen. unfold arrivals. by rewrite <- (omap_app _ [r] seen). }
  rewrite Harr in Hnd, Hf. apply NoDup_app in Hnd as (Hnd1 & Hdis & Hnd2).
  pose proof (accept_round_step r st hs cs ls) as Hr.
  destruct (accept_round k r st) as [[go acts] st1].
  destruct Hr as (Hstep & Hgo & Hsrv & Hcls & Hoth & Herr); [split; [done|]; intros c Hc; apply Hf; set_solver|].
  specialize (Herr He). destruct go.
  2: { split; [done|]. split; [exists []; split; [apply prefix_nil|by rewrite Hgo]|].
       apply app_nil in Hgo as [-> ->]. split; [set_solver|]. split; [set_solver|done]. }
  specialize (IH st1 (list_to_set (served acts) ∪ hs)).
  destruct (acceptLoop k rs st1) as [acts' st2].
  destruct IH as (Hstep2 & (seen & Hseen & Hperm) & Hsrv2 & Hcls2 & Herr2); [|done|].
  { split; [done|]. intros c Hc. destruct (Hf c) as [Hc1 Hc2]; [set_solver|].
    assert (c ∉ arrivals [r]) as Hnr by (intros Hcr; by apply (Hdis c)).
    split; [by rewrite (Hoth c Hnr)|]. rewrite <- Hgo in Hnr. set_solver. }
  assert (served (acts ++ acts') = served acts ++ served acts') as -> by apply omap_app.
  assert (closed (acts ++ acts') = closed acts ++ closed acts') as -> by apply omap_app.
  split_and!; [| | | |lia|lia].
  - etrans; [done|]. rewrite list_to_set_app_L.
    assert (forall A B C : gset conn, A ∪ B ∪ C = B ∪ (A ∪ C)) as -> by (clear; set_solver). done.
  - exists (r :: seen). split; [by apply prefix_cons|]. rewrite Harr, <- Hgo, <- Hperm. solve_Permutation.
  - intros c [Hc|Hc]%elem_of_app; [exists r; set_solver|].
    destruct (Hsrv2 c Hc) as (r' & Hr' & ?). exists r'. set_solver.
  - intros c [Hc|Hc]%elem_of_app; [destruct (Hcls c Hc); [left; exists r; set_solver|by right]|].
    destruct (Hcls2 c Hc) as [(r' & Hr' & ?)|?]; [left; exists r'; set_solver|by right].
Qed.

(** A round sleeps only when it counts an error. *)
Lemma accept_round_sleeps r st :
  0 <= acceptErrs st <= maxAcceptErrors ->
  let '(_, acts, st') := accept_round k r st in
  Z.of_nat (sleeps acts) <= acceptErrs st' - acceptErrs st + maxAcceptErrors * zlen (arrivals [r]) /\
  0 <= acceptErrs st' <= maxAcceptErrors.
Proof.
  intros He. unfold accept_round, arrivals, zlen, maxAcceptErrors, sleeps in *. simpl.
  destruct (stopping r); [destruct (accept r); simpl; lia|].
  destruct (accept r) as [c addr tcp|err]; simpl.
  - destruct (negb _); [simpl; lia|]. destruct (registerConnection _ _ _ _) as [[] t]; [|simpl; lia].
    destruct tcp; simpl; lia.
  - destruct (stopping' r); [simpl; lia|]. unfold accept_error, maxAcceptErrors.
    destruct (accept_timeout err); [simpl; lia|]. destruct (listener_closed err); [simpl; lia|].
    destruct (Z.ltb_spec (acceptErrs st) 3); [|simpl; lia]. destruct (_ && _); simpl; lia.
Qed.

(** The loop sleeps at most three times between two connections. *)
Lemma acceptLoop_sleeps rs st :
  0 <= acceptErrs st <= maxAcceptErrors ->
  Z.of_nat (sleeps (acceptLoop k rs st).1) <= maxAcceptErrors - acceptErrs st + maxAcceptErrors * zlen (arrivals rs).
Proof.
  assert (forall a b, sleeps (a ++ b) = (sleeps a + sleeps b)%nat) as Happ
    by (intros a b; unfold sleeps; by rewrite omap_app, length_app).
  revert st. induction rs as [|r rs IH]; intros st He; [unfold maxAcceptErrors, zlen, sleeps in *; simpl; lia|].
  assert (zlen (arrivals (r :: rs)) = zlen (arrivals [r]) + zlen (arrivals rs)) as ->.
  { unfold arrivals, zlen. by rewrite (omap_app _ [r] rs), length_app, Nat2Z.inj_add. }
  pose proof (accept_round_sleeps r st He) as Hr.
  cbn [acceptLoop]. destruct (accept_round k r st) as [[go acts] st1]. destruct Hr as [Hr He'].
  specialize (IH st1 He'). destruct (acceptLoop k rs st1) as [acts' st2]. cbn [fst] in IH.
  unfold zlen in *. destruct go; cbn [fst]; rewrite ?Happ; unfold maxAcceptErrors in *; lia.
Qed.

End Loop.

(** ** Property *)

(** C23: the accept loop admits exactly what the limit and the address filter
    allow.  Started between other activity of the server, over any rounds of
    new connections and errors, the loop is a sequence of steps of the system
    of connections, so that the connections it hands to handlers are registered
    and within the limit; every connection that arrives until it ends is either
    handed to one handler or closed; those handed on have an allowed address,
    those closed a forbidden one unless there is a limit; and it sleeps at most
    three times between two connections, however many errors there are. *)
Theorem acceptLoop_admits k rs s errs :
  let max := MaxConnections (a_tuning k) in
  reachable max s -> fresh rs (table s) (handlers s) -> 0 <= errs <= maxAcceptErrors ->
  let '(acts, st') := acceptLoop k rs (mkAcceptState errs (table s)) in
  reachable max (mkSystem (a_table st') (list_to_set (served acts) ∪ handlers s) (calls s) (looked s)) /\
  (0 < max -> connCount (a_table st') <= max) /\
  (exists seen, seen `prefix_of` rs /\ served acts ++ closed acts ≡ₚ arrivals seen) /\
  (forall c, c ∈ served acts -> exists r, r ∈ rs /\ from_allowed k r c true) /\
  (forall c, c ∈ closed acts -> (exists r, r ∈ rs /\ from_allowed k r c false) \/ 0 < max) /\
  Z.of_nat (sleeps acts) <= maxAcceptErrors * (1 + zlen (arrivals rs)).
Proof.
  intros max Hs Hf He. pose proof (acceptLoop_sleeps k rs (mkAcceptState errs (table s)) He) as Hz.
  pose proof (acceptLoop_steps k rs (mkAcceptState errs (table s)) (handlers s) (calls s) (looked s) Hf He) as Hl.
  destruct (acceptLoop _ _ _) as [acts st']. destruct Hl as (Hsteps & Hseen & Hsrv & Hcls & Herr).
  assert (reachable max (mkSystem (a_table st') (list_to_set (served acts) ∪ handlers s) (calls s) (looked s))) as Hr.
  { unfold reachable in *. etrans; [exact Hs|]. by destruct s. }
  split; [done|]. split; [apply (ti_limit _ _ (si_table _ _ (reachable_inv _ Hr)))|].
  split; [done|]. split; [done|]. split; [done|]. cbn [fst acceptErrs] in Hz. unfold maxAcceptErrors, zlen in *. lia.
Qed.


(** ** A run *)

(** A server for one network and two connections at a time. *)
Definition sample_accept : acceptConfig :=
  mkAcceptConfig true true
    (mkPolicy false false ["10.0.0.0/8"%string] "root" 0 false None None)
    (mkTuning 65536 0 0 false 0 false 0 0 0 1 2 0 true true 262144 0 false None None).

Definition sample_round (a : accepted) : round := mkRound false a false 0.
Definition refused_error : net_error := mkNetError "accept tcp: too many open files" (Some false) (Some "accept"%string).
Definition closed_error : net_error := mkNetError "accept tcp: use of closed network connection" (Some false) (Some "accept"%string).

(** Two connections of the network with a stranger and errors in between, one
    over the limit, and the listener is closed. *)
Definition sample_rounds : list round := map sample_round
  [Conn 5%nat "10.0.0.1:1023" true; AcceptError refused_error; Conn 6%nat "192.168.0.1:900" true;
   Conn 7%nat "10.1.2.3:700" false; Conn 8%nat "10.1.2.4:700" true; AcceptError closed_error;
   Conn 9%nat "10.1.2.5:700" true].

Example acceptLoop_run :
  acceptLoop sample_accept sample_rounds (mkAcceptState 0 NewConnTable) =
  ([SetOptions 5%nat [KeepAlive; KeepAlivePeriod (60 * second); NoDelay; WriteBuffer 262144]; Serve 5%nat true;
    LogAcceptError "accept tcp: too many open files"; Sleep acceptErrorDelay;
    CloseConn 6%nat; Serve 7%nat true; CloseConn 8%nat],
   mkAcceptState 0 (registerConnection 2 0 7%nat (registerConnection 2 0 5%nat NewConnTable).2).2).
Proof. vm_compute. reflexivity. Qed.

Lemma acceptLoop_admits_witness :
  let '(acts, st') := acceptLoop sample_accept sample_rounds (mkAcceptState 0 (table initial)) in
  reachable 2 (mkSystem (a_table st') (list_to_set (served acts) ∪ handlers initial) (calls initial) (looked initial)) /\
  (0 < 2 -> connCount (a_table st') <= 2) /\
  (exists seen, seen `prefix_of` sample_rounds /\ served acts ++ closed acts ≡ₚ arrivals seen) /\
  (forall c, c ∈ served acts -> exists r, r ∈ sample_rounds /\ from_allowed sample_accept r c true) /\
  (forall c, c ∈ closed acts ->
     (exists r, r ∈ sample_rounds /\ from_allowed sample_accept r c false) \/ 0 < 2) /\
  Z.of_nat (sleeps acts) <= maxAcceptErrors * (1 + zlen (arrivals sample_rounds)).
Proof.
  apply (acceptLoop_admits sample_accept sample_rounds initial 0).
  - apply rtc_refl.
  - split; [apply (bool_decide_unpack _); vm_compute; exact I|].
    intros c _. split; [apply lookup_empty|set_solver].
  - unfold maxAcceptErrors. lia.
Defined.

(** An error that does not go away is waited for three times; from then on the
    loop calls [Accept] again at once. *)
Example accept_errors_spin n t :
  let errors n := repeat (sample_round (AcceptError refused_error)) n in
  sleeps (acceptLoop sample_accept (errors 3%nat) (mkAcceptState 0 t)).1 = 3%nat /\
  acceptErrs (acceptLoop sample_accept (errors 3%nat) (mkAcceptState 0 t)).2 = 3 /\
  acceptLoop sample_accept (errors n) (mkAcceptState 3 t) = ([], mkAcceptState 3 t).
Proof.
  split; [reflexivity|]. split; [reflexivity|]. induction n as [|n IH]; [done|]. cbn [repeat acceptLoop].
  change (accept_round _ _ _) with (true, @nil action, mkAcceptState 3 t). cbn iota beta. by rewrite IH.
Qed.
