(* ===== verification/Sweep.v ===== *)
(** * Closing idle connections (src/server.go)

    The goroutine that looks for idle connections and the shutdown, run to
    their end: [unregisterConnection], [cleanupIdleConnections] and
    [closeAllConnections] as whole calls on the table of [ConnTable] (whose
    steps interleave them), and the loop [idleConnectionCleanupLoop] over the
    ticks of its ticker, each with the tuning and the table it finds. *)

From S2P Require Import Prelude Attributes Options ConnTable.
Open Scope Z_scope.

Definition unregisterConnection (c : conn) (t : ConnTable) : ConnTable :=
  match unregister_lookup c t with Some st => unregister_once c st t | None => t end.

(** Close and unregister each of them. *)
Definition unregister_all (cs : list conn) (t : ConnTable) : ConnTable :=
  foldl (fun t c => unregisterConnection c t) t cs.

(** The connections that were closed, and the table. *)
Definition cleanupIdleConnections (idleTimeout now : Z) (t : ConnTable) : list conn * ConnTable :=
  let idleConns := idle_conns idleTimeout now t in (idleConns, unregister_all idleConns t).

Definition closeAllConnections (t : ConnTable) : list conn * ConnTable :=
  let conns := all_conns t in (conns, unregister_all conns t).

(** [time.NewTicker] and [Ticker.Reset] panic on an interval that is not
    positive ([None]). *)
Definition start_ticker (d : Z) : option Z := if 0 <? d then Some d else None.

(** What the loop finds at a tick. *)
Record tick := mkTick { tk_now : Z; tk_idleTimeout : Z; tk_table : ConnTable }.

(** The interval the loop waits for next. *)
Definition tick_interval (idleTimeout checkInterval : Z) : option Z :=
  let newInterval := next_interval idleTimeout checkInterval in
  if newInterval =? checkInterval then Some checkInterval else start_ticker newInterval.

(** The ticks of a run, each with the connections it closes. *)
Fixpoint cleanup_ticks (checkInterval : Z) (ticks : list tick) : option (list (list conn * ConnTable)) :=
  match ticks with
  | [] => Some []
  | k :: ticks =>
      checkInterval ← tick_interval (tk_idleTimeout k) checkInterval;
      rest ← cleanup_ticks checkInterval ticks;
      Some (cleanupIdleConnections (tk_idleTimeout k) (tk_now k) (tk_table k) :: rest)
  end.

(** [idleTimeout] is the option when the loop starts. *)
Definition idleConnectionCleanupLoop (idleTimeout : Z) (ticks : list tick) : option (list (list conn * ConnTable)) :=
  checkInterval ← start_ticker (initial_interval idleTimeout);
  cleanup_ticks checkInterval ticks.

(** ** Specification *)

(** The ticks come at most [d] apart, from [start] on. *)
Fixpoint spaced (d start : Z) (ticks : list tick) : Prop :=
  match ticks with
  | [] => True
  | k :: ticks => start <= tk_now k <= start + d /\ spaced d (tk_now k) ticks
  end.

(** [c] is registered in [t] and was last active at [a]. *)
Definition last_active (t : ConnTable) (c : conn) (a : Z) : Prop :=
  exists st cs, activeConns t !! c = Some st /\ connStates t !! st = Some cs /\ lastActivity cs = a.

(** ** Lemmas *)

Lemma unregisterConnection_spec m c t :
  table_inv m t ->
  table_inv m (unregisterConnection c t) /\
  activeConns (unregisterConnection c t) = delete c (activeConns t).
Proof.
  intros Hi. unfold unregisterConnection, unregister_lookup.
  destruct (activeConns t !! c) as [st|] eqn:E; [|by rewrite delete_id].
  split; [by apply unregister_inv|]. apply unregister_once_live; [|done]. by eapply ti_live.
Qed.

Lemma unregister_all_spec m cs t :
  table_inv m t ->
  table_inv m (unregister_all cs t) /\
  forall c, activeConns (unregister_all cs t) !! c = if bool_decide (c ∈ cs) then None else activeConns t !! c.
Proof.
  unfold unregister_all. revert t. induction cs as [|c cs IH]; intros t Hi; [done|]. simpl.
  destruct (unregisterConnection_spec m c t Hi) as [Hi' Ha]. destruct (IH _ Hi') as [Hi'' Hc].
  split; [done|]. intros c'. rewrite Hc, Ha. destruct (decide (c' = c)) as [->|Hne].
  - rewrite lookup_delete_eq, (bool_decide_true (c ∈ c :: cs)) by apply list_elem_of_here. by case_bool_decide.
  - rewrite lookup_delete_ne by done. case_bool_decide; case_bool_decide; set_solver.
Qed.

Lemma elem_of_all_conns t c : c ∈ all_conns t <-> is_Some (activeConns t !! c).
Proof.
  unfold all_conns. rewrite list_elem_of_fmap. split.
  - intros ([c' st] & -> & Hin). apply elem_of_map_to_list in Hin. eauto.
  - intros [st Hst]. exists (c, st). split; [done|]. by apply elem_of_map_to_list.
Qed.

Lemma elem_of_idle_conns idleTimeout now t c a :
  last_active t c a -> c ∈ idle_conns idleTimeout now t <-> 0 < idleTimeout < now - a.
Proof.
  intros (st & cs & Hc & Hst & <-). unfold idle_conns. destruct (Z.leb_spec idleTimeout 0).
  { split; [set_solver|lia]. }
  rewrite list_elem_of_fmap. split.
  - intros ([c' st'] & E & Hin). simpl in E. subst c'. apply list_elem_of_filter in Hin as [Hi Hin].
    apply elem_of_map_to_list in Hin. rewrite Hc in Hin. simplify_eq. unfold is_idle in Hi. simpl in Hi.
    rewrite Hst in Hi. apply Z.ltb_lt in Hi. lia.
  - intros [_ Hi]. exists (c, st). split; [done|]. apply list_elem_of_filter. split; [|by apply elem_of_map_to_list].
    unfold is_idle. simpl. rewrite Hst. by apply Z.ltb_lt.
Qed.

Lemma initial_interval_bounds T : 2 <= T -> 0 < initial_interval T <= T / 2 /\ initial_interval T <= 60 * second.
Proof.
  intros HT. assert (1 <= T / 2) by (apply Z.div_le_lower_bound; lia).
  unfold initial_interval, second. destruct (Z.ltb_spec 0 T); [|lia].
  destruct (Z.ltb_spec (T / 2) (60 * 1000000000)); simpl; lia.
Qed.

Lemma tick_interval_same T : 2 <= T -> tick_interval T (initial_interval T) = Some (initial_interval T).
Proof.
  intros HT. unfold tick_interval, next_interval, initial_interval.
  destruct (_ && _); by rewrite Z.eqb_refl.
Qed.

Lemma cleanup_ticks_total T ticks :
  2 <= T -> Forall (fun k => tk_idleTimeout k = T) ticks ->
  cleanup_ticks (initial_interval T) ticks =
    Some (map (fun k => cleanupIdleConnections T (tk_now k) (tk_table k)) ticks).
Proof.
  intros HT. induction 1 as [|k ticks Hk _ IH]; [done|]. simpl.
  rewrite Hk, tick_interval_same by done. simpl. by rewrite IH.
Qed.

(** Among ticks at most [d] apart that pass [limit] there is one just after. *)
Lemma spaced_first d start limit ticks :
  spaced d start ticks -> start <= limit -> Exists (fun k => limit < tk_now k) ticks ->
  exists k, k ∈ ticks /\ limit < tk_now k <= limit + d.
Proof.
  revert start. induction ticks as [|k ticks IH]; intros start Hs Hl He; [by apply Exists_nil in He|].
  destruct Hs as [Hk Hs]. destruct (Z.lt_ge_cases limit (tk_now k)) as [Hlt|Hge].
  - exists k. split; [apply list_elem_of_here|]. lia.
  - apply Exists_cons in He as [He|He]; [lia|]. destruct (IH _ Hs Hge He) as (k' & Hk' & ?).
    exists k'. split; [by apply list_elem_of_further|done].
Qed.

(** The calls on the table leave exactly the connections they should: a sweep
    those that are not idle, a shutdown none, with the counter exact. *)
Lemma cleanup_exact m idleTimeout now t :
  table_inv m t ->
  let '(cs, t') := cleanupIdleConnections idleTimeout now t in
  table_inv m t' /\ (forall c, activeConns t' !! c = if bool_decide (c ∈ cs) then None else activeConns t !! c).
Proof. apply unregister_all_spec. Qed.

Lemma closeAll_exact m t :
  table_inv m t ->
  let '(_, t') := closeAllConnections t in activeConns t' = ∅ /\ connCount t' = 0.
Proof.
  intros Hi. destruct (unregister_all_spec m (all_conns t) t Hi) as [Hi' Hc]. simpl.
  assert (activeConns (unregister_all (all_conns t) t) = ∅) as E.
  { apply map_empty. intros c. rewrite Hc. case_bool_decide as Hin; [done|].
    rewrite elem_of_all_conns in Hin. by destruct (activeConns t !! c); [destruct Hin|]. }
  split; [done|]. by rewrite (ti_count _ _ Hi'), E, map_size_empty.
Qed.

(** ** Property *)

(** C24: idle connections are closed in time and active ones are left alone.
    With an idle timeout of at least two nanoseconds that does not change, and
    ticks that come no further apart than the interval the loop asked for, the
    loop never panics, and a connection that was last active at [a] is closed,
    its slot given back, by a tick later than [a] plus the timeout and no more
    than half the timeout and one minute after that; no tick before closes it. *)
Theorem idle_connection_closed T start ticks m c a :
  2 <= T -> Forall (fun k => tk_idleTimeout k = T) ticks -> spaced (initial_interval T) start ticks ->
  Forall (fun k => table_inv m (tk_table k) /\ last_active (tk_table k) c a) ticks ->
  start <= a + T -> Exists (fun k => a + T < tk_now k) ticks ->
  exists closes, idleConnectionCleanupLoop T ticks = Some closes /\ length closes = length ticks /\
    (exists i k cs t', ticks !! i = Some k /\ closes !! i = Some (cs, t') /\ c ∈ cs /\
       activeConns t' !! c = None /\ table_inv m t' /\
       a + T < tk_now k <= a + T + T / 2 /\ tk_now k <= a + T + 60 * second) /\
    (forall i k cs t', ticks !! i = Some k -> closes !! i = Some (cs, t') -> tk_now k <= a + T -> c ∉ cs).
Proof.
  intros HT Hsame Hsp Htab Hstart Hpass. destruct (initial_interval_bounds T HT) as [[Hi0 Hi1] Hi2].
  eexists. unfold idleConnectionCleanupLoop, start_ticker.
  rewrite (proj2 (Z.ltb_lt _ _) Hi0). simpl. rewrite cleanup_ticks_total by done.
  split; [done|]. split; [apply length_map|]. split.
  - destruct (spaced_first _ _ _ _ Hsp Hstart Hpass) as (k & Hk & Hlt & Hle).
    apply list_elem_of_lookup in Hk as [i Hik]. rewrite Forall_lookup in Htab. destruct (Htab i k Hik) as [Hinv Hact].
    pose proof (cleanup_exact m T (tk_now k) (tk_table k) Hinv) as Hex.
    destruct (cleanupIdleConnections T (tk_now k) (tk_table k)) as [cs t'] eqn:E. destruct Hex as [Hinv' Hc].
    assert (c ∈ cs) as Hin.
    { injection E as <- <-. apply (elem_of_idle_conns _ _ _ _ a Hact). lia. }
    exists i, k, cs, t'. split; [done|]. split; [by rewrite list_lookup_fmap, Hik; simpl; rewrite E|].
    split; [done|]. split; [by rewrite Hc, bool_decide_true|]. split; [done|]. lia.
  - intros i k cs t' Hik Hcl Hle. rewrite list_lookup_fmap, Hik in Hcl. simpl in Hcl.
    unfold cleanupIdleConnections in Hcl. simplify_eq.
    rewrite Forall_lookup in Htab. destruct (Htab i k Hik) as [_ Hact].
    rewrite (elem_of_idle_conns _ _ _ _ a Hact). lia.
Qed.

(** ** A run *)

(** Connection 10 was last active at 10; the timeout is 20. *)
Definition sample_ticks : list tick := [mkTick 25 20 two_conns; mkTick 35 20 two_conns].

Lemma two_conns_inv : table_inv 2 two_conns.
Proof. exact (si_table _ _ (reachable_inv _ raced_reachable)). Qed.

Lemma idle_connection_closed_witness :
  exists closes, idleConnectionCleanupLoop 20 sample_ticks = Some closes /\ length closes = length sample_ticks /\
    (exists i k cs t', sample_ticks !! i = Some k /\ closes !! i = Some (cs, t') /\ 10%nat ∈ cs /\
       activeConns t' !! 10%nat = None /\ table_inv 2 t' /\
       10 + 20 < tk_now k <= 10 + 20 + 20 / 2 /\ tk_now k <= 10 + 20 + 60 * second) /\
    (forall i k cs t', sample_ticks !! i = Some k -> closes !! i = Some (cs, t') -> tk_now k <= 10 + 20 -> 10%nat ∉ cs).
Proof.
  apply (idle_connection_closed 20 15 sample_ticks 2 10%nat 10).
  - lia.
  - repeat constructor.
  - simpl. change (initial_interval 20) with 10. lia.
  - assert (last_active two_conns 10%nat 10) by (by exists 0%nat, (mkConnState 10 false)).
    repeat constructor; try done; apply two_conns_inv.
  - lia.
  - apply Exists_cons. right. apply Exists_cons. left. simpl. lia.
Defined.

(** An idle timeout of one nanosecond makes the interval zero, and the ticker
    panics. *)
Example idle_timeout_one_panics ticks : idleConnectionCleanupLoop 1 ticks = None.
Proof. reflexivity. Qed.
