(* ===== verification/Portmapper.v ===== *)
(** * The portmapper (src/portmapper.go)

    The registry of RPC services and the portmap v2 and rpcbind v3/v4 calls on
    it, from the bytes of a record to the bytes of the reply.  Sockets and the
    limit on connections are left out; the peer of a connection is given by
    the host that [net.SplitHostPort] finds in its address. *)

From S2P Require Import Prelude Errors Xdr Rpc NetIP.
Open Scope Z_scope.

Definition PortmapperPort := 111.
Definition PortmapperProgram := 100000.
Definition PMAPPROC_NULL := 0.
Definition PMAPPROC_SET := 1.
Definition PMAPPROC_UNSET := 2.
Definition PMAPPROC_GETPORT := 3.
Definition PMAPPROC_DUMP := 4.
Definition IPPROTO_TCP := 6.
Definition IPPROTO_UDP := 17.

Record PortMapping := mkPortMapping {
  pm_Program : Z; pm_Version : Z; pm_Protocol : Z; pm_Port : Z
}.

#[export] Instance PortMapping_eq_dec : EqDecision PortMapping.
Proof. solve_decision. Defined.

Record Portmapper := mkPortmapper { mappings : list PortMapping; listenAddr : string }.

Definition NewPortmapper : Portmapper := mkPortmapper [] EmptyString.

Definition SetListenAddr (addr : string) (pm : Portmapper) : Portmapper := mkPortmapper (mappings pm) addr.

(** ** The registry *)

Definition same_service (prog vers prot : Z) (m : PortMapping) : bool :=
  (pm_Program m =? prog) && (pm_Version m =? vers) && (pm_Protocol m =? prot).

(** The first mapping of the service gets the port; without one, a mapping is
    appended. *)
Fixpoint register (prog vers prot port : Z) (l : list PortMapping) : list PortMapping :=
  match l with
  | [] => [mkPortMapping prog vers prot port]
  | m :: l =>
      if same_service prog vers prot m
      then mkPortMapping (pm_Program m) (pm_Version m) (pm_Protocol m) port :: l
      else m :: register prog vers prot port l
  end.

Definition RegisterService (prog vers prot port : Z) (pm : Portmapper) : Portmapper :=
  mkPortmapper (register prog vers prot port (mappings pm)) (listenAddr pm).

(** The first mapping of the service is removed. *)
Fixpoint unregister (prog vers prot : Z) (l : list PortMapping) : list PortMapping :=
  match l with
  | [] => []
  | m :: l => if same_service prog vers prot m then l else m :: unregister prog vers prot l
  end.

Definition UnregisterService (prog vers prot : Z) (pm : Portmapper) : Portmapper :=
  mkPortmapper (unregister prog vers prot (mappings pm)) (listenAddr pm).

Definition GetPort (prog vers prot : Z) (pm : Portmapper) : Z :=
  match list_find (fun m => same_service prog vers prot m = true) (mappings pm) with
  | Some (_, m) => pm_Port m
  | None => 0
  end.

(** [StartOnPort] registers the portmapper itself. *)
Definition StartOnPort (port : Z) (pm : Portmapper) : Portmapper :=
  let reg vers prot := RegisterService PortmapperProgram vers prot (u32 port) in
  reg 4 IPPROTO_UDP (reg 4 IPPROTO_TCP (reg 3 IPPROTO_UDP (reg 3 IPPROTO_TCP
    (reg 2 IPPROTO_UDP (reg 2 IPPROTO_TCP pm))))).

(** ** fmt: decimal numbers *)

Definition chr_minus : Ascii.ascii := Ascii.ascii_of_nat 45.
Definition chr_plus : Ascii.ascii := Ascii.ascii_of_nat 43.
Definition digit_char (d : Z) : Ascii.ascii := Ascii.ascii_of_nat (Z.to_nat (48 + d)).

Fixpoint dec_digits (fuel : nat) (n : Z) (acc : string) : string :=
  match fuel with
  | O => acc
  | S fuel =>
      let acc := String (digit_char (n mod 10)) acc in
      if n <? 10 then acc else dec_digits fuel (n / 10) acc
  end.

(** ["%d"] of a [uint32] *)
Definition dec_string (n : Z) : string := dec_digits 10 n EmptyString.

(** The leading spaces ["%d"] of [Sscanf] skips, as UTF-8; a newline is an
    error. *)
Definition space_len (s : string) : nat :=
  let b i := match String.get i s with Some c => Z.of_nat (Ascii.nat_of_ascii c) | None => -1 end in
  let b0 := b 0%nat in let b1 := b 1%nat in let b2 := b 2%nat in
  if (b0 =? 32) || (b0 =? 9) || ((11 <=? b0) && (b0 <=? 13)) then 1
  else if (b0 =? 194) && ((b1 =? 133) || (b1 =? 160)) then 2
  else if (b0 =? 225) && (b1 =? 154) && (b2 =? 128) then 3
  else if (b0 =? 226) && (b1 =? 128) &&
          (((128 <=? b2) && (b2 <=? 138)) || (b2 =? 168) || (b2 =? 169) || (b2 =? 175)) then 3
  else if (b0 =? 226) && (b1 =? 129) && (b2 =? 159) then 3
  else if (b0 =? 227) && (b1 =? 128) && (b2 =? 128) then 3
  else 0.

Fixpoint skip_space (fuel : nat) (s : string) : string :=
  match fuel, space_len s with
  | S fuel, S n => skip_space fuel (str_drop (S n) s)
  | _, _ => s
  end.

Fixpoint scan_digits (s : string) (acc : Z) : Z * string :=
  match s with
  | String c s' =>
      match dec_digit c with
      | Some d => scan_digits s' (acc * 10 + d)
      | None => (acc, s)
      end
  | EmptyString => (acc, EmptyString)
  end.

(** ["%d"]: spaces, a sign, digits, within an [int]. *)
Definition scan_int (s : string) : option (Z * string) :=
  let s := skip_space (String.length s) s in
  let '(neg, s) :=
    match s with
    | String c s' => if Ascii.eqb c chr_minus then (true, s') else if Ascii.eqb c chr_plus then (false, s') else (false, s)
    | EmptyString => (false, s)
    end in
  match s with
  | String c _ =>
      match dec_digit c with
      | Some _ =>
          let '(v, rest) := scan_digits s 0 in
          let v := if (neg : bool) then - v else v in
          if (- 2 ^ 63 <=? v) && (v <? 2 ^ 63) then Some (v, rest) else None
      | None => None
      end
  | EmptyString => None
  end.

(** [n + 1] numbers separated by dots. *)
Fixpoint scan_dotted (n : nat) (s : string) : option (list Z) :=
  '(v, rest) ← scan_int s;
  match n with
  | O => Some [v]
  | S n =>
      match rest with
      | String c rest => if Ascii.eqb c chr_dot then (cons v) <$> scan_dotted n rest else None
      | EmptyString => None
      end
  end.

(** ** The calls *)

Definition encodeBool (v : bool) : list byte := xdrEncodeUint32 (if v then 1 else 0).
Definition encodePort (port : Z) : list byte := xdrEncodeUint32 port.
Definition encodeEmptyString : list byte := xdrEncodeString EmptyString.

(** [skipAuth] *)
Definition skipAuth : Dec unit :=
  _ ← xdrDecodeUint32;
  length ← xdrDecodeUint32;
  if MAX_RPC_AUTH_LENGTH <? length then Dec_fail (ErrorString "auth body length exceeds maximum")
  else if 0 <? length then
    _ ← io_ReadFull (Z.to_nat length);
    _ ← io_ReadFull (Z.to_nat (xdr_pad length));
    mret tt
  else mret tt.

(** The four words of a portmap v2 argument. *)
Definition decode_mapping : Dec PortMapping :=
  prog ← xdrDecodeUint32;
  vers ← xdrDecodeUint32;
  prot ← xdrDecodeUint32;
  port ← xdrDecodeUint32;
  mret (mkPortMapping prog vers prot port).

Definition handleGetPort (pm : Portmapper) (r : list byte) : list byte :=
  match (decode_mapping r).1 with
  | Ok m => encodePort (GetPort (pm_Program m) (pm_Version m) (pm_Protocol m) pm)
  | Err _ => encodePort 0
  end.

Definition encode_mapping (m : PortMapping) : list byte :=
  xdrEncodeUint32 (pm_Program m) ++ xdrEncodeUint32 (pm_Version m) ++
  xdrEncodeUint32 (pm_Protocol m) ++ xdrEncodeUint32 (pm_Port m).

Definition handleDump (pm : Portmapper) : list byte :=
  concat (map (fun m => xdrEncodeUint32 1 ++ encode_mapping m) (mappings pm)) ++ xdrEncodeUint32 0.

(** [ip.IsLoopback()] *)
Definition IPv6loopback : list Z := replicate 15 0 ++ [1].
Definition IsLoopback (ip : list Z) : bool :=
  match To4 ip with
  | Some ip4 => nth 0 ip4 0 =? 127
  | None => IP_Equal ip IPv6loopback
  end.

(** The check of SET and UNSET: only a peer whose host parses as an address
    other than loopback is turned away. *)
Definition remote_refused (remoteHost : option string) : bool :=
  match remoteHost with
  | Some host => match ParseIP host with Some ip => negb (IsLoopback ip) | None => false end
  | None => false
  end.

Definition handleSet (r : list byte) (remoteHost : option string) (pm : Portmapper)
    : list byte * Portmapper :=
  if remote_refused remoteHost then (encodeBool false, pm)
  else
    match (decode_mapping r).1 with
    | Err _ => (encodeBool false, pm)
    | Ok m =>
        (encodeBool true, RegisterService (pm_Program m) (pm_Version m) (pm_Protocol m) (pm_Port m) pm)
    end.

Definition handleUnset (r : list byte) (remoteHost : option string) (pm : Portmapper)
    : list byte * Portmapper :=
  if remote_refused remoteHost then (encodeBool false, pm)
  else
    match (decode_mapping r).1 with
    | Err _ => (encodeBool false, pm)
    | Ok m => (encodeBool true, UnregisterService (pm_Program m) (pm_Version m) (pm_Protocol m) pm)
    end.

Definition base_addr (pm : Portmapper) : string :=
  if bool_decide (listenAddr pm = EmptyString) then "0.0.0.0" else listenAddr pm.

(** ["%s.%d.%d"] of an address, [port / 256] and [port % 256] *)
Definition universal_addr (addr : string) (port : Z) : string :=
  addr +:+ "." +:+ dec_string (port / 256) +:+ "." +:+ dec_string (port mod 256).

Definition handleGetAddr (pm : Portmapper) (r : list byte) : list byte :=
  let d := (prog ← xdrDecodeUint32; vers ← xdrDecodeUint32; netid ← xdrDecodeString; mret (prog, vers, netid)) in
  match (d : Dec (Z * Z * string)) r with
  | (Err _, _) => encodeEmptyString
  | (Ok (prog, vers, netid), _) =>
      let prot := if String.eqb netid "tcp" || String.eqb netid "tcp6" then IPPROTO_TCP else IPPROTO_UDP in
      let port := GetPort prog vers prot pm in
      xdrEncodeString
        (if 0 <? port then
           if String.eqb netid "tcp6" || String.eqb netid "udp6"
           then universal_addr "::1" port
           else universal_addr (base_addr pm) port
         else EmptyString)
  end.

(** The port of a universal address: the fifth and sixth number. *)
Definition uaddr_port (uaddr : string) : Z :=
  match scan_dotted 5 uaddr with
  | Some [_; _; _; _; hi; lo] => u32 (i64 (hi * 256 + lo))
  | _ => 0
  end.

Definition rpcb_prot (netid : string) : Z :=
  if String.eqb netid "udp" || String.eqb netid "udp6" then IPPROTO_UDP else IPPROTO_TCP.

Definition handleRpcbSet (r : list byte) (pm : Portmapper) : list byte * Portmapper :=
  let d := (prog ← xdrDecodeUint32; vers ← xdrDecodeUint32; netid ← xdrDecodeString;
            uaddr ← xdrDecodeString; mret (prog, vers, netid, uaddr)) in
  match ((d : Dec (Z * Z * string * string)) r).1 with
  | Err _ => (encodeBool false, pm)
  | Ok (prog, vers, netid, uaddr) =>
      let port := uaddr_port uaddr in
      (encodeBool true, if 0 <? port then RegisterService prog vers (rpcb_prot netid) port pm else pm)
  end.

Definition handleRpcbUnset (r : list byte) (pm : Portmapper) : list byte * Portmapper :=
  let d := (prog ← xdrDecodeUint32; vers ← xdrDecodeUint32; netid ← xdrDecodeString; mret (prog, vers, netid)) in
  match ((d : Dec (Z * Z * string)) r).1 with
  | Err _ => (encodeBool false, pm)
  | Ok (prog, vers, netid) => (encodeBool true, UnregisterService prog vers (rpcb_prot netid) pm)
  end.

Definition handleRpcbDump (pm : Portmapper) : list byte :=
  concat (map (fun m =>
      xdrEncodeUint32 1 ++ xdrEncodeUint32 (pm_Program m) ++ xdrEncodeUint32 (pm_Version m) ++
      xdrEncodeString (if pm_Protocol m =? IPPROTO_TCP then "tcp" else "udp") ++
      xdrEncodeString (universal_addr (base_addr pm) (pm_Port m)) ++
      xdrEncodeString "superuser") (mappings pm)) ++
  xdrEncodeUint32 0.

Definition makeReply (xid status : Z) (data : list byte) : list byte :=
  xdrEncodeUint32 xid ++ xdrEncodeUint32 RPC_REPLY ++ xdrEncodeUint32 MSG_ACCEPTED ++
  xdrEncodeUint32 0 ++ xdrEncodeUint32 0 ++
  (if status =? MSG_ACCEPTED then xdrEncodeUint32 0 ++ data else xdrEncodeUint32 status).

(** The header of a call: transaction, program, version and procedure. *)
Definition decode_header : Dec (Z * Z * Z * Z) :=
  xid ← Dec_wrap "failed to read XID" xdrDecodeUint32;
  msgType ← Dec_wrap "failed to read message type" xdrDecodeUint32;
  if negb (msgType =? RPC_CALL) then Dec_fail (ErrorString "expected RPC call")
  else
    _ ← Dec_wrap "failed to read RPC version" xdrDecodeUint32;
    program ← Dec_wrap "failed to read program" xdrDecodeUint32;
    version ← Dec_wrap "failed to read version" xdrDecodeUint32;
    procedure ← Dec_wrap "failed to read procedure" xdrDecodeUint32;
    _ ← Dec_wrap "failed to skip credentials" skipAuth;
    _ ← Dec_wrap "failed to skip verifier" skipAuth;
    mret (xid, program, version, procedure).

(** The procedures of version 2, and of versions 3 and 4; [None] is PROC_UNAVAIL. *)
Definition portmap_v2 (procedure : Z) (r : list byte) (remoteHost : option string) (pm : Portmapper)
    : option (list byte * Portmapper) :=
  if procedure =? PMAPPROC_NULL then Some ([], pm)
  else if procedure =? PMAPPROC_SET then Some (handleSet r remoteHost pm)
  else if procedure =? PMAPPROC_UNSET then Some (handleUnset r remoteHost pm)
  else if procedure =? PMAPPROC_GETPORT then Some (handleGetPort pm r, pm)
  else if procedure =? PMAPPROC_DUMP then Some (handleDump pm, pm)
  else None.

Definition rpcbind (procedure : Z) (r : list byte) (pm : Portmapper) : option (list byte * Portmapper) :=
  if procedure =? 0 then Some ([], pm)
  else if procedure =? 1 then Some (handleRpcbSet r pm)
  else if procedure =? 2 then Some (handleRpcbUnset r pm)
  else if procedure =? 3 then Some (handleGetAddr pm r, pm)
  else if procedure =? 4 then Some (handleRpcbDump pm, pm)
  else None.

Definition handleCall (data : list byte) (remoteHost : option string) (pm : Portmapper)
    : result (list byte) * Portmapper :=
  match decode_header data with
  | (Err e, _) => (Err e, pm)
  | (Ok (xid, program, version, procedure), r) =>
      if negb (program =? PortmapperProgram) then (Ok (makeReply xid PROG_UNAVAIL []), pm)
      else if negb (version =? 2) && negb (version =? 3) && negb (version =? 4)
      then (Ok (makeReply xid PROG_MISMATCH []), pm)
      else
        match (if version =? 2 then portmap_v2 procedure r remoteHost pm else rpcbind procedure r pm) with
        | None => (Ok (makeReply xid PROC_UNAVAIL []), pm)
        | Some (result, pm) => (Ok (makeReply xid MSG_ACCEPTED result), pm)
        end
  end.

(** ** Specification: a finite map from services to ports *)

Inductive pm_op := OpRegister (prog vers prot port : Z) | OpUnregister (prog vers prot : Z).

Definition pm_step (pm : Portmapper) (o : pm_op) : Portmapper :=
  match o with
  | OpRegister prog vers prot port => RegisterService prog vers prot port pm
  | OpUnregister prog vers prot => UnregisterService prog vers prot pm
  end.

Definition reg_step (m : gmap (Z * Z * Z) Z) (o : pm_op) : gmap (Z * Z * Z) Z :=
  match o with
  | OpRegister prog vers prot port => <[(prog, vers, prot) := port]> m
  | OpUnregister prog vers prot => delete (prog, vers, prot) m
  end.

Definition service (m : PortMapping) : Z * Z * Z := (pm_Program m, pm_Version m, pm_Protocol m).

Definition registry (l : list PortMapping) : gmap (Z * Z * Z) Z :=
  list_to_map ((fun m => (service m, pm_Port m)) <$> l).

(** ** Lemmas *)

Lemma same_service_spec p v t m : same_service p v t m = true <-> service m = (p, v, t).
Proof.
  unfold same_service, service. rewrite !andb_true_iff, !Z.eqb_eq. split; [by intros [[-> ->] ->]|by intros [= -> -> ->]].
Qed.

Lemma same_service_false p v t m : same_service p v t m = false <-> service m <> (p, v, t).
Proof. rewrite <- not_true_iff_false. by rewrite same_service_spec. Qed.

Lemma register_services p v t port l x :
  x ∈ service <$> register p v t port l <-> x = (p, v, t) \/ x ∈ service <$> l.
Proof.
  induction l as [|m l IH]; cbn [register].
  - rewrite fmap_cons, fmap_nil, elem_of_cons. done.
  - destruct (same_service p v t m) eqn:E; rewrite !fmap_cons, !elem_of_cons.
    + apply same_service_spec in E. change (service (mkPortMapping _ _ _ port)) with (service m). naive_solver.
    + rewrite IH. naive_solver.
Qed.

Lemma register_spec p v t port l :
  NoDup (service <$> l) ->
  NoDup (service <$> register p v t port l) /\
  registry (register p v t port l) = <[(p, v, t) := port]> (registry l).
Proof.
  induction l as [|m l IH]; cbn [register]; intros Hn.
  - split; [apply NoDup_singleton|done].
  - rewrite fmap_cons in Hn. apply NoDup_cons in Hn as [Hm Hn]. destruct (IH Hn) as [Hn' Hr].
    unfold registry in *. destruct (same_service p v t m) eqn:E; rewrite !fmap_cons; cbn [list_to_map foldr].
    + apply same_service_spec in E. split; [by constructor|]. rewrite <- E. cbn. by rewrite insert_insert_eq.
    + apply same_service_false in E. split.
      * constructor; [|done]. rewrite register_services. naive_solver.
      * cbn. rewrite Hr. by rewrite insert_insert_ne by congruence.
Qed.

Lemma registry_absent x l : x ∉ service <$> l -> registry l !! x = None.
Proof. intros Hx. apply not_elem_of_list_to_map_1. by rewrite <- list_fmap_compose. Qed.

Lemma unregister_services p v t l x : x ∈ service <$> unregister p v t l -> x ∈ service <$> l.
Proof.
  induction l as [|m l IH]; cbn [unregister]; [done|].
  destruct (same_service p v t m); rewrite ?fmap_cons, ?elem_of_cons; naive_solver.
Qed.

Lemma unregister_spec p v t l :
  NoDup (service <$> l) ->
  NoDup (service <$> unregister p v t l) /\
  registry (unregister p v t l) = delete (p, v, t) (registry l).
Proof.
  induction l as [|m l IH]; cbn [unregister]; intros Hn.
  - split; [done|]. symmetry. apply delete_empty.
  - rewrite fmap_cons in Hn. apply NoDup_cons in Hn as [Hm Hn]. destruct (IH Hn) as [Hn' Hr].
    destruct (same_service p v t m) eqn:E.
    + apply same_service_spec in E. split; [done|]. unfold registry. rewrite fmap_cons. cbn.
      rewrite E, delete_insert_eq. symmetry. apply delete_id. rewrite <- E. by apply registry_absent.
    + apply same_service_false in E. split.
      * rewrite fmap_cons. constructor; [|done]. by intros ?%unregister_services.
      * unfold registry in *. rewrite !fmap_cons. cbn. by rewrite Hr, delete_insert_ne by congruence.
Qed.

Lemma GetPort_registry pm p v t :
  NoDup (service <$> mappings pm) ->
  GetPort p v t pm = default 0 (registry (mappings pm) !! (p, v, t)).
Proof.
  unfold GetPort. generalize (mappings pm). intros l. induction l as [|m l IH]; intros Hn; [done|].
  rewrite fmap_cons in Hn. apply NoDup_cons in Hn as [Hm Hn]. unfold registry. rewrite fmap_cons. cbn [list_find list_to_map foldr].
  destruct (decide (same_service p v t m = true)) as [E|E].
  - apply same_service_spec in E. cbn. by rewrite <- E, lookup_insert_eq.
  - rewrite same_service_spec in E. cbn. rewrite lookup_insert_ne by done. unfold registry in IH.
    rewrite <- IH by done. by destruct (list_find _ l) as [[]|].
Qed.

(** *** Printing and scanning numbers *)

Lemma str_app_empty s : s +:+ EmptyString = s.
Proof. induction s as [|c s IH]; [done|]. by rewrite str_app_cons, IH. Qed.

Lemma dec_digit_char d : 0 <= d < 10 -> dec_digit (digit_char d) = Some d.
Proof. intros Hd. assert (d ∈ [0; 1; 2; 3; 4; 5; 6; 7; 8; 9]) as Hin by (rewrite !elem_of_cons; lia).
  rewrite !elem_of_cons, elem_of_nil in Hin. by destruct_or! Hin; subst d. Qed.

Lemma dec_digits_app fuel n acc rest : dec_digits fuel n acc +:+ rest = dec_digits fuel n (acc +:+ rest).
Proof.
  revert n acc. induction fuel as [|fuel IH]; intros n acc; [done|]. cbn [dec_digits].
  destruct (n <? 10); [done|]. by rewrite IH.
Qed.

Lemma scan_dec_digits fuel n acc :
  0 <= n < 10 ^ Z.of_nat fuel ->
  exists k, 0 <= k /\ forall a, scan_digits (dec_digits fuel n acc) a = scan_digits acc (a * 10 ^ k + n).
Proof.
  revert n acc. induction fuel as [|fuel IH]; intros n acc Hn.
  - exists 0. split; [lia|]. intros a. cbn. f_equal. change (10 ^ Z.of_nat 0) with 1 in Hn. lia.
  - cbn [dec_digits]. pose proof (Z.mod_pos_bound n 10 ltac:(lia)) as Hm.
    destruct (Z.ltb_spec n 10) as [Hlt|Hge].
    + exists 1. split; [lia|]. intros a. cbn [scan_digits]. rewrite dec_digit_char by done.
      f_equal. rewrite Z.mod_small by lia. lia.
    + destruct (IH (n / 10) (String (digit_char (n mod 10)) acc)) as (k & Hk & Hs).
      { split; [apply Z.div_pos; lia|]. apply Z.div_lt_upper_bound; [lia|].
        replace (Z.of_nat (S fuel)) with (Z.of_nat fuel + 1) in Hn by lia. rewrite Z.pow_add_r in Hn by lia. lia. }
      exists (k + 1). split; [lia|]. intros a. rewrite Hs. cbn [scan_digits].
      rewrite dec_digit_char by done. f_equal. rewrite Z.pow_add_r by lia.
      pose proof (Z.div_mod n 10 ltac:(lia)). lia.
Qed.

Lemma dec_digits_head fuel n acc :
  0 <= n -> exists c s, dec_digits (S fuel) n acc = String c s /\ is_Some (dec_digit c).
Proof.
  revert n acc. induction fuel as [|fuel IH]; intros n acc Hn.
  - cbn. exists (digit_char (n mod 10)), acc. rewrite dec_digit_char by (apply Z.mod_pos_bound; lia).
    by destruct (n <? 10).
  - cbn [dec_digits]. destruct (n <? 10).
    + exists (digit_char (n mod 10)), acc. by rewrite dec_digit_char by (apply Z.mod_pos_bound; lia).
    + apply IH. apply Z.div_pos; lia.
Qed.

Lemma scan_int_digit c s :
  is_Some (dec_digit c) ->
  scan_int (String c s) =
    let '(v, rest) := scan_digits (String c s) 0 in
    if (- 2 ^ 63 <=? v) && (v <? 2 ^ 63) then Some (v, rest) else None.
Proof.
  intros [d Hd]. unfold scan_int.
  assert (skip_space (String.length (String c s)) (String c s) = String c s) as ->.
  { cbn [String.length skip_space].
    by destruct c as [[][][][][][][][]]; try discriminate Hd. }
  by destruct c as [[][][][][][][][]]; try discriminate Hd.
Qed.

(** A printed number is scanned back, up to what follows it. *)
Lemma scan_int_dec n rest :
  is_u32 n -> (forall c s, rest = String c s -> dec_digit c = None) ->
  scan_int (dec_string n +:+ rest) = Some (n, rest).
Proof.
  intros Hn Hrest. unfold dec_string. rewrite dec_digits_app. cbn [String.app].
  destruct (dec_digits_head 9 n (EmptyString +:+ rest)) as (c & s & E & Hc); [unfold is_u32 in Hn; lia|].
  destruct (scan_dec_digits 10 n (EmptyString +:+ rest)) as (k & _ & Hs); [unfold is_u32 in Hn; cbn; lia|].
  specialize (Hs 0). rewrite E in Hs |- *. rewrite scan_int_digit, Hs by done.
  assert (scan_digits (EmptyString +:+ rest) (0 * 10 ^ k + n) = (n, rest)) as ->.
  { change (EmptyString +:+ rest) with rest. rewrite Z.mul_0_l, Z.add_0_l.
    destruct rest as [|c' s']; [done|]. cbn [scan_digits]. by rewrite (Hrest c' s'). }
  unfold is_u32 in Hn. by destruct (Z.leb_spec (- 2 ^ 63) n), (Z.ltb_spec n (2 ^ 63)); try lia.
Qed.

(** *** Which procedures change the registry *)

Lemma portmap_v2_changes procedure r host pm res pm' :
  portmap_v2 procedure r host pm = Some (res, pm') -> pm' <> pm ->
  (procedure = PMAPPROC_SET \/ procedure = PMAPPROC_UNSET) /\ remote_refused host = false.
Proof.
  unfold portmap_v2, handleSet, handleUnset.
  destruct (Z.eqb_spec procedure PMAPPROC_NULL); [by intros [= _ <-]|].
  destruct (Z.eqb_spec procedure PMAPPROC_SET).
  { destruct (remote_refused host); [by intros [= _ <-]|]. by auto. }
  destruct (Z.eqb_spec procedure PMAPPROC_UNSET).
  { destruct (remote_refused host); [by intros [= _ <-]|]. by auto. }
  repeat case_match; intros E; by simplify_eq.
Qed.

Lemma rpcbind_changes procedure r pm res pm' :
  rpcbind procedure r pm = Some (res, pm') -> pm' <> pm ->
  procedure = PMAPPROC_SET \/ procedure = PMAPPROC_UNSET.
Proof.
  unfold rpcbind. destruct (Z.eqb_spec procedure 0); [by intros [= _ <-]|].
  destruct (Z.eqb_spec procedure 1); [by auto|]. destruct (Z.eqb_spec procedure 2); [by auto|].
  repeat case_match; intros E; by simplify_eq.
Qed.

(** ** Properties *)

(** Universal addresses carry the port.  For a server that listens on an
    IPv4 address in dotted form, what GETADDR and DUMP answer for a port is an
    address from which SET reads that very port, for every 32-bit value. *)
Theorem universal_addr_roundtrip a b c d port :
  is_u32 a -> is_u32 b -> is_u32 c -> is_u32 d -> is_u32 port ->
  uaddr_port (universal_addr
    (dec_string a +:+ "." +:+ dec_string b +:+ "." +:+ dec_string c +:+ "." +:+ dec_string d) port) = port.
Proof.
  intros Ha Hb Hc Hd Hp. unfold is_u32 in Hp.
  assert (is_u32 (port / 256) /\ is_u32 (port mod 256)) as [Hhi Hlo].
  { unfold is_u32. pose proof (Z.mod_pos_bound port 256 ltac:(lia)).
    pose proof (Z.div_mod port 256 ltac:(lia)). lia. }
  assert (forall n x s, is_u32 x -> scan_dotted (S n) (dec_string x +:+ "." +:+ s) = (cons x) <$> scan_dotted n s)
    as Hstep.
  { intros n x s Hx. cbn [scan_dotted]. rewrite scan_int_dec; [done|done|]. by intros ? ? [= <- _]. }
  unfold uaddr_port, universal_addr. rewrite !str_app_assoc, !Hstep by done.
  assert (scan_dotted 0 (dec_string (port mod 256)) = Some [port mod 256]) as ->.
  { cbn [scan_dotted]. rewrite <- (str_app_empty (dec_string (port mod 256))), scan_int_dec; done. }
  cbn. pose proof (Z.div_mod port 256 ltac:(lia)). rewrite i64_small by lia. rewrite u32_small; unfold is_u32; lia.
Qed.

Lemma universal_addr_roundtrip_witness :
  uaddr_port (universal_addr (dec_string 127 +:+ "." +:+ dec_string 0 +:+ "." +:+ dec_string 0 +:+ "." +:+
    dec_string 1) 2049) = 2049.
Proof. apply universal_addr_roundtrip; unfold is_u32; lia. Defined.

Example universal_addr_2049 : universal_addr "127.0.0.1" 2049 = "127.0.0.1.8.1"%string.
Proof. reflexivity. Qed.

(** C37: the registry is a map from services to ports.  After any sequence of
    registrations and removals each service is listed once, [GetPort] returns
    the port it was last registered with, and 0 when it is not registered. *)
Theorem portmapper_registry_exact (os : list pm_op) p v t :
  let pm := foldl pm_step NewPortmapper os in
  NoDup (service <$> mappings pm) /\
  GetPort p v t pm = default 0 (foldl reg_step ∅ os !! (p, v, t)).
Proof.
  intros pm.
  assert (NoDup (service <$> mappings pm) /\ registry (mappings pm) = foldl reg_step ∅ os) as [Hn Hr].
  { subst pm. induction os as [|o os IH] using rev_ind; [split; [constructor|done]|].
    rewrite !foldl_app. cbn. destruct IH as [Hn Hr].
    destruct o as [p' v' t' port|p' v' t']; cbn; rewrite <- Hr;
      [by apply register_spec|by apply unregister_spec]. }
  split; [done|]. by rewrite GetPort_registry, Hr.
Qed.

(** Who can change the registry.  A call changes it only as a SET or UNSET
    of the portmapper program, and in version 2 only from a peer that the
    check of the remote address lets through; everything else, calls that do
    not decode included, leaves it as it was. *)
Theorem registry_changes_guarded data remoteHost pm :
  (handleCall data remoteHost pm).2 <> pm ->
  exists xid version procedure,
    (decode_header data).1 = Ok (xid, PortmapperProgram, version, procedure) /\
    (procedure = PMAPPROC_SET \/ procedure = PMAPPROC_UNSET) /\
    version ∈ [2; 3; 4] /\ (version = 2 -> remote_refused remoteHost = false).
Proof.
  unfold handleCall. destruct (decode_header data) as [[[[[xid program] version] procedure]|e] r]; [|done].
  destruct (Z.eqb_spec program PortmapperProgram) as [->|]; [|done].
  intros Hne. exists xid, version, procedure. split; [done|].
  destruct (Z.eqb_spec version 2) as [->|H2].
  - cbn in Hne. destruct (portmap_v2 procedure r remoteHost pm) as [[res pm']|] eqn:E; [|done].
    destruct (portmap_v2_changes _ _ _ _ _ _ E Hne) as [Hp Hr]. split; [done|]. split; [set_solver|done].
  - destruct (negb false && _ && _) eqn:Hv; [done|].
    destruct (rpcbind procedure r pm) as [[res pm']|] eqn:E; [|done].
    split; [by eapply rpcbind_changes|]. split; [|done].
    destruct (Z.eqb_spec version 3) as [->|]; [set_solver|].
    destruct (Z.eqb_spec version 4) as [->|]; [set_solver|done].
Qed.

(** ** Concrete runs *)

(** A call of the portmapper with empty credentials. *)
Definition pm_call (version procedure : Z) (args : list byte) : list byte :=
  xdrEncodeUint32 7 ++ xdrEncodeUint32 RPC_CALL ++ xdrEncodeUint32 2 ++ xdrEncodeUint32 PortmapperProgram ++
  xdrEncodeUint32 version ++ xdrEncodeUint32 procedure ++
  xdrEncodeUint32 0 ++ xdrEncodeUint32 0 ++ xdrEncodeUint32 0 ++ xdrEncodeUint32 0 ++ args.

Definition set_nfs : list byte := encode_mapping (mkPortMapping NFS_PROGRAM 3 IPPROTO_TCP 2049).

(** The NFS port after a call from the given peer. *)
Definition nfs_port_after (data : list byte) (remoteHost : string) : Z :=
  GetPort NFS_PROGRAM 3 IPPROTO_TCP (handleCall data (Some remoteHost) NewPortmapper).2.

Lemma registry_changes_guarded_witness :
  exists xid version procedure,
    (decode_header (pm_call 2 PMAPPROC_SET set_nfs)).1 = Ok (xid, PortmapperProgram, version, procedure) /\
    (procedure = PMAPPROC_SET \/ procedure = PMAPPROC_UNSET) /\
    version ∈ [2; 3; 4] /\ (version = 2 -> remote_refused (Some "127.0.0.1"%string) = false).
Proof.
  apply (registry_changes_guarded (pm_call 2 PMAPPROC_SET set_nfs) (Some "127.0.0.1"%string) NewPortmapper).
  vm_compute. congruence.
Defined.

(** SET from the host itself, and from elsewhere. *)
Example set_from_localhost : nfs_port_after (pm_call 2 PMAPPROC_SET set_nfs) "127.0.0.1" = 2049.
Proof. vm_compute. reflexivity. Qed.

Example set_from_elsewhere : nfs_port_after (pm_call 2 PMAPPROC_SET set_nfs) "203.0.113.9" = 0.
Proof. vm_compute. reflexivity. Qed.

(** The check is passed by a peer with a scoped IPv6 address, which
    [net.ParseIP] does not parse, and the rpcbind versions have none. *)
Theorem set_guard_bypassed :
  nfs_port_after (pm_call 2 PMAPPROC_SET set_nfs) "fe80::1%eth0" = 2049 /\
  nfs_port_after (pm_call 3 1 (xdrEncodeUint32 NFS_PROGRAM ++ xdrEncodeUint32 3 ++ xdrEncodeString "tcp" ++
    xdrEncodeString "203.0.113.9.8.1" ++ xdrEncodeString "x")) "203.0.113.9" = 2049.
Proof. vm_compute. split; reflexivity. Qed.
