(* ===== verification/PortmapConn.v ===== *)
(** * Connections of the portmapper (src/portmapper.go)

    The request loop of a connection from bytes to bytes, and the semaphore
    that bounds how many connections are served at a time.  The stream is what
    the peer sends until it closes; deadlines and failing writes, which end a
    connection early, are left out. *)

From stdpp Require Import relations.
From S2P Require Import Prelude Errors Xdr Rpc Transport NetIP Portmapper.
Open Scope Z_scope.

Definition DefaultMaxPortmapperConns : Z := 100.

(** ** [handleConnection] *)

(** A call that does not decode is dropped without a reply. *)
Fixpoint pm_loop (fuel : nat) (host : option string) (c : RecordMarkingConn) (pm : Portmapper)
    : option (RecordMarkingConn * Portmapper) :=
  match fuel with
  | O => None
  | S fuel =>
      '(res, rd) ← ReadRecord (reader c);
      match res with
      | Err _ => Some (mkConn rd (writer c), pm)
      | Ok data =>
          match handleCall data host pm with
          | (Err _, pm) => pm_loop fuel host (mkConn rd (writer c)) pm
          | (Ok reply, pm) =>
              wr ← WriteRecord (writer c) reply;
              pm_loop fuel host (mkConn rd wr) pm
          end
      end
  end.

Definition pm_handleConnection (host : option string) (input : list byte) (pm : Portmapper)
    : option (list byte * Portmapper) :=
  '(c, pm) ← pm_loop (S (length input)) host (NewRecordMarkingConn input []) pm;
  Some (wr_w (writer c), pm).

(** Specification: the replies to the records, in order. *)
Fixpoint pm_answer_all (host : option string) (records : list (list byte)) (pm : Portmapper)
    : list (list byte) * Portmapper :=
  match records with
  | [] => ([], pm)
  | data :: records =>
      match handleCall data host pm with
      | (Err _, pm) => pm_answer_all host records pm
      | (Ok reply, pm) => let '(replies, pm) := pm_answer_all host records pm in (reply :: replies, pm)
      end
  end.

(** ** [acceptLoop]: a slot of [connSem] per connection *)

(** [held] are the slots in use and [serving] the running handlers. *)
Record Slots := mkSlots { sem_cap : nat; held : nat; serving : list nat }.

Inductive slot_step : Slots -> Slots -> Prop :=
  | slot_accept cap h ss c : (h < cap)%nat -> c ∉ ss -> slot_step (mkSlots cap h ss) (mkSlots cap (S h) (c :: ss))
  | slot_reject cap ss : slot_step (mkSlots cap cap ss) (mkSlots cap cap ss)
  | slot_done cap h ss1 c ss2 : slot_step (mkSlots cap (S h) (ss1 ++ c :: ss2)) (mkSlots cap h (ss1 ++ ss2)).

(** ** Lemmas *)

Lemma WriteRecord_framed wr reply :
  0 < maxFragment wr <= MaxFragmentSize ->
  exists fs l, WriteRecord wr reply = Some (mkWriter (wr_w wr ++ record_bytes fs l) (maxFragment wr)) /\
    mjoin fs ++ l = reply /\ Forall (fun f => zlen f <= MaxFragmentSize) (fs ++ [l]).
Proof.
  intros Hm. destruct (WriteRecord_fragments wr reply Hm) as (fs & l & E & Hj & HF).
  exists fs, l. split; [done|]. split; [done|]. eapply Forall_impl; [done|]. simpl. lia.
Qed.

Lemma pm_loop_total fuel host c pm :
  (length (rd_r (reader c)) < fuel)%nat -> 0 < maxFragment (writer c) <= MaxFragmentSize ->
  is_Some (pm_loop fuel host c pm).
Proof.
  revert c pm. induction fuel as [|fuel IH]; intros c pm Hf Hm; [lia|]. cbn [pm_loop].
  destruct (ReadRecord_is_Some (reader c)) as [[res rd] E]. rewrite E. simpl. destruct res as [data|]; [|by eexists].
  apply ReadRecord_progress in E. destruct (handleCall data host pm) as [[reply|e] pm'].
  - destruct (WriteRecord_framed (writer c) reply Hm) as (fs & l & -> & _). simpl. apply IH; simpl; [lia|done].
  - apply IH; simpl; [lia|done].
Qed.

Lemma pm_loop_framed records stream fuel host c pm :
  framed records stream -> Forall (fun r => zlen r <= DefaultMaxRecordSize) records ->
  rd_r (reader c) = stream -> MaxRecordSize (reader c) = DefaultMaxRecordSize ->
  0 < maxFragment (writer c) <= MaxFragmentSize -> (length records < fuel)%nat ->
  exists c' out,
    pm_loop fuel host c pm = Some (c', (pm_answer_all host records pm).2) /\
    wr_w (writer c') = wr_w (writer c) ++ out /\ framed (pm_answer_all host records pm).1 out.
Proof.
  intros Hfr. revert fuel c pm. induction Hfr as [|fs l rs stream Hfs Hst IH]; intros fuel c pm HF Hr Hmr Hm Hfu;
    (destruct fuel as [|fuel]; [simpl in Hfu; lia|]); cbn [pm_loop pm_answer_all].
  - destruct c as [[r ? ? ? ?] w]. simpl in *. subst r. eexists _, []. split; [done|]. simpl. rewrite app_nil_r.
    split; [done|constructor].
  - apply Forall_cons in HF as [Hsz HF]. simpl in Hfu.
    erewrite ReadRecord_fragments; [|exact Hr|exact Hfs|by unfold max_record_size; rewrite Hmr].
    simpl. rewrite Hmr. destruct (handleCall (mjoin fs ++ l) host pm) as [[reply|e] pm'].
    + destruct (WriteRecord_framed (writer c) reply Hm) as (gs & g & E & Hg & HFg). rewrite E. simpl.
      destruct (IH fuel (mkConn (mkReader stream (mjoin fs ++ l) true true DefaultMaxRecordSize)
        (mkWriter (wr_w (writer c) ++ record_bytes gs g) (maxFragment (writer c)))) pm')
        as (c' & out & E' & Hw & Hfo); try done; [lia|].
      rewrite E'. destruct (pm_answer_all host rs pm') as [replies pm2]. simpl in *.
      exists c', (record_bytes gs g ++ out). split; [done|]. rewrite Hw, <- app_assoc. split; [done|].
      rewrite <- Hg. by constructor.
    + destruct (IH fuel (mkConn (mkReader stream (mjoin fs ++ l) true true DefaultMaxRecordSize) (writer c)) pm')
        as (c' & out & E' & Hw & Hfo); try done; [lia|]. by exists c', out.
Qed.

Lemma slots_inv cap s :
  rtc slot_step (mkSlots cap 0 []) s -> sem_cap s = cap /\ held s = length (serving s) /\ (held s <= cap)%nat /\ NoDup (serving s).
Proof.
  intros Hr. remember (mkSlots cap 0 []) as s0 eqn:E0.
  assert (sem_cap s0 = cap /\ held s0 = length (serving s0) /\ (held s0 <= cap)%nat /\ NoDup (serving s0)) as Hi.
  { subst. simpl. split; [done|]. split; [done|]. split; [lia|constructor]. }
  clear E0. induction Hr as [|s1 s2 s3 H1 H2 IH]; [done|]. apply IH. clear IH H2.
  destruct H1 as [c h ss x Hlt Hx| |c h ss1 x ss2]; simpl in *; destruct Hi as (-> & Hh & Hle & Hn).
  - split; [done|]. split; [lia|]. split; [lia|]. by constructor.
  - done.
  - rewrite length_app in Hh. simpl in Hh. split; [done|]. rewrite length_app. split; [lia|]. split; [lia|].
    apply NoDup_app in Hn as (Hn1 & Hn2 & Hn3). apply NoDup_cons in Hn3 as [_ Hn3].
    apply NoDup_app. split; [done|]. split; [|done]. set_solver.
Qed.

(** ** Properties *)

(** C27: the portmapper answers every record it can decode, in order, however it
    is fragmented, and survives any other input: on any bytes the loop of a
    connection ends, and on a stream of records within the size limit it
    writes exactly the framed replies and leaves the registry the calls lead
    to. *)
Theorem portmapper_connection host input pm :
  is_Some (pm_handleConnection host input pm) /\
  forall records, framed records input -> Forall (fun r => zlen r <= DefaultMaxRecordSize) records ->
    exists out, pm_handleConnection host input pm = Some (out, (pm_answer_all host records pm).2) /\
      framed (pm_answer_all host records pm).1 out.
Proof.
  unfold pm_handleConnection. split.
  - destruct (pm_loop_total (S (length input)) host (NewRecordMarkingConn input []) pm) as [[c pm'] E];
      [simpl; lia|done|]. rewrite E. by eexists.
  - intros records Hfr HF. pose proof (framed_length _ _ Hfr) as Hl.
    destruct (pm_loop_framed records input (S (length input)) host (NewRecordMarkingConn input []) pm)
      as (c' & out & E & Hw & Hfo); try done; [lia|].
    exists out. rewrite E. simpl in *. by rewrite Hw.
Qed.

(** At most as many connections are served as the semaphore has slots, and
    every slot in use belongs to one of them. *)
Theorem portmapper_slots_exact s :
  rtc slot_step (mkSlots (Z.to_nat DefaultMaxPortmapperConns) 0 []) s ->
  held s = length (serving s) /\ Z.of_nat (length (serving s)) <= DefaultMaxPortmapperConns.
Proof. intros Hr. destruct (slots_inv _ _ Hr) as (_ & Hh & Hle & _). unfold DefaultMaxPortmapperConns in *. lia. Qed.
