(* ===== verification/Tls.v ===== *)
(** * TLS configuration (src/tls_config.go)

    Validation of a [TLSConfig], construction and caching of the [tls.Config],
    reloading of certificates, and the names of versions and client
    authentication types.  The files and the certificate parsers of crypto/tls
    and crypto/x509 are parameters, given by the class [Pki] and by the state of
    the disk at each call.  The callback [GetCertificate] of a built
    configuration reads the certificate the [TLSConfig] holds at the time of the
    handshake, so both live in one state. *)

From S2P Require Import Prelude Errors NetIP Options Portmapper.
Open Scope Z_scope.

Definition VersionTLS10 := 0x0301.
Definition VersionTLS11 := 0x0302.
Definition VersionTLS12 := 0x0303.
Definition VersionTLS13 := 0x0304.

Definition NoClientCert := 0.
Definition RequestClientCert := 1.
Definition RequireAnyClientCert := 2.
Definition VerifyClientCertIfGiven := 3.
Definition RequireAndVerifyClientCert := 4.

Definition DefaultTLSConfig : TLSConfig :=
  mkTLSConfig false "" "" "" NoClientCert VersionTLS12 VersionTLS13
    [0x1301; 0x1302; 0x1303; 0xc02f; 0xc030; 0xc02b; 0xc02c; 0xcca8; 0xcca9] true false.

(** The disk, key pairs and certificate pools. *)
Class Pki (Disk Cert Pool : Type) := {
  os_Stat : Disk -> string -> option error;                       (* nil or an error *)
  os_ReadFile : Disk -> string -> result (list byte);
  tls_LoadX509KeyPair : Disk -> string -> string -> result Cert;
  x509_AppendCertsFromPEM : list byte -> option Pool              (* false is None *)
}.

(** The fields of [tls.Config] the program sets. *)
Record tls_Config (Pool : Type) := mkTlsConfig {
  tc_MinVersion : Z; tc_MaxVersion : Z; tc_PreferServerCipherSuites : bool;
  tc_InsecureSkipVerify : bool; tc_ClientAuth : Z; tc_CipherSuites : list Z;
  tc_ClientCAs : option Pool
}.
Arguments mkTlsConfig {Pool}.
Arguments tc_MinVersion {Pool}. Arguments tc_MaxVersion {Pool}. Arguments tc_PreferServerCipherSuites {Pool}.
Arguments tc_InsecureSkipVerify {Pool}. Arguments tc_ClientAuth {Pool}. Arguments tc_CipherSuites {Pool}.
Arguments tc_ClientCAs {Pool}.

Section Tls.
Context {Disk Cert Pool : Type} `{Pki Disk Cert Pool}.

(** A [*TLSConfig] with its private fields. *)
Record TLSState := mkTLSState {
  ts_config : TLSConfig;
  ts_built : option (tls_Config Pool);       (* tlsConfig *)
  currentCert : option Cert
}.

Definition stat_error (what : string) (d : Disk) (f : string) (k : option error) : option error :=
  match os_Stat d f with Some err => Some (wrapError what err) | None => k end.

(** [Validate]: [None] is a nil error. *)
Definition Validate (d : Disk) (tc : TLSConfig) : option error :=
  if negb (tls_Enabled tc) then None
  else if String.eqb (CertFile tc) "" then
    Some (ErrorString "TLS certificate file is required when TLS is enabled")
  else if String.eqb (KeyFile tc) "" then
    Some (ErrorString "TLS key file is required when TLS is enabled")
  else
    stat_error "TLS certificate file not found" d (CertFile tc) (
    stat_error "TLS key file not found" d (KeyFile tc) (
    let rest :=
      if MaxVersion tc <? MinVersion tc then
        Some (ErrorString "TLS min version cannot be greater than max version")
      else if negb (MinVersion tc =? 0) && (MinVersion tc <? VersionTLS12) then
        Some (ErrorString "TLS version below 1.2 is not supported")
      else None in
    if (VerifyClientCertIfGiven <=? ClientAuth tc) && negb (String.eqb (CAFile tc) "")
    then stat_error "TLS CA file not found" d (CAFile tc) rest
    else rest)).

(** The CA pool: loaded when clients are to be verified against a file. *)
Definition load_client_cas (d : Disk) (tc : TLSConfig) : result (option Pool) :=
  if (VerifyClientCertIfGiven <=? ClientAuth tc) && negb (String.eqb (CAFile tc) "") then
    match os_ReadFile d (CAFile tc) with
    | Err err => Err (wrapError "failed to read CA certificate" err)
    | Ok pem =>
        match x509_AppendCertsFromPEM pem with
        | None => Err (ErrorString "failed to parse CA certificate")
        | Some pool => Ok (Some pool)
        end
    end
  else Ok None.

(** [BuildConfig]: [Ok None] is a nil configuration. *)
Definition BuildConfig (d : Disk) (st : TLSState) : result (option (tls_Config Pool)) * TLSState :=
  let tc := ts_config st in
  if negb (tls_Enabled tc) then (Ok None, st)
  else
    match Validate d tc with
    | Some err => (Err err, st)
    | None =>
        match tls_LoadX509KeyPair d (CertFile tc) (KeyFile tc) with
        | Err err => (Err (wrapError "failed to load server certificate and key" err), st)
        | Ok cert =>
            let st := mkTLSState tc (ts_built st) (Some cert) in
            match load_client_cas d tc with
            | Err err => (Err err, st)
            | Ok cas =>
                let config :=
                  mkTlsConfig (MinVersion tc) (MaxVersion tc) (PreferServerCipherSuites tc)
                    (InsecureSkipVerify tc) (ClientAuth tc)
                    (if 0 <? zlen (CipherSuites tc) then CipherSuites tc else []) cas in
                (Ok (Some config), mkTLSState tc (Some config) (Some cert))
            end
        end
    end.

Definition GetConfig (d : Disk) (st : TLSState) : result (option (tls_Config Pool)) * TLSState :=
  match ts_built st with
  | Some config => (Ok (Some config), st)
  | None => BuildConfig d st
  end.

Definition ReloadCertificates (d : Disk) (st : TLSState) : option error * TLSState :=
  let tc := ts_config st in
  if negb (tls_Enabled tc) then (Some (ErrorString "TLS is not enabled"), st)
  else
    match tls_LoadX509KeyPair d (CertFile tc) (KeyFile tc) with
    | Err err => (Some (wrapError "failed to reload certificate and key" err), st)
    | Ok cert => (None, mkTLSState tc (ts_built st) (Some cert))
    end.

(** [Clone] of a configuration, private fields included: the clone builds its
    own. *)
Definition TLSState_Clone (st : TLSState) : TLSState := mkTLSState (TLS_Clone (ts_config st)) None None.
End Tls.
Arguments TLSState Cert Pool : clear implicits.

(** ** Names *)

(** ["%d"] of an [int], ["%04x"] of a [uint16]. *)
Definition dec_int (n : Z) : string :=
  if n <? 0 then "-" +:+ dec_digits 20 (- n) EmptyString else dec_digits 20 n EmptyString.

Definition hex_char (d : Z) : Ascii.ascii :=
  Ascii.ascii_of_nat (Z.to_nat (if d <? 10 then 48 + d else 87 + d)).

Fixpoint hex_digits (k : nat) (v : Z) : string :=
  match k with
  | O => EmptyString
  | S k => String (hex_char (v / 16 ^ Z.of_nat k mod 16)) (hex_digits k v)
  end.

Definition GetClientAuthString (tc : TLSConfig) : string :=
  let a := ClientAuth tc in
  if a =? NoClientCert then "NoClientCert"
  else if a =? RequestClientCert then "RequestClientCert"
  else if a =? RequireAnyClientCert then "RequireAnyClientCert"
  else if a =? VerifyClientCertIfGiven then "VerifyClientCertIfGiven"
  else if a =? RequireAndVerifyClientCert then "RequireAndVerifyClientCert"
  else "Unknown(" +:+ dec_int a +:+ ")".

Definition one_of (s : string) (l : list string) : bool := existsb (String.eqb s) l.

Definition ParseClientAuthType (s : string) : result Z :=
  if one_of s ["NoClientCert"; "none"; ""]%string then Ok NoClientCert
  else if one_of s ["RequestClientCert"; "request"]%string then Ok RequestClientCert
  else if one_of s ["RequireAnyClientCert"; "require-any"]%string then Ok RequireAnyClientCert
  else if one_of s ["VerifyClientCertIfGiven"; "verify-if-given"]%string then Ok VerifyClientCertIfGiven
  else if one_of s ["RequireAndVerifyClientCert"; "require-and-verify"; "require"]%string
  then Ok RequireAndVerifyClientCert
  else Err (ErrorString "unknown client auth type").

Definition ParseTLSVersion (s : string) : result Z :=
  if one_of s ["1.0"; "TLS1.0"; "TLSv1.0"]%string then Ok VersionTLS10
  else if one_of s ["1.1"; "TLS1.1"; "TLSv1.1"]%string then Ok VersionTLS11
  else if one_of s ["1.2"; "TLS1.2"; "TLSv1.2"; ""]%string then Ok VersionTLS12
  else if one_of s ["1.3"; "TLS1.3"; "TLSv1.3"]%string then Ok VersionTLS13
  else Err (ErrorString "unknown TLS version").

Definition TLSVersionString (version : Z) : string :=
  if version =? VersionTLS10 then "TLS 1.0"
  else if version =? VersionTLS11 then "TLS 1.1"
  else if version =? VersionTLS12 then "TLS 1.2"
  else if version =? VersionTLS13 then "TLS 1.3"
  else "Unknown(0x" +:+ hex_digits 4 version +:+ ")".

(** ** Lemmas *)

Section TlsFacts.
Context {Disk Cert Pool : Type} `{Pki Disk Cert Pool}.
#[local] Abbreviation TLSState := (TLSState Cert Pool).

(** What a configuration that passes [Validate] is known to satisfy. *)
Record config_ok (d : Disk) (tc : TLSConfig) : Prop := {
  ok_files : CertFile tc <> EmptyString /\ KeyFile tc <> EmptyString /\
    os_Stat d (CertFile tc) = None /\ os_Stat d (KeyFile tc) = None;
  ok_ca : VerifyClientCertIfGiven <= ClientAuth tc -> CAFile tc <> EmptyString -> os_Stat d (CAFile tc) = None;
  ok_versions : MinVersion tc <= MaxVersion tc /\ (MinVersion tc = 0 \/ VersionTLS12 <= MinVersion tc)
}.

Lemma stat_error_None what d f k : stat_error what d f k = None <-> os_Stat d f = None /\ k = None.
Proof. unfold stat_error. destruct (os_Stat d f); naive_solver. Qed.

Lemma versions_None tc (e1 e2 : error) :
  (if MaxVersion tc <? MinVersion tc then Some e1
   else if negb (MinVersion tc =? 0) && (MinVersion tc <? VersionTLS12) then Some e2 else None) = None
  <-> MinVersion tc <= MaxVersion tc /\ (MinVersion tc = 0 \/ VersionTLS12 <= MinVersion tc).
Proof.
  destruct (Z.ltb_spec (MaxVersion tc) (MinVersion tc)); [split; [done|lia]|].
  destruct (Z.eqb_spec (MinVersion tc) 0); simpl; [split; [auto|done]|].
  destruct (Z.ltb_spec (MinVersion tc) VersionTLS12); split; try done; [lia|auto].
Qed.

Lemma Validate_exact d tc : tls_Enabled tc = true -> Validate d tc = None <-> config_ok d tc.
Proof.
  intros He. unfold Validate. rewrite He. simpl.
  destruct (String.eqb_spec (CertFile tc) "") as [E1|E1]; [split; [done|by intros [[? _] _ _]]|].
  destruct (String.eqb_spec (KeyFile tc) "") as [E2|E2]; [split; [done|by intros [(_ & ? & _) _ _]]|].
  rewrite !stat_error_None.
  destruct (Z.leb_spec VerifyClientCertIfGiven (ClientAuth tc)); simpl;
    [destruct (String.eqb_spec (CAFile tc) "") as [E3|E3]; simpl; rewrite ?stat_error_None|]; rewrite versions_None;
    (split; [intros; constructor|intros []]); naive_solver lia.
Qed.

(** The configuration a state builds, when it builds one. *)
Definition config_of (tc : TLSConfig) (cas : option Pool) : tls_Config Pool :=
  mkTlsConfig (MinVersion tc) (MaxVersion tc) (PreferServerCipherSuites tc) (InsecureSkipVerify tc)
    (ClientAuth tc) (CipherSuites tc) cas.

Lemma cipher_suites_id (l : list Z) : (if 0 <? zlen l then l else []) = l.
Proof. by destruct l. Qed.

(** ** Properties *)

(** C28: TLS is only ever set up as validated, and certificates rotate without
    touching it.  A configuration that [BuildConfig] returns belongs to an
    enabled [TLSConfig] whose files exist, with versions in order and not
    below TLS 1.2 unless left to the library; it has the settings of the
    [TLSConfig], the client CAs exactly when clients are verified and a CA
    file is named, and serves the key pair just loaded.  A failing
    [BuildConfig] keeps the cached configuration, which [GetConfig] returns as
    long as there is one; [ReloadCertificates] changes only the certificate,
    and on failure nothing. *)
Theorem tls_build_and_reload d (st : TLSState) :
  let tc := ts_config st in
  match BuildConfig d st with
  | (Ok (Some config), st') =>
      tls_Enabled tc = true /\ config_ok d tc /\
      (exists cas, config = config_of tc cas /\
         (is_Some cas <-> VerifyClientCertIfGiven <= ClientAuth tc /\ CAFile tc <> EmptyString)) /\
      (exists cert, tls_LoadX509KeyPair d (CertFile tc) (KeyFile tc) = Ok cert /\ currentCert st' = Some cert) /\
      forall d', GetConfig d' st' = (Ok (Some config), st')
  | (Ok None, st') => tls_Enabled tc = false /\ st' = st
  | (Err _, st') => ts_built st' = ts_built st /\ ts_config st' = tc
  end /\
  forall d', match ReloadCertificates d' st with
  | (None, st') =>
      exists cert, tls_LoadX509KeyPair d' (CertFile tc) (KeyFile tc) = Ok cert /\
        st' = mkTLSState tc (ts_built st) (Some cert)
  | (Some _, st') => st' = st
  end.
Proof.
  intros tc. split.
  - unfold BuildConfig. fold tc. destruct (tls_Enabled tc) eqn:He; simpl; [|done].
    destruct (Validate d tc) eqn:Hv; [done|]. apply Validate_exact in Hv; [|done].
    destruct (tls_LoadX509KeyPair d (CertFile tc) (KeyFile tc)) as [cert|] eqn:Hl; [|done].
    rewrite cipher_suites_id. unfold load_client_cas.
    destruct (Z.leb_spec VerifyClientCertIfGiven (ClientAuth tc)); simpl;
      [destruct (String.eqb_spec (CAFile tc) "") as [E|E]; simpl|].
    + split; [done|]. split; [done|]. split; [|eauto]. exists None. split; [done|].
      split; [by intros [? ?]|by intros [_ ?]].
    + destruct (os_ReadFile d (CAFile tc)) as [pem|]; [|done].
      destruct (x509_AppendCertsFromPEM pem) as [pool|]; [|done].
      split; [done|]. split; [done|]. split; [|eauto]. exists (Some pool). split; [done|]. split; [done|by eexists].
    + split; [done|]. split; [done|]. split; [|eauto]. exists None. split; [done|].
      split; [by intros [? ?]|intros [? _]; lia].
  - intros d'. unfold ReloadCertificates. fold tc. destruct (negb (tls_Enabled tc)); [done|].
    destruct (tls_LoadX509KeyPair d' (CertFile tc) (KeyFile tc)) as [cert|]; [|done]. by exists cert.
Qed.

(** The names of the client authentication types are read back. *)
Theorem client_auth_roundtrip tc :
  0 <= ClientAuth tc <= 4 -> ParseClientAuthType (GetClientAuthString tc) = Ok (ClientAuth tc).
Proof.
  intros Ha. unfold GetClientAuthString.
  assert (ClientAuth tc = 0 \/ ClientAuth tc = 1 \/ ClientAuth tc = 2 \/ ClientAuth tc = 3 \/ ClientAuth tc = 4)
    as [E|[E|[E|[E|E]]]] by lia; rewrite E; reflexivity.
Qed.

(** A clone is valid when the original is, and builds the same configuration. *)
Theorem clone_builds_the_same d (st : TLSState) : (BuildConfig d (TLSState_Clone st)).1 = (BuildConfig d st).1.
Proof.
  unfold BuildConfig, TLSState_Clone. cbn [ts_config ts_built]. rewrite TLS_Clone_id.
  destruct (negb _); [done|]. destruct (Validate d (ts_config st)); [done|].
  destruct (tls_LoadX509KeyPair _ _ _); [|done]. by destruct (load_client_cas d (ts_config st)).
Qed.
End TlsFacts.

(** ** Concrete runs *)

(** A disk with a key pair and no CA file. *)
#[local] Instance sample_pki : Pki (string -> bool) Z unit := {|
  os_Stat (d : string -> bool) f := if d f then None else Some os_ErrNotExist;
  os_ReadFile (d : string -> bool) f := if d f then Ok [] else Err os_ErrNotExist;
  tls_LoadX509KeyPair (d : string -> bool) c k := if d c && d k then Ok 7 else Err os_ErrNotExist;
  x509_AppendCertsFromPEM _ := None
|}.
Definition sample_disk (f : string) : bool := one_of f ["cert.pem"; "key.pem"]%string.

(** The zero value of [MaxVersion], which the comment of the field calls TLS
    1.3, is refused with a minimum version, and the names [TLSVersionString]
    writes are not ones [ParseTLSVersion] reads. *)
Example tls_version_defaults :
  is_Some (Validate sample_disk
    (mkTLSConfig true "cert.pem" "key.pem" "" NoClientCert VersionTLS12 0 [] true false)) /\
  (forall v, v ∈ [VersionTLS10; VersionTLS11; VersionTLS12; VersionTLS13] ->
     is_ok (ParseTLSVersion (TLSVersionString v)) = false).
Proof.
  split; [by eexists|]. intros v. rewrite !elem_of_cons, elem_of_nil.
  intros [->|[->|[->|[->|[]]]]]; reflexivity.
Qed.

Example tls_build_run :
  fst (BuildConfig sample_disk (mkTLSState
    (mkTLSConfig true "cert.pem" "key.pem" "" NoClientCert VersionTLS12 VersionTLS13 [] true false) None None))
  = Ok (Some (mkTlsConfig VersionTLS12 VersionTLS13 true false NoClientCert [] None)).
Proof. reflexivity. Qed.
