(* ===== verification/Lifecycle.v ===== *)
(** * Starting and stopping (src/server.go, src/operations.go, src/absnfs.go)

    [NewServer], [Listen], [StartWithPortmapper] and [Stop] of a server, and
    [Export], [Unexport] and the shutdown half of [Close] of an exported
    filesystem, as far as listeners, the portmapper and the goroutines they
    start are concerned.  The network is a parameter: a class [Network] of
    listening and closing, with its laws.  Waiting for goroutines is left out:
    stopping returns nil here, where the code may report a time-out. *)

From S2P Require Import Prelude Errors Attributes Rpc NetIP Options Portmapper Tls.
Open Scope Z_scope.

(** Listening on an address gives the port; [bound] are the ports on which
    somebody listens, each once and whatever the address (a host with several
    addresses binds a port on each).  Nothing is assumed about which port an
    address gives. *)
Class Network (N : Type) := {
  net_Listen : string -> N -> result Z * N;
  net_Close : Z -> N -> N;
  bound : N -> gset Z
}.

Class NetworkLaws (N : Type) `{Network N} : Prop := {
  listen_Ok a n p n' : net_Listen a n = (Ok p, n') -> p ∉ bound n /\ bound n' = {[p]} ∪ bound n;
  listen_Err a n e n' : net_Listen a n = (Err e, n') -> bound n' = bound n;
  close_bound p n : bound (net_Close p n) = bound n ∖ {[p]}
}.

Record ServerOptions := mkServerOptions {
  so_Name : string; so_UID : Z; so_GID : Z; so_ReadOnly : bool; so_Port : Z; so_MountPort : Z;
  so_Hostname : string; so_Debug : bool; so_UsePortmapper : bool; so_UseRecordMarking : bool
}.

Definition set_Port (p : Z) (o : ServerOptions) : ServerOptions :=
  mkServerOptions (so_Name o) (so_UID o) (so_GID o) (so_ReadOnly o) p (so_MountPort o) (so_Hostname o)
    (so_Debug o) (so_UsePortmapper o) (so_UseRecordMarking o).
Definition set_Hostname (h : string) (o : ServerOptions) : ServerOptions :=
  mkServerOptions (so_Name o) (so_UID o) (so_GID o) (so_ReadOnly o) (so_Port o) (so_MountPort o) h
    (so_Debug o) (so_UsePortmapper o) (so_UseRecordMarking o).
Definition set_UseRecordMarking (b : bool) (o : ServerOptions) : ServerOptions :=
  mkServerOptions (so_Name o) (so_UID o) (so_GID o) (so_ReadOnly o) (so_Port o) (so_MountPort o) (so_Hostname o)
    (so_Debug o) (so_UsePortmapper o) b.

(** The options of the handler that [Listen] reads. *)
Record Handler := mkHandler { h_tuning : TuningOptions; h_policy : PolicyOptions }.

(** [listener] and [pmListener] are open listeners; [idleLoop] and [acceptLoop]
    tell which goroutines run until [ctx] is cancelled. *)
Record Server := mkServer {
  sv_options : ServerOptions;
  sv_handler : option Handler;
  listener : option Z;
  sv_portmapper : option Portmapper;
  pmListener : option Z;
  ctxCancelled : bool;
  idleLoop : bool;
  acceptLoop : bool
}.

Definition NewServer (o : ServerOptions) : result Server :=
  if so_Port o <? 0 then Err (ErrorString "invalid port")
  else
    let o := if String.eqb (so_Hostname o) "" then set_Hostname "localhost" o else o in
    Ok (mkServer o None None None None false false false).

Definition SetHandler (h : Handler) (s : Server) : Server :=
  mkServer (sv_options s) (Some h) (listener s) (sv_portmapper s) (pmListener s) (ctxCancelled s)
    (idleLoop s) (acceptLoop s).

Definition GetServerPort (s : Server) : Z := so_Port (sv_options s).

Definition with_options (o : ServerOptions) (s : Server) : Server :=
  mkServer o (sv_handler s) (listener s) (sv_portmapper s) (pmListener s) (ctxCancelled s)
    (idleLoop s) (acceptLoop s).
Definition with_listeners (l : option Z) (pm : option Portmapper) (pl : option Z) (s : Server) : Server :=
  mkServer (sv_options s) (sv_handler s) l pm pl (ctxCancelled s) (idleLoop s) (acceptLoop s).
Definition with_loops (idle accept : bool) (s : Server) : Server :=
  mkServer (sv_options s) (sv_handler s) (listener s) (sv_portmapper s) (pmListener s) (ctxCancelled s)
    idle accept.

Section Lifecycle.
Context {Disk Cert Pool N : Type} `{Pki Disk Cert Pool} `{Network N}.
Variable disk : Disk.

(** The TLS part of [Listen]: whether the listener is a TLS one. *)
Definition listen_tls (policy : PolicyOptions) : result bool :=
  match p_TLS policy with
  | Some tc =>
      if tls_Enabled tc then
        match (BuildConfig disk (mkTLSState (Cert := Cert) (Pool := Pool) tc None None)).1 with
        | Err err => Err (wrapError "failed to build TLS config" err)
        | Ok _ => Ok true
        end
      else Ok false
  | None => Ok false
  end.

(** [Listen]: the sweep of idle connections is started before the port is
    bound. *)
Definition Listen (s : Server) (net : N) : option error * Server * N :=
  match sv_handler s with
  | None => (Some (ErrorString "no handler set"), s, net)
  | Some h =>
      let s := with_loops (idleLoop s || (0 <? IdleTimeout (h_tuning h))) (acceptLoop s) s in
      let addr := so_Hostname (sv_options s) +:+ ":" +:+ dec_int (so_Port (sv_options s)) in
      match listen_tls (h_policy h) with
      | Err err => (Some err, s, net)
      | Ok _ =>
          match net_Listen addr net with
          | (Err err, net) => (Some (wrapError "failed to listen on" err), s, net)
          | (Ok port, net) =>
              let s := if so_Port (sv_options s) =? 0 then with_options (set_Port port (sv_options s)) s else s in
              (None, with_loops (idleLoop s) true (with_listeners (Some port) (sv_portmapper s) (pmListener s) s), net)
          end
      end
  end.

Definition close_opt (l : option Z) (net : N) : N := match l with Some p => net_Close p net | None => net end.

(** The registrations of [StartWithPortmapper]. *)
Definition register_services (o : ServerOptions) (pm : Portmapper) : Portmapper :=
  let nfsPort := if u32 (so_Port o) =? 0 then 2049 else u32 (so_Port o) in
  let mountPort := if u32 (so_MountPort o) =? 0 then nfsPort else u32 (so_MountPort o) in
  RegisterService MOUNT_PROGRAM MOUNT_V3 IPPROTO_TCP mountPort
    (RegisterService MOUNT_PROGRAM 1 IPPROTO_TCP mountPort
       (RegisterService NFS_PROGRAM NFS_V3 IPPROTO_TCP nfsPort pm)).

Definition StartWithPortmapper (s : Server) (net : N) : option error * Server * N :=
  match sv_handler s with
  | None => (Some (ErrorString "no handler set"), s, net)
  | Some _ =>
      let s := with_options (set_UseRecordMarking true (sv_options s)) s in
      let pm := SetListenAddr (so_Hostname (sv_options s)) NewPortmapper in
      match net_Listen (":" +:+ dec_int PortmapperPort) net with
      | (Err err, net) =>
          (Some (wrapError "failed to start portmapper" (wrapError "failed to listen on port" err)),
           with_listeners (listener s) (Some pm) (pmListener s) s, net)
      | (Ok pmPort, net) =>
          let pm := StartOnPort PortmapperPort pm in
          let s := with_listeners (listener s) (Some pm) (Some pmPort) s in
          match Listen s net with
          | (Some err, s, net) =>
              (Some err, with_listeners (listener s) (sv_portmapper s) None s, net_Close pmPort net)
          | (None, s, net) =>
              (None, with_listeners (listener s) (Some (register_services (sv_options s) pm)) (pmListener s) s, net)
          end
      end
  end.

(** [Stop]: the goroutines end, both listeners are closed. *)
Definition Stop (s : Server) (net : N) : Server * N :=
  (mkServer (sv_options s) (sv_handler s) None (sv_portmapper s) None true false false,
   close_opt (listener s) (close_opt (pmListener s) net)).

(** ** [Export], [Unexport] *)

(** The fields of [AbsfsNFS] involved. *)
Record Exporter := mkExporter { ex_handler : Handler; mountPath : string; exportServer : option Server }.

Definition Export (path : string) (port : Z) (e : Exporter) (net : N) : option error * Exporter * N :=
  if String.eqb path "" then (Some (ErrorString "empty mount path"), e, net)
  else if port <? 0 then (Some (ErrorString "invalid port"), e, net)
  else
    let e := mkExporter (ex_handler e) path (exportServer e) in
    match NewServer (mkServerOptions "absfs" 0 0 (ReadOnly (h_policy (ex_handler e))) port 0 "localhost" false
                       false false) with
    | Err err => (Some err, e, net)
    | Ok server =>
        match Listen (SetHandler (ex_handler e) server) net with
        | (Some err, _, net) => (Some err, e, net)
        | (None, server, net) => (None, mkExporter (ex_handler e) path (Some server), net)
        end
    end.

(** What [Unexport] and [Close] do to the server [Export] created; the rest of
    both is [Updates.Close]. *)
Definition stop_export (e : Exporter) (net : N) : Exporter * N :=
  match exportServer e with
  | Some server => (mkExporter (ex_handler e) (mountPath e) None, (Stop server net).2)
  | None => (e, net)
  end.
End Lifecycle.

(** ** Lemmas *)

Section LifecycleFacts.
Context {Disk Cert Pool N : Type} `{Pki Disk Cert Pool} `{NetworkLaws N}.
Variable disk : Disk.
#[local] Abbreviation Listen := (Listen (Disk := Disk) (Cert := Cert) (Pool := Pool) (N := N) disk).
#[local] Abbreviation StartWithPortmapper := (StartWithPortmapper (Disk := Disk) (Cert := Cert) (Pool := Pool) (N := N) disk).
#[local] Abbreviation Export := (Export (Disk := Disk) (Cert := Cert) (Pool := Pool) (N := N) disk).

(** [Listen] binds one port, or none when it fails. *)
Lemma Listen_bound s net :
  match Listen s net with
  | (Some _, s', net') =>
      bound net' = bound net /\ listener s' = listener s /\ pmListener s' = pmListener s
  | (None, s', net') =>
      exists port, port ∉ bound net /\ bound net' = {[port]} ∪ bound net /\
        listener s' = Some port /\ pmListener s' = pmListener s /\ sv_handler s' = sv_handler s /\
        (so_Port (sv_options s) = 0 -> so_Port (sv_options s') = port) /\
        (so_Port (sv_options s) <> 0 -> sv_options s' = sv_options s) /\
        so_MountPort (sv_options s') = so_MountPort (sv_options s) /\
        so_UseRecordMarking (sv_options s') = so_UseRecordMarking (sv_options s) /\ acceptLoop s' = true
  end.
Proof.
  unfold Listen. destruct (sv_handler s) as [h|] eqn:Eh; [|done].
  destruct (listen_tls disk (h_policy h)); [|done]. simpl.
  destruct (net_Listen _ net) as [[port|e] net'] eqn:E; [|by apply listen_Err in E].
  apply listen_Ok in E as [Hp Hb]. exists port.
  destruct (Z.eqb_spec (so_Port (sv_options s)) 0); simpl; rewrite ?Eh; naive_solver.
Qed.

Lemma Stop_bound s (net : N) :
  bound (Stop s net).2 = bound net ∖ (option_to_set (listener s) ∪ option_to_set (pmListener s) : gset Z).
Proof. unfold Stop, close_opt. destruct (listener s), (pmListener s); simpl; rewrite ?close_bound; set_solver. Qed.

(** The ports [StartWithPortmapper] announces. *)
Definition announced_nfs (o : ServerOptions) : Z := if u32 (so_Port o) =? 0 then 2049 else u32 (so_Port o).
Definition announced_mount (o : ServerOptions) : Z :=
  if u32 (so_MountPort o) =? 0 then announced_nfs o else u32 (so_MountPort o).

Lemma register_services_ports o h :
  let pm := register_services o (StartOnPort PortmapperPort (SetListenAddr h NewPortmapper)) in
  GetPort NFS_PROGRAM NFS_V3 IPPROTO_TCP pm = announced_nfs o /\
  GetPort MOUNT_PROGRAM 1 IPPROTO_TCP pm = announced_mount o /\
  GetPort MOUNT_PROGRAM MOUNT_V3 IPPROTO_TCP pm = announced_mount o.
Proof. cbv zeta. split; [reflexivity|]. split; reflexivity. Qed.

(** ** Properties *)

(** C26: starting and stopping leave no listener behind.  When
    [StartWithPortmapper] fails, the ports on which anybody listens are those
    from before; when it succeeds, the server and the portmapper listen, record
    marking is on, the portmapper announces NFS v3 and MOUNT v1 and v3 at the
    ports of the options, and [Stop] gives both ports back. *)
Theorem start_stop_balanced s net :
  listener s = None -> pmListener s = None ->
  match StartWithPortmapper s net with
  | (Some _, s', net') => bound net' = bound net /\ listener s' = None
  | (None, s', net') =>
      (exists port pmPort, port <> pmPort /\ bound net' = {[port; pmPort]} ∪ bound net /\
         (so_Port (sv_options s) = 0 -> so_Port (sv_options s') = port)) /\
      so_UseRecordMarking (sv_options s') = true /\
      (exists pm, sv_portmapper s' = Some pm /\
         GetPort NFS_PROGRAM NFS_V3 IPPROTO_TCP pm = announced_nfs (sv_options s') /\
         GetPort MOUNT_PROGRAM 1 IPPROTO_TCP pm = announced_mount (sv_options s') /\
         GetPort MOUNT_PROGRAM MOUNT_V3 IPPROTO_TCP pm = announced_mount (sv_options s')) /\
      bound (Stop s' net').2 = bound net
  end.
Proof.
  intros Hl Hp. unfold StartWithPortmapper. destruct (sv_handler s) as [h|]; [|done].
  destruct (net_Listen _ net) as [[pmPort|e] net1] eqn:E; [|by apply listen_Err in E].
  apply listen_Ok in E as [Hpm Hb1].
  set (s1 := with_listeners _ _ (Some pmPort) _). pose proof (Listen_bound s1 net1) as HL.
  destruct (Lifecycle.Listen disk s1 net1) as [[[err|] s2] net2].
  - destruct HL as (Hb & Hl2 & _). simpl. rewrite Hl2, close_bound, Hb, Hb1. split; [set_solver|done].
  - destruct HL as (port & Hfree & Hb & Hl2 & Hp2 & _ & Hport & _ & _ & Hrm & _).
    split; [|split; [|split]].
    + simpl. exists port, pmPort. split; [set_solver|]. split; [set_solver|exact Hport].
    + simpl. by rewrite Hrm.
    + eexists. split; [done|]. apply register_services_ports.
    + rewrite Stop_bound. simpl. rewrite Hl2, Hp2, Hb, Hb1. simpl. set_solver.
Qed.

(** [Export] followed by [Unexport] or [Close] leaves no listener. *)
Theorem export_balanced path port e net :
  exportServer e = None ->
  match Export path port e net with
  | (Some _, e', net') => bound net' = bound net /\ exportServer e' = None
  | (None, e', net') => bound (stop_export e' net').2 = bound net
  end.
Proof.
  intros He. unfold Export. destruct (String.eqb path ""); [done|]. destruct (port <? 0) eqn:Ep; [done|].
  unfold NewServer. simpl. rewrite Ep.
  match goal with |- context [Lifecycle.Listen disk ?s net] => pose proof (Listen_bound s net) as HL;
    destruct (Lifecycle.Listen disk s net) as [[[err|] s2] net2] end.
  - by destruct HL as (Hb & _).
  - destruct HL as (p & Hfree & Hb & Hl2 & Hp2 & _). unfold stop_export. simpl exportServer. cbn [snd].
    rewrite Stop_bound, Hl2, Hp2, Hb. simpl. set_solver.
Qed.
End LifecycleFacts.

(** ** Concrete runs *)

(** A network on which a port can be bound once; the server gets 2049. *)
#[local] Instance sample_net : Network (gset Z) := {|
  net_Listen a n :=
    let p := if String.eqb a ":111" then 111 else if String.eqb a "localhost:0" then 40000 else 2049 in
    if decide (p ∈ n) then (Err (ErrorString "address already in use"), n) else (Ok p, {[p]} ∪ n);
  net_Close p n := n ∖ {[p]};
  bound n := n
|}.
#[local] Instance sample_net_laws : NetworkLaws (gset Z).
Proof.
  constructor; simpl.
  - intros a n p n'. case_decide; [done|]. by intros [= <- <-].
  - intros a n e n'. by case_decide; intros [= <- <-].
  - done.
Qed.

#[local] Instance no_pki : Pki unit unit unit := {|
  os_Stat _ _ := Some os_ErrNotExist;
  os_ReadFile _ _ := Err os_ErrNotExist;
  tls_LoadX509KeyPair _ _ _ := Err os_ErrNotExist;
  x509_AppendCertsFromPEM _ := None
|}.

Definition sample_handler : Handler :=
  mkHandler (tuningFromExportOptions empty_options) (policyFromExportOptions empty_options).

Definition sample_nfs_server (mountPort : Z) : Server :=
  mkServer (mkServerOptions "s" 0 0 false 2049 mountPort "localhost" false true false) (Some sample_handler)
    None None None false false false.

Lemma start_stop_balanced_witness :
  match StartWithPortmapper tt (sample_nfs_server 0) (∅ : gset Z) with
  | (None, s', net') => bound (Stop s' net').2 = (∅ : gset Z)
  | (Some _, _, _) => False
  end.
Proof.
  pose proof (start_stop_balanced tt (sample_nfs_server 0) (∅ : gset Z) eq_refl eq_refl) as Hb.
  destruct (StartWithPortmapper tt (sample_nfs_server 0) (∅ : gset Z)) as [[[err|] s'] net'] eqn:E.
  - vm_compute in E. discriminate E.
  - exact (proj2 (proj2 (proj2 Hb))).
Defined.

(** With a mount port of its own the portmapper announces MOUNT on a port where
    nobody listens. *)
Example mount_port_unserved :
  match StartWithPortmapper tt (sample_nfs_server 635) (∅ : gset Z) with
  | (None, s, net) =>
      (GetPort MOUNT_PROGRAM MOUNT_V3 IPPROTO_TCP <$> sv_portmapper s) = Some 635 /\ 635 ∉ bound net
  | _ => False
  end.
Proof. vm_compute. split; [reflexivity|]. intros E. inversion E. Qed.

(** A second [Export] forgets the first server, which goes on listening after
    [Unexport]; and the servers of [Export] do not use record marking. *)
Example export_twice :
  match Export tt "/a" 0 (mkExporter sample_handler "" None) (∅ : gset Z) with
  | (None, e, net) =>
      (so_UseRecordMarking ∘ sv_options <$> exportServer e) = Some false /\
      match Export tt "/b" 2049 e net with
      | (None, e, net) => 40000 ∈ bound (stop_export e net).2
      | _ => False
      end
  | _ => False
  end.
Proof. vm_compute. split; reflexivity. Qed.
