(* ===== verification/Logger.v ===== *)
(** * Logging (src/logger.go, src/absnfs.go SetLogger)

    Construction of the logger from its configuration, filtering by level, the
    closing of its file, and the exchange of the logger in a running server by
    goroutines that interleave: loggers are objects with an address, and each
    step is what the code does under one lock.  The operating system's files are a parameter with
    the set of open descriptors; formatting is log/slog's and left out: a
    logger appends records of level, message and fields to its output. *)

From S2P Require Import Prelude Errors Path Options.
Open Scope Z_scope.

(** Directories and append-only files; [open_files] are the descriptors in
    use. *)
Class LogFiles (W : Type) := {
  os_MkdirAll : string -> W -> option error * W;
  os_OpenAppend : string -> W -> result nat * W;
  file_Close : nat -> W -> option error * W;
  open_files : W -> gset nat
}.

Class LogFilesLaws (W : Type) `{LogFiles W} : Prop := {
  mkdir_files d w : open_files (os_MkdirAll d w).2 = open_files w;
  open_Ok f w h w' : os_OpenAppend f w = (Ok h, w') -> h ∉ open_files w /\ open_files w' = {[h]} ∪ open_files w;
  open_Err f w e w' : os_OpenAppend f w = (Err e, w') -> open_files w' = open_files w;
  close_files h w : open_files (file_Close h w).2 = open_files w ∖ {[h]}
}.

(** [slog.Level] *)
Definition LevelDebug := -4.
Definition LevelInfo := 0.
Definition LevelWarn := 4.
Definition LevelError := 8.

Definition parseLogLevel (level : string) : Z :=
  if String.eqb level "debug" then LevelDebug
  else if String.eqb level "info" || String.eqb level "" then LevelInfo
  else if String.eqb level "warn" || String.eqb level "warning" then LevelWarn
  else if String.eqb level "error" then LevelError
  else LevelInfo.

Record LogField := mkLogField { Key : string; Value : string }.
Record LogRecord := mkLogRecord { lr_level : Z; lr_msg : string; lr_fields : list LogField }.

Inductive log_format := FormatJSON | FormatText.
Inductive log_output := Stderr | Stdout | LogFile (h : nat).

(** [writer] is the file to close, if the output is one; [logged] what was
    handed to the output. *)
Record SlogLogger := mkSlogLogger {
  sl_level : Z;
  sl_format : log_format;
  sl_output : log_output;
  sl_writer : option nat;
  sl_closed : bool;
  logged : list LogRecord
}.

(** [filepath.Dir]: what precedes the last separator, cleaned. *)
Definition filepath_Dir (p : string) : string :=
  path_Clean (match removelast (split_slash p) with
              | [] => EmptyString
              | l => join_slash l +:+ "/"
              end).

Section Logger.
Context {W : Type} `{LogFiles W}.

Definition NewSlogLogger (config : option LogConfig) (w : W) : result SlogLogger * W :=
  match config with
  | None => (Err (ErrorString "log config cannot be nil"), w)
  | Some config =>
      let level := parseLogLevel (Level config) in
      let finish (out : log_output) (closer : option nat) (w : W) :=
        if String.eqb (Format config) "json"
        then (Ok (mkSlogLogger level FormatJSON out closer false []), w)
        else if String.eqb (Format config) "text" || String.eqb (Format config) ""
        then (Ok (mkSlogLogger level FormatText out closer false []), w)
        else (Err (ErrorString "unsupported log format"),
              match closer with Some h => (file_Close h w).2 | None => w end) in
      if String.eqb (Output config) "" || String.eqb (Output config) "stderr" then finish Stderr None w
      else if String.eqb (Output config) "stdout" then finish Stdout None w
      else
        match os_MkdirAll (filepath_Dir (Output config)) w with
        | (Some err, w) => (Err (wrapError "failed to create log directory" err), w)
        | (None, w) =>
            match os_OpenAppend (Output config) w with
            | (Err err, w) => (Err (wrapError "failed to open log file" err), w)
            | (Ok h, w) => finish (LogFile h) (Some h) w
            end
        end
  end.

(** [log]: slog drops records below the level of the handler. *)
Definition sl_log (level : Z) (msg : string) (fields : list LogField) (l : SlogLogger) : SlogLogger :=
  if sl_level l <=? level
  then mkSlogLogger (sl_level l) (sl_format l) (sl_output l) (sl_writer l) (sl_closed l)
         (logged l ++ [mkLogRecord level msg fields])
  else l.

Definition Debug_ := sl_log LevelDebug.
Definition Info_ := sl_log LevelInfo.
Definition Warn_ := sl_log LevelWarn.
Definition Error_ := sl_log LevelError.

Definition SlogLogger_Close (l : SlogLogger) (w : W) : option error * SlogLogger * W :=
  if sl_closed l then (None, l, w)
  else
    let l := mkSlogLogger (sl_level l) (sl_format l) (sl_output l) (sl_writer l) true (logged l) in
    match sl_writer l with
    | Some h => let '(err, w) := file_Close h w in (err, l, w)
    | None => (None, l, w)
    end.

(** The logger of a server: a [*SlogLogger], given by its address, or one of
    the application's. *)
Inductive Logger := Slog (a : nat) | Noop | Custom.

(** The loggers that were built, by address, and the one the server has.
    [built] are those no server has been given yet: they are in the hands of
    the goroutine that built them.  [closing] are the loggers that calls of
    [Close] have read and not closed yet. *)
Record LogState := mkLogState {
  loggers : gmap nat SlogLogger;
  structuredLogger : Logger;
  built : gset nat;
  closing : list Logger;
  disk : W
}.

(** A logger built here is closed, another one left alone. *)
Definition close_slog (l : Logger) (st : LogState) : option error * LogState :=
  match l with
  | Slog a =>
      match loggers st !! a with
      | Some sl =>
          let '(err, sl, w) := SlogLogger_Close sl (disk st) in
          (err, mkLogState (<[a := sl]> (loggers st)) (structuredLogger st) (built st) (closing st) w)
      | None => (None, st)
      end
  | _ => (None, st)
  end.

(** [NewSlogLogger] as a goroutine calls it: the logger gets an address. *)
Definition build_logger (config : LogConfig) (st : LogState) : result nat * LogState :=
  match NewSlogLogger (Some config) (disk st) with
  | (Err err, w) => (Err err, mkLogState (loggers st) (structuredLogger st) (built st) (closing st) w)
  | (Ok sl, w) =>
      let a := fresh (dom (loggers st)) in
      (Ok a, mkLogState (<[a := sl]> (loggers st)) (structuredLogger st) ({[a]} ∪ built st) (closing st) w)
  end.

Definition install (l : Logger) (st : LogState) : LogState :=
  mkLogState (loggers st) l (match l with Slog a => built st ∖ {[a]} | _ => built st end) (closing st) (disk st).

(** [SetLogger], under loggerMu: a logger built here is closed before it is
    replaced; nil stands for the logger that discards everything. *)
Definition SetLogger (logger : option Logger) (st : LogState) : LogState :=
  let '(_, st) := close_slog (structuredLogger st) st in install (default Noop logger) st.

(** The logger of [New]; [statErr] is the error of its [fs.Stat("/")], which
    comes after the logger has been opened. *)
Definition New_logger (config : option LogConfig) (statErr : option error) (w : W) : option error * LogState :=
  let st := mkLogState ∅ Noop ∅ [] w in
  match config with
  | None => (statErr, st)
  | Some config =>
      match build_logger config st with
      | (Err err, st) => (Some (wrapError "failed to create logger" err), st)
      | (Ok a, st) => match statErr with Some err => (Some err, st) | None => (None, install (Slog a) st) end
      end
  end.

(** The logging part of [applyTuningSideEffects]: a configuration that cannot
    be opened leaves the old logger; the exchange is under loggerMu. *)
Definition update_logger (old updated : option LogConfig) (st : LogState) : LogState :=
  match updated with
  | None => st
  | Some config =>
      if bool_decide (old = Some config) then st
      else
        match build_logger config st with
        | (Err _, st) => st
        | (Ok a, st) => let '(_, st) := close_slog (structuredLogger st) st in install (Slog a) st
        end
  end.

(** The end of [AbsfsNFS.Close]: the logger is read under loggerMu and closed
    after the lock has been released. *)
Definition Close_read (st : LogState) : LogState :=
  mkLogState (loggers st) (structuredLogger st) (built st) (closing st ++ [structuredLogger st]) (disk st).

Definition Close_run (i : nat) (st : LogState) : option error * LogState :=
  match closing st !! i with
  | Some l =>
      let '(err, st) := close_slog l
        (mkLogState (loggers st) (structuredLogger st) (built st) (delete i (closing st)) (disk st)) in
      (wrapError "failed to close logger" <$> err, st)
  | None => (None, st)
  end.


(** What goroutines do with the loggers of a server, each step atomic under
    the lock the code holds: log to a logger obtained before, build one,
    exchange the server's, close one of the application's own, and the two
    halves of [Close]. *)
Inductive log_event :=
  | LogMessage (a : nat) (level : Z) (msg : string) (fields : list LogField)
  | LogBuild (config : LogConfig)
  | LogSet (logger : option Logger)
  | LogUpdate (old updated : option LogConfig)
  | LogCloseOwn (a : nat)
  | LogCloseRead
  | LogCloseRun (i : nat).

(** References are to loggers that exist. *)
Definition known (st : LogState) (l : option Logger) : bool :=
  match l with Some (Slog a) => bool_decide (a ∈ dom (loggers st)) | _ => true end.

Definition log_step (st : LogState) (e : log_event) : LogState :=
  match e with
  | LogMessage a lv m fs =>
      mkLogState (alter (sl_log lv m fs) a (loggers st)) (structuredLogger st) (built st) (closing st) (disk st)
  | LogBuild config => (build_logger config st).2
  | LogSet l => if known st l then SetLogger l st else st
  | LogUpdate old updated => update_logger old updated st
  | LogCloseOwn a => (close_slog (Slog a) st).2
  | LogCloseRead => Close_read st
  | LogCloseRun i => (Close_run i st).2
  end.
End Logger.
Arguments LogState : clear implicits.

(** ** Lemmas *)

#[local] Arguments NewSlogLogger : simpl never.

Section LoggerFacts.
Context {W : Type} `{LogFilesLaws W}.

(** The descriptor a logger still holds. *)
Definition holds (l : SlogLogger) : gset nat :=
  if sl_closed l then ∅ else option_to_set (sl_writer l).



Lemma SlogLogger_Close_files l w :
  let '(_, l', w') := SlogLogger_Close l w in
  open_files w' = open_files w ∖ holds l /\ holds l' = ∅ /\ sl_closed l' = true.
Proof.
  unfold SlogLogger_Close, holds. destruct (sl_closed l) eqn:E; simpl; [rewrite E; split; [set_solver|done]|].
  destruct (sl_writer l) as [h|]; simpl; [|split; [set_solver|done]].
  pose proof (close_files h w) as Hc. destruct (file_Close h w) as [err w']. simpl in *. split; [done|done].
Qed.










(** ** Properties *)


(** Closing is idempotent, and only records of the configured level or above
    are written. *)
Theorem logger_close_once l w :
  let '(_, l1, w1) := SlogLogger_Close l w in SlogLogger_Close l1 w1 = (None, l1, w1).
Proof.
  pose proof (SlogLogger_Close_files l w) as Hc. destruct (SlogLogger_Close l w) as [[e l1] w1].
  destruct Hc as (_ & _ & Hcl). unfold SlogLogger_Close. by rewrite Hcl.
Qed.

Theorem logger_level_filter msgs l :
  Forall (fun r => sl_level l <= lr_level r) (logged l) ->
  let l' := foldl (fun l m => sl_log m.1.1 m.1.2 m.2 l) l msgs in
  sl_level l' = sl_level l /\ Forall (fun r => sl_level l <= lr_level r) (logged l').
Proof.
  revert l. induction msgs as [|[[lv m] fs] msgs IH]; intros l Hl; [done|]. simpl.
  assert (sl_level (sl_log lv m fs l) = sl_level l) as E by (unfold sl_log; by case_match).
  rewrite <- E. apply IH. rewrite E. unfold sl_log. destruct (Z.leb_spec (sl_level l) lv); [|done].
  simpl. apply Forall_app. split; [done|]. by repeat constructor.
Qed.
End LoggerFacts.

(** A system on which every file can be opened, as the set of descriptors in
    use. *)
#[export] Instance any_files : LogFiles (gset nat) := {|
  os_MkdirAll := fun _ w => (None, w);
  os_OpenAppend := fun _ w => (Ok (fresh w), {[fresh w]} ∪ w);
  file_Close := fun h w => (None, w ∖ {[h]});
  open_files := fun w => w
|}.

#[export] Instance any_files_laws : LogFilesLaws (gset nat).
Proof.
  split; [done| |done|done]. intros f w h w' [= <- <-]. split; [apply is_fresh|done].
Qed.

Definition file_config : LogConfig := mkLogConfig "info" "json" "/var/log/nfs.log" false false false 0 0 0 false.


(** [New] that fails at [fs.Stat] leaves the file of the logger it had made
    open, and no reference to it. *)
Example New_failure_leaves_log_open :
  let '(err, st) := New_logger (W := gset nat) (Some file_config) (Some (ErrorString "denied")) ∅ in
  err = Some (ErrorString "denied") /\ elements (disk st) = [0%nat] /\ structuredLogger st = Noop.
Proof. vm_compute. repeat split; reflexivity. Qed.

(** A change of the logging options between the two halves of [Close]: the
    file of the new logger is open when [Close] returns. *)
Example Close_races_update :
  let st := (New_logger (W := gset nat) (Some file_config) None ∅).2 in
  let run es := elements (disk (foldl log_step st es)) in
  (run [LogUpdate None (Some file_config); LogCloseRead; LogCloseRun 0],
   length (run [LogCloseRead; LogUpdate None (Some file_config); LogCloseRun 0])) = ([], 1%nat).
Proof. vm_compute. reflexivity. Qed.
