(* ===== verification/SafeMount.v ===== *)
(** * Mounts of the integration tests (src/integration_test_safety.go)

    [SafeTestMount] drives the host with commands run as root, among them
    [rm -rf], and guards them with checks on the path and on the table of
    mounts.  The host is a parameter that may answer anything and change between
    two questions; what the wrapper asks and runs is recorded in a trace. *)

From S2P Require Import Prelude Errors Path Tls Logger.
Open Scope Z_scope.

(** The commands and file operations with an effect. *)
Inductive command :=
  | MkdirP (p : string)
  | WriteMarker (f content : string)
  | MountNfs (opts target p : string)
  | Umount (p : string)
  | UmountForce (p : string)
  | DiskutilUnmount (p : string)
  | RmRf (p : string)
  | RemoveFile (f : string).

(** What a command acts on. *)
Definition command_path (c : command) : string :=
  match c with
  | MkdirP p | WriteMarker p _ | MountNfs _ _ p | Umount p | UmountForce p | DiskutilUnmount p
  | RmRf p | RemoveFile p => p
  end.

Class Host (W : Type) := {
  host_Stat : string -> W -> result bool * W;
  host_ReadDir : string -> W -> result (list string) * W;
  host_mounts : W -> result string * W;
  host_run : command -> W -> option error * W
}.

Record SafeTestMount := mkSafeTestMount {
  SessionID : string;
  MountPoint : string;
  MarkerFile : string;
  NFSPort : Z;
  sm_MountPort : Z;
  sm_LogFile : string
}.

(** ** Validation of paths *)

Definition is_name_char (c : Ascii.ascii) : bool :=
  let n := Ascii.nat_of_ascii c in
  ((97 <=? n)%nat && (n <=? 122)%nat) || ((65 <=? n)%nat && (n <=? 90)%nat) ||
  ((48 <=? n)%nat && (n <=? 57)%nat) || (n =? 95)%nat || (n =? 45)%nat.

(** [[a-zA-Z0-9_-]+] *)
Definition is_test_name (s : string) : bool :=
  negb (String.eqb s "") && forallb is_name_char (String.list_ascii_of_string s).

(** A pattern is a fixed prefix followed by a name. *)
Definition allowedMountPatterns : list string :=
  ["/Volumes/absnfs-"; "/tmp/absnfs-"; "/private/tmp/absnfs-"]%string.

Definition matches (prefix s : string) : bool :=
  str_prefix prefix s && is_test_name (str_drop (String.length prefix) s).

Definition blockedPaths : list string :=
  ["/"; "/Applications"; "/Library"; "/System"; "/Users"; "/Volumes"; "/bin"; "/boot"; "/dev"; "/etc";
   "/home"; "/lib"; "/lib64"; "/opt"; "/private"; "/proc"; "/root"; "/sbin"; "/sys"; "/tmp"; "/usr";
   "/var"]%string.

(** The loop over the blocked paths. *)
Fixpoint check_blocked (cleanPath : string) (bs : list string) : option error :=
  match bs with
  | [] => None
  | blocked :: bs =>
      if String.eqb cleanPath blocked then Some (ErrorString "BLOCKED: path is a protected system path")
      else if str_prefix (blocked +:+ "/") cleanPath && negb (String.eqb blocked "/mnt") &&
              negb (String.eqb blocked "/tmp") && negb (String.eqb blocked "/Volumes")
      then Some (ErrorString "BLOCKED: path is under protected system path")
      else check_blocked cleanPath bs
  end.

Definition validatePath (path : string) : option error :=
  if negb (str_prefix "/" path) then Some (ErrorString "path must be absolute")
  else
    let cleanPath := path_Clean path in
    match check_blocked cleanPath blockedPaths with
    | Some err => Some err
    | None =>
        if existsb (fun p => matches p cleanPath) allowedMountPatterns then None
        else Some (ErrorString "path does not match allowed patterns")
    end.

(** [stamp] is the formatted time. *)
Definition NewSafeTestMount (stamp : string) (pid nfsPort mountPort : Z) : result SafeTestMount :=
  let sessionID := "absnfs-" +:+ stamp +:+ "-" +:+ dec_int pid in
  let mountPoint := path_Join "/Volumes" sessionID in
  let markerFile := path_Join "/tmp" (".absnfs-marker-" +:+ sessionID) in
  match validatePath mountPoint with
  | Some err => Err (wrapError "invalid mount point" err)
  | None =>
      Ok (mkSafeTestMount sessionID mountPoint markerFile nfsPort mountPort "/tmp/absnfs-test-operations.log")
  end.

Definition SafePath (s : SafeTestMount) (relativePath : string) : result string :=
  let cleanRel := path_Clean relativePath in
  if str_prefix "/" cleanRel then Err (ErrorString "relative path required, got absolute")
  else if str_prefix ".." cleanRel || str_contains cleanRel "/../" then
    Err (ErrorString "path traversal not allowed")
  else
    let fullPath := path_Join (MountPoint s) cleanRel in
    if negb (str_prefix (MountPoint s +:+ "/") fullPath) && negb (String.eqb fullPath (MountPoint s))
    then Err (ErrorString "path escape detected")
    else Ok fullPath.

Definition newline : string := String (Ascii.ascii_of_nat 10) EmptyString.

(** ** Operations *)

(** [Looked]: the table of mounts was read; [Logged]: an entry for the log of
    operations, without the time and the text of errors. *)
Inductive event :=
  | Ran (c : command)
  | Looked (out : result string)
  | Logged (operation details : string).

Record Run (W : Type) := mkRun { world : W; trace : list event; IsMounted : bool }.
Arguments mkRun {W}.
Arguments world {W}.
Arguments trace {W}.
Arguments IsMounted {W}.

(** A function that returns an error leaves with the first one. *)
Definition Op (W A : Type) : Type := Run W -> result A * Run W.
#[export] Instance Op_ret {W} : MRet (Op W) := fun A a r => (Ok a, r).
#[export] Instance Op_bind {W} : MBind (Op W) := fun A B f m r =>
  match m r with (Ok a, r) => f a r | (Err e, r) => (Err e, r) end.

Definition fail {W A} (e : error) : Op W A := fun r => (Err e, r).
(** The outcome of a call as a value, for a caller that looks at the error. *)
Definition attempt {W A} (m : Op W A) : Op W (result A) := fun r => let '(a, r) := m r in (Ok a, r).
Definition guard (b : bool) {W} (e : error) : Op W unit := if b then mret tt else fail e.
Definition or_wrap {W A} (msg : string) (m : Op W A) : Op W A := fun r =>
  match m r with (Err e, r) => (Err (wrapError msg e), r) | ok => ok end.

Section Operations.
Context {W : Type} `{Host W}.

Definition os_Stat (p : string) : Op W bool := fun r =>
  let '(a, w) := host_Stat p (world r) in (a, mkRun w (trace r) (IsMounted r)).
Definition os_ReadDir (p : string) : Op W (list string) := fun r =>
  let '(a, w) := host_ReadDir p (world r) in (a, mkRun w (trace r) (IsMounted r)).
Definition run_command (c : command) : Op W unit := fun r =>
  let '(e, w) := host_run c (world r) in
  (match e with Some e => Err e | None => Ok tt end, mkRun w (trace r ++ [Ran c]) (IsMounted r)).
Definition log (operation details : string) : Op W unit := fun r =>
  (Ok tt, mkRun (world r) (trace r ++ [Logged operation details]) (IsMounted r)).
Definition set_IsMounted (b : bool) : Op W unit := fun r => (Ok tt, mkRun (world r) (trace r) b).

Variable s : SafeTestMount.

(** Whether the table of mounts lists the mount point; a table that could not be
    read counts as one that does not. *)
Definition listed (out : result string) : bool :=
  match out with Err _ => false | Ok out => str_contains out (" " +:+ MountPoint s +:+ " ") end.

Definition checkMounted : Op W bool := fun r =>
  let '(out, w) := host_mounts (world r) in
  (Ok (listed out), mkRun w (trace r ++ [Looked out]) (IsMounted r)).

Definition validate : Op W unit :=
  match validatePath (MountPoint s) with Some e => fail e | None => mret tt end.

Definition Prepare : Op W unit :=
  log "SESSION_START" (SessionID s) ≫= fun _ =>
  validate ≫= fun _ =>
  attempt (os_Stat (MountPoint s)) ≫= fun st =>
  guard (negb (is_ok st)) (ErrorString "SAFETY: mount point already exists") ≫= fun _ =>
  attempt (os_Stat (filepath_Dir (MountPoint s))) ≫= fun base =>
  guard (match base with Err e => negb (os_IsNotExist e) | Ok _ => true end)
    (ErrorString "base directory does not exist") ≫= fun _ =>
  log "CREATE_MOUNTPOINT" (MountPoint s) ≫= fun _ =>
  or_wrap "failed to create mount point" (run_command (MkdirP (MountPoint s))) ≫= fun _ =>
  or_wrap "failed to create marker file"
    (run_command (WriteMarker (MarkerFile s) ("SESSION=" +:+ SessionID s +:+ newline))) ≫= fun _ =>
  or_wrap "failed to read mount point" (os_ReadDir (MountPoint s)) ≫= fun entries =>
  guard (bool_decide (entries = [])) (ErrorString "SAFETY: mount point is not empty").

Definition Mount : Op W unit :=
  validate ≫= fun _ =>
  attempt (os_Stat (MountPoint s)) ≫= fun info =>
  guard (is_ok info) (ErrorString "mount point does not exist") ≫= fun _ =>
  guard (match info with Ok isDir => isDir | Err _ => false end)
    (ErrorString "mount point is not a directory") ≫= fun _ =>
  or_wrap "failed to read mount point" (os_ReadDir (MountPoint s)) ≫= fun entries =>
  guard (bool_decide (entries = [])) (ErrorString "SAFETY: mount point is not empty") ≫= fun _ =>
  checkMounted ≫= fun m =>
  guard (negb m) (ErrorString "SAFETY: something is already mounted") ≫= fun _ =>
  log "MOUNT" (MountPoint s) ≫= fun _ =>
  or_wrap "mount failed"
    (run_command (MountNfs ("resvport,nolocks,vers=3,tcp,port=" +:+ dec_int (NFSPort s) +:+ ",mountport=" +:+
                            dec_int (sm_MountPort s)) "localhost:/" (MountPoint s))) ≫= fun _ =>
  checkMounted ≫= fun m =>
  guard m (ErrorString "mount verification failed: not mounted") ≫= fun _ =>
  set_IsMounted true.

(** One attempt to unmount, if still mounted; its error is ignored. *)
Definition try_unmount (c : command) : Op W unit :=
  checkMounted ≫= fun m =>
  if (m : bool) then attempt (run_command c) ≫= fun _ => mret tt else mret tt.

Definition Unmount : Op W unit :=
  validate ≫= fun _ =>
  checkMounted ≫= fun m =>
  if negb (m : bool) then set_IsMounted false
  else
    log "UNMOUNT" (MountPoint s) ≫= fun _ =>
    attempt (run_command (Umount (MountPoint s))) ≫= fun _ =>
    try_unmount (UmountForce (MountPoint s)) ≫= fun _ =>
    try_unmount (DiskutilUnmount (MountPoint s)) ≫= fun _ =>
    checkMounted ≫= fun m =>
    guard (negb m) (ErrorString "failed to unmount: still mounted") ≫= fun _ =>
    set_IsMounted false.

(** [if _, err := os.Stat(p); err == nil { m }] *)
Definition if_exists (p : string) (m : Op W unit) : Op W unit :=
  attempt (os_Stat p) ≫= fun st => if is_ok st then m else mret tt.

Definition Cleanup : Op W unit :=
  validate ≫= fun _ =>
  checkMounted ≫= fun m =>
  guard (negb m) (ErrorString "SAFETY: cannot cleanup - still mounted") ≫= fun _ =>
  log "CLEANUP" (MountPoint s) ≫= fun _ =>
  if_exists (MountPoint s)
    (or_wrap "failed to remove mount point" (run_command (RmRf (MountPoint s)))) ≫= fun _ =>
  if_exists (MarkerFile s)
    (attempt (run_command (RemoveFile (MarkerFile s))) ≫= fun _ => mret tt) ≫= fun _ =>
  attempt (os_Stat (MountPoint s)) ≫= fun st =>
  guard (negb (is_ok st)) (ErrorString "cleanup verification failed: mount point still exists") ≫= fun _ =>
  log "SESSION_END" (SessionID s).

Definition MustCleanup : Op W unit := fun r =>
  let r := (if IsMounted r then (attempt Unmount r).2 else r) in
  (attempt Cleanup ≫= fun c =>
   match c with Err _ => log "CLEANUP_FAILED" (MountPoint s) | Ok _ => mret tt end) r.

Definition VerifyMounted : Op W unit :=
  checkMounted ≫= fun m => guard m (ErrorString "not mounted").

(** The methods, and a test that calls them in some order. *)
Inductive method := CallPrepare | CallMount | CallUnmount | CallCleanup | CallMustCleanup | CallVerifyMounted.

Definition call_method (m : method) : Op W unit :=
  match m with
  | CallPrepare => Prepare
  | CallMount => Mount
  | CallUnmount => Unmount
  | CallCleanup => Cleanup
  | CallMustCleanup => MustCleanup
  | CallVerifyMounted => VerifyMounted
  end.

Definition session (w : W) (ms : list method) : Run W :=
  foldl (fun r m => (call_method m r).2) (mkRun w [] false) ms.
End Operations.

(** ** Lemmas: paths *)

Lemma str_prefix_split p x : str_prefix p x = true -> x = p +:+ str_drop (String.length p) x.
Proof.
  revert x. induction p as [|c p IH]; intros x Hp; [done|]. destruct x as [|d x]; [done|].
  cbn [str_prefix] in Hp. apply andb_prop in Hp as [->%Ascii.eqb_eq Hp]. rewrite str_app_cons. cbn. f_equal. by apply IH.
Qed.

Lemma matches_spec p x : matches p x = true <-> exists n, is_test_name n = true /\ x = p +:+ n.
Proof.
  unfold matches. rewrite andb_true_iff. split.
  - intros [Hp Hn]. eexists. split; [done|]. by apply str_prefix_split.
  - intros (n & Hn & ->). by rewrite str_prefix_app, str_drop_app.
Qed.

(** ** Traces *)

(** What [checkMounted] last answered, if no command was run since; [None] when
    the removal was run without a negative answer.  A [mount] command that
    fails is a negative answer. *)
Definition watch_step (s : SafeTestMount) (st : option (option bool)) (e : event) : option (option bool) :=
  match st, e with
  | None, _ => None
  | Some _, Looked out => Some (Some (listed s out))
  | Some k, Logged _ _ => Some k
  | Some k, Ran (RmRf _) => if bool_decide (k = Some false) then Some None else None
  | Some _, Ran _ => Some None
  end.

Definition watch (s : SafeTestMount) (tr : list event) : option (option bool) :=
  foldl (watch_step s) (Some None) tr.

(** A command is confined when the mount point passed the validation and it acts
    on the mount point, or creates or deletes the marker file. *)
Definition confined (s : SafeTestMount) (e : event) : Prop :=
  match e with
  | Ran (WriteMarker f _) | Ran (RemoveFile f) => validatePath (MountPoint s) = None /\ f = MarkerFile s
  | Ran c => validatePath (MountPoint s) = None /\ command_path c = MountPoint s
  | _ => True
  end.

(** The [mount] command was run and nothing since but the log written; where
    the command succeeded its output does not list the mount point. *)
Definition looked_before (s : SafeTestMount) (tr : list event) : Prop :=
  exists (tr0 : list event) (out : result string) (logs : list event), tr = tr0 ++ Looked out :: logs /\
    Forall (fun e => match e with Logged _ _ => True | _ => False end) logs /\
    match out with Ok table => str_contains table (" " +:+ MountPoint s +:+ " ") = false | Err _ => True end.

Section Traces.
Context {W : Type} `{Host W} (s : SafeTestMount).

Definition safe_trace (tr : list event) : Prop := Forall (confined s) tr /\ watch s tr <> None.

(** Last seen not mounted, and no command since. *)
Definition unmounted (tr : list event) : Prop := safe_trace tr /\ watch s tr = Some (Some false).

Definition keeps {A} (P : list event -> Prop) (m : Op W A) : Prop :=
  forall r, P (trace r) -> P (trace (m r).2).

Lemma watch_snoc tr e : watch s (tr ++ [e]) = watch_step s (watch s tr) e.
Proof. unfold watch. by rewrite foldl_app. Qed.

Lemma watch_looked tr : watch s tr = Some (Some false) -> looked_before s tr.
Proof.
  induction tr as [|e tr IH] using rev_ind; [done|]. rewrite watch_snoc.
  destruct (watch s tr) as [k|]; [|done]. destruct e as [c|out|o d]; cbn [watch_step].
  - destruct c; try done. by case_bool_decide.
  - intros [= Hl]. exists tr, out, []. split; [done|]. split; [constructor|]. by destruct out.
  - intros E. destruct (IH E) as (tr0 & out & logs & -> & Hlogs & Ho). exists tr0, out, (logs ++ [Logged o d]).
    split; [by rewrite <- app_assoc|]. split; [|done]. apply Forall_app. by repeat constructor.
Qed.

(** Before a removal in a trace that was watched to its end. *)
Lemma watch_removal tr1 p tr2 :
  watch s (tr1 ++ Ran (RmRf p) :: tr2) <> None -> looked_before s tr1.
Proof.
  intros Hw. apply watch_looked. revert Hw. unfold watch. rewrite foldl_app. cbn [foldl].
  fold (watch s tr1). destruct (watch s tr1) as [k|]; cbn [watch_step];
    [case_bool_decide as Hk; [by rewrite Hk|]|]; intros []; induction tr2 as [|e tr2 IH]; done.
Qed.

Lemma safe_snoc tr e :
  safe_trace tr -> confined s e -> watch_step s (watch s tr) e <> None -> safe_trace (tr ++ [e]).
Proof. intros [Hf _] Hc Hw. split; [apply Forall_app; by repeat constructor|]. by rewrite watch_snoc. Qed.

Lemma keeps_ret {A} P (a : A) : keeps P (mret a).
Proof. by intros r Hr. Qed.

Lemma keeps_bind {A B} P (m : Op W A) (f : A -> Op W B) :
  keeps P m -> (forall a, keeps P (f a)) -> keeps P (m ≫= f).
Proof.
  intros Hm Hf r Hr. specialize (Hm r Hr). unfold mbind, Op_bind. destruct (m r) as [[a|e] r']; [|done]. by apply Hf.
Qed.

Lemma keeps_attempt {A} P (m : Op W A) : keeps P m -> keeps P (attempt m).
Proof. intros Hm r Hr. specialize (Hm r Hr). unfold attempt. by destruct (m r). Qed.

Lemma keeps_or_wrap {A} P msg (m : Op W A) : keeps P m -> keeps P (or_wrap msg m).
Proof. intros Hm r Hr. specialize (Hm r Hr). unfold or_wrap. by destruct (m r) as [[?|?] ?]. Qed.

Lemma keeps_guard P b e : keeps P (guard b e : Op W unit).
Proof. unfold guard. by destruct b; intros r Hr. Qed.

Lemma keeps_stat P p : keeps P (os_Stat p).
Proof. intros r Hr. unfold os_Stat. by destruct (host_Stat _ _). Qed.

Lemma keeps_readdir P p : keeps P (os_ReadDir p).
Proof. intros r Hr. unfold os_ReadDir. by destruct (host_ReadDir _ _). Qed.

Lemma keeps_flag P b : keeps P (set_IsMounted b).
Proof. by intros r Hr. Qed.

Lemma keeps_log o d : keeps safe_trace (log o d).
Proof. intros r Hr. apply safe_snoc; [done..|]. destruct Hr as [_ Hw]. by destruct (watch s (trace r)). Qed.

Lemma keeps_log_unmounted o d : keeps unmounted (log o d).
Proof. intros r [Hr Hw]. split; [by apply keeps_log|]. simpl. by rewrite watch_snoc, Hw. Qed.

Lemma keeps_check : keeps safe_trace (checkMounted s).
Proof.
  intros r Hr. unfold checkMounted. destruct (host_mounts _) as [out w]. apply safe_snoc; [done..|].
  destruct Hr as [_ Hw]. by destruct (watch s (trace r)).
Qed.

Lemma keeps_if_exists P p m : keeps P m -> keeps P (if_exists p m).
Proof.
  intros Hm. apply keeps_bind; [apply keeps_attempt, keeps_stat|]. intros [st|e]; simpl; [done|apply keeps_ret].
Qed.

Section Validated.
Hypothesis Hv : validatePath (MountPoint s) = None.

Lemma keeps_run c :
  confined s (Ran c) -> (forall p, c <> RmRf p) -> keeps safe_trace (run_command c).
Proof.
  intros Hc Hn r Hr. unfold run_command. destruct (host_run _ _) as [e w]. apply safe_snoc; [done..|].
  destruct Hr as [_ Hw]. destruct (watch s (trace r)); [|done]. destruct c; try done. by destruct (Hn p).
Qed.

(** Having just seen it unmounted, the mount point may be removed. *)
Lemma run_rm r : unmounted (trace r) -> safe_trace (trace (run_command (RmRf (MountPoint s)) r).2).
Proof.
  intros [Hr Hw]. unfold run_command. destruct (host_run _ _) as [e w]. apply safe_snoc; [done|by split|].
  by rewrite Hw.
Qed.
#[local] Ltac keeps_step :=
  first
    [ apply keeps_ret | apply keeps_guard | apply keeps_stat | apply keeps_readdir | apply keeps_flag
    | apply keeps_log | apply keeps_check | apply keeps_run; [by split|done] | apply keeps_attempt
    | apply keeps_or_wrap | apply keeps_if_exists | apply keeps_bind; [|intros ?]
    | match goal with |- keeps _ (if ?b then _ else _) => destruct b end ].
#[local] Ltac keeps_all := repeat keeps_step.

Lemma keeps_validate P : keeps P (validate s).
Proof. unfold validate. rewrite Hv. apply keeps_ret. Qed.

Lemma keeps_Prepare : keeps safe_trace (Prepare s).
Proof. unfold Prepare. keeps_all. apply keeps_validate. Qed.

Lemma keeps_Mount : keeps safe_trace (Mount s).
Proof. apply keeps_bind; [apply keeps_validate|intros _]. keeps_all. Qed.

Lemma keeps_Unmount : keeps safe_trace (Unmount s).
Proof. apply keeps_bind; [apply keeps_validate|intros _]. unfold try_unmount. keeps_all. Qed.

(** From a trace that shows it unmounted to a safe one. *)
Definition leads {A} (m : Op W A) : Prop := forall r, unmounted (trace r) -> safe_trace (trace (m r).2).

Lemma leads_before {A B} (m : Op W A) (f : A -> Op W B) :
  keeps unmounted m -> (forall a, leads (f a)) -> leads (m ≫= f).
Proof.
  intros Hm Hf r Hr. specialize (Hm r Hr). unfold mbind, Op_bind. destruct (m r) as [[a|e] r']; [by apply Hf|apply Hm].
Qed.

Lemma leads_after {A B} (m : Op W A) (f : A -> Op W B) :
  leads m -> (forall a, keeps safe_trace (f a)) -> leads (m ≫= f).
Proof.
  intros Hm Hf r Hr. specialize (Hm r Hr). unfold mbind, Op_bind. destruct (m r) as [[a|e] r']; [by apply Hf|done].
Qed.

Lemma leads_remove : leads (if_exists (MountPoint s)
    (or_wrap "failed to remove mount point" (run_command (RmRf (MountPoint s))))).
Proof.
  apply leads_before; [apply keeps_attempt, keeps_stat|]. intros [st|e]; simpl; [|by intros r [Hr _]].
  intros r Hr. pose proof (run_rm r Hr) as Hs. unfold or_wrap. by destruct (run_command _ r) as [[?|?] ?].
Qed.

Lemma keeps_check_then (f : bool -> Op W unit) :
  keeps safe_trace (f true) -> leads (f false) -> keeps safe_trace (checkMounted s ≫= f).
Proof.
  intros Ht Hf r Hr. pose proof (keeps_check r Hr) as Hc. unfold mbind, Op_bind. unfold checkMounted in *.
  destruct (host_mounts (world r)) as [out w]. destruct (listed s out) eqn:El; [by apply Ht|].
  apply Hf. split; [done|]. simpl. rewrite watch_snoc. destruct Hr as [_ Hw].
  destruct (watch s (trace r)); [|done]. simpl. by rewrite El.
Qed.

Lemma keeps_Cleanup : keeps safe_trace (Cleanup s).
Proof.
  apply keeps_bind; [apply keeps_validate|intros _]. apply keeps_check_then; [by intros r Hr|].
  apply leads_before; [apply keeps_guard|intros _]. apply leads_before; [apply keeps_log_unmounted|intros _].
  apply leads_after; [apply leads_remove|intros _]. keeps_all.
Qed.

Lemma keeps_MustCleanup : keeps safe_trace (MustCleanup s).
Proof.
  intros r Hr. unfold MustCleanup.
  assert (safe_trace (trace (if IsMounted r then (attempt (Unmount s) r).2 else r))) as Hu.
  { destruct (IsMounted r); [|done]. by apply keeps_attempt; [apply keeps_Unmount|]. }
  revert Hu. generalize (if IsMounted r then (attempt (Unmount s) r).2 else r).
  apply (keeps_bind safe_trace); [apply keeps_attempt, keeps_Cleanup|]. intros [?|?]; [apply keeps_ret|apply keeps_log].
Qed.

Lemma keeps_call m : keeps safe_trace (call_method s m).
Proof.
  destruct m; [apply keeps_Prepare|apply keeps_Mount|apply keeps_Unmount|apply keeps_Cleanup
              |apply keeps_MustCleanup|]. simpl. unfold VerifyMounted. keeps_all.
Qed.
End Validated.

(** A mount point that is not allowed: nothing is run. *)
Lemma keeps_call_refused e m :
  validatePath (MountPoint s) = Some e -> keeps safe_trace (call_method s m).
Proof.
  intros He. assert (keeps safe_trace (validate s)) as Hval by (unfold validate; rewrite He; by intros r Hr).
  assert (forall A (f : unit -> Op W A), keeps safe_trace (validate s ≫= f)) as Hstop.
  { intros A f r Hr. unfold validate, mbind, Op_bind. by rewrite He. }
  destruct m; simpl.
  - apply keeps_bind; [apply keeps_log|intros _; apply Hstop].
  - apply Hstop.
  - apply Hstop.
  - apply Hstop.
  - intros r Hr. unfold MustCleanup.
    assert (safe_trace (trace (if IsMounted r then (attempt (Unmount s) r).2 else r))) as Hu.
    { destruct (IsMounted r); [|done]. by apply keeps_attempt; [apply Hstop|]. }
    revert Hu. generalize (if IsMounted r then (attempt (Unmount s) r).2 else r).
    apply (keeps_bind safe_trace); [apply keeps_attempt, Hstop|]. intros [?|?]; [apply keeps_ret|apply keeps_log].
  - apply keeps_bind; [apply keeps_check|intros a; apply keeps_guard].
Qed.

Lemma session_safe w ms : safe_trace (trace (session s w ms)).
Proof.
  unfold session. assert (safe_trace (trace (mkRun w [] false))) as H0 by done.
  revert H0. generalize (mkRun w [] false). induction ms as [|m ms IH]; intros r Hr; [done|]. simpl. apply IH.
  destruct (validatePath (MountPoint s)) as [e|] eqn:E; [by eapply keeps_call_refused|by apply keeps_call].
Qed.
End Traces.

(** ** Properties *)

(** Only test directories directly under /Volumes or /tmp pass the validation.
    The third pattern, under /private/tmp, never does: /private is blocked. *)
Theorem validatePath_exact p :
  validatePath p = None <->
  str_prefix "/" p = true /\
  exists n, is_test_name n = true /\
    (path_Clean p = "/Volumes/absnfs-" +:+ n \/ path_Clean p = "/tmp/absnfs-" +:+ n).
Proof.
  unfold validatePath. destruct (str_prefix "/" p); cbn [negb]; [|naive_solver].
  generalize (path_Clean p). intros x. split.
  - destruct (check_blocked x blockedPaths) eqn:Eb; [done|]. unfold allowedMountPatterns. cbn [existsb].
    destruct (matches "/Volumes/absnfs-" x) eqn:E1; [apply matches_spec in E1; naive_solver|].
    destruct (matches "/tmp/absnfs-" x) eqn:E2; [apply matches_spec in E2; naive_solver|].
    destruct (matches "/private/tmp/absnfs-" x) eqn:E3; [|done].
    apply matches_spec in E3 as (n & _ & ->). discriminate Eb.
  - intros [_ (n & Hn & Hx)].
    assert (check_blocked x blockedPaths = None) as -> by (destruct Hx as [-> | ->]; reflexivity).
    assert (existsb (fun p => matches p x) allowedMountPatterns = true) as ->; [|done].
    apply existsb_exists. destruct Hx as [-> | ->]; eexists; (split; [|apply matches_spec; eauto]); simpl; tauto.
Qed.

(** C40: the tests cannot damage the host.  For any mount point, any host (the
    answers to the questions, the outcome of commands and changes in between
    are arbitrary) and any sequence of calls: a command is only run when the
    mount point is a test directory directly under /Volumes or /tmp, and then
    on the mount point itself or on the marker file; and [rm -rf] is only run
    after the [mount] command, with no other command in between, and when that
    command succeeded its output did not list the mount point.  A [mount]
    command that fails does not keep [rm -rf] from being run. *)
Theorem safe_mount_confined {W} `{Host W} (s : SafeTestMount) (w : W) ms :
  let tr := trace (session s w ms) in
  (forall tr1 p tr2, tr = tr1 ++ Ran (RmRf p) :: tr2 -> looked_before s tr1) /\
  (forall c, Ran c ∈ tr ->
     (str_prefix "/" (MountPoint s) = true /\
      exists n, is_test_name n = true /\
        (path_Clean (MountPoint s) = "/Volumes/absnfs-" +:+ n \/
         path_Clean (MountPoint s) = "/tmp/absnfs-" +:+ n)) /\
     command_path c = match c with
                      | WriteMarker _ _ | RemoveFile _ => MarkerFile s
                      | _ => MountPoint s
                      end).
Proof.
  destruct (session_safe s w ms) as [Hf Hw]. split.
  { intros tr1 p tr2 E. rewrite E in Hw. by eapply watch_removal. }
  intros c Hc.
  rewrite Forall_forall in Hf. specialize (Hf _ Hc). rewrite <- validatePath_exact. by destruct c.
Qed.

(** A path handed to a test stays at or below the mount point. *)
Theorem SafePath_confined s rel :
  str_prefix "/" (MountPoint s) = true ->
  match SafePath s rel with
  | Ok p =>
      path_Clean p = p /\ (p = MountPoint s \/ str_prefix (MountPoint s +:+ "/") p = true)
  | Err _ => True
  end.
Proof.
  intros Hr. unfold SafePath. destruct (str_prefix "/" (path_Clean rel)); [done|]. destruct (_ || _); [done|].
  destruct (str_prefix (MountPoint s +:+ "/") _) eqn:E1; [split; [|by right]
    |destruct (String.eqb_spec (path_Join (MountPoint s) (path_Clean rel)) (MountPoint s)) as [E2|]; [|done];
     split; [|by left]].
  all: unfold path_Join; destruct (MountPoint s) as [|c m] eqn:Em; [done|];
    destruct (path_Clean rel); apply path_Clean_idem; rewrite <- Em in *; try done; by apply str_prefix_slash_app.
Qed.

(** A host whose [mount] command fails while the export is mounted. *)
#[local] Instance blind_host : Host unit := {|
  host_Stat := fun _ w => (Ok true, w);
  host_ReadDir := fun _ w => (Ok [], w);
  host_mounts := fun w => (Err (ErrorString "exit status 1"), w);
  host_run := fun _ w => (None, w)
|}.

(** [Cleanup] takes a table it could not read for one that does not list the
    mount point, and runs [rm -rf] on what may be the mounted export. *)
Example cleanup_without_table :
  let s := mkSafeTestMount "absnfs-1" "/tmp/absnfs-1" "/tmp/.absnfs-marker-absnfs-1" 2049 2049 "" in
  trace (Cleanup s (mkRun tt [] true)).2 =
    [Looked (Err (ErrorString "exit status 1")); Logged "CLEANUP" "/tmp/absnfs-1";
     Ran (RmRf "/tmp/absnfs-1"); Ran (RemoveFile "/tmp/.absnfs-marker-absnfs-1")].
Proof. vm_compute. reflexivity. Qed.

Example new_safe_test_mount :
  (MountPoint <$> match NewSafeTestMount "20250102-150405" 4711 2049 635 with Ok s => Some s | Err _ => None end) =
    Some "/Volumes/absnfs-20250102-150405-4711"%string.
Proof. vm_compute. reflexivity. Qed.
