(* ===== verification/Filesystem.v ===== *)
(** * The wrapped filesystem (the absfs.SymlinkFileSystem interface)

    absnfs serves any filesystem behind the interface of the absfs package.
    The filesystem is a parameter of the development: a type of states and the
    operations absnfs calls, each from a state to a result and a state.  What
    the theorems rely on is the class [FSLaws]: the operations that only
    inspect do not change the tree of files, and a read returns at most the
    bytes asked for.  [FSInv] is the class of the properties of filesystem
    states that the calls of absnfs keep.  [MemFS] is a small filesystem that
    satisfies the laws. *)

From S2P Require Import Prelude Errors Xdr Attributes Path.
Open Scope Z_scope.

(** [os.FileInfo] *)
Record FileInfo := mkFileInfo {
  fi_Name : string;
  fi_Size : Z;
  fi_Mode : Z;
  fi_ModTime : Z;
  fi_IsDir : bool
}.

#[export] Instance FileInfo_eq_dec : EqDecision FileInfo.
Proof. solve_decision. Defined.

Definition os_O_RDONLY := 0.
Definition os_O_WRONLY := 1.

Class SymlinkFileSystem (F FD : Type) := {
  fs_Stat : string -> F -> result FileInfo * F;
  fs_Lstat : string -> F -> result FileInfo * F;
  fs_Readlink : string -> F -> result string * F;
  fs_OpenFile : string -> Z -> Z -> F -> result FD * F;
  fs_Create : string -> F -> result FD * F;
  fs_Mkdir : string -> Z -> F -> result unit * F;
  fs_Remove : string -> F -> result unit * F;
  fs_Rename : string -> string -> F -> result unit * F;
  fs_Symlink : string -> string -> F -> result unit * F;
  fs_Truncate : string -> Z -> F -> result unit * F;
  fs_Chmod : string -> Z -> F -> result unit * F;
  fs_Chown : string -> Z -> Z -> F -> result unit * F;
  fs_Lchown : string -> Z -> Z -> F -> result unit * F;
  fs_Chtimes : string -> Z -> Z -> F -> result unit * F;
  (* the absfs.File operations *)
  f_Stat : FD -> F -> result FileInfo * F;
  f_ReadAt : FD -> Z -> Z -> F -> (list byte * option error) * F;   (* len(p), off *)
  f_WriteAt : FD -> list byte -> Z -> F -> (Z * option error) * F;
  f_Readdir : FD -> Z -> F -> result (list FileInfo) * F;
  f_Close : FD -> F -> option error * F
}.

(** What is documented of the interface: inspecting leaves the tree of files
    as it is ([fs_tree] projects it), files opened read-only stay read-only,
    and [io.ReaderAt] returns no more than the buffer holds. *)
Class FSLaws (F FD Tree : Type) `{SymlinkFileSystem F FD} := {
  fs_tree : F -> Tree;
  fd_rdonly : FD -> bool;
  stat_tree : forall p s, fs_tree (fs_Stat p s).2 = fs_tree s;
  lstat_tree : forall p s, fs_tree (fs_Lstat p s).2 = fs_tree s;
  readlink_tree : forall p s, fs_tree (fs_Readlink p s).2 = fs_tree s;
  open_tree : forall p perm s, fs_tree (fs_OpenFile p os_O_RDONLY perm s).2 = fs_tree s;
  open_rdonly : forall p perm s fd,
    (fs_OpenFile p os_O_RDONLY perm s).1 = Ok fd -> fd_rdonly fd = true;
  fstat_tree : forall fd s, fd_rdonly fd = true -> fs_tree (f_Stat fd s).2 = fs_tree s;
  readat_tree : forall fd n off s, fd_rdonly fd = true -> fs_tree (f_ReadAt fd n off s).2 = fs_tree s;
  readat_len : forall fd n off s, 0 <= n -> zlen (f_ReadAt fd n off s).1.1 <= n;
  readdir_tree : forall fd n s, fd_rdonly fd = true -> fs_tree (f_Readdir fd n s).2 = fs_tree s;
  close_tree : forall fd s, fd_rdonly fd = true -> fs_tree (f_Close fd s).2 = fs_tree s
}.

(** A link that leads no further up than the directory it is in. *)
Definition inner_target (t : string) : Prop := str_prefix "/" t = false /\ has_dotdot t = false.

Lemma inner_target_of t : str_prefix "/" t = false -> has_dotdot t = false -> inner_target t.
Proof. by split. Qed.

(** *** Invariants of a filesystem

    [FSInv dom writable P]: the calls absnfs makes keep [P], for names in
    [dom]; the calls that change files only when [writable], and the creation
    of a link only with a target that [inner_target] accepts.  [fd_ok w fd]
    says which descriptors they are made on, [w] that the file was opened for
    writing.  The server is proved to keep every such [P], so that a client of
    this class chooses the invariant. *)
Class FSInv {F FD : Type} `{SymlinkFileSystem F FD} (dom : string -> Prop) (writable : bool)
    (P : F -> Prop) := {
  fd_ok : bool -> FD -> Prop;
  inv_stat : forall p s, dom p -> P s -> P (fs_Stat p s).2;
  inv_lstat : forall p s, dom p -> P s -> P (fs_Lstat p s).2;
  inv_readlink : forall p s, dom p -> P s -> P (fs_Readlink p s).2;
  inv_open : forall p perm s, dom p -> P s ->
    P (fs_OpenFile p os_O_RDONLY perm s).2 /\
    forall fd, (fs_OpenFile p os_O_RDONLY perm s).1 = Ok fd -> fd_ok false fd;
  inv_fstat : forall w fd s, fd_ok w fd -> P s -> P (f_Stat fd s).2;
  inv_readat : forall w fd n off s, fd_ok w fd -> P s -> P (f_ReadAt fd n off s).2;
  inv_readdir : forall w fd n s, fd_ok w fd -> P s -> P (f_Readdir fd n s).2;
  inv_close : forall w fd s, fd_ok w fd -> P s -> P (f_Close fd s).2;
  inv_open_write : forall p perm s, writable = true -> dom p -> P s ->
    P (fs_OpenFile p os_O_WRONLY perm s).2 /\
    forall fd, (fs_OpenFile p os_O_WRONLY perm s).1 = Ok fd -> fd_ok true fd;
  inv_create : forall p s, writable = true -> dom p -> P s ->
    P (fs_Create p s).2 /\ forall fd, (fs_Create p s).1 = Ok fd -> fd_ok true fd;
  inv_writeat : forall fd b off s, writable = true -> fd_ok true fd -> P s -> P (f_WriteAt fd b off s).2;
  inv_mkdir : forall p m s, writable = true -> dom p -> P s -> P (fs_Mkdir p m s).2;
  inv_remove : forall p s, writable = true -> dom p -> P s -> P (fs_Remove p s).2;
  inv_rename : forall p q s, writable = true -> dom p -> dom q -> P s -> P (fs_Rename p q s).2;
  inv_symlink : forall t p s, writable = true -> inner_target t -> dom p -> P s -> P (fs_Symlink t p s).2;
  inv_truncate : forall p n s, writable = true -> dom p -> P s -> P (fs_Truncate p n s).2;
  inv_chmod : forall p m s, writable = true -> dom p -> P s -> P (fs_Chmod p m s).2;
  inv_chown : forall p u g s, writable = true -> dom p -> P s -> P (fs_Chown p u g s).2;
  inv_lchown : forall p u g s, writable = true -> dom p -> P s -> P (fs_Lchown p u g s).2;
  inv_chtimes : forall p a m s, writable = true -> dom p -> P s -> P (fs_Chtimes p a m s).2
}.
Arguments FSInv F FD {_} dom writable P.

(** The names absnfs passes down: absolute ones. *)
Definition rooted (p : string) : Prop := str_prefix "/" p = true.

(** Close a goal by the field of an invariant [I] for the call it is about. *)
Ltac use_inv I :=
  solve
    [ eapply (inv_stat (FSInv := I)); by eauto
    | eapply (inv_lstat (FSInv := I)); by eauto
    | eapply (inv_readlink (FSInv := I)); by eauto
    | eapply (inv_open (FSInv := I)); by eauto
    | eapply (inv_fstat (FSInv := I)); by eauto
    | eapply (inv_readat (FSInv := I)); by eauto
    | eapply (inv_readdir (FSInv := I)); by eauto
    | eapply (inv_close (FSInv := I)); by eauto
    | eapply (inv_open_write (FSInv := I)); by eauto
    | eapply (inv_create (FSInv := I)); by eauto
    | eapply (inv_writeat (FSInv := I)); by eauto
    | eapply (inv_mkdir (FSInv := I)); by eauto
    | eapply (inv_remove (FSInv := I)); by eauto
    | eapply (inv_rename (FSInv := I)); by eauto
    | eapply (inv_symlink (FSInv := I)); by eauto
    | eapply (inv_truncate (FSInv := I)); by eauto
    | eapply (inv_chmod (FSInv := I)); by eauto
    | eapply (inv_chown (FSInv := I)); by eauto
    | eapply (inv_lchown (FSInv := I)); by eauto
    | eapply (inv_chtimes (FSInv := I)); by eauto ].

Section FSInvFacts.
Context {F FD : Type} `{SymlinkFileSystem F FD}.

Lemma FSInv_any dom w : FSInv F FD dom w (fun _ : F => True).
Proof. by refine {| fd_ok := fun _ _ => True |}. Defined.

(** By the laws, a filesystem that is only read keeps its tree. *)
Lemma FSInv_tree {Tree} `{!FSLaws F FD Tree} dom w (T : Tree) :
  FSInv F FD dom w (fun s => w = false -> fs_tree s = T).
Proof.
  refine {| fd_ok := fun _ fd => w = false -> fd_rdonly fd = true |}; intros;
    try (split; intros); subst; try done;
    rewrite ?stat_tree, ?lstat_tree, ?readlink_tree, ?open_tree, ?fstat_tree, ?readat_tree, ?readdir_tree,
      ?close_tree by auto; auto; by eapply open_rdonly.
Defined.

(** Fewer names and fewer operations are easier to keep an invariant under. *)
Lemma FSInv_weaken (dom dom' : string -> Prop) w w' P :
  (forall p, dom' p -> dom p) -> (w' = true -> w = true) -> FSInv F FD dom w P -> FSInv F FD dom' w' P.
Proof.
  intros Hd Hw HP. refine {| fd_ok := fd_ok |}; intros; use_inv HP.
Defined.
End FSInvFacts.

(** ** MemFS: a filesystem in memory, for evaluating the model

    A flat map from cleaned absolute paths to nodes; a directory holds the
    paths that extend it by one component. *)

Module MemFS.

Inductive content := CFile (data : list byte) | CDir | CLink (target : string).

Record node := mkMNode { n_content : content; n_mode : Z; n_mtime : Z }.

Definition state := gmap string node.

Record fd := mkFD { fd_path : string; fd_flag : Z }.

(** The component a path adds to a directory, if it is a direct child. *)
Definition child_name (dir p : string) : option string :=
  let prefix := if String.eqb dir "/" then "/"%string else dir +:+ "/" in
  if str_prefix prefix p then
    let r := str_drop (String.length prefix) p in
    if bool_decide (r = EmptyString) || str_has chr_slash r then None else Some r
  else None.

Definition type_bits (c : content) : Z :=
  match c with CFile _ => 0 | CDir => os_ModeDir | CLink _ => os_ModeSymlink end.

Definition info (name : string) (n : node) : FileInfo :=
  mkFileInfo name
    (match n_content n with CFile d => zlen d | _ => 0 end)
    (Z.lor (type_bits (n_content n)) (n_mode n)) (n_mtime n)
    (match n_content n with CDir => true | _ => false end).

Definition not_found (op p : string) : error := PathError op p (Errno ENOENT).

Definition with_node {A} (op p : string) (s : state) (k : node -> result A * state) : result A * state :=
  match s !! p with Some n => k n | None => (Err (not_found op p), s) end.

Definition children (dir : string) (s : state) : list (string * node) :=
  omap (fun kv => (fun c => (c, kv.2)) <$> child_name dir kv.1) (map_to_list s).

Definition write_at (d : list byte) (off : nat) (b : list byte) : list byte :=
  take off (d ++ replicate (off - length d) x00) ++ b ++ drop (off + length b) d.

Definition store (p : string) (n : node) (s : state) : result unit * state := (Ok tt, <[p := n]> s).

#[export] Instance memfs : SymlinkFileSystem state fd := {|
  fs_Stat p s := with_node "stat" p s (fun n => (Ok (info p n), s));
  fs_Lstat p s := with_node "lstat" p s (fun n => (Ok (info p n), s));
  fs_Readlink p s := with_node "readlink" p s (fun n =>
    match n_content n with
    | CLink t => (Ok t, s)
    | _ => (Err (PathError "readlink" p os_ErrInvalid), s)
    end);
  fs_OpenFile p flag _ s := with_node "open" p s (fun _ => (Ok (mkFD p flag), s));
  fs_Create p s := (Ok (mkFD p os_O_WRONLY), <[p := mkMNode (CFile []) 420 0]> s);
  fs_Mkdir p mode s :=
    match s !! p with
    | Some _ => (Err (PathError "mkdir" p (Errno EEXIST)), s)
    | None => store p (mkMNode CDir (Z.land mode os_ModePerm) 0) s
    end;
  fs_Remove p s := with_node "remove" p s (fun n =>
    match children p s with
    | [] => (Ok tt, delete p s)
    | _ => (Err (PathError "remove" p (Errno ENOTEMPTY)), s)
    end);
  fs_Rename o n s := with_node "rename" o s (fun x => (Ok tt, <[n := x]> (delete o s)));
  fs_Symlink t p s :=
    match s !! p with
    | Some _ => (Err (PathError "symlink" p (Errno EEXIST)), s)
    | None => store p (mkMNode (CLink t) 511 0) s
    end;
  fs_Truncate p n s := with_node "truncate" p s (fun x =>
    match n_content x with
    | CFile d =>
        let n := Z.to_nat n in
        store p (mkMNode (CFile (take n d ++ replicate (n - length d) x00)) (n_mode x) (n_mtime x)) s
    | _ => (Err (PathError "truncate" p (Errno EISDIR)), s)
    end);
  fs_Chmod p m s := with_node "chmod" p s (fun x => store p (mkMNode (n_content x) m (n_mtime x)) s);
  fs_Chown p _ _ s := with_node "chown" p s (fun _ => (Ok tt, s));
  fs_Lchown p _ _ s := with_node "lchown" p s (fun _ => (Ok tt, s));
  fs_Chtimes p _ m s := with_node "chtimes" p s (fun x => store p (mkMNode (n_content x) (n_mode x) m) s);
  f_Stat f s := with_node "stat" (fd_path f) s (fun n => (Ok (info (fd_path f) n), s));
  f_ReadAt f n off s :=
    match s !! fd_path f with
    | Some (mkMNode (CFile d) _ _) =>
        let b := take (Z.to_nat n) (drop (Z.to_nat off) d) in
        ((b, if zlen b <? n then Some io_EOF else None), s)
    | _ => (([], Some (Errno EISDIR)), s)
    end;
  f_WriteAt f b off s :=
    match s !! fd_path f with
    | Some (mkMNode (CFile d) m t) =>
        ((zlen b, None), <[fd_path f := mkMNode (CFile (write_at d (Z.to_nat off) b)) m t]> s)
    | _ => ((0, Some (Errno EISDIR)), s)
    end;
  f_Readdir f _ s := (Ok ((fun cn => info cn.1 cn.2) <$> children (fd_path f) s), s);
  f_Close _ s := (None, s)
|}.

Lemma readat_len_ok (f : fd) n off (s : state) : 0 <= n -> zlen (f_ReadAt f n off s).1.1 <= n.
Proof.
  intros Hn. simpl. assert (zlen (@nil byte) <= n) by (unfold zlen; simpl; lia).
  destruct (s !! fd_path f) as [[[d| |t] m mt]|]; simpl; try done.
  unfold zlen. rewrite length_take. lia.
Qed.

#[export] Instance memfs_laws : FSLaws state fd state.
Proof.
  refine {| fs_tree := fun s : state => s; fd_rdonly := fun f => fd_flag f =? os_O_RDONLY |};
    try exact readat_len_ok; intros; simpl in *; unfold with_node in *; repeat case_match;
    simpl in *; try done.
  by simplify_eq.
Defined.

(** MemFS changes no names but those it is called with. *)
Lemma memfs_confined dom w (s0 : state) :
  FSInv state fd dom w (fun s => forall q, ~ dom q -> s !! q = s0 !! q).
Proof.
  refine {| fd_ok := fun _ f => dom (fd_path f) |}; intros; simpl in *; unfold with_node, store, state in *;
    repeat case_match; simpl in *; try split; intros; simplify_eq; simpl; auto.
  all: match goal with Hq : ~ _ |- _ =>
         rewrite ?lookup_insert_ne, ?lookup_delete_ne by (intros E; apply Hq; by rewrite <- E) end; auto.
Defined.

(** Inspecting it changes nothing at all. *)
Lemma memfs_inspect dom (P : state -> Prop) : FSInv state fd dom false P.
Proof.
  refine {| fd_ok := fun _ _ => True |}; intros; try done; simpl in *; unfold with_node in *;
    repeat case_match; simpl; try split; done.
Defined.

End MemFS.
