(* ===== verification/Wrappers.v ===== *)
(** * Filesystems over filesystems (src/examples/composed-workspace/main.go)

    absnfs exports any value of the interface absfs.SymlinkFileSystem; the
    example programs build such values from others.  Here the interface is a
    record of methods over a world [W] that all values share (the disk, the
    memory of the process), so that wrappers compose as objects do:
    [ReadOnlyFS], which refuses changes, and [BasePathFS], which resolves
    every name below a base directory.  Their theorems say which invariants of
    the world a wrapper keeps, in terms of those of what it wraps ([FSInv]). *)

From S2P Require Import Prelude Errors Xdr Attributes AttrCache Path Filesystem.
Open Scope Z_scope.

Definition os_O_RDWR := 2.
Definition os_O_APPEND := 1024.
Definition os_O_CREATE := 64.
Definition os_O_TRUNC := 512.

(** A mutable field of a struct: a place in the world. *)
Record Ref (W A : Type) := mkRef { ref_get : W -> A; ref_set : A -> W -> W }.
Arguments mkRef {W A}.
Arguments ref_get {W A}.
Arguments ref_set {W A}.

Section Interfaces.
Context {W FD Sub : Type}.

(** [absfs.FileSystem]; [Sub] is what [Sub] returns, an [fs.FS]. *)
Record FileSystem := mkFileSystem {
  i_Open : string -> W -> result FD * W;
  i_OpenFile : string -> Z -> Z -> W -> result FD * W;
  i_Create : string -> W -> result FD * W;
  i_Mkdir : string -> Z -> W -> result unit * W;
  i_MkdirAll : string -> Z -> W -> result unit * W;
  i_Remove : string -> W -> result unit * W;
  i_RemoveAll : string -> W -> result unit * W;
  i_Rename : string -> string -> W -> result unit * W;
  i_Stat : string -> W -> result FileInfo * W;
  i_Chmod : string -> Z -> W -> result unit * W;
  i_Chown : string -> Z -> Z -> W -> result unit * W;
  i_Chtimes : string -> Z -> Z -> W -> result unit * W;
  i_Truncate : string -> Z -> W -> result unit * W;
  i_ReadDir : string -> W -> result (list FileInfo) * W;
  i_ReadFile : string -> W -> result (list byte) * W;
  i_Sub : string -> W -> result Sub * W;
  i_Chdir : string -> W -> result unit * W;
  i_Getwd : W -> result string * W;
  i_TempDir : string
}.

(** [absfs.SymLinker] *)
Record SymLinker := mkSymLinker {
  i_Lstat : string -> W -> result FileInfo * W;
  i_Lchown : string -> Z -> Z -> W -> result unit * W;
  i_Readlink : string -> W -> result string * W;
  i_Symlink : string -> string -> W -> result unit * W
}.

(** [absfs.SymlinkFileSystem] as a value *)
Record SymlinkFS := mkSymlinkFS { i_fs :> FileSystem; i_links :> SymLinker }.

(** The methods of the open files, which wrappers hand on as they are. *)
Class FileMethods := {
  m_Stat : FD -> W -> result FileInfo * W;
  m_ReadAt : FD -> Z -> Z -> W -> (list byte * option error) * W;
  m_WriteAt : FD -> list byte -> Z -> W -> (Z * option error) * W;
  m_Readdir : FD -> Z -> W -> result (list FileInfo) * W;
  m_Close : FD -> W -> option error * W
}.

(** The filesystem absnfs sees when it is given the value. *)
Definition exported `{FileMethods} (v : SymlinkFS) : SymlinkFileSystem W FD := {|
  fs_Stat := i_Stat v; fs_Lstat := i_Lstat v; fs_Readlink := i_Readlink v;
  fs_OpenFile := i_OpenFile v; fs_Create := i_Create v; fs_Mkdir := i_Mkdir v;
  fs_Remove := i_Remove v; fs_Rename := i_Rename v; fs_Symlink := i_Symlink v;
  fs_Truncate := i_Truncate v; fs_Chmod := i_Chmod v; fs_Chown := i_Chown v;
  fs_Lchown := i_Lchown v; fs_Chtimes := i_Chtimes v;
  f_Stat := m_Stat; f_ReadAt := m_ReadAt; f_WriteAt := m_WriteAt; f_Readdir := m_Readdir;
  f_Close := m_Close |}.

(** The invariants of the world a value keeps. *)
Definition Keeps `{FileMethods} (v : SymlinkFS) (dom : string -> Prop) (writable : bool) (P : W -> Prop) : Type :=
  @FSInv W FD (exported v) dom writable P.

Definition Kept `{FileMethods} (v : SymlinkFS) (dom : string -> Prop) (writable : bool) (P : W -> Prop) : Prop :=
  inhabited (Keeps v dom writable P).

(** [Chdir] of the wrappers: the directory must exist, and is remembered. *)
Definition chdir_checked (stat : string -> W -> result FileInfo * W) (cwd : Ref W string) (dir : string) (w : W)
    : result unit * W :=
  match stat dir w with
  | (Err err, w) => (Err err, w)
  | (Ok info, w) =>
      if negb (fi_IsDir info) then (Err (PathError "chdir" dir (Errno ENOTDIR)), w)
      else (Ok tt, ref_set cwd dir w)
  end.

(** ** ReadOnlyFS *)

Record ReadOnlyFS := mkReadOnlyFS { r_fs : SymlinkFS; r_cwd : Ref W string }.

(** [&ReadOnlyFS{fs: fs, cwd: "/"}] *)
Definition NewReadOnlyFS (fs : SymlinkFS) (cwd : Ref W string) (w : W) : ReadOnlyFS * W :=
  (mkReadOnlyFS fs cwd, ref_set cwd "/"%string w).

Definition denied {A} (w : W) : result A * W := (Err os_ErrPermission, w).

Definition ReadOnlyFS_OpenFile (r : ReadOnlyFS) (name : string) (flag perm : Z) (w : W) : result FD * W :=
  if negb (Z.land flag (Z.lor (Z.lor (Z.lor (Z.lor os_O_WRONLY os_O_RDWR) os_O_APPEND) os_O_CREATE) os_O_TRUNC)
           =? 0)
  then denied w
  else i_OpenFile (r_fs r) name flag perm w.

Definition readOnlyFS (r : ReadOnlyFS) : SymlinkFS := mkSymlinkFS
  {| i_Open name := i_Open (r_fs r) name;
     i_OpenFile := ReadOnlyFS_OpenFile r;
     i_Create _ := denied;
     i_Mkdir _ _ := denied;
     i_MkdirAll _ _ := denied;
     i_Remove _ := denied;
     i_RemoveAll _ := denied;
     i_Rename _ _ := denied;
     i_Stat name := i_Stat (r_fs r) name;
     i_Chmod _ _ := denied;
     i_Chown _ _ _ := denied;
     i_Chtimes _ _ _ := denied;
     i_Truncate _ _ := denied;
     i_ReadDir name := i_ReadDir (r_fs r) name;
     i_ReadFile name := i_ReadFile (r_fs r) name;
     i_Sub dir := i_Sub (r_fs r) dir;
     i_Chdir dir := chdir_checked (i_Stat (r_fs r)) (r_cwd r) dir;
     i_Getwd w := (Ok (ref_get (r_cwd r) w), w);
     i_TempDir := i_TempDir (r_fs r) |}
  {| i_Lstat name := i_Lstat (r_fs r) name;
     i_Lchown _ _ _ := denied;
     i_Readlink name := i_Readlink (r_fs r) name;
     i_Symlink _ _ := denied |}.

(** ** BasePathFS *)

Record BasePathFS := mkBasePathFS { b_fs : SymlinkFS; b_base : string; b_cwd : Ref W string }.

Definition NewBasePathFS (fs : SymlinkFS) (base : string) (cwd : Ref W string) (w : W) : BasePathFS * W :=
  (mkBasePathFS fs base cwd, ref_set cwd "/"%string w).

Definition resolvePath (base name : string) : string :=
  let clean := path_Clean name in
  if String.eqb clean "." || String.eqb clean "/" then base
  else
    let clean := if str_prefix "/" clean then str_drop 1 clean else clean in
    path_Join base clean.

Definition basePathFS (b : BasePathFS) : SymlinkFS :=
  let fs := b_fs b in
  let resolvePath := resolvePath (b_base b) in
  mkSymlinkFS
  {| i_Open name := i_Open fs (resolvePath name);
     i_OpenFile name flag perm := i_OpenFile fs (resolvePath name) flag perm;
     i_Create name := i_Create fs (resolvePath name);
     i_Mkdir name perm := i_Mkdir fs (resolvePath name) perm;
     i_MkdirAll path perm := i_MkdirAll fs (resolvePath path) perm;
     i_Remove name := i_Remove fs (resolvePath name);
     i_RemoveAll path := i_RemoveAll fs (resolvePath path);
     i_Rename oldpath newpath := i_Rename fs (resolvePath oldpath) (resolvePath newpath);
     i_Stat name := i_Stat fs (resolvePath name);
     i_Chmod name mode := i_Chmod fs (resolvePath name) mode;
     i_Chown name uid gid := i_Chown fs (resolvePath name) uid gid;
     i_Chtimes name atime mtime := i_Chtimes fs (resolvePath name) atime mtime;
     i_Truncate name size := i_Truncate fs (resolvePath name) size;
     i_ReadDir name := i_ReadDir fs (resolvePath name);
     i_ReadFile name := i_ReadFile fs (resolvePath name);
     i_Sub dir := i_Sub fs (resolvePath dir);
     i_Chdir dir := chdir_checked (fun name => i_Stat fs (resolvePath name)) (b_cwd b) dir;
     i_Getwd w := (Ok (ref_get (b_cwd b) w), w);
     i_TempDir := "/tmp"%string |}
  {| i_Lstat name := i_Lstat fs (resolvePath name);
     i_Lchown name uid gid := i_Lchown fs (resolvePath name) uid gid;
     i_Readlink name := i_Readlink fs (resolvePath name);
     i_Symlink oldname newname := i_Symlink fs oldname (resolvePath newname) |}.

End Interfaces.

Arguments FileSystem : clear implicits.
Arguments SymLinker : clear implicits.
Arguments SymlinkFS : clear implicits.
Arguments FileMethods : clear implicits.
Arguments ReadOnlyFS : clear implicits.
Arguments BasePathFS : clear implicits.

(** The names at or below an absolute directory. *)
Definition under (base p : string) : Prop := exists l, p = abs_path (rev (clean_stack base) ++ l).

(** ** Lemmas *)

Lemma stack_components s c : rooted s -> c ∈ rev (clean_stack s) -> is_component c.
Proof. intros Hs Hc. eapply clean_stack_components; [done|]. by apply list_elem_of_In, in_rev, list_elem_of_In. Qed.

(** Joining a path of components to an absolute directory. *)
Lemma clean_stack_extend s l :
  rooted s -> l <> [] -> (forall c, c ∈ l -> is_component c) ->
  clean_stack (s +:+ "/" +:+ join_slash l) = rev l ++ clean_stack s.
Proof.
  intros Hs Hn Hl. unfold clean_stack. rewrite str_prefix_slash_app by done. rewrite Hs.
  rewrite split_slash_app, foldl_app, split_join; [|done|intros c Hc; by apply Hl].
  by apply foldl_components.
Qed.

(** What an absolute name resolves to: the cleaned name's components below
    the base. *)
Lemma resolvePath_rooted base name :
  rooted base -> path_Clean base = base -> rooted name ->
  resolvePath base name = abs_path (rev (clean_stack base) ++ rev (clean_stack name)).
Proof.
  intros Hb Hc Hn. unfold resolvePath. rewrite (path_Clean_abs name Hn).
  pose proof (fun c => stack_components name c Hn) as Hl. destruct (rev (clean_stack name)) as [|x l] eqn:E.
  - rewrite app_nil_r. simpl. by rewrite <- path_Clean_abs.
  - assert (is_component x) as Hx by (apply Hl; apply elem_of_cons; by left).
    assert (join_slash (x :: l) <> EmptyString) as Hne by (destruct Hx; destruct x; [done|]; by destruct l).
    unfold abs_path at 1 2.
    destruct (String.eqb_spec ("/" +:+ join_slash (x :: l)) ".") as [E1|_]; [done|].
    destruct (String.eqb_spec ("/" +:+ join_slash (x :: l)) "/") as [E2|_].
    { by apply (str_app_inj "/" _ EmptyString) in E2. }
    cbn [orb]. rewrite abs_path_rooted. unfold abs_path at 1. change (str_drop 1 ("/" +:+ ?r)) with r.
    unfold path_Join. destruct base as [|a base]; [done|]. destruct (join_slash (x :: l)) as [|b r] eqn:Ej; [done|].
    rewrite <- Ej, path_Clean_abs by by apply str_prefix_slash_app.
    rewrite clean_stack_extend by done. by rewrite rev_app_distr, rev_involutive.
Qed.

Lemma resolvePath_under base name :
  rooted base -> path_Clean base = base -> rooted name -> under base (resolvePath base name).
Proof. intros Hb Hc Hn. rewrite resolvePath_rooted by done. by eexists. Qed.

Section Keeps.
Context {W FD Sub : Type} `{FileMethods W FD}.
#[local] Abbreviation SymlinkFS := (SymlinkFS W FD Sub).

(** A read-only wrapper keeps, whatever is asked of it, what the wrapped
    filesystem keeps when it is only inspected. *)
Lemma readOnlyFS_keeps (r : ReadOnlyFS W FD Sub) dom w P :
  Kept (r_fs r) dom false P -> Kept (readOnlyFS r) dom w P.
Proof.
  intros [I]. constructor. refine {| fd_ok := fun b fd => b = false /\ fd_ok (FSInv := I) false fd |}; intros; destruct_and?;
    try done; try (split; [done|]; intros; done).
  4: { destruct (inv_open (FSInv := I) p perm s) as [HP Hfd]; [done..|].
       split; [exact HP|]. intros fd Hok. split; [done|]. exact (Hfd fd Hok). }
  all: use_inv I.
Qed.

(** A base-path wrapper keeps, for absolute names, what the wrapped filesystem
    keeps for names below the base. *)
Lemma basePathFS_keeps (b : BasePathFS W FD Sub) w P :
  rooted (b_base b) -> path_Clean (b_base b) = b_base b ->
  Kept (b_fs b) (under (b_base b)) w P -> Kept (basePathFS b) rooted w P.
Proof.
  intros Hb Hc [I]. constructor.
  assert (forall p, rooted p -> under (b_base b) (resolvePath (b_base b) p)) as Hu
    by (intros; by apply resolvePath_under).
  refine {| fd_ok := fd_ok (FSInv := I) |}; intros; use_inv I.
Qed.

End Keeps.

(** A relative name with ".." leaves the directory; the server passes rooted
    names, which cannot ([resolvePath_under]). *)
Example resolvePath_escape : resolvePath "/base" "../x" = "/x"%string /\ resolvePath "/base" "/../x" = "/base/x"%string.
Proof. vm_compute. split; reflexivity. Qed.
