(* ===== verification/Composed.v ===== *)
(** * ComposedFS (src/examples/composed-workspace/main.go)

    A filesystem that routes every name to the filesystem mounted at the
    longest mount point above it, or to the root filesystem.  The mount table
    is a Go map, so each search visits it in an order the runtime chooses;
    [resolveMount] is shown not to depend on it. *)

From S2P Require Import Prelude Errors Xdr Attributes AttrCache Path Filesystem Wrappers.
Open Scope Z_scope.

Section Composed.
Context {W FD Sub : Type} `{MapRange}.
#[local] Abbreviation SymlinkFS := (SymlinkFS W FD Sub).

Record MountPoint := mkMountPoint { mp_Path : string; mp_FS : SymlinkFS; mp_Info : string }.

(** The table is filled before the filesystem is served. *)
Record ComposedFS := mkComposedFS {
  mounts : gmap string MountPoint;
  c_root : SymlinkFS;
  c_cwd : Ref W string
}.

(** [NewComposedFS]; [newRoot] is [memfs.NewFS()]. *)
Definition NewComposedFS (newRoot : W -> result SymlinkFS * W) (cwd : Ref W string) (w : W)
    : result ComposedFS * W :=
  match newRoot w with
  | (Err err, w) => (Err (wrapError "failed to create root fs" err), w)
  | (Ok root, w) => (Ok (mkComposedFS ∅ root cwd), ref_set cwd "/"%string w)
  end.

Definition Mount (c : ComposedFS) (path : string) (fs : SymlinkFS) (info : string) (w : W)
    : result ComposedFS * W :=
  match i_MkdirAll (c_root c) path 493 w with       (* 0755 *)
  | (Err err, w) => (Err (wrapError ("failed to create mount point " +:+ path) err), w)
  | (Ok _, w) => (Ok (mkComposedFS (<[path := mkMountPoint path fs info]> (mounts c)) (c_root c) (c_cwd c)), w)
  end.

(** The test of the search: the name is the mount point, or goes on after it
    with a slash. *)
Definition covers (prefix path : string) : bool :=
  String.eqb path prefix ||
  ((String.length prefix <? String.length path)%nat &&
   String.eqb (str_take (String.length prefix) path) prefix &&
   bool_decide (str_at path (String.length prefix) = Some chr_slash)).

(** The loop: [inl] for the early return on an exact match, [inr] for the best
    match found. *)
Fixpoint search_mounts (path : string) (l : list (string * MountPoint)) (best : option MountPoint * string)
    : MountPoint + (option MountPoint * string) :=
  match l with
  | [] => inr best
  | (prefix, mount) :: l =>
      let best :=
        if covers prefix path && (String.length best.2 <? String.length prefix)%nat
        then (Some mount, prefix) else best in
      if String.eqb path prefix then inl mount else search_mounts path l best
  end.

Definition resolveMount (k : nat) (c : ComposedFS) (path : string) : option MountPoint * string :=
  let path := if bool_decide (path = EmptyString) then "/"%string else path in
  match search_mounts path (range_order k _ (map_to_list (mounts c))) (None, EmptyString) with
  | inl mount => (Some mount, "/"%string)
  | inr (Some bestMount, bestPrefix) =>
      let relPath := str_drop (String.length bestPrefix) path in
      (Some bestMount, if bool_decide (relPath = EmptyString) then "/"%string else relPath)
  | inr (None, _) => (None, path)
  end.

(** [iter w] is the runtime's source of iteration orders. *)
Variable iter : W -> nat.

(** [mount, relPath := c.resolveMount(name); if mount != nil { return
    mount.FS.M(relPath) }; return c.root.M(name)] *)
Definition route {A} (c : ComposedFS) (name : string) (method : SymlinkFS -> string -> W -> A * W) (w : W) : A * W :=
  let '(mount, relPath) := resolveMount (iter w) c name in
  match mount with
  | Some mount => method (mp_FS mount) relPath w
  | None => method (c_root c) name w
  end.

(** Mount points are compared as pointers; [Mount] makes one per entry, so
    their paths identify them. *)
Definition ComposedFS_Rename (c : ComposedFS) (oldpath newpath : string) (w : W) : result unit * W :=
  let '(oldMount, oldRel) := resolveMount (iter w) c oldpath in
  let '(newMount, newRel) := resolveMount (S (iter w)) c newpath in
  if negb (bool_decide (mp_Path <$> oldMount = mp_Path <$> newMount)) then
    (Err (ErrorString "cross-mount rename not supported"), w)
  else match oldMount with
       | Some oldMount => i_Rename (mp_FS oldMount) oldRel newRel w
       | None => i_Rename (c_root c) oldpath newpath w
       end.

Definition ComposedFS_ReadDir (c : ComposedFS) (name : string) (w : W) : result (list FileInfo) * W :=
  if String.eqb name "/" || bool_decide (name = EmptyString) then i_ReadDir (c_root c) "/" w
  else route c name i_ReadDir w.

Definition composedFS (c : ComposedFS) : SymlinkFS := mkSymlinkFS
  {| i_Open name := route c name i_Open;
     i_OpenFile name flag perm := route c name (fun fs name => i_OpenFile fs name flag perm);
     i_Create name := route c name i_Create;
     i_Mkdir name perm := route c name (fun fs name => i_Mkdir fs name perm);
     i_MkdirAll path perm := route c path (fun fs path => i_MkdirAll fs path perm);
     i_Remove name := route c name i_Remove;
     i_RemoveAll path := route c path i_RemoveAll;
     i_Rename := ComposedFS_Rename c;
     i_Stat name := route c name i_Stat;
     i_Chmod name mode := route c name (fun fs name => i_Chmod fs name mode);
     i_Chown name uid gid := route c name (fun fs name => i_Chown fs name uid gid);
     i_Chtimes name atime mtime := route c name (fun fs name => i_Chtimes fs name atime mtime);
     i_Truncate name size := route c name (fun fs name => i_Truncate fs name size);
     i_ReadDir := ComposedFS_ReadDir c;
     i_ReadFile name := route c name i_ReadFile;
     i_Sub dir := route c dir i_Sub;
     i_Chdir dir := chdir_checked (fun name => route c name i_Stat) (c_cwd c) dir;
     i_Getwd w := (Ok (ref_get (c_cwd c) w), w);
     i_TempDir := "/scratch"%string |}
  {| i_Lstat name := route c name i_Lstat;
     i_Lchown name uid gid := route c name (fun fs name => i_Lchown fs name uid gid);
     i_Readlink name := route c name i_Readlink;
     i_Symlink oldname newname := route c newname (fun fs newname => i_Symlink fs oldname newname) |}.

(** ** Specification of the routing

    The mount points above a name: those of its prefixes that end where a
    component ends. *)
Definition above (prefix path : string) : Prop :=
  path = prefix \/ exists r, path = prefix +:+ String chr_slash r.

(** The mount table names each entry by its path. *)
Definition mounts_ok (c : ComposedFS) : Prop := forall k m, mounts c !! k = Some m -> mp_Path m = k.

(** What a search returns: the mount point with the longest path above the
    name and the name below it, or nothing when no mount point is above. *)
Definition resolves (c : ComposedFS) (path : string) (r : option MountPoint * string) : Prop :=
  match r.1 with
  | Some m =>
      mounts c !! mp_Path m = Some m /\ mp_Path m <> EmptyString /\ above (mp_Path m) path /\
      (forall k m', mounts c !! k = Some m' -> above k path -> (String.length k <= String.length (mp_Path m))%nat) /\
      r.2 = (if bool_decide (path = mp_Path m) then "/"%string else str_drop (String.length (mp_Path m)) path)
  | None => r.2 = path /\ forall k m, mounts c !! k = Some m -> above k path -> k = EmptyString
  end.

(** ** Lemmas *)

Lemma covers_spec prefix path : covers prefix path = true <-> above prefix path.
Proof.
  unfold covers, above. rewrite orb_true_iff, !andb_true_iff, Nat.ltb_lt, bool_decide_eq_true.
  split.
  - intros [E%String.eqb_eq|[[Hl E%String.eqb_eq] Hs]]; [by left|]. right.
    unfold str_at in Hs. destruct (str_drop (String.length prefix) path) as [|c r] eqn:Ed; [done|].
    injection Hs as ->. exists r. rewrite <- E, <- Ed. by rewrite str_take_drop.
  - intros [->|[r ->]]; [left; apply String.eqb_refl|]. right. rewrite str_take_app. unfold str_at.
    rewrite str_drop_app, str_length_app. split; [|done]. split; [simpl; lia|apply String.eqb_refl].
Qed.

Lemma above_length_eq k k' path :
  above k path -> above k' path -> String.length k = String.length k' -> k = k'.
Proof.
  assert (forall k, above k path -> k = str_take (String.length k) path) as Ht.
  { intros x [->|[r ->]]; [|by rewrite str_take_app].
    clear. induction x as [|a x IH]; [done|]. simpl. by rewrite <- IH. }
  intros Hk Hk' E. rewrite (Ht k Hk), (Ht k' Hk'). by rewrite E.
Qed.

(** The best match among the entries visited. *)
Definition best_of (path : string) (seen : list (string * MountPoint)) (b : option MountPoint * string) : Prop :=
  match b.1 with
  | Some m => (b.2, m) ∈ seen /\ above b.2 path /\ b.2 <> EmptyString
  | None => b.2 = EmptyString
  end /\
  forall k m, (k, m) ∈ seen -> above k path -> (String.length k <= String.length b.2)%nat.

Lemma best_of_step path seen b k m :
  best_of path seen b ->
  best_of path (seen ++ [(k, m)])
    (if covers k path && (String.length b.2 <? String.length k)%nat then (Some m, k) else b).
Proof.
  intros [Hb Hmax]. destruct (covers k path && _) eqn:E.
  - apply andb_true_iff in E as [Hc%covers_spec Hl%Nat.ltb_lt]. split; simpl.
    + split; [set_solver|]. split; [done|]. by intros ->; simpl in Hl; lia.
    + intros k' m' [Hin|[= -> ->]%list_elem_of_singleton]%elem_of_app Ha; [|done].
      specialize (Hmax _ _ Hin Ha). lia.
  - split; [destruct b as [[m'|] k']; simpl in *; [set_solver|done]|].
    intros k' m' [Hin|[= -> ->]%list_elem_of_singleton]%elem_of_app Ha; [by eapply Hmax|].
    apply andb_false_iff in E as [E|E%Nat.ltb_ge]; [|done]. apply covers_spec in Ha. congruence.
Qed.

Lemma search_mounts_best path l seen b :
  best_of path seen b ->
  match search_mounts path l b with
  | inl m => (path, m) ∈ l
  | inr b' => best_of path (seen ++ l) b' /\ path ∉ l.*1
  end.
Proof.
  revert seen b. induction l as [|[k m] l IH]; intros seen b Hb; cbn [search_mounts].
  - rewrite app_nil_r. split; [done|]. apply not_elem_of_nil.
  - destruct (String.eqb_spec path k) as [->|Hne]; [set_solver|].
    pose proof (IH _ _ (best_of_step path seen b k m Hb)) as Hs. rewrite <- app_assoc in Hs. cbv zeta.
    destruct (search_mounts _ _ _); [set_solver|]. destruct Hs. split; [done|]. cbn. set_solver.
Qed.

Lemma resolveMount_resolves k c path :
  mounts_ok c -> path <> EmptyString -> resolves c path (resolveMount k c path).
Proof.
  intros Hok Hne. unfold resolveMount. rewrite bool_decide_false by done. cbv zeta.
  assert (forall p m, (p, m) ∈ range_order k _ (map_to_list (mounts c)) <-> mounts c !! p = Some m) as Hin.
  { intros p m. by rewrite range_elem, elem_of_map_to_list. }
  pose proof (search_mounts_best path (range_order k _ (map_to_list (mounts c))) [] (None, EmptyString)) as Hs.
  destruct (search_mounts _ _ _) as [m|[[m|] p]].
  - apply Hin in Hs; [|split; [done|set_solver]]. unfold resolves. simpl. rewrite (Hok _ _ Hs).
    split; [done|]. split; [done|]. split; [by left|]. rewrite bool_decide_true by done. split; [|done].
    intros k' m' _ [->|[r ->]]; [done|]. rewrite str_length_app. lia.
  - destruct Hs as [[(Hm & Ha & Hp) Hmax] Hn]; [split; [done|set_solver]|]. simpl in *.
    apply Hin in Hm as Hm'. unfold resolves. simpl. rewrite (Hok _ _ Hm').
    split; [done|]. split; [done|]. split; [done|]. split; [intros k' m' Hk' Hak'; by eapply Hmax; [apply Hin|]|].
    assert (path <> p) as Hpp by (intros ->; apply Hn; apply list_elem_of_fmap; by exists (p, m)).
    rewrite (bool_decide_false _ Hpp). destruct Ha as [|[r ->]]; [done|]. by rewrite str_drop_app.
  - destruct Hs as [[Hp Hmax] Hn]; [split; [done|set_solver]|]. simpl in *. subst p. split; [done|].
    intros k' m' Hk' Ha. apply Hin in Hk'. specialize (Hmax _ _ Hk' Ha). by destruct k'; simpl in Hmax; [|lia].
Qed.

(** The specification determines the result. *)
Lemma resolves_unique c path r r' :
  mounts_ok c -> path <> EmptyString -> resolves c path r -> resolves c path r' -> r = r'.
Proof.
  destruct r as [[m|] rel], r' as [[m'|] rel']; intros Hok Hne; unfold resolves; simpl.
  - intros (Hm & Hp & Ha & Hmax & ->) (Hm' & Hp' & Ha' & Hmax' & ->).
    assert (mp_Path m = mp_Path m') as E.
    { eapply above_length_eq; [done..|]. pose proof (Hmax _ _ Hm' Ha'). pose proof (Hmax' _ _ Hm Ha). lia. }
    rewrite E in Hm |- *. by simplify_eq.
  - intros (Hm & Hp & Ha & _) [_ Hn]. by destruct (Hp (Hn _ _ Hm Ha)).
  - intros [_ Hn] (Hm & Hp & Ha & _). by destruct (Hp (Hn _ _ Hm Ha)).
  - by intros [-> _] [-> _].
Qed.

Lemma NewComposedFS_ok newRoot cwd w c w' : NewComposedFS newRoot cwd w = (Ok c, w') -> mounts_ok c.
Proof.
  unfold NewComposedFS. destruct (newRoot w) as [[root|e] w1]; [|done]. intros [= <- _] k m. simpl.
  by rewrite lookup_empty.
Qed.

Lemma Mount_ok c path fs info w c' w' : mounts_ok c -> Mount c path fs info w = (Ok c', w') -> mounts_ok c'.
Proof.
  unfold Mount. intros Hc. destruct (i_MkdirAll _ _ _ _) as [[u|e] w1]; [|done]. intros [= <- _] k m. simpl.
  rewrite lookup_insert_Some. intros [[<- <-]|[_ Hm]]; [done|by apply Hc].
Qed.

Lemma resolves_rooted c path r : rooted path -> resolves c path r -> rooted r.2.
Proof.
  unfold resolves. intros Hp. destruct r as [[m|] rel]; simpl; [|by intros [-> _]].
  intros (_ & _ & Ha & _ & ->). case_bool_decide as E; [done|]. destruct Ha as [|[r ->]]; [done|].
  rewrite str_drop_app. apply str_prefix_slash. by eexists.
Qed.

Lemma resolveMount_rooted k c path : mounts_ok c -> rooted path -> rooted (resolveMount k c path).2.
Proof.
  intros Hc Hp. eapply resolves_rooted; [done|]. apply resolveMount_resolves; [done|]. by intros ->.
Qed.

(** A routed call is a call of the mounted or of the root filesystem. *)
Lemma route_cases {A} c name (f : SymlinkFS -> string -> W -> A * W) w (Q : A * W -> Prop) :
  mounts_ok c -> rooted name ->
  (rooted name -> Q (f (c_root c) name w)) ->
  (forall k m rel, mounts c !! k = Some m -> rooted rel -> Q (f (mp_FS m) rel w)) ->
  Q (route c name f w).
Proof.
  intros Hok Hn Hr Hm. unfold route. assert (name <> EmptyString) as Hne by by intros ->.
  pose proof (resolveMount_resolves (iter w) c name Hok Hne) as Hs.
  pose proof (resolves_rooted _ _ _ Hn Hs) as Hrel.
  destruct (resolveMount (iter w) c name) as [[m|] rel]; [|by apply Hr].
  destruct Hs as (Hl & _). by eapply Hm.
Qed.

End Composed.

Arguments MountPoint : clear implicits.
Arguments ComposedFS : clear implicits.

Section ComposedKeeps.
Context {W FD Sub : Type} `{MapRange} `{FileMethods W FD} (iter : W -> nat).

(** Descriptors come from one of the filesystems composed. *)
Definition composed_fd (c : ComposedFS W FD Sub) w P (b : bool) (fd : FD) : Prop :=
  (exists I : Keeps (c_root c) rooted w P, fd_ok (FSInv := I) b fd) \/
  exists k m (I : Keeps (mp_FS m) rooted w P), mounts c !! k = Some m /\ fd_ok (FSInv := I) b fd.

(** A routed call that opens a file. *)
Lemma route_open (c : ComposedFS W FD Sub) w P b (f : SymlinkFS W FD Sub -> string -> W -> result FD * W) p s :
  mounts_ok c -> rooted p ->
  (exists I : Keeps (c_root c) rooted w P, P (f (c_root c) p s).2 /\
    forall fd, (f (c_root c) p s).1 = Ok fd -> fd_ok (FSInv := I) b fd) ->
  (forall k m rel, mounts c !! k = Some m -> rooted rel ->
    exists I : Keeps (mp_FS m) rooted w P, P (f (mp_FS m) rel s).2 /\
    forall fd, (f (mp_FS m) rel s).1 = Ok fd -> fd_ok (FSInv := I) b fd) ->
  P (route iter c p f s).2 /\ forall fd, (route iter c p f s).1 = Ok fd -> composed_fd c w P b fd.
Proof.
  intros Hok Hp Hr Hm.
  apply (route_cases iter c p f s (fun r => P r.2 /\ forall fd, r.1 = Ok fd -> composed_fd c w P b fd));
    [done|done|..].
  - intros _. destruct Hr as (I & Hk & Ho). split; [done|]. intros fd Hfd. left. by eauto.
  - intros k m rel E Hrel. destruct (Hm k m rel E Hrel) as (I & Hk & Ho). split; [done|]. intros fd Hfd.
    right. by eauto 10.
Qed.

(** A composition keeps what all its parts keep. *)
Lemma composedFS_keeps (c : ComposedFS W FD Sub) w P :
  mounts_ok c -> Kept (c_root c) rooted w P ->
  (forall k m, mounts c !! k = Some m -> Kept (mp_FS m) rooted w P) ->
  Kept (composedFS iter c) rooted w P.
Proof.
  intros Hok Ir Im. constructor. refine {| fd_ok := composed_fd c w P |}; intros.
  all: cbn [exported fs_Stat fs_Lstat fs_Readlink fs_OpenFile fs_Create fs_Mkdir fs_Remove fs_Rename
    fs_Symlink fs_Truncate fs_Chmod fs_Chown fs_Lchown fs_Chtimes composedFS i_fs i_links i_Stat i_Lstat i_Readlink
    i_OpenFile i_Create i_Mkdir i_Remove i_Rename i_Symlink i_Truncate i_Chmod i_Chown i_Lchown i_Chtimes].
  all: try (apply (route_cases iter c _ _ s (fun r => P r.2)); [done|done|intros ?; destruct Ir as [I]|
            intros ? ? ? E ?; destruct (Im _ _ E) as [I]]; use_inv I).
  all: try (apply route_open; [done|done|destruct Ir as [I]|intros ? ? ? E ?; destruct (Im _ _ E) as [I]];
            exists I; use_inv I).
  all: try (match goal with Hfd : composed_fd _ _ _ _ _ |- _ => destruct Hfd as [[I ?]|(? & ? & I & ? & ?)] end;
            use_inv I).
  assert (forall n x, rooted x -> rooted (resolveMount n c x).2) as Hrel by (intros; by apply resolveMount_rooted).
  pose proof (Hrel (iter s) p) as Hp. pose proof (Hrel (S (iter s)) q) as Hq.
  pose proof (resolveMount_resolves (iter s) c p Hok ltac:(by intros ->)) as Hres.
  unfold ComposedFS_Rename. destruct (resolveMount (iter s) c p) as [[m|] rel];
    destruct (resolveMount (S (iter s)) c q) as [mq rel']; (case_bool_decide; [|done]); cbn [negb snd] in *.
  - destruct Hres as (E & _). destruct (Im _ _ E) as [I]. use_inv I.
  - destruct Ir as [I]. use_inv I.
Qed.

End ComposedKeeps.

(** ** Property *)

(** C13: names are routed to the deepest mount point above them, whatever the
    order in which Go visits the table.  The result of [resolveMount] is
    exactly what the specification says: the mount point with the longest path
    that is the name or ends at one of its slashes, with the rest of the name
    as a rooted path, or no mount point and the name itself; mount points that
    are a prefix in the middle of a component do not count. *)
Theorem resolveMount_exact {W FD Sub} `{MapRange} k (c : ComposedFS W FD Sub) path r :
  mounts_ok c -> path <> EmptyString -> (resolveMount k c path = r <-> resolves c path r).
Proof.
  intros Hok Hne. split; [intros <-; by apply resolveMount_resolves|].
  intros Hr. eapply resolves_unique; [done|done| |exact Hr]. by apply resolveMount_resolves.
Qed.

(** A filesystem mounted at "/" is reached by the name "/" alone. *)
Example root_mount_covers_nothing : covers "/" "/" = true /\ covers "/" "/x" = false.
Proof. split; reflexivity. Qed.
