(* ===== verification/Fusion.v ===== *)
(** * FusionFS (src/examples/fusion-drive/main.go)

    A two-tier filesystem: a cache over a cold tier.  Both are packages
    outside the sources ([cachefs], [lockfs]), so they are parameters; what
    FusionFS adds is the delegation, the treatment of symbolic links, which
    bypass the cache when the cold tier supports them, and its own
    [BasePathFS], which does not. *)

From S2P Require Import Prelude Errors Xdr Attributes AttrCache Path Filesystem Wrappers.
Open Scope Z_scope.

(** [syscall.EINVAL] *)
Definition EINVAL : errno := EOther 22.

(** A value of the interface absfs.FileSystem, whose dynamic type may support
    symbolic links too. *)
Record AnyFS (W FD Sub : Type) := mkAnyFS {
  a_fs :> FileSystem W FD Sub;
  a_links : option (SymLinker W)
}.
Arguments mkAnyFS {W FD Sub}.
Arguments a_fs {W FD Sub}.
Arguments a_links {W FD Sub}.

(** [*cachefs.CacheFS]: a filesystem with [Close]. *)
Record CacheFS (W FD Sub : Type) := mkCacheFS {
  cf_fs :> FileSystem W FD Sub;
  cf_Close : W -> option error * W
}.
Arguments cf_fs {W FD Sub}.
Arguments cf_Close {W FD Sub}.

(** The package cachefs: its option types and its constructor. *)
Class CachePackage (W FD Sub : Type) := {
  WriteMode : Type;
  EvictionPolicy : Type;
  WriteModeWriteThrough : WriteMode;
  EvictionLRU : EvictionPolicy;
  cachefs_New : AnyFS W FD Sub -> Z -> EvictionPolicy -> WriteMode -> Z -> bool -> Z -> W -> CacheFS W FD Sub * W
}.

Section Fusion.
Context {W FD Sub : Type} `{CachePackage W FD Sub}.

Record FusionFS := mkFusionFS {
  fu_cache : CacheFS W FD Sub;
  coldTier : AnyFS W FD Sub;
  fu_cwd : Ref W string
}.

Record FusionConfig := mkFusionConfig {
  CacheSize : Z; CacheTTL : Z; fc_WriteMode : WriteMode; fc_EvictionPolicy : EvictionPolicy
}.

Definition DefaultFusionConfig : FusionConfig :=
  mkFusionConfig (256 * 1024 * 1024) 0 WriteModeWriteThrough EvictionLRU.

Definition NewFusionFS (cold : AnyFS W FD Sub) (config : FusionConfig) (cwd : Ref W string) (w : W)
    : result FusionFS * W :=
  let '(cache, w) := cachefs_New cold (CacheSize config) (fc_EvictionPolicy config) (fc_WriteMode config)
                       (CacheTTL config) true 10000 w in
  (Ok (mkFusionFS cache cold cwd), ref_set cwd "/"%string w).

Definition fusionFS (f : FusionFS) : SymlinkFS W FD Sub :=
  let cache := fu_cache f in
  mkSymlinkFS
  {| i_Open name := i_Open cache name;
     i_OpenFile name flag perm := i_OpenFile cache name flag perm;
     i_Create name := i_Create cache name;
     i_Mkdir name perm := i_Mkdir cache name perm;
     i_MkdirAll path perm := i_MkdirAll cache path perm;
     i_Remove name := i_Remove cache name;
     i_RemoveAll path := i_RemoveAll cache path;
     i_Rename oldpath newpath := i_Rename cache oldpath newpath;
     i_Stat name := i_Stat cache name;
     i_Chmod name mode := i_Chmod cache name mode;
     i_Chown name uid gid := i_Chown cache name uid gid;
     i_Chtimes name atime mtime := i_Chtimes cache name atime mtime;
     i_Truncate name size := i_Truncate cache name size;
     i_ReadDir name := i_ReadDir cache name;
     i_ReadFile name := i_ReadFile cache name;
     i_Sub dir := i_Sub cache dir;
     i_Chdir dir := i_Chdir cache dir;
     i_Getwd := i_Getwd cache;
     i_TempDir := i_TempDir cache |}
  {| i_Lstat name :=
       match a_links (coldTier f) with Some sfs => i_Lstat sfs name | None => i_Stat cache name end;
     i_Lchown name uid gid :=
       match a_links (coldTier f) with Some sfs => i_Lchown sfs name uid gid | None => i_Chown cache name uid gid end;
     i_Readlink name :=
       match a_links (coldTier f) with
       | Some sfs => i_Readlink sfs name
       | None => fun w => (Err (PathError "readlink" name (Errno EINVAL)), w)
       end;
     i_Symlink oldname newname :=
       match a_links (coldTier f) with
       | Some sfs => i_Symlink sfs oldname newname
       | None => fun w => (Err (PathError "symlink" newname (Errno EINVAL)), w)
       end |}.

Definition FusionFS_Close (f : FusionFS) (w : W) : option error * W := cf_Close (fu_cache f) w.

(** ** BasePathFS of the fusion drive

    The same resolution of names; no symbolic links, and [Chdir] is handed on. *)

Record BasePathFS := mkFusionBase { fb_fs : AnyFS W FD Sub; fb_base : string }.

Definition fusion_resolvePath (b : BasePathFS) (name : string) : string :=
  let clean := path_Clean name in
  if String.eqb clean "." || String.eqb clean "/" then fb_base b
  else
    let clean := if str_prefix "/" clean then str_drop 1 clean else clean in
    path_Join (fb_base b) clean.

Definition fusionBaseFS (b : BasePathFS) : AnyFS W FD Sub :=
  let fs := fb_fs b in
  let resolvePath := fusion_resolvePath b in
  mkAnyFS
  {| i_Open name := i_Open fs (resolvePath name);
     i_OpenFile name flag perm := i_OpenFile fs (resolvePath name) flag perm;
     i_Create name := i_Create fs (resolvePath name);
     i_Mkdir name perm := i_Mkdir fs (resolvePath name) perm;
     i_MkdirAll path perm := i_MkdirAll fs (resolvePath path) perm;
     i_Remove name := i_Remove fs (resolvePath name);
     i_RemoveAll path := i_RemoveAll fs (resolvePath path);
     i_Rename oldpath newpath := i_Rename fs (resolvePath oldpath) (resolvePath newpath);
     i_Stat name := i_Stat fs (resolvePath name);
     i_Chmod name mode := i_Chmod fs (resolvePath name) mode;
     i_Chown name uid gid := i_Chown fs (resolvePath name) uid gid;
     i_Chtimes name atime mtime := i_Chtimes fs (resolvePath name) atime mtime;
     i_Truncate name size := i_Truncate fs (resolvePath name) size;
     i_ReadDir name := i_ReadDir fs (resolvePath name);
     i_ReadFile name := i_ReadFile fs (resolvePath name);
     i_Sub dir := i_Sub fs (resolvePath dir);
     i_Chdir dir := i_Chdir fs (resolvePath dir);
     i_Getwd w := (Ok "/"%string, w);
     i_TempDir := "/tmp"%string |}
  None.

End Fusion.
Arguments FusionFS : clear implicits.
Arguments BasePathFS : clear implicits.

(** ** Banner and statistics *)

(** [truncateString]; [None] is the panic of a slice bound below zero. *)
Definition truncateString (s : string) (maxLen : Z) : option string :=
  if slen s <=? maxLen then Some s
  else if maxLen - 3 <? 0 then None
  else Some (str_take (Z.to_nat (maxLen - 3)) s +:+ "...").

(** The loop of [formatBytes]: the divisor and the index of the unit.  A
    [uint64] is divided by 1024 at most six times. *)
Fixpoint format_unit (fuel : nat) (n div exp : Z) : Z * Z :=
  match fuel with
  | O => (div, exp)
  | S fuel => if 1024 <=? n then format_unit fuel (n / 1024) (u64 (div * 1024)) (exp + 1) else (div, exp)
  end.

(** The text: whole bytes, or the quotient and the unit, in the format the
    library's [%.1f] gives the quotient. *)
Definition formatBytes (fmt_quotient : Z -> Z -> string) (dec : Z -> string) (bytes : Z) : option string :=
  if bytes <? 1024 then Some (dec bytes +:+ " B")
  else
    let '(div, exp) := format_unit 7 (bytes / 1024) 1024 0 in
    match str_at "KMGTPE" (Z.to_nat exp) with
    | Some unit => Some (fmt_quotient bytes div +:+ " " +:+ String unit "B")
    | None => None                                     (* index out of range *)
    end.

(** ** Lemmas *)

(** The links a filesystem without them presents. *)
Definition no_links {W FD Sub} (fs : FileSystem W FD Sub) : SymLinker W :=
  {| i_Lstat name := i_Stat fs name;
     i_Lchown name uid gid := i_Chown fs name uid gid;
     i_Readlink name w := (Err (PathError "readlink" name (Errno EINVAL)), w);
     i_Symlink _ newname w := (Err (PathError "symlink" newname (Errno EINVAL)), w) |}.

Definition plain {W FD Sub} (fs : FileSystem W FD Sub) : SymlinkFS W FD Sub := mkSymlinkFS fs (no_links fs).

Section FusionFacts.
Context {W FD Sub : Type} `{FileMethods W FD} `{CachePackage W FD Sub}.

(** FusionFS keeps what its cache keeps and, when the cold tier has links,
    what its cold tier keeps. *)
Lemma fusionFS_keeps (f : FusionFS W FD Sub) dom w P :
  Kept (match a_links (coldTier f) with
        | Some l => mkSymlinkFS (fu_cache f) l
        | None => plain (fu_cache f)
        end) dom w P -> Kept (fusionFS f) dom w P.
Proof.
  intros [I]. constructor. destruct f as [cache [cold [l|]] cwd]; cbn in I;
    (refine {| fd_ok := fd_ok (FSInv := I) |}); intros; use_inv I.
Qed.

Lemma fusionBaseFS_keeps (b : BasePathFS W FD Sub) w P :
  rooted (fb_base b) -> path_Clean (fb_base b) = fb_base b ->
  Kept (plain (fb_fs b)) (under (fb_base b)) w P -> Kept (plain (fusionBaseFS b)) rooted w P.
Proof.
  intros Hb Hc [I]. constructor.
  assert (forall p, rooted p -> under (fb_base b) (fusion_resolvePath b p)) as Hu
    by (intros; by apply resolvePath_under).
  refine {| fd_ok := fd_ok (FSInv := I) |}; intros; try done; use_inv I.
Qed.
End FusionFacts.

Lemma truncateString_length s n r : truncateString s n = Some r -> slen r <= n.
Proof.
  unfold truncateString. destruct (Z.leb_spec (slen s) n) as [Hl|Hl]; [by intros [= <-]|].
  destruct (Z.ltb_spec (n - 3) 0); [done|]. intros [= <-]. unfold slen in *. rewrite str_length_app.
  assert (forall k (x : string), (String.length (str_take k x) <= k)%nat) as Ht.
  { intros k. induction k as [|k IH]; intros [|c x]; simpl; try lia. specialize (IH x). lia. }
  specialize (Ht (Z.to_nat (n - 3)) s). simpl. lia.
Qed.

(** The loop keeps [div] a power of 1024 that does not exceed the value. *)
Lemma format_unit_bounds fuel n div exp bytes :
  0 <= n -> is_u64 bytes -> n = bytes / div -> 0 < div -> div = 1024 ^ (exp + 1) -> 0 <= exp -> div <= bytes ->
  n < 1024 ^ Z.of_nat fuel ->
  let r := format_unit fuel n div exp in
  r.1 = 1024 ^ (r.2 + 1) /\ 0 <= r.2 /\ r.1 <= bytes < r.1 * 1024.
Proof.
  revert n div exp. induction fuel as [|fuel IH]; intros n div exp Hn Hb En Hd Ed He Hle Hf; cbn [format_unit].
  - simpl in Hf. assert (n = 0) by lia. exfalso. assert (1 <= bytes / div); [|lia].
    apply Z.div_le_lower_bound; lia.
  - destruct (Z.leb_spec 1024 n) as [Hk|Hk].
    + assert (div * 1024 <= bytes) as Hdk.
      { rewrite En in Hk. apply Z.mul_le_mono_nonneg_l with (p := div) in Hk; [|lia].
        pose proof (Z.mul_div_le bytes div Hd). lia. }
      rewrite (u64_small (div * 1024)) by (unfold is_u64 in *; lia).
      apply IH; try lia.
      * by apply Z.div_pos.
      * done.
      * rewrite En, Z.div_div by lia. done.
      * rewrite (Z.pow_add_r 1024 (exp + 1) 1) by lia. lia.
      * apply Z.div_lt_upper_bound; [lia|]. rewrite Nat2Z.inj_succ, Z.pow_succ_r in Hf by lia. lia.
    + simpl. split; [done|]. split; [done|]. split; [done|]. rewrite En in Hk.
      pose proof (Z.mod_pos_bound bytes div Hd). pose proof (Z.div_mod bytes div ltac:(lia)). nia.
Qed.

(** [formatBytes] never indexes beyond its table of units, and the divisor is
    the power of 1024 next below the number of bytes. *)
Lemma formatBytes_total fmt dec bytes :
  is_u64 bytes -> exists text, formatBytes fmt dec bytes = Some text.
Proof.
  intros Hb. unfold formatBytes. destruct (Z.ltb_spec bytes 1024) as [Hl|Hl]; [by eexists|].
  pose proof (format_unit_bounds 7 (bytes / 1024) 1024 0 bytes) as Hu. cbv zeta in Hu.
  destruct (format_unit 7 (bytes / 1024) 1024 0) as [div exp]. simpl in Hu.
  destruct Hu as (Hd & He & Hr); try done; try lia;
    [apply Z.div_pos; lia|apply Z.div_lt_upper_bound; unfold is_u64 in *; lia|].
  assert (exp < 6) as He6.
  { destruct (Z.lt_ge_cases exp 6) as [|Hge]; [done|]. exfalso.
    pose proof (Z.pow_le_mono_r 1024 7 (exp + 1)). unfold is_u64 in Hb. lia. }
  assert (exp = 0 \/ exp = 1 \/ exp = 2 \/ exp = 3 \/ exp = 4 \/ exp = 5) as Hc by lia.
  destruct_or! Hc; subst exp; by eexists.
Qed.
