(* ===== verification/DirCache.v ===== *)
(** * The directory cache (src/cache.go, DirCache)

    Directory listings by path, with an expiry time, a bound on the number of
    directories (LRU eviction) and a bound on the size of one listing.  The
    structure is the LRU of Lru.v; the specification is its recency list.  The
    sections of [Get] under the read and the write lock are steps of their
    own. *)

From S2P Require Import Prelude Errors Xdr Attributes Filesystem Lru AttrCache.
Open Scope Z_scope.

(** [CachedDirEntry] without its list element *)
Record CachedDirEntry := mkCachedDir { cd_entries : list FileInfo; cd_validUntil : Z }.

Record DirCache := mkDirCache {
  dc_lru : Lru CachedDirEntry;     (* entries, accessList *)
  dc_timeout : Z;
  dc_maxEntries : Z;
  dc_maxDirSize : Z;
  dc_hits : Z;
  dc_misses : Z
}.

Definition dc_with_lru (c : DirCache) (l : Lru CachedDirEntry) : DirCache :=
  mkDirCache l (dc_timeout c) (dc_maxEntries c) (dc_maxDirSize c) (dc_hits c) (dc_misses c).
(** [atomic.AddUint64(&c.hits, 1)] *)
Definition dc_hit (c : DirCache) : DirCache :=
  mkDirCache (dc_lru c) (dc_timeout c) (dc_maxEntries c) (dc_maxDirSize c) (u64 (dc_hits c + 1)) (dc_misses c).
Definition dc_miss (c : DirCache) : DirCache :=
  mkDirCache (dc_lru c) (dc_timeout c) (dc_maxEntries c) (dc_maxDirSize c) (dc_hits c) (u64 (dc_misses c + 1)).

(** ** Operations *)

Definition NewDirCache (timeout maxEntries maxDirSize : Z) : DirCache :=
  mkDirCache lru_new
    (if timeout <=? 0 then 10 * second else timeout)
    (if maxEntries <=? 0 then 1000 else maxEntries)
    (if maxDirSize <=? 0 then 10000 else maxDirSize) 0 0.

(** [Get] under the read lock, with the count of the miss that follows it (an
    atomic counter); [now] is the first [time.Now()]. *)
Definition DirGet_read (c : DirCache) (path : string) (now : Z) : list FileInfo * bool * get_rest * DirCache :=
  match table (dc_lru c) !! path with
  | None => ([], false, GetDone, dc_miss c)
  | Some e =>
      if cd_validUntil (value e) <? now then ([], false, GetExpire, dc_miss c)
      else (cd_entries (value e), true, GetTouch, c)
  end.

(** [Get] under the write lock, where the entry is looked up again, with the
    count of the hit that follows it. *)
Definition DirGet_write (c : DirCache) (path : string) (rest : get_rest) (now' : Z) : DirCache :=
  match rest with
  | GetDone => c
  | GetTouch =>
      dc_hit (match table (dc_lru c) !! path with
              | Some _ => dc_with_lru c (updateAccessLog (dc_lru c) path)
              | None => c
              end)
  | GetExpire =>
      match table (dc_lru c) !! path with
      | Some e => if cd_validUntil (value e) <? now' then dc_with_lru c (lru_delete (dc_lru c) path) else c
      | None => c
      end
  end.

(** [Get] with nothing in between. *)
Definition DirCache_Get (c : DirCache) (path : string) (now now' : Z)
    : list FileInfo * bool * DirCache :=
  let '(entries, ok, rest, c) := DirGet_read c path now in (entries, ok, DirGet_write c path rest now').

Definition DirCache_Put (c : DirCache) (path : string) (entries : list FileInfo) (now : Z) : DirCache :=
  if dc_maxDirSize c <? zlen entries then c
  else dc_with_lru c (lru_put (dc_maxEntries c) (dc_lru c) path
         (mkCachedDir entries (now + dc_timeout c))).

Definition DirCache_Invalidate (c : DirCache) (path : string) : DirCache :=
  dc_with_lru c (lru_delete (dc_lru c) path).

Definition DirCache_Clear (c : DirCache) : DirCache := dc_with_lru c (lru_clear (dc_lru c)).

Definition DirCache_Size (c : DirCache) : Z := lru_len (dc_lru c).

Definition DirCache_Stats (c : DirCache) : Z * Z * Z :=
  (lru_len (dc_lru c), i64 (dc_hits c), i64 (dc_misses c)).

Definition DirCache_Resize (c : DirCache) (newMaxEntries : Z) : DirCache :=
  let n := if newMaxEntries <=? 0 then 1000 else newMaxEntries in
  if dc_maxEntries c =? n then c
  else mkDirCache (lru_shrink n (dc_lru c)) (dc_timeout c) n (dc_maxDirSize c) (dc_hits c) (dc_misses c).

Definition DirCache_UpdateTTL (c : DirCache) (newTimeout : Z) : DirCache :=
  let t := if newTimeout <=? 0 then 10 * second else newTimeout in
  mkDirCache (dc_lru c) t (dc_maxEntries c) (dc_maxDirSize c) (dc_hits c) (dc_misses c).

(** ** Specification *)

Inductive dc_op :=
  | DGet (path : string) (now now' : Z)
  | DPut (path : string) (entries : list FileInfo) (now : Z)
  | DInvalidate (path : string)
  | DClear
  | DResize (n : Z)
  | DUpdateTTL (t : Z)
  | DGetRead (path : string) (now : Z)
  | DGetWrite (path : string) (rest : get_rest) (now' : Z).

Definition dc_step (c : DirCache) (o : dc_op) : option (list FileInfo * bool) * DirCache :=
  match o with
  | DGet p now now' => let '(es, ok, c) := DirCache_Get c p now now' in (Some (es, ok), c)
  | DPut p es now => (None, DirCache_Put c p es now)
  | DInvalidate p => (None, DirCache_Invalidate c p)
  | DClear => (None, DirCache_Clear c)
  | DResize n => (None, DirCache_Resize c n)
  | DUpdateTTL t => (None, DirCache_UpdateTTL c t)
  | DGetRead p now => let '(es, ok, _, c) := DirGet_read c p now in (Some (es, ok), c)
  | DGetWrite p rest now' => (None, DirGet_write c p rest now')
  end.

Record dc_spec := mkDSpec {
  ds_list : list (string * CachedDirEntry); ds_timeout : Z; ds_max : Z; ds_maxDir : Z
}.

Definition ds_with (s : dc_spec) (l : list (string * CachedDirEntry)) : dc_spec :=
  mkDSpec l (ds_timeout s) (ds_max s) (ds_maxDir s).

Definition ds_step (s : dc_spec) (o : dc_op) : option (list FileInfo * bool) * dc_spec :=
  match o with
  | DGet p now now' =>
      match a_lookup (ds_list s) p with
      | None => (Some ([], false), s)
      | Some e =>
          if cd_validUntil e <? now then
            (Some ([], false),
             if cd_validUntil e <? now' then ds_with s (a_remove (ds_list s) p) else s)
          else (Some (cd_entries e, true), ds_with s (a_touch (ds_list s) p))
      end
  | DPut p es now =>
      (None, if ds_maxDir s <? zlen es then s
             else ds_with s (a_put (ds_max s) (ds_list s) p (mkCachedDir es (now + ds_timeout s))))
  | DInvalidate p => (None, ds_with s (a_remove (ds_list s) p))
  | DClear => (None, ds_with s [])
  | DResize n =>
      let n := if n <=? 0 then 1000 else n in
      (None, mkDSpec (take (Z.to_nat n) (ds_list s)) (ds_timeout s) n (ds_maxDir s))
  | DUpdateTTL t =>
      (None, mkDSpec (ds_list s) (if t <=? 0 then 10 * second else t) (ds_max s) (ds_maxDir s))
  | DGetRead p now =>
      (Some match a_lookup (ds_list s) p with
            | Some e => if cd_validUntil e <? now then ([], false) else (cd_entries e, true)
            | None => ([], false)
            end, s)
  | DGetWrite p rest now' =>
      (None,
       match rest, a_lookup (ds_list s) p with
       | GetTouch, Some _ => ds_with s (a_touch (ds_list s) p)
       | GetExpire, Some e => if cd_validUntil e <? now' then ds_with s (a_remove (ds_list s) p) else s
       | _, _ => s
       end)
  end.

Definition dc_run {S} (step : S -> dc_op -> option (list FileInfo * bool) * S) (s : S) (os : list dc_op)
    : list (option (list FileInfo * bool)) * S :=
  foldl (fun acc o => let '(r, s) := step acc.2 o in (acc.1 ++ [r], s)) ([], s) os.

Definition dc_abs (c : DirCache) : dc_spec :=
  mkDSpec (abs (dc_lru c)) (dc_timeout c) (dc_maxEntries c) (dc_maxDirSize c).

Record dc_inv (c : DirCache) : Prop := {
  dci_lru : lru_inv (dc_lru c);
  dci_max : 0 < dc_maxEntries c;
  dci_size : zlen (abs (dc_lru c)) <= dc_maxEntries c;
  dci_dirs : forall p e, (p, e) ∈ abs (dc_lru c) -> zlen (cd_entries e) <= dc_maxDirSize c
}.

(** ** Lemmas *)

Lemma NewDirCache_inv t n m : dc_inv (NewDirCache t n m).
Proof.
  constructor; simpl; [apply lru_inv_new|destruct (Z.leb_spec n 0); lia| |].
  - change (zlen (abs lru_new)) with 0. destruct (Z.leb_spec n 0); lia.
  - intros p e H. by apply elem_of_nil in H.
Qed.

Lemma dc_inv_update c l :
  dc_inv c -> lru_inv l -> zlen (abs l) <= dc_maxEntries c ->
  (forall p e, (p, e) ∈ abs l -> (p, e) ∈ abs (dc_lru c) \/ zlen (cd_entries e) <= dc_maxDirSize c) ->
  dc_inv (dc_with_lru c l).
Proof.
  intros Hc Hl Hs He. constructor; simpl; [done|apply Hc|done|].
  intros p e [Hin|]%He; [by eapply dci_dirs|done].
Qed.

Lemma dc_inv_counters c h m :
  dc_inv c ->
  dc_inv (mkDirCache (dc_lru c) (dc_timeout c) (dc_maxEntries c) (dc_maxDirSize c) h m).
Proof. intros Hc. constructor; apply Hc. Qed.

Lemma dc_remove_inv c p : dc_inv c -> dc_inv (DirCache_Invalidate c p).
Proof.
  intros Hc. destruct (delete_spec _ p (dci_lru _ Hc)) as (Hi & Ha & _).
  apply dc_inv_update; [done|done| |]; rewrite Ha.
  - pose proof (a_remove_length (abs (dc_lru c)) p). pose proof (dci_size _ Hc). unfold zlen in *. lia.
  - intros q e [_ H]%list_elem_of_filter. by left.
Qed.

Lemma dc_get_read_refines c p now :
  dc_inv c ->
  let '(es, ok, _, c') := DirGet_read c p now in
  dc_inv c' /\ dc_abs c' = dc_abs c /\ ds_step (dc_abs c) (DGetRead p now) = (Some (es, ok), dc_abs c').
Proof.
  intros Hc. unfold DirGet_read. cbn [ds_step dc_abs ds_list]. rewrite abs_lookup by apply Hc.
  destruct (table (dc_lru c) !! p) as [e|]; simpl; [|by split; [apply dc_inv_counters|]].
  destruct (cd_validUntil (value e) <? now); simpl; [by split; [apply dc_inv_counters|]|done].
Qed.

Lemma dc_get_write_refines c p rest now' :
  dc_inv c ->
  dc_inv (DirGet_write c p rest now') /\
  ds_step (dc_abs c) (DGetWrite p rest now') = (None, dc_abs (DirGet_write c p rest now')).
Proof.
  intros Hc. unfold DirGet_write. cbn [ds_step dc_abs ds_list]. rewrite abs_lookup by apply Hc.
  destruct rest; [done| |].
  - destruct (table (dc_lru c) !! p) as [e|]; simpl; [|by split; [apply dc_inv_counters|]].
    destruct (update_touch _ p (dci_lru _ Hc)) as (Hi & Ha & _). split.
    + apply (dc_inv_counters (dc_with_lru c (updateAccessLog (dc_lru c) p))).
      apply dc_inv_update; [done|done| |]; rewrite Ha.
      * pose proof (a_touch_length (abs (dc_lru c)) p). pose proof (dci_size _ Hc). unfold zlen in *. lia.
      * intros q x Hx%a_touch_elem. by left.
    + unfold dc_abs, ds_with; simpl. by rewrite Ha.
  - destruct (table (dc_lru c) !! p) as [e|]; simpl; [|done].
    destruct (cd_validUntil (value e) <? now'); simpl; [|done]. split; [by apply dc_remove_inv|].
    destruct (delete_spec _ p (dci_lru _ Hc)) as (_ & Ha & _). unfold dc_abs, ds_with; simpl. by rewrite Ha.
Qed.

(** The two sections with nothing in between. *)
Lemma dc_get_refines c p now now' :
  dc_inv c ->
  dc_inv (DirCache_Get c p now now').2 /\
  ds_step (dc_abs c) (DGet p now now') =
    (Some (DirCache_Get c p now now').1, dc_abs (DirCache_Get c p now now').2).
Proof.
  intros Hc. unfold DirCache_Get. pose proof (dc_get_read_refines c p now Hc) as Hr.
  destruct (DirGet_read c p now) as [[[es ok] rest] c1] eqn:E. destruct Hr as (Hc1 & Ea & Er). simpl.
  destruct (dc_get_write_refines c1 p rest now' Hc1) as [Hw Ew]. split; [done|].
  rewrite Ea in Ew. cbn [ds_step dc_abs ds_list] in *. rewrite abs_lookup in * by apply Hc. unfold DirGet_read in E.
  destruct (table (dc_lru c) !! p) as [e|]; simpl in *; [|simplify_eq; by rewrite <- Ew].
  destruct (cd_validUntil (value e) <? now); simplify_eq; by rewrite <- Ew.
Qed.

Lemma dc_put_refines c p es now :
  dc_inv c ->
  dc_inv (DirCache_Put c p es now) /\
  ds_step (dc_abs c) (DPut p es now) = (None, dc_abs (DirCache_Put c p es now)).
Proof.
  intros Hc. unfold DirCache_Put, ds_step. cbn [dc_abs ds_list ds_maxDir ds_max ds_timeout].
  destruct (Z.ltb_spec (dc_maxDirSize c) (zlen es)); [done|].
  destruct (put_spec (dc_maxEntries c) (dc_lru c) p (mkCachedDir es (now + dc_timeout c)) (dci_lru _ Hc))
    as [Hi Ha]. split.
  - apply dc_inv_update; [done|done| |]; rewrite Ha.
    + apply a_put_length; [apply Hc|]. pose proof (dci_size _ Hc). lia.
    + intros q e Hx. apply a_put_elem in Hx as [Hx| ->]; auto.
  - unfold dc_abs, ds_with; simpl. by rewrite Ha.
Qed.

Lemma dc_resize_refines c n :
  dc_inv c ->
  dc_inv (DirCache_Resize c n) /\
  ds_step (dc_abs c) (DResize n) = (None, dc_abs (DirCache_Resize c n)).
Proof.
  intros Hc. unfold DirCache_Resize, ds_step. cbn [dc_abs ds_list ds_maxDir ds_max ds_timeout].
  set (m := if n <=? 0 then 1000 else n).
  assert (0 < m) as Hm by (unfold m; destruct (Z.leb_spec n 0); lia).
  pose proof (dci_size _ Hc) as Hs.
  destruct (Z.eqb_spec (dc_maxEntries c) m) as [E|E].
  - split; [done|]. unfold dc_abs. rewrite <- E, take_ge; [done|]. unfold zlen in Hs. lia.
  - destruct (shrink_spec m (dc_lru c) (dci_lru _ Hc) ltac:(lia)) as [Hi Ha]. split.
    + constructor; simpl; [done|done| |]; rewrite Ha.
      * unfold zlen. rewrite length_take. lia.
      * intros p e H. eapply dci_dirs; [done|].
        rewrite <- (take_drop (Z.to_nat m) (abs (dc_lru c))). apply elem_of_app. by left.
    + unfold dc_abs; simpl. by rewrite Ha.
Qed.

Lemma dc_step_refines c o :
  dc_inv c ->
  dc_inv (dc_step c o).2 /\ ds_step (dc_abs c) o = ((dc_step c o).1, dc_abs (dc_step c o).2).
Proof.
  intros Hc. destruct o as [p now now'|p es now|p| |n|t|p now|p rest now']; cbn [dc_step].
  - destruct (dc_get_refines c p now now' Hc) as [Hi Hs].
    by destruct (DirCache_Get c p now now') as [[es ok] c'].
  - by apply dc_put_refines.
  - split; [by apply dc_remove_inv|]. destruct (delete_spec _ p (dci_lru _ Hc)) as (_ & Ha & _).
    unfold dc_abs, ds_step, ds_with; simpl. by rewrite Ha.
  - destruct (clear_spec (dc_lru c)) as [Hi Ha]. split; [|done].
    apply dc_inv_update; [done|done| |]; rewrite Ha.
    + pose proof (dci_max _ Hc). unfold zlen; simpl. lia.
    + intros q e H. by apply elem_of_nil in H.
  - by apply dc_resize_refines.
  - split; [|done]. constructor; apply Hc.
  - pose proof (dc_get_read_refines c p now Hc) as Hr.
    destruct (DirGet_read c p now) as [[[es ok] rest] c1]. by destruct Hr as (? & _ & ?).
  - by apply dc_get_write_refines.
Qed.

(** ** Properties *)

(** Every run of operations on a fresh directory cache returns the
    listings the bounded recency list returns and ends in the corresponding
    state; it never caches more than its maximum number of directories nor a
    listing longer than the maximum directory size. *)
Theorem dir_cache_refines_recency_list t n m os :
  let c := (dc_run dc_step (NewDirCache t n m) os).2 in
  dc_run ds_step (dc_abs (NewDirCache t n m)) os =
    ((dc_run dc_step (NewDirCache t n m) os).1, dc_abs c) /\
  DirCache_Size c <= dc_maxEntries c /\
  (forall p e, table (dc_lru c) !! p = Some e -> zlen (cd_entries (value e)) <= dc_maxDirSize c).
Proof.
  assert (forall os, dc_inv (dc_run dc_step (NewDirCache t n m) os).2 /\
    dc_run ds_step (dc_abs (NewDirCache t n m)) os =
    ((dc_run dc_step (NewDirCache t n m) os).1, dc_abs (dc_run dc_step (NewDirCache t n m) os).2)) as H.
  { clear os. unfold dc_run. induction os as [|o os IH] using rev_ind.
    - split; [apply NewDirCache_inv|done].
    - rewrite !foldl_app. simpl. destruct IH as [Hi ->]. simpl.
      destruct (dc_step_refines _ o Hi) as [Hi' ->].
      destruct (dc_step _ o) as [r c]. done. }
  intros c. destruct (H os) as [Hi Hr]. fold c in Hi, Hr. split; [done|]. split.
  - unfold DirCache_Size. rewrite lru_len_abs by apply Hi. apply Hi.
  - intros p e He. apply (dci_dirs _ Hi p). apply abs_elem; [apply Hi|]. by exists e.
Qed.
