(* ===== verification/Server.v ===== *)
(** * The server state and the effects of requests (src/absnfs.go, src/types.go)

    [AbsfsNFS] as a record, and a state monad in which the operations and the
    procedure handlers are written.  [None] is a Go panic (the dereference of
    a nil pointer, a slice bound out of range).  A node is an address in the
    node store, which holds its attributes; the clock is a sequence of
    readings, one per [time.Now()]. *)

From S2P Require Import Prelude Errors Xdr Attributes Rpc MinHeap FileHandle Lru AttrCache Path.
From S2P Require Import Options Filesystem DirCache.
Open Scope Z_scope.

(** ** What surrounds the server *)

Class Env := {
  clock : nat -> Z;          (* the successive readings of time.Now() *)
  choice : nat -> bool;      (* the runtime's choice between two ready channels *)
  windows : bool;            (* runtime.GOOS == "windows" *)
  writeVerf : list byte      (* the write verifier of this server boot *)
}.

(** [OperationType] and the part of the rate limiter the handlers call. *)
Inductive OperationType := OpTypeReadLarge | OpTypeWriteLarge | OpTypeReaddir | OpTypeMount.

(** [AllowOperation ip op]: the decision and the limiter afterwards, given the
    clock and the number of readings taken so far. *)
Class OpLimiter (RL : Type) := {
  NewRateLimiter : RateLimiterConfig -> (nat -> Z) -> nat -> RL;
  AllowOperation : string -> OperationType -> (nat -> Z) -> nat -> RL -> bool * nat * RL
}.

(** The events the handlers report to the metrics collector. *)
Inductive metric :=
  | AttrCacheHit | AttrCacheMiss | DirCacheHit | DirCacheMiss
  | NegativeCacheHit | NegativeCacheMiss
  | TimeoutOf (op : string) | ErrorOf (kind : string) | RateLimitExceeded.

(** ** State *)

Record Srv (F RL : Type) := mkSrv {
  s_fs : F;
  s_nodes : gmap nat (option NFSAttrs);     (* node.attrs, by node address *)
  s_nextNode : nat;
  s_fileMap : FileHandleMap;
  s_attrCache : AttrCache;
  s_dirCache : option DirCache;
  s_rateLimiter : option RL;
  s_metrics : option (list metric);
  s_tuning : TuningOptions;
  s_policy : PolicyOptions;
  s_tick : nat;
  s_unread : list byte                      (* what the reader of the call's arguments has left *)
}.
Arguments mkSrv {F RL}.
Arguments s_fs {F RL}.
Arguments s_nodes {F RL}.
Arguments s_nextNode {F RL}.
Arguments s_fileMap {F RL}.
Arguments s_attrCache {F RL}.
Arguments s_dirCache {F RL}.
Arguments s_rateLimiter {F RL}.
Arguments s_metrics {F RL}.
Arguments s_tuning {F RL}.
Arguments s_policy {F RL}.
Arguments s_tick {F RL}.
Arguments s_unread {F RL}.

(** ** The monad *)

Definition M (F RL A : Type) : Type := Srv F RL -> option (A * Srv F RL).

#[export] Instance M_ret {F RL} : MRet (M F RL) := fun A a s => Some (a, s).
#[export] Instance M_bind {F RL} : MBind (M F RL) := fun A B f m s =>
  match m s with Some (a, s') => f a s' | None => None end.

Definition panic {F RL A} : M F RL A := fun _ => None.
Definition gets {F RL A} (f : Srv F RL -> A) : M F RL A := fun s => Some (f s, s).
Definition modify {F RL} (f : Srv F RL -> Srv F RL) : M F RL unit := fun s => Some (tt, f s).

(** A call that returns [(T, error)]: go on with the value or leave with the
    error. *)
Notation "'let*' x := m 'else' e => h 'in' k" :=
  (mbind (fun r => match r with Ok x => k | Err e => h end) m)
  (at level 10, x pattern, m at level 100, e name, h at level 200, k at level 200,
   format "'[v' 'let*'  x  :=  m  'else'  e  =>  h  'in' '/' k ']'").

Section Effects.
Context {F FD RL : Type} `{SymlinkFileSystem F FD} `{OpLimiter RL} `{Env}.
#[local] Abbreviation M := (M F RL).
#[local] Abbreviation Srv := (Srv F RL).

Definition upd_fs (f : F) (s : Srv) : Srv :=
  mkSrv f (s_nodes s) (s_nextNode s) (s_fileMap s) (s_attrCache s) (s_dirCache s)
    (s_rateLimiter s) (s_metrics s) (s_tuning s) (s_policy s) (s_tick s) (s_unread s).
Definition upd_nodes (n : gmap nat (option NFSAttrs)) (k : nat) (s : Srv) : Srv :=
  mkSrv (s_fs s) n k (s_fileMap s) (s_attrCache s) (s_dirCache s)
    (s_rateLimiter s) (s_metrics s) (s_tuning s) (s_policy s) (s_tick s) (s_unread s).
Definition upd_fileMap (m : FileHandleMap) (s : Srv) : Srv :=
  mkSrv (s_fs s) (s_nodes s) (s_nextNode s) m (s_attrCache s) (s_dirCache s)
    (s_rateLimiter s) (s_metrics s) (s_tuning s) (s_policy s) (s_tick s) (s_unread s).
Definition upd_attrCache (c : AttrCache) (s : Srv) : Srv :=
  mkSrv (s_fs s) (s_nodes s) (s_nextNode s) (s_fileMap s) c (s_dirCache s)
    (s_rateLimiter s) (s_metrics s) (s_tuning s) (s_policy s) (s_tick s) (s_unread s).
Definition upd_dirCache (c : option DirCache) (s : Srv) : Srv :=
  mkSrv (s_fs s) (s_nodes s) (s_nextNode s) (s_fileMap s) (s_attrCache s) c
    (s_rateLimiter s) (s_metrics s) (s_tuning s) (s_policy s) (s_tick s) (s_unread s).
Definition upd_limiter (r : option RL) (t : nat) (s : Srv) : Srv :=
  mkSrv (s_fs s) (s_nodes s) (s_nextNode s) (s_fileMap s) (s_attrCache s) (s_dirCache s)
    r (s_metrics s) (s_tuning s) (s_policy s) t (s_unread s).
Definition upd_metrics (m : option (list metric)) (s : Srv) : Srv :=
  mkSrv (s_fs s) (s_nodes s) (s_nextNode s) (s_fileMap s) (s_attrCache s) (s_dirCache s)
    (s_rateLimiter s) m (s_tuning s) (s_policy s) (s_tick s) (s_unread s).
Definition upd_tick (t : nat) (s : Srv) : Srv :=
  mkSrv (s_fs s) (s_nodes s) (s_nextNode s) (s_fileMap s) (s_attrCache s) (s_dirCache s)
    (s_rateLimiter s) (s_metrics s) (s_tuning s) (s_policy s) t (s_unread s).

Definition upd_unread (b : list byte) (s : Srv) : Srv :=
  mkSrv (s_fs s) (s_nodes s) (s_nextNode s) (s_fileMap s) (s_attrCache s) (s_dirCache s)
    (s_rateLimiter s) (s_metrics s) (s_tuning s) (s_policy s) (s_tick s) b.

(** [time.Now()] *)
Definition time_Now : M Z := fun s => Some (clock (s_tick s), upd_tick (S (s_tick s)) s).

(** The choice of a [select] with several ready cases. *)
Definition select_choice : M bool := fun s => Some (choice (s_tick s), upd_tick (S (s_tick s)) s).

(** A call on the wrapped filesystem or on one of its files. *)
Definition fs_call {A} (op : F -> A * F) : M A := fun s =>
  let '(a, f) := op (s_fs s) in Some (a, upd_fs f s).

(** [if s.metrics != nil { s.metrics.Record...() }] *)
Definition record (m : metric) : M unit :=
  modify (fun s => upd_metrics (cons m <$> s_metrics s) s).

(** *** Contexts: [context.WithTimeout] is a deadline; [ctx.Done()] is ready
    from the deadline on. *)

Definition with_timeout (timeout : Z) : M Z :=
  now ← time_Now; mret (now + timeout).
Definition ctx_done (deadline : Z) : M bool :=
  now ← time_Now; mret (deadline <=? now).

(** [tuning.Timeouts.X]: nil [Timeouts] panics. *)
Definition timeout_of (sel : TimeoutConfig -> Z) : M Z :=
  t ← gets (fun s => Timeouts (s_tuning s));
  match t with Some t => mret (sel t) | None => panic end.

(** *** Nodes *)

(** [&NFSNode{path: path, attrs: attrs}] *)
Definition new_node (p : string) (attrs : NFSAttrs) : M NFSNode := fun s =>
  Some (mkNode (s_nextNode s) p,
        upd_nodes (<[s_nextNode s := Some attrs]> (s_nodes s)) (S (s_nextNode s)) s).

(** [node.attrs], which may be nil *)
Definition node_attrs (n : NFSNode) : M (option NFSAttrs) := fun s =>
  match s_nodes s !! node_addr n with Some a => Some (a, s) | None => None end.

(** [*node.attrs], or a field of it *)
Definition deref_attrs (n : NFSNode) : M NFSAttrs :=
  a ← node_attrs n; match a with Some a => mret a | None => panic end.

(** [node.attrs = attrs] *)
Definition set_attrs (n : NFSNode) (attrs : NFSAttrs) : M unit :=
  modify (fun s => upd_nodes (<[node_addr n := Some attrs]> (s_nodes s)) (s_nextNode s) s).

(** *** Caches *)

(** [s.attrCache.Get(path, s)], with the metric it records *)
Definition attrCache_Get (p : string) : M (option NFSAttrs * bool) :=
  now ← time_Now;
  now' ← time_Now;
  c ← gets s_attrCache;
  match AttrCache_Get c p now now' with
  | None => panic
  | Some (attrs, found, c) =>
      modify (upd_attrCache c) ;;
      record (match found, attrs with
              | true, None => NegativeCacheHit
              | true, Some _ => AttrCacheHit
              | false, _ => AttrCacheMiss
              end) ;;
      mret (attrs, found)
  end.

Definition attrCache_Put (p : string) (a : NFSAttrs) : M unit :=
  now ← time_Now; modify (fun s => upd_attrCache (AttrCache_Put (s_attrCache s) p a now) s).
Definition attrCache_PutNegative (p : string) : M unit :=
  now ← time_Now; modify (fun s => upd_attrCache (PutNegative (s_attrCache s) p now) s).
Definition attrCache_Invalidate (p : string) : M unit :=
  modify (fun s => upd_attrCache (AttrCache_Invalidate (s_attrCache s) p) s).
Definition attrCache_InvalidateNegativeInDir (p : string) : M unit :=
  modify (fun s => upd_attrCache (InvalidateNegativeInDir (s_attrCache s) p) s).

(** [if s.dirCache != nil { s.dirCache.Invalidate(path) }] *)
Definition dirCache_Invalidate (p : string) : M unit :=
  modify (fun s => upd_dirCache ((fun c => DirCache_Invalidate c p) <$> s_dirCache s) s).
Definition dirCache_Put (p : string) (es : list FileInfo) : M unit :=
  now ← time_Now;
  modify (fun s => upd_dirCache ((fun c => DirCache_Put c p es now) <$> s_dirCache s) s).
(** [s.dirCache.Get(path)]; [None] when the cache is disabled *)
Definition dirCache_Get (p : string) : M (option (list FileInfo * bool)) :=
  now ← time_Now;
  now' ← time_Now;
  c ← gets s_dirCache;
  match c with
  | None => mret None
  | Some c =>
      let '(es, ok, c) := DirCache_Get c p now now' in
      modify (upd_dirCache (Some c)) ;; mret (Some (es, ok))
  end.

(** *** Handles *)

(** [fileMap.Allocate(node)] *)
Definition allocate (n : NFSNode) : M Z := fun s =>
  match Allocate (s_fileMap s) (FNode n) with
  | Some (h, _, m) => Some (h, upd_fileMap m s)
  | None => None
  end.

(** [lookupNode] of src/nfs_handlers.go *)
Definition lookupNode (handle : Z) : M (option NFSNode) :=
  gets (fun s => match Get (s_fileMap s) handle with Some (FNode n) => Some n | _ => None end).

(** *** Rate limiting

    [rateLimiter != nil && policy.EnableRateLimiting && !AllowOperation(...)],
    the refusal being recorded; [true] means refused. *)
Definition rate_limited (ip : string) (op : OperationType) : M bool :=
  rl ← gets s_rateLimiter;
  en ← gets (fun s => EnableRateLimiting (s_policy s));
  match rl with
  | Some rl =>
      if (en : bool) then
        t ← gets s_tick;
        let '(ok, t', rl') := AllowOperation ip op clock t rl in
        modify (upd_limiter (Some rl') t') ;;
        if (ok : bool) then mret false else record RateLimitExceeded ;; mret true
      else mret false
  | None => mret false
  end.

Definition read_only : M bool := gets (fun s => ReadOnly (s_policy s)).

End Effects.

(** *** Arguments

    The handlers decode the arguments from the reader they are given; how far
    they have read is part of the state. *)
Definition read_to {F RL} (rest : list byte) : M F RL unit := modify (upd_unread rest).

(** Decode from the reader or leave: [let? (x, r) := d @ body else fail in k],
    [r] being what the reader holds afterwards. *)
Notation "'let?' ( x , r ) := d '@' body 'else' f 'in' k" :=
  (match d body with
   | (Err _, r) => mbind (fun _ : unit => f) (read_to r)
   | (Ok x, r) => mbind (fun _ : unit => k) (read_to r)
   end)
  (at level 10, x name, r name, d at level 99, body at level 99, f at level 99,
   k at level 200).
