(* ===== verification/RateLimiter.v ===== *)
(** * Rate limiting (src/rate_limiter.go)

    Token buckets, the per-address, per-connection and per-operation limiters
    built on them, the sliding window and the file-handle quotas.

    The arithmetic is that of [float64].  The definitions are written over a
    class [Float64] of its operations, with two instances: [binary64], the
    IEEE 754 arithmetic of the Standard Library's [SpecFloat], which runs what
    the program runs, and [exact], rational arithmetic, in which the bounds of
    the algorithm are stated; they hold up to the rounding of the former.
    [time.Now()] reads a clock that an index selects, and the iteration order
    of Go maps is an arbitrary permutation.

    Each method is one step.  In the code [PerIPLimiter.Allow] releases its
    mutex between finding the bucket and taking a token from it; a clean-up by
    another request in between can drop a full bucket from the table, and the
    token is then taken from a bucket nobody sees again. *)

From Stdlib Require Import QArith Lqa SpecFloat.
From S2P Require Import Prelude Options Server.
Open Scope Z_scope.

#[export] Instance OperationType_eq_dec : EqDecision OperationType.
Proof. solve_decision. Defined.

#[export] Instance OperationType_countable : Countable OperationType.
Proof.
  apply (inj_countable'
    (fun op => match op with OpTypeReadLarge => 0%nat | OpTypeWriteLarge => 1%nat | OpTypeReaddir => 2%nat
                           | OpTypeMount => 3%nat end)
    (fun n => match n with 0%nat => OpTypeReadLarge | 1%nat => OpTypeWriteLarge | 2%nat => OpTypeReaddir
                         | _ => OpTypeMount end)).
  by intros [].
Defined.

(** ** float64 *)

Class Float64 (Fl : Type) := {
  f_of_int : Z -> Fl;
  f_add : Fl -> Fl -> Fl;
  f_sub : Fl -> Fl -> Fl;
  f_mul : Fl -> Fl -> Fl;
  f_div : Fl -> Fl -> Fl;
  f_leb : Fl -> Fl -> bool;        (* x <= y *)
  f_ltb : Fl -> Fl -> bool         (* x < y *)
}.

#[export] Instance binary64 : Float64 spec_float := {|
  f_of_int z := binary_normalize 53 1024 z 0 false;
  f_add := SFadd 53 1024;
  f_sub := SFsub 53 1024;
  f_mul := SFmul 53 1024;
  f_div := SFdiv 53 1024;
  f_leb := SFleb;
  f_ltb := SFltb
|}.

#[export] Instance exact : Float64 Q := {|
  f_of_int := inject_Z;
  f_add := Qplus;
  f_sub := Qminus;
  f_mul := Qmult;
  f_div := Qdiv;
  f_leb := Qle_bool;
  f_ltb x y := negb (Qle_bool y x)
|}.

(** ** time *)

Definition MinDuration : Z := - 2 ^ 63.
Definition MaxDuration : Z := 2 ^ 63 - 1.

(** [t.Sub(u)] saturates at the largest and smallest durations. *)
Definition time_Sub (t u : Z) : Z := Z.max MinDuration (Z.min MaxDuration (t - u)).

(** [d.Seconds()] *)
Definition Seconds {Fl} `{Float64 Fl} (d : Z) : Fl :=
  f_add (f_of_int (Z.quot d 1000000000))
        (f_div (f_of_int (Z.rem d 1000000000)) (f_of_int 1000000000)).

(** Programs that read the clock: the index of the next reading is threaded. *)
Definition Timed (A : Type) : Type := (nat -> Z) -> nat -> A * nat.

#[export] Instance Timed_ret : MRet Timed := fun A x clock k => (x, k).
#[export] Instance Timed_bind : MBind Timed :=
  fun A B f m clock k => let '(x, k) := m clock k in f x clock k.

Definition now : Timed Z := fun clock k => (clock k, S k).
Definition tick : Timed nat := fun clock k => (k, k).

Section Limiters.
Context {Fl : Type} `{Float64 Fl} `{MapRange}.

(** ** TokenBucket *)

Record TokenBucket := mkTokenBucket {
  tokens : Fl; maxTokens : Fl; refillRate : Fl; lastRefill : Z
}.

Definition NewTokenBucket (rate : Fl) (burst : Z) : Timed TokenBucket :=
  t ← now; mret (mkTokenBucket (f_of_int burst) (f_of_int burst) rate t).

(** The refill the three methods share: the tokens at time [t]. *)
Definition refilled (tb : TokenBucket) (t : Z) : Fl :=
  let elapsed := Seconds (time_Sub t (lastRefill tb)) in
  let tok := f_add (tokens tb) (f_mul elapsed (refillRate tb)) in
  if f_ltb (maxTokens tb) tok then maxTokens tb else tok.

(** [AllowN(n)]; [Allow()] is the case of one token. *)
Definition take_tokens (n : Fl) (tb : TokenBucket) (t : Z) : bool * TokenBucket :=
  let tok := refilled tb t in
  if f_leb n tok
  then (true, mkTokenBucket (f_sub tok n) (maxTokens tb) (refillRate tb) t)
  else (false, mkTokenBucket tok (maxTokens tb) (refillRate tb) t).

Definition AllowN (n : Z) (tb : TokenBucket) : Timed (bool * TokenBucket) :=
  t ← now; mret (take_tokens (f_of_int n) tb t).

Definition TokenBucket_Allow (tb : TokenBucket) : Timed (bool * TokenBucket) :=
  t ← now; mret (take_tokens (f_of_int 1) tb t).

Definition Tokens (tb : TokenBucket) : Timed Fl := t ← now; mret (refilled tb t).

(** ** SlidingWindow *)

Record SlidingWindow := mkSlidingWindow { window : Z; maxCount : Z; requests : list Z }.

(** [make] of a negative capacity panics. *)
Definition NewSlidingWindow (window maxCount : Z) : option SlidingWindow :=
  if maxCount + 1 <? 0 then None else Some (mkSlidingWindow window maxCount []).

Definition in_window (sw : SlidingWindow) (t : Z) : list Z :=
  filter (fun r => t - window sw < r) (requests sw).

Definition SlidingWindow_Allow (sw : SlidingWindow) (t : Z) : bool * SlidingWindow :=
  let valid := in_window sw t in
  if zlen valid <? maxCount sw
  then (true, mkSlidingWindow (window sw) (maxCount sw) (valid ++ [t]))
  else (false, mkSlidingWindow (window sw) (maxCount sw) valid).

Definition SlidingWindow_Count (sw : SlidingWindow) (t : Z) : Z := zlen (in_window sw t).

(** ** PerIPLimiter *)

Record PerIPLimiter := mkPerIPLimiter {
  ip_limiters : gmap string TokenBucket;
  ip_rate : Fl; ip_burst : Z; ip_lastCleanup : Z; ip_cleanupInterval : Z
}.

Definition NewPerIPLimiter (rate : Fl) (burst cleanupInterval : Z) : Timed PerIPLimiter :=
  t ← now; mret (mkPerIPLimiter ∅ rate burst t cleanupInterval).

(** The loop of [cleanup]: the full buckets, at most 100 of them. *)
Fixpoint collect_full (burst : Z) (entries : list (string * TokenBucket)) (toDelete : list string)
    : Timed (list string) :=
  match entries with
  | [] => mret toDelete
  | (ip, limiter) :: rest =>
      tok ← Tokens limiter;
      if f_leb (f_of_int burst) tok then
        let toDelete := toDelete ++ [ip] in
        if 100 <=? zlen toDelete then mret toDelete else collect_full burst rest toDelete
      else collect_full burst rest toDelete
  end.

Definition PerIP_cleanup (pl : PerIPLimiter) : Timed PerIPLimiter :=
  k ← tick;
  toDelete ← collect_full (ip_burst pl) (range_order k _ (map_to_list (ip_limiters pl))) [];
  mret (mkPerIPLimiter (foldl (fun m ip => delete ip m) (ip_limiters pl) toDelete)
          (ip_rate pl) (ip_burst pl) (ip_lastCleanup pl) (ip_cleanupInterval pl)).

Definition ip_set_limiters (pl : PerIPLimiter) (m : gmap string TokenBucket) : PerIPLimiter :=
  mkPerIPLimiter m (ip_rate pl) (ip_burst pl) (ip_lastCleanup pl) (ip_cleanupInterval pl).

Definition PerIP_Allow (ip : string) (pl : PerIPLimiter) : Timed (bool * PerIPLimiter) :=
  t ← now;
  pl ← (if ip_cleanupInterval pl <? time_Sub t (ip_lastCleanup pl) then
          pl ← PerIP_cleanup pl;
          t ← now;
          mret (mkPerIPLimiter (ip_limiters pl) (ip_rate pl) (ip_burst pl) t (ip_cleanupInterval pl))
        else mret pl);
  limiter ← (match ip_limiters pl !! ip with
             | Some limiter => mret limiter
             | None => NewTokenBucket (ip_rate pl) (ip_burst pl)
             end);
  '(ok, limiter) ← TokenBucket_Allow limiter;
  mret (ok, ip_set_limiters pl (<[ip := limiter]> (ip_limiters pl))).

Definition PerIP_GetStats (pl : PerIPLimiter) : Timed (list (string * Fl)) :=
  foldr (fun '(ip, tb) acc => tok ← Tokens tb; l ← acc; mret ((ip, tok) :: l)) (mret [])
    (map_to_list (ip_limiters pl)).

(** ** PerOperationLimiter *)

Record PerOperationLimiter := mkPerOperationLimiter {
  po_limiters : gmap string (gmap OperationType TokenBucket);
  po_rates : OperationType -> Fl;
  po_bursts : OperationType -> Z;
  po_lastCleanup : Z; po_cleanupInterval : Z
}.

Definition op_rates (config : RateLimiterConfig) (op : OperationType) : Fl :=
  match op with
  | OpTypeReadLarge => f_of_int (ReadLargeOpsPerSecond config)
  | OpTypeWriteLarge => f_of_int (WriteLargeOpsPerSecond config)
  | OpTypeReaddir => f_of_int (ReaddirOpsPerSecond config)
  | OpTypeMount => f_div (f_of_int (MountOpsPerMinute config)) (f_of_int 60)
  end.

Definition op_bursts (op : OperationType) : Z :=
  match op with
  | OpTypeReadLarge => 10
  | OpTypeWriteLarge => 5
  | OpTypeReaddir => 5
  | OpTypeMount => 2
  end.

Definition NewPerOperationLimiter (config : RateLimiterConfig) : Timed PerOperationLimiter :=
  t ← now; mret (mkPerOperationLimiter ∅ (op_rates config) op_bursts t (CleanupInterval config)).

(** Are all the buckets of one address full? *)
Fixpoint all_full (bursts : OperationType -> Z) (l : list (OperationType * TokenBucket)) : Timed bool :=
  match l with
  | [] => mret true
  | (op, limiter) :: rest =>
      tok ← Tokens limiter;
      if f_ltb tok (f_of_int (bursts op)) then mret false else all_full bursts rest
  end.

Fixpoint po_sweep (bursts : OperationType -> Z)
    (l : list (string * gmap OperationType TokenBucket))
    (m : gmap string (gmap OperationType TokenBucket))
    : Timed (gmap string (gmap OperationType TokenBucket)) :=
  match l with
  | [] => mret m
  | (ip, ipLimiters) :: rest =>
      k ← tick;
      allFull ← all_full bursts (range_order k _ (map_to_list ipLimiters));
      po_sweep bursts rest (if (allFull : bool) then delete ip m else m)
  end.

Definition po_set_limiters (pol : PerOperationLimiter) m : PerOperationLimiter :=
  mkPerOperationLimiter m (po_rates pol) (po_bursts pol) (po_lastCleanup pol) (po_cleanupInterval pol).

Definition PerOperation_cleanup (pol : PerOperationLimiter) : Timed PerOperationLimiter :=
  k ← tick;
  m ← po_sweep (po_bursts pol) (range_order k _ (map_to_list (po_limiters pol))) (po_limiters pol);
  mret (po_set_limiters pol m).

Definition PerOperation_Allow (ip : string) (op : OperationType) (pol : PerOperationLimiter)
    : Timed (bool * PerOperationLimiter) :=
  t ← now;
  pol ← (if po_cleanupInterval pol <? time_Sub t (po_lastCleanup pol) then
           pol ← PerOperation_cleanup pol;
           t ← now;
           mret (mkPerOperationLimiter (po_limiters pol) (po_rates pol) (po_bursts pol) t
                   (po_cleanupInterval pol))
         else mret pol);
  let ipLimiters := default ∅ (po_limiters pol !! ip) in
  limiter ← (match ipLimiters !! op with
             | Some limiter => mret limiter
             | None => NewTokenBucket (po_rates pol op) (po_bursts pol op)
             end);
  '(ok, limiter) ← TokenBucket_Allow limiter;
  mret (ok, po_set_limiters pol (<[ip := <[op := limiter]> ipLimiters]> (po_limiters pol))).

(** ** RateLimiter *)

Record RateLimiter := mkRateLimiter {
  rl_config : RateLimiterConfig;
  globalLimiter : TokenBucket;
  perIPLimiter : PerIPLimiter;
  perConnectionLimiter : gmap string TokenBucket;
  perOperationLimiter : PerOperationLimiter;
  fileHandlesPerIP : gmap string Z;
  fileHandlesGlobal : Z
}.

Definition RateLimiter_New (config : RateLimiterConfig) : Timed RateLimiter :=
  g ← NewTokenBucket (f_of_int (GlobalRequestsPerSecond config)) (GlobalRequestsPerSecond config);
  p ← NewPerIPLimiter (f_of_int (PerIPRequestsPerSecond config)) (PerIPBurstSize config)
        (CleanupInterval config);
  o ← NewPerOperationLimiter config;
  mret (mkRateLimiter config g p ∅ o ∅ 0).

Definition rl_upd (rl : RateLimiter) g p c o : RateLimiter :=
  mkRateLimiter (rl_config rl) g p c o (fileHandlesPerIP rl) (fileHandlesGlobal rl).

Definition AllowRequest (ip connID : string) (rl : RateLimiter) : Timed (bool * RateLimiter) :=
  '(ok, g) ← TokenBucket_Allow (globalLimiter rl);
  let rl := rl_upd rl g (perIPLimiter rl) (perConnectionLimiter rl) (perOperationLimiter rl) in
  if negb ok then mret (false, rl)
  else
    '(ok, p) ← PerIP_Allow ip (perIPLimiter rl);
    let rl := rl_upd rl (globalLimiter rl) p (perConnectionLimiter rl) (perOperationLimiter rl) in
    if negb ok then mret (false, rl)
    else if 0 <? PerConnectionRequestsPerSecond (rl_config rl) then
      limiter ← (match perConnectionLimiter rl !! connID with
                 | Some limiter => mret limiter
                 | None => NewTokenBucket (f_of_int (PerConnectionRequestsPerSecond (rl_config rl)))
                             (PerConnectionBurstSize (rl_config rl))
                 end);
      '(ok, limiter) ← TokenBucket_Allow limiter;
      mret (ok, rl_upd rl (globalLimiter rl) (perIPLimiter rl)
                  (<[connID := limiter]> (perConnectionLimiter rl)) (perOperationLimiter rl))
    else mret (true, rl).

Definition RateLimiter_AllowOperation (ip : string) (op : OperationType) (rl : RateLimiter)
    : Timed (bool * RateLimiter) :=
  '(ok, o) ← PerOperation_Allow ip op (perOperationLimiter rl);
  mret (ok, rl_upd rl (globalLimiter rl) (perIPLimiter rl) (perConnectionLimiter rl) o).

Definition rl_handles (rl : RateLimiter) per global : RateLimiter :=
  mkRateLimiter (rl_config rl) (globalLimiter rl) (perIPLimiter rl) (perConnectionLimiter rl)
    (perOperationLimiter rl) per global.

(** [LoadOrStore] leaves a zero count behind even when the request is refused. *)
Definition AllocateFileHandle (ip : string) (rl : RateLimiter) : bool * RateLimiter :=
  let c := rl_config rl in
  if (0 <? FileHandlesGlobal c) && (FileHandlesGlobal c <=? fileHandlesGlobal rl) then (false, rl)
  else if 0 <? FileHandlesPerIP c then
    let count := default 0 (fileHandlesPerIP rl !! ip) in
    if FileHandlesPerIP c <=? count
    then (false, rl_handles rl (<[ip := count]> (fileHandlesPerIP rl)) (fileHandlesGlobal rl))
    else (true, rl_handles rl (<[ip := count + 1]> (fileHandlesPerIP rl)) (fileHandlesGlobal rl + 1))
  else (true, rl_handles rl (fileHandlesPerIP rl) (fileHandlesGlobal rl + 1)).

Definition ReleaseFileHandle (ip : string) (rl : RateLimiter) : RateLimiter :=
  let global := if 0 <? fileHandlesGlobal rl then fileHandlesGlobal rl - 1 else fileHandlesGlobal rl in
  match fileHandlesPerIP rl !! ip with
  | Some count =>
      rl_handles rl (if 0 <? count then <[ip := count - 1]> (fileHandlesPerIP rl) else fileHandlesPerIP rl)
        global
  | None => rl_handles rl (fileHandlesPerIP rl) global
  end.

Definition CleanupConnection (connID : string) (rl : RateLimiter) : RateLimiter :=
  rl_upd rl (globalLimiter rl) (perIPLimiter rl) (delete connID (perConnectionLimiter rl))
    (perOperationLimiter rl).

(** [global_tokens], [per_ip_stats] and [file_handles_global] *)
Definition RateLimiter_GetStats (rl : RateLimiter) : Timed (Fl * list (string * Fl) * Z) :=
  g ← Tokens (globalLimiter rl);
  p ← PerIP_GetStats (perIPLimiter rl);
  mret (g, p, fileHandlesGlobal rl).

End Limiters.

Arguments TokenBucket Fl : clear implicits.
Arguments PerIPLimiter Fl : clear implicits.
Arguments PerOperationLimiter Fl : clear implicits.
Arguments RateLimiter Fl : clear implicits.

(** The interface the request handlers use, implemented by [RateLimiter]. *)
#[export] Instance rate_limiter {Fl} `{Float64 Fl} `{MapRange} : OpLimiter (RateLimiter Fl) := {|
  NewRateLimiter config clock k := (RateLimiter_New config clock k).1;
  AllowOperation ip op clock k rl :=
    let '(ok, rl, k) := RateLimiter_AllowOperation ip op rl clock k in (ok, k, rl)
|}.
