(* ===== verification/RateFacts.v ===== *)
(** * What the rate limiter guarantees

    The bounds of the token bucket and the independence of the per-operation
    buckets, in exact arithmetic. *)

From Stdlib Require Import QArith Qminmax Lqa.
From S2P Require Import Prelude Options Server RateLimiter.
Open Scope Z_scope.

Definition seconds (d : Z) : Q := d # 1000000000.

(** ** Time *)

Lemma Seconds_exact d : (Seconds d == seconds d)%Q.
Proof.
  unfold Seconds, seconds. cbn. pose proof (Z.quot_rem' d 1000000000) as E.
  unfold Qeq, Qdiv, Qmult, Qplus, Qinv, inject_Z. cbn. lia.
Qed.

Lemma seconds_le a b : a <= b -> (seconds a <= seconds b)%Q.
Proof. intros Hab. unfold seconds, Qle. cbn. lia. Qed.

Lemma seconds_nonneg a : 0 <= a -> (0 <= seconds a)%Q.
Proof. intros Ha. unfold seconds, Qle. cbn. lia. Qed.

Lemma seconds_0 : (seconds 0 == 0)%Q.
Proof. reflexivity. Qed.

Lemma seconds_add a b : (seconds (a + b) == seconds a + seconds b)%Q.
Proof. unfold seconds, Qeq, Qplus. cbn. lia. Qed.

Lemma time_Sub_step t t' u : t <= t' -> time_Sub t' u <= time_Sub t u + (t' - t) /\ time_Sub t u <= time_Sub t' u.
Proof. unfold time_Sub, MinDuration, MaxDuration. lia. Qed.

Lemma time_Sub_nonneg t u : u <= t -> 0 <= time_Sub t u.
Proof. unfold time_Sub, MinDuration, MaxDuration. lia. Qed.

Lemma time_Sub_self t : time_Sub t t = 0.
Proof. unfold time_Sub, MinDuration, MaxDuration. lia. Qed.

(** ** Buckets *)

Lemma refilled_min (tb : TokenBucket Q) t :
  (refilled tb t == Qmin (maxTokens tb) (tokens tb + seconds (time_Sub t (lastRefill tb)) * refillRate tb))%Q.
Proof.
  unfold refilled. cbn. rewrite <- (Seconds_exact (time_Sub t (lastRefill tb))).
  destruct (Qle_bool _ _) eqn:E; cbn.
  - apply Qle_bool_iff in E. symmetry. by apply Q.min_r.
  - symmetry. apply Q.min_l. apply Qlt_le_weak. apply Qnot_le_lt. intros Hle.
    apply Qle_bool_iff in Hle. congruence.
Qed.

Lemma refilled_le_max (tb : TokenBucket Q) t : (refilled tb t <= maxTokens tb)%Q.
Proof. rewrite refilled_min. apply Q.le_min_l. Qed.

(** Between two moments a bucket gains at most [rate] tokens per second, and
    loses none. *)
Lemma refilled_gain (tb : TokenBucket Q) t t' :
  (0 <= refillRate tb)%Q -> t <= t' ->
  (refilled tb t' <= refilled tb t + seconds (t' - t) * refillRate tb)%Q /\
  (refilled tb t <= refilled tb t')%Q.
Proof.
  intros Hr Ht. rewrite !refilled_min. destruct (time_Sub_step t t' (lastRefill tb) Ht) as [H1 H2].
  apply seconds_le in H1. apply seconds_le in H2. rewrite seconds_add in H1.
  set (e := seconds (time_Sub t _)) in *. set (e' := seconds (time_Sub t' _)) in *.
  assert (0 <= seconds (t' - t))%Q as Hd by (apply seconds_nonneg; lia).
  set (d := seconds (t' - t)) in *.
  pose proof (Q.min_spec (maxTokens tb) (tokens tb + e * refillRate tb)%Q) as Hm.
  pose proof (Q.min_spec (maxTokens tb) (tokens tb + e' * refillRate tb)%Q) as Hm'.
  assert (e * refillRate tb <= e' * refillRate tb)%Q by (by apply Qmult_le_compat_r).
  assert (e' * refillRate tb <= (e + d) * refillRate tb)%Q by (by apply Qmult_le_compat_r).
  assert (0 <= d * refillRate tb)%Q by (by apply Qmult_le_0_compat).
  rewrite Qmult_plus_distr_l in *. destruct Hm as [[? ->]|[? ->]], Hm' as [[? ->]|[? ->]]; split; lra.
Qed.

#[local] Arguments refilled : simpl never.

Record bucket_ok (tb : TokenBucket Q) (t : Z) : Prop := {
  bo_rate : (0 <= refillRate tb)%Q;
  bo_tokens : (0 <= tokens tb)%Q;
  bo_max : (0 <= maxTokens tb)%Q;
  bo_last : lastRefill tb <= t
}.

Lemma bucket_ok_later tb t t' : bucket_ok tb t -> t <= t' -> bucket_ok tb t'.
Proof. intros [? ? ? ?] ?. split; auto; lia. Qed.

Lemma refilled_nonneg tb t : bucket_ok tb t -> (0 <= refilled tb t)%Q.
Proof.
  intros [Hr Ht Hm Hl]. rewrite refilled_min. apply Q.min_glb; [done|].
  pose proof (seconds_nonneg _ (time_Sub_nonneg t (lastRefill tb) Hl)) as Hs.
  assert (0 <= seconds (time_Sub t (lastRefill tb)) * refillRate tb)%Q as Hp
    by (by apply Qmult_le_0_compat).
  lra.
Qed.

(** Right after a refill the bucket holds what was stored. *)
Lemma refilled_now tok max rate t :
  (tok <= max)%Q -> (refilled (mkTokenBucket tok max rate t) t == tok)%Q.
Proof.
  intros Hle. rewrite refilled_min. cbn. rewrite time_Sub_self.
  assert (tok + seconds 0 * rate == tok)%Q as -> by (rewrite seconds_0; ring).
  by apply Q.min_r.
Qed.

(** One request: it is granted when a token is there, and takes it. *)
Lemma take_spec tb t :
  bucket_ok tb t ->
  let '(ok, tb') := take_tokens (f_of_int 1) tb t in
  bucket_ok tb' t /\ refillRate tb' = refillRate tb /\ maxTokens tb' = maxTokens tb /\
  (refilled tb' t == refilled tb t - (if ok then 1 else 0))%Q.
Proof.
  intros Hb. pose proof (refilled_le_max tb t) as Hm. pose proof (refilled_nonneg tb t Hb) as H0.
  unfold take_tokens. cbn [f_leb exact f_of_int]. destruct (Qle_bool (inject_Z 1) (refilled tb t)) eqn:E.
  - apply Qle_bool_iff in E. unfold inject_Z in E. split; [|split; [done|split; [done|]]].
    + destruct Hb. split; cbn; auto; [unfold inject_Z; lra|lia].
    + rewrite refilled_now; cbn; [reflexivity|]. unfold inject_Z. lra.
  - split; [|split; [done|split; [done|]]].
    + destruct Hb. split; cbn; auto; lia.
    + rewrite refilled_now by done. lra.
Qed.

(** [n] requests in a row, at whatever times the clock shows. *)
Fixpoint allow_n {Fl} `{Float64 Fl} (n : nat) (tb : TokenBucket Fl) : Timed (list bool * TokenBucket Fl) :=
  match n with
  | O => mret ([], tb)
  | S n => '(ok, tb) ← TokenBucket_Allow tb; '(oks, tb) ← allow_n n tb; mret (ok :: oks, tb)
  end.

Definition granted (oks : list bool) : Z := zlen (filter (fun b => b = true) oks).

Definition monotone (clock : nat -> Z) : Prop := forall i j, (i <= j)%nat -> clock i <= clock j.

Lemma granted_cons b oks : granted (b :: oks) = (if b then 1 else 0) + granted oks.
Proof.
  unfold granted, zlen. rewrite filter_cons. destruct b; [rewrite decide_True by done|by rewrite decide_False].
  rewrite length_cons. lia.
Qed.

Lemma allow_n_S n (tb : TokenBucket Q) clock k :
  allow_n (S n) tb clock k =
    let '(ok, tb1) := take_tokens (f_of_int 1) tb (clock k) in
    let '(oks, tb2, k2) := allow_n n tb1 clock (S k) in (ok :: oks, tb2, k2).
Proof.
  cbn [allow_n]. unfold TokenBucket_Allow, now, mret, Timed_ret, mbind, Timed_bind. cbv beta iota.
  destruct (take_tokens _ tb (clock k)) as [ok tb1]. by destruct (allow_n n tb1 clock (S k)) as [[oks tb2] k2].
Qed.

(** The tokens granted and those left never exceed those there at first and
    those that flowed in. *)
Lemma allow_n_potential n tb clock k t :
  monotone clock -> t <= clock k -> bucket_ok tb t ->
  let '(oks, tb', k') := allow_n (S n) tb clock k in
  k' = (k + S n)%nat /\ (0 <= refilled tb' (clock (k + n)%nat))%Q /\
  (inject_Z (granted oks) + refilled tb' (clock (k + n)%nat) <=
     refilled tb (clock k) + seconds (clock (k + n)%nat - clock k)%Z * refillRate tb)%Q.
Proof.
  intros Hm. revert tb k t. induction n as [|n IH]; intros tb k t Ht Hb.
  - pose proof (take_spec tb (clock k) (bucket_ok_later _ _ _ Hb Ht)) as Hs.
    rewrite allow_n_S. destruct (take_tokens _ tb (clock k)) as [ok tb'].
    destruct Hs as (Hb' & _ & _ & Hs). cbn. rewrite Nat.add_0_r. split; [lia|].
    split; [by apply refilled_nonneg|]. rewrite granted_cons, Hs, Z.sub_diag, seconds_0.
    change (granted []) with 0. rewrite Z.add_0_r, Qmult_0_l. destruct ok; unfold inject_Z; lra.
  - pose proof (take_spec tb (clock k) (bucket_ok_later _ _ _ Hb Ht)) as Hs.
    rewrite allow_n_S. destruct (take_tokens _ tb (clock k)) as [ok tb1]. destruct Hs as (Hb1 & Hr & _ & Hs).
    specialize (IH tb1 (S k) (clock k) (Hm k (S k) ltac:(lia)) Hb1).
    destruct (allow_n (S n) tb1 clock (S k)) as [[oks tb2] k2]. destruct IH as (-> & H0 & IH).
    replace (k + S n)%nat with (S k + n)%nat by lia. split; [lia|]. split; [done|].
    rewrite granted_cons, inject_Z_plus. rewrite Hr in IH.
    destruct (refilled_gain tb1 (clock k) (clock (S k)) (bo_rate _ _ Hb1) (Hm k (S k) ltac:(lia))) as [Hg _].
    rewrite Hr, Hs in Hg.
    replace (clock (S k + n)%nat - clock k)
      with ((clock (S k + n)%nat - clock (S k)) + (clock (S k) - clock k)) by lia.
    rewrite seconds_add, Qmult_plus_distr_l. destruct ok; unfold inject_Z at 1; lra.
Qed.

(** A token bucket enforces its rate.  However the requests arrive, those
    granted between the first and the last of any [n + 1] requests in a row
    are at most the burst size plus the rate times the seconds between them. *)
Theorem token_bucket_rate_bound (tb : TokenBucket Q) clock k n :
  monotone clock -> bucket_ok tb (clock k) ->
  let '(oks, _, _) := allow_n (S n) tb clock k in
  (inject_Z (granted oks) <=
     maxTokens tb + seconds (clock (k + n)%nat - clock k)%Z * refillRate tb)%Q.
Proof.
  intros Hm Hb. pose proof (allow_n_potential n tb clock k _ Hm (Z.le_refl _) Hb) as Hp.
  destruct (allow_n (S n) tb clock k) as [[oks tb'] k']. destruct Hp as (_ & H0 & Hp).
  pose proof (refilled_le_max tb (clock k)). lra.
Qed.

(** ** The per-operation limiter *)

(** Two buckets that will answer alike from [t] on. *)
Record same_from (tb sb : TokenBucket Q) (t : Z) : Prop := {
  sf_max : (maxTokens tb == maxTokens sb)%Q;
  sf_rate : (refillRate tb == refillRate sb)%Q;
  sf_level : forall t', t <= t' -> (refilled tb t' == refilled sb t')%Q
}.

Lemma same_from_later tb sb t t' : same_from tb sb t -> t <= t' -> same_from tb sb t'.
Proof. intros [? ? Hl] Ht. split; [done..|]. intros u Hu. apply Hl. lia. Qed.

Lemma refilled_ext tb sb t :
  (tokens tb == tokens sb)%Q -> (maxTokens tb == maxTokens sb)%Q -> (refillRate tb == refillRate sb)%Q ->
  lastRefill tb = lastRefill sb -> (refilled tb t == refilled sb t)%Q.
Proof. intros Ht Hm Hr Hl. by rewrite !refilled_min, Ht, Hm, Hr, Hl. Qed.

Lemma Qle_bool_ext a b c : (b == c)%Q -> Qle_bool a b = Qle_bool a c.
Proof. intros E. apply eq_iff_eq_true. by rewrite !Qle_bool_iff, E. Qed.

(** Buckets that will answer alike do so, and go on doing so. *)
Lemma take_same tb sb t :
  same_from tb sb t ->
  (take_tokens (f_of_int 1) tb t).1 = (take_tokens (f_of_int 1) sb t).1 /\
  same_from (take_tokens (f_of_int 1) tb t).2 (take_tokens (f_of_int 1) sb t).2 t.
Proof.
  intros [Hm Hr Hl]. specialize (Hl t (Z.le_refl t)). unfold take_tokens. cbn [f_leb exact].
  rewrite (Qle_bool_ext _ _ _ Hl). destruct (Qle_bool _ _); (split; [done|]); split; try done;
    intros t' _; apply refilled_ext; cbn; try done. by rewrite Hl.
Qed.

(** The answers of one bucket to requests at the given times. *)
Fixpoint answers_at {Fl} `{Float64 Fl} (tb : TokenBucket Fl) (ts : list Z) : list bool :=
  match ts with
  | [] => []
  | t :: ts => let '(ok, tb) := take_tokens (f_of_int 1) tb t in ok :: answers_at tb ts
  end.

(** A sequence of operations of any clients, with the time and the outcome of
    each. *)
Fixpoint run_ops {Fl} `{Float64 Fl} `{MapRange} (evs : list (string * OperationType))
    (pol : PerOperationLimiter Fl) (clock : nat -> Z) (k : nat)
    : list ((string * OperationType) * (Z * bool)) * PerOperationLimiter Fl * nat :=
  match evs with
  | [] => ([], pol, k)
  | (ip, op) :: evs =>
      let '(ok, pol, k1) := PerOperation_Allow ip op pol clock k in
      let '(rs, pol, k2) := run_ops evs pol clock k1 in
      (((ip, op), (clock (pred k1), ok)) :: rs, pol, k2)
  end.

Section Isolation.
Context `{MapRange} (clock : nat -> Z) (Hclock : monotone clock).
Context (ip : string) (op : OperationType) (rate : Q) (burst : Z) (Hrate : (0 <= rate)%Q).

(** The bucket [sb] stands for the entry of [op] in the limiters of an
    address: an absent entry stands for a full bucket. *)
Definition entry_sim (lims : gmap OperationType (TokenBucket Q)) (sb : TokenBucket Q) (t : Z) : Prop :=
  (maxTokens sb == inject_Z burst)%Q /\ (refillRate sb == rate)%Q /\
  match lims !! op with
  | Some tb => same_from tb sb t
  | None => forall t', t <= t' -> (refilled sb t' == inject_Z burst)%Q
  end.

Definition key_sim (m : gmap string (gmap OperationType (TokenBucket Q))) sb t : Prop :=
  entry_sim (default ∅ (m !! ip)) sb t.

Lemma entry_sim_later lims sb t t' : entry_sim lims sb t -> t <= t' -> entry_sim lims sb t'.
Proof.
  intros (Hm & Hr & He) Ht. do 2 (split; [done|]). destruct (lims !! op).
  - by eapply same_from_later.
  - intros u Hu. apply He. lia.
Qed.

(** A bucket found full stays full. *)
Lemma found_full sb t t' :
  (maxTokens sb == inject_Z burst)%Q -> (refillRate sb == rate)%Q -> t <= t' ->
  (inject_Z burst <= refilled sb t)%Q -> (refilled sb t' == inject_Z burst)%Q.
Proof.
  intros Hm Hr Ht Hf. apply Qle_antisym.
  - rewrite <- Hm. apply refilled_le_max.
  - destruct (refilled_gain sb t t') as [_ Hg]; [by rewrite Hr|done|]. by eapply Qle_trans.
Qed.

Lemma all_full_spec bursts l k b k' :
  all_full bursts l clock k = (b, k') ->
  (k <= k')%nat /\
  (b = true -> forall o tb, (o, tb) ∈ l ->
     exists j, (k <= j <= k')%nat /\ (inject_Z (bursts o) <= refilled tb (clock j))%Q).
Proof.
  revert k. induction l as [|[o tb] l IH]; intros k; cbn [all_full].
  - intros [= <- <-]. split; [lia|]. by intros _ ? ? ?%elem_of_nil.
  - unfold mbind, Timed_bind, Tokens, mbind, Timed_bind, now, mret, Timed_ret. cbn -[refilled all_full].
    destruct (Qle_bool _ _) eqn:E; cbn.
    + intros Hr. apply IH in Hr as [Hk Hr]. split; [lia|]. intros Hb o' tb' [[= -> ->]|Hin]%elem_of_cons.
      * exists k. split; [lia|]. by apply Qle_bool_iff.
      * destruct (Hr Hb o' tb' Hin) as (j & Hj & Hle). exists j. split; [lia|done].
    + intros [= <- <-]. split; [lia|done].
Qed.

(** Dropping the full buckets of an address is not noticed. *)
Lemma entry_sim_dropped lims sb k k' l :
  l ≡ₚ map_to_list lims -> entry_sim lims sb (clock k) -> (k <= k')%nat ->
  (forall tb, (op, tb) ∈ l ->
     exists j, (k <= j <= k')%nat /\ (inject_Z burst <= refilled tb (clock j))%Q) ->
  entry_sim ∅ sb (clock k').
Proof.
  intros Hl (Hm & Hr & He) Hk Hfull. do 2 (split; [done|]). rewrite lookup_empty. intros t' Ht'.
  destruct (lims !! op) as [tb|] eqn:E.
  - destruct (Hfull tb) as (j & Hj & Hf); [rewrite Hl; by apply elem_of_map_to_list|].
    pose proof (Hclock k j ltac:(lia)). pose proof (Hclock j k' ltac:(lia)).
    apply (found_full sb (clock j)); [done|done|lia|]. by rewrite <- (sf_level _ _ _ He) by lia.
  - apply He. pose proof (Hclock k k' Hk). lia.
Qed.

Lemma po_sweep_sim bursts l m sb k m' k' :
  bursts op = burst ->
  (forall lims, (ip, lims) ∈ l -> entry_sim lims sb (clock k)) -> key_sim m sb (clock k) ->
  po_sweep bursts l m clock k = (m', k') -> (k <= k')%nat /\ key_sim m' sb (clock k').
Proof.
  intros Hbu. revert m k. induction l as [|[ip' lims] l IH]; intros m k Hl Hm; cbn [po_sweep].
  - intros [= <- <-]. split; [lia|done].
  - unfold mbind, Timed_bind, tick, mret, Timed_ret. cbv beta iota.
    destruct (all_full _ _ clock k) as [b k1] eqn:E. destruct (all_full_spec _ _ _ _ _ E) as [Hk1 Hf].
    intros Hs. pose proof (Hclock k k1 Hk1) as Hc.
    apply IH in Hs as [Hk' Hs]; [split; [lia|done]|..].
    + intros lims' Hin. eapply entry_sim_later; [|done]. apply Hl. by right.
    + destruct b; [|by eapply entry_sim_later]. unfold key_sim in *.
      destruct (decide (ip' = ip)) as [->|Hne]; [|rewrite lookup_delete_ne by done; by eapply entry_sim_later].
      rewrite lookup_delete_eq. cbn.
      eapply (entry_sim_dropped lims sb k k1); [apply (range_perm k)|apply Hl; by left|done|].
      intros tb Hin. rewrite <- Hbu. by apply Hf.
Qed.

Definition pol_ok (pol : PerOperationLimiter Q) : Prop := po_rates pol op = rate /\ po_bursts pol op = burst.

(** The sweep [PerOperation_Allow] makes first. *)
Definition swept (pol : PerOperationLimiter Q) : Timed (PerOperationLimiter Q) :=
  t ← now;
  if po_cleanupInterval pol <? time_Sub t (po_lastCleanup pol) then
    pol ← PerOperation_cleanup pol;
    t ← now;
    mret (mkPerOperationLimiter (po_limiters pol) (po_rates pol) (po_bursts pol) t
            (po_cleanupInterval pol))
  else mret pol.

Lemma swept_sim pol sb k pol' k' :
  pol_ok pol -> key_sim (po_limiters pol) sb (clock k) -> swept pol clock k = (pol', k') ->
  (k <= k')%nat /\ pol_ok pol' /\ po_rates pol' = po_rates pol /\ po_bursts pol' = po_bursts pol /\
  key_sim (po_limiters pol') sb (clock k').
Proof.
  intros [Hr Hb] Hs. unfold swept, PerOperation_cleanup, mbind, Timed_bind, now, tick, mret, Timed_ret.
  cbv beta iota. destruct (_ <? _).
  - destruct (po_sweep _ _ _ clock (S k)) as [m k1] eqn:E. intros [= <- <-].
    eapply (po_sweep_sim _ _ _ sb) in E as [Hk E].
    + cbn. split; [lia|]. do 3 (split; [done|]). eapply entry_sim_later; [exact E|apply Hclock; lia].
    + done.
    + intros lims Hin. rewrite range_perm in Hin. apply elem_of_map_to_list in Hin.
      unfold key_sim in Hs. rewrite Hin in Hs. eapply entry_sim_later; [exact Hs|apply Hclock; lia].
    + eapply entry_sim_later; [exact Hs|apply Hclock; lia].
  - intros [= <- <-]. split; [lia|]. do 3 (split; [done|]).
    eapply entry_sim_later; [exact Hs|apply Hclock; lia].
Qed.

(** A bucket made now, in place of an absent one. *)
Lemma fresh_same sb t t' :
  (forall u, t <= u -> (refilled sb u == inject_Z burst)%Q) ->
  (maxTokens sb == inject_Z burst)%Q -> (refillRate sb == rate)%Q -> t <= t' ->
  same_from (mkTokenBucket (inject_Z burst) (inject_Z burst) rate t') sb t'.
Proof.
  intros Hf Hm Hr Ht. split; [done|done|]. intros u Hu. rewrite Hf by lia.
  apply (found_full _ t'); [done|done|lia|]. rewrite refilled_now; apply Qle_refl.
Qed.

(** The rest of [PerOperation_Allow]: the decision of the bucket of [op'], made
    at the last reading of the clock. *)
Lemma Allow_swept ip' op' pol k :
  PerOperation_Allow ip' op' pol clock k =
    let '(pol, k) := swept pol clock k in
    let lims := default ∅ (po_limiters pol !! ip') in
    let '(limiter, k) := match lims !! op' with
                         | Some l => (l, k)
                         | None => (mkTokenBucket (inject_Z (po_bursts pol op')) (inject_Z (po_bursts pol op'))
                                      (po_rates pol op') (clock k), S k)
                         end in
    let '(ok, limiter) := take_tokens (f_of_int 1) limiter (clock k) in
    (ok, po_set_limiters pol (<[ip' := <[op' := limiter]> lims]> (po_limiters pol)), S k).
Proof.
  unfold PerOperation_Allow, swept, TokenBucket_Allow, NewTokenBucket.
  unfold mbind, Timed_bind, now, mret, Timed_ret. cbv beta iota. destruct (_ <? _).
  - destruct (PerOperation_cleanup pol clock (S k)) as [p k1]. cbv beta iota. cbn [po_limiters].
    destruct (default ∅ _ !! op') as [tb|]; cbv beta iota.
    + by destruct (take_tokens _ tb _).
    + by destruct (take_tokens _ (mkTokenBucket _ _ _ (clock (S k1))) _).
  - cbv beta iota. destruct (default ∅ _ !! op') as [tb|]; cbv beta iota.
    + by destruct (take_tokens _ tb _).
    + by destruct (take_tokens _ (mkTokenBucket _ _ _ (clock (S k))) _).
Qed.

Lemma Allow_sim ip' op' pol sb k ok pol' k' :
  pol_ok pol -> key_sim (po_limiters pol) sb (clock k) ->
  PerOperation_Allow ip' op' pol clock k = (ok, pol', k') ->
  pol_ok pol' /\
  exists sb', key_sim (po_limiters pol') sb' (clock k') /\
    if bool_decide ((ip', op') = (ip, op))
    then take_tokens (f_of_int 1) sb (clock (pred k')) = (ok, sb')
    else sb' = sb.
Proof.
  intros Hp Hs. rewrite Allow_swept. destruct (swept pol clock k) as [pol1 k1] eqn:E.
  eapply swept_sim in E as (Hk1 & Hp1 & _ & _ & Hs1); [|done..]. clear Hs Hp pol.
  cbv zeta. set (lims := default ∅ (po_limiters pol1 !! ip')) in *.
  destruct (bool_decide_reflect ((ip', op') = (ip, op))) as [[= -> ->]|Hne].
  - unfold key_sim in Hs1. fold lims in Hs1. destruct Hs1 as (Hm & Hr & He).
    assert (exists tb k2, (k1 <= k2)%nat /\ same_from tb sb (clock k2) /\
      match lims !! op with
      | Some l => (l, k1)
      | None => (mkTokenBucket (inject_Z (po_bursts pol1 op)) (inject_Z (po_bursts pol1 op))
                   (po_rates pol1 op) (clock k1), S k1)
      end = (tb, k2)) as (tb & k2 & Hk2 & Hsame & ->).
    { destruct (lims !! op) as [tb|] eqn:El; [by exists tb, k1|]. destruct Hp1 as [-> ->].
      do 2 eexists. split; [|split; [|done]]; [lia|].
      eapply same_from_later; [by apply (fresh_same sb (clock k1))|apply Hclock; lia]. }
    destruct (take_same tb sb (clock k2) Hsame) as [Hok Hsame'].
    destruct (take_tokens _ tb (clock k2)) as [ok1 tb']. destruct (take_tokens _ sb (clock k2)) as [ok2 sb'] eqn:Es.
    cbn in Hok, Hsame'. subst ok2. intros [= <- <- <-]. split; [done|]. exists sb'. split; [|done].
    assert (maxTokens sb' = maxTokens sb /\ refillRate sb' = refillRate sb) as [Hm' Hr'].
    { unfold take_tokens in Es. destruct (f_leb _ _); by simplify_eq. }
    unfold key_sim. cbn. rewrite lookup_insert_eq. cbn. split; [by rewrite Hm'|]. split; [by rewrite Hr'|].
    rewrite lookup_insert_eq. eapply same_from_later; [done|apply Hclock; lia].
  - destruct (match lims !! op' with Some l => _ | None => _ end) as [tb k2] eqn:El.
    assert (k1 <= k2)%nat as Hk2 by (destruct (lims !! op'); simplify_eq; lia).
    destruct (take_tokens _ tb (clock k2)) as [ok1 tb']. intros [= <- <- <-]. split; [done|].
    exists sb. split; [|done]. eapply entry_sim_later; [|apply (Hclock k1 (S k2)); lia].
    unfold key_sim in Hs1. cbn. destruct (decide (ip' = ip)) as [->|Hi].
    + rewrite lookup_insert_eq. cbn. fold lims in Hs1. unfold entry_sim.
      rewrite lookup_insert_ne by congruence. exact Hs1.
    + by rewrite lookup_insert_ne by done.
Qed.

(** The requests of one client for one kind of operation, with their times and
    outcomes. *)
Definition mine (rs : list ((string * OperationType) * (Z * bool))) : list (Z * bool) :=
  (filter (fun r => r.1 = (ip, op)) rs).*2.

Lemma run_sim evs pol sb k :
  pol_ok pol -> key_sim (po_limiters pol) sb (clock k) ->
  let '(rs, _, _) := run_ops evs pol clock k in (mine rs).*2 = answers_at sb (mine rs).*1.
Proof.
  revert pol sb k. induction evs as [|[ip' op'] evs IH]; intros pol sb k Hp Hs; [done|]. cbn [run_ops].
  destruct (PerOperation_Allow ip' op' pol clock k) as [[ok pol1] k1] eqn:E.
  eapply Allow_sim in E as (Hp1 & sb' & Hs1 & Hsb); [|done..].
  specialize (IH pol1 sb' k1 Hp1 Hs1). destruct (run_ops evs pol1 clock k1) as [[rs pol2] k2].
  unfold mine in *. rewrite filter_cons. cbn [fst]. case_bool_decide as Hk.
  - rewrite decide_True by done. rewrite !fmap_cons. cbn [fst snd answers_at]. by rewrite Hsb, IH.
  - rewrite decide_False by done. by subst sb'.
Qed.
End Isolation.

(** Each client is limited on its own, whatever the others do.  In any
    sequence of operations of any clients on a new limiter, the requests of
    one address for one kind of operation get exactly the answers of a token
    bucket of their own that was full at the start and saw only them: no
    traffic of others and no clean-up of idle entries makes a difference. *)
Theorem operations_limited_independently `{MapRange} config clock k evs ip op :
  monotone clock -> (0 <= op_rates config op)%Q ->
  let '(pol, k0) := NewPerOperationLimiter config clock k in
  let '(rs, _, _) := run_ops evs pol clock k0 in
  (mine ip op rs).*2 =
    answers_at (mkTokenBucket (inject_Z (op_bursts op)) (inject_Z (op_bursts op)) (op_rates config op) (clock k))
      (mine ip op rs).*1.
Proof.
  intros Hm Hr. unfold NewPerOperationLimiter, mbind, Timed_bind, now, mret, Timed_ret. cbv beta iota.
  eapply (run_sim clock Hm ip op (op_rates config op) (op_bursts op)); [done|done|].
  unfold key_sim. cbn [po_limiters]. rewrite lookup_empty. split; [done|]. split; [done|].
  unfold default, from_option, id. rewrite lookup_empty. intros t' Ht'.
  pose proof (Hm k (S k) ltac:(lia)).
  apply (found_full (op_rates config op) (op_bursts op) Hr _ (clock k)); [done|done|lia|].
  rewrite refilled_now; apply Qle_refl.
Qed.

(** ** Concrete runs *)

#[local] Instance range_id : MapRange.
Proof. by exists (fun _ _ l => l). Defined.

(** A clock that advances a second per reading. *)
Definition second_clock (k : nat) : Z := Z.of_nat k * 1000000000.

Lemma second_clock_monotone : monotone second_clock.
Proof. intros i j Hij. unfold second_clock. lia. Qed.

(** Ten requests, a second apart, to a bucket of two tokens and ten a minute. *)
Lemma token_bucket_rate_bound_witness :
  let tb := mkTokenBucket 2%Q 2%Q (10 # 60)%Q 0 in
  let '(oks, _, _) := allow_n 10 tb second_clock 0%nat in
  (inject_Z (granted oks) <=
     maxTokens tb + seconds (second_clock (0 + 9)%nat - second_clock 0) * refillRate tb)%Q.
Proof.
  exact (token_bucket_rate_bound (mkTokenBucket 2%Q 2%Q (10 # 60)%Q 0) second_clock 0%nat 9%nat
    second_clock_monotone ltac:(split; vm_compute; congruence)).
Defined.

Example token_bucket_ten_requests :
  (allow_n 10 (mkTokenBucket 2%Q 2%Q (10 # 60)%Q 0) second_clock 0%nat).1.1 =
    [true; true; false; false; false; false; true; false; false; false].
Proof. vm_compute. reflexivity. Qed.

(** Two clients mount in turn. *)
Definition sample_ops : list (string * OperationType) :=
  [("10.0.0.1", OpTypeMount); ("10.0.0.2", OpTypeMount); ("10.0.0.1", OpTypeMount);
   ("10.0.0.1", OpTypeMount); ("10.0.0.2", OpTypeMount)]%string.

Lemma operations_limited_independently_witness :
  let '(pol, k0) := NewPerOperationLimiter DefaultRateLimiterConfig second_clock 0%nat in
  let '(rs, _, _) := run_ops sample_ops pol second_clock k0 in
  (mine "10.0.0.2" OpTypeMount rs).*2 =
    answers_at (mkTokenBucket 2%Q 2%Q (op_rates DefaultRateLimiterConfig OpTypeMount) 0)
      (mine "10.0.0.2" OpTypeMount rs).*1.
Proof.
  exact (operations_limited_independently DefaultRateLimiterConfig second_clock 0%nat sample_ops "10.0.0.2"
    OpTypeMount second_clock_monotone ltac:(vm_compute; congruence)).
Defined.

(** In IEEE 754 arithmetic, on a clock that stands still: the third mount of
    the first client is refused, the second client's are not. *)
Example mount_burst_binary64 :
  let '(pol, k0) := NewPerOperationLimiter (Fl := SpecFloat.spec_float) DefaultRateLimiterConfig (fun _ => 0) 0%nat in
  let '(rs, _, _) := run_ops sample_ops pol (fun _ => 0) k0 in
  map (fun r => r.2.2) rs = [true; true; true; false; true].
Proof. vm_compute. reflexivity. Qed.
