(* ===== verification/RateRequests.v ===== *)
(** * Requests admitted by the rate limiter

    [AllowRequest] takes a token from the bucket of the server, from that of
    the client's address and from that of the connection.  The buckets of
    addresses and connections come and go; the account of a key bounds what its
    buckets granted over the whole run, in exact arithmetic.  Also: the quotas
    of the file handles. *)

From Stdlib Require Import QArith Qminmax Lqa.
From stdpp Require Import gmultiset.
From S2P Require Import Prelude Options Server RateLimiter RateFacts.
Open Scope Z_scope.

#[local] Arguments refilled : simpl never.
#[local] Arguments take_tokens : simpl never.

(** ** Accounts *)

Section Account.
Context (clock : nat -> Z) (Hclock : monotone clock) (t0 : Z).
Context (rate : Q) (burst : Z) (Hrate : (0 <= rate)%Q) (Hburst : 0 <= burst).

(** The tokens of a slot of a map of buckets: an absent bucket will be made
    full. *)
Definition level (o : option (TokenBucket Q)) (t : Z) : Q :=
  match o with Some tb => refilled tb t | None => inject_Z burst end.

Definition slot_ok (o : option (TokenBucket Q)) (t : Z) : Prop :=
  forall tb, o = Some tb -> bucket_ok tb t /\ refillRate tb = rate /\ maxTokens tb = inject_Z burst.

(** What was granted since [t0] and what is left do not exceed the burst and
    what flowed in. *)
Record account (o : option (TokenBucket Q)) (t n : Z) : Prop := {
  acc_slot : slot_ok o t;
  acc_start : t0 <= t;
  acc_within : (inject_Z n + level o t <= inject_Z burst + seconds (t - t0) * rate)%Q
}.

Lemma level_nonneg o t : slot_ok o t -> (0 <= level o t)%Q.
Proof.
  intros Ho. destruct o as [tb|]; simpl; [by apply refilled_nonneg, (Ho tb)|]. change 0%Q with (inject_Z 0).
  by rewrite <- Zle_Qle.
Qed.

Lemma account_bound o t n : account o t n -> (inject_Z n <= inject_Z burst + seconds (t - t0) * rate)%Q.
Proof. intros [Hs _ Hw]. pose proof (level_nonneg o t Hs). lra. Qed.

Lemma account_less o t n m : account o t n -> m <= n -> account o t m.
Proof. intros [Hs H0 Hw] Hm. split; [done..|]. rewrite Zle_Qle in Hm. lra. Qed.

Lemma account_later o t t' n : account o t n -> t <= t' -> account o t' n.
Proof.
  intros [Hs H0 Hw] Ht. assert (0 <= seconds (t' - t) * rate)%Q as Hp
    by (apply Qmult_le_0_compat; [apply seconds_nonneg; lia|done]).
  assert (seconds (t' - t0) * rate == seconds (t' - t) * rate + seconds (t - t0) * rate)%Q as E.
  { replace (t' - t0) with ((t' - t) + (t - t0)) by lia. rewrite seconds_add. ring. }
  split; [|lia|].
  - intros tb Hb. destruct (Hs tb Hb) as (Hok & Hr & Hm). split; [by eapply bucket_ok_later|done].
  - rewrite E. destruct o as [tb|]; simpl in *; [|lra]. destruct (Hs tb eq_refl) as (Hok & Hr & Hm).
    destruct (refilled_gain tb t t') as [Hg _]; [by rewrite Hr|done|]. rewrite Hr in Hg. lra.
Qed.

(** A full bucket can be forgotten. *)
Lemma account_drop tb t n :
  account (Some tb) t n -> (inject_Z burst <= refilled tb t)%Q -> account None t n.
Proof. intros [Hs H0 Hw] Hf. split; [by intros ? [=]|done|]. simpl in *. lra. Qed.

Lemma account_fresh t : t0 <= t -> account None t 0.
Proof.
  intros Ht. split; [by intros ? [=]|done|]. simpl. change (inject_Z 0) with 0%Q.
  assert (0 <= seconds (t - t0) * rate)%Q by (apply Qmult_le_0_compat; [apply seconds_nonneg; lia|done]). lra.
Qed.

(** Filling the slot with a new bucket. *)
Lemma account_new t n :
  account None t n -> account (Some (mkTokenBucket (inject_Z burst) (inject_Z burst) rate t)) t n.
Proof.
  intros [Hs H0 Hw]. assert (0 <= inject_Z burst)%Q by (change 0%Q with (inject_Z 0); by rewrite <- Zle_Qle).
  split; [|done|].
  - intros tb [= <-]. split; [|done]. by split; simpl.
  - simpl in *. rewrite refilled_now by apply Qle_refl. done.
Qed.

(** One request on the bucket of a slot. *)
Lemma account_take tb t t' n :
  account (Some tb) t n -> t <= t' ->
  account (Some (take_tokens (f_of_int 1) tb t').2) t' (n + if (take_tokens (f_of_int 1) tb t').1 then 1 else 0).
Proof.
  intros Ha Ht. apply (account_later _ _ t') in Ha; [|done]. destruct Ha as [Hs H0 Hw].
  destruct (Hs tb eq_refl) as (Hok & Hr & Hm). pose proof (take_spec tb t' Hok) as Hsp.
  destruct (take_tokens _ tb t') as [ok tb']. destruct Hsp as (Hok' & Hr' & Hm' & El). simpl in *.
  split; [|done|].
  - intros x [= <-]. split; [done|]. split; congruence.
  - simpl. rewrite El, inject_Z_plus. destruct ok; simpl; unfold inject_Z at 2; lra.
Qed.

(** The code that looks a bucket up, makes it if need be and asks it. *)
Definition use_slot (o : option (TokenBucket Q)) : Timed (bool * TokenBucket Q) :=
  limiter ← (match o with Some l => mret l | None => NewTokenBucket rate burst end);
  TokenBucket_Allow limiter.

Lemma use_slot_time o k : let '(_, _, k') := use_slot o clock k in (k < k')%nat.
Proof.
  unfold use_slot, mbind, Timed_bind, TokenBucket_Allow, NewTokenBucket, mbind, Timed_bind, now, mret, Timed_ret.
  destruct o; destruct (take_tokens _ _ _); lia.
Qed.

Lemma use_slot_account o t n k :
  account o t n -> t <= clock k ->
  let '(ok, tb, k') := use_slot o clock k in
  (k < k')%nat /\ account (Some tb) (clock (pred k')) (n + if ok then 1 else 0).
Proof.
  intros Ha Ht. unfold use_slot, mbind, Timed_bind. destruct o as [tb|].
  - unfold mret, Timed_ret, TokenBucket_Allow, now, mbind, Timed_bind. pose proof (account_take _ _ _ _ Ha Ht) as Hb.
    destruct (take_tokens _ tb (clock k)) as [ok tb']. simpl in *. split; [lia|done].
  - unfold NewTokenBucket, TokenBucket_Allow, now, mbind, Timed_bind, mret, Timed_ret. simpl.
    pose proof (account_new _ _ (account_later _ _ _ _ Ha Ht)) as Ha'.
    pose proof (account_take _ _ _ _ Ha' (Hclock k (S k) ltac:(lia))) as Hb.
    cbn [f_of_int exact] in *. destruct (take_tokens _ _ (clock (S k))) as [ok tb']. simpl in *. split; [lia|done].
Qed.
End Account.

(** ** The limiter per address *)

Section PerAddress.
Context `{MapRange} (clock : nat -> Z) (Hclock : monotone clock) (t0 : Z).
Context (rate : Q) (burst : Z) (Hrate : (0 <= rate)%Q) (Hburst : 0 <= burst).
#[local] Abbreviation account := (account t0 rate burst).

Lemma collect_full_spec l acc k d k' :
  collect_full burst l acc clock k = (d, k') ->
  (k <= k')%nat /\
  forall ip, ip ∈ d -> ip ∈ acc \/
    exists tb j, (ip, tb) ∈ l /\ (k <= j < k')%nat /\ (inject_Z burst <= refilled tb (clock j))%Q.
Proof.
  revert acc k. induction l as [|[ip tb] l IH]; intros acc k; cbn [collect_full].
  - intros [= <- <-]. split; [lia|]. by left.
  - unfold mbind, Timed_bind, Tokens, mbind, Timed_bind, now, mret, Timed_ret. cbn -[refilled collect_full zlen].
    assert (forall acc', (forall x, x ∈ acc' -> x ∈ acc \/ x = ip /\ (inject_Z burst <= refilled tb (clock k))%Q) ->
      collect_full burst l acc' clock (S k) = (d, k') ->
      (k <= k')%nat /\ forall x, x ∈ d -> x ∈ acc \/
        exists tb' j, (x, tb') ∈ (ip, tb) :: l /\ (k <= j < k')%nat /\ (inject_Z burst <= refilled tb' (clock j))%Q) as Hrec.
    { intros acc' Hacc Hr. apply IH in Hr as [Hk Hr]. split; [lia|]. intros x Hx.
      destruct (Hr x Hx) as [Hin|(tb' & j & Hin & Hj & Hf)].
      - destruct (Hacc x Hin) as [?|[-> Hf]]; [by left|]. right. exists tb, k. split; [by left|]. split; [lia|done].
      - right. exists tb', j. split; [by right|]. split; [lia|done]. }
    destruct (Qle_bool _ _) eqn:E; [|apply Hrec; by left]. apply Qle_bool_iff in E.
    assert (forall x, x ∈ acc ++ [ip] -> x ∈ acc \/ x = ip /\ (inject_Z burst <= refilled tb (clock k))%Q) as Hacc.
    { intros x [?|Hx%list_elem_of_singleton]%elem_of_app; [by left|by right]. }
    destruct (100 <=? _); [|by apply Hrec]. intros [= <- <-]. split; [lia|]. intros x Hx.
    destruct (Hacc x Hx) as [?|[-> Hf]]; [by left|]. right. exists tb, k. split; [by left|]. split; [lia|done].
Qed.

Lemma foldl_delete_lookup (l : list string) (m : gmap string (TokenBucket Q)) ip :
  foldl (fun m ip => delete ip m) m l !! ip = if decide (ip ∈ l) then None else m !! ip.
Proof.
  revert m. induction l as [|x l IH]; intros m; [done|]. simpl. rewrite IH.
  destruct (decide (ip ∈ l)); [by rewrite decide_True by set_solver|].
  destruct (decide (ip = x)) as [->|Hn].
  - rewrite decide_True by set_solver. apply lookup_delete_eq.
  - rewrite decide_False by set_solver. by apply lookup_delete_ne.
Qed.

(** The accounts of all addresses. *)
Definition addresses_ok (pl : PerIPLimiter Q) (t : Z) (n : string -> Z) : Prop :=
  ip_rate pl = rate /\ ip_burst pl = burst /\ forall ip, account (ip_limiters pl !! ip) t (n ip).

Lemma addresses_later pl t t' n : addresses_ok pl t n -> t <= t' -> addresses_ok pl t' n.
Proof. intros (Hr & Hb & Ha) Ht. do 2 (split; [done|]). intros ip. by apply (account_later _ _ _ Hrate _ t). Qed.

Lemma addresses_less pl t n n' : addresses_ok pl t n -> (forall ip, n' ip <= n ip) -> addresses_ok pl t n'.
Proof. intros (Hr & Hb & Ha) Hn. do 2 (split; [done|]). intros ip. by eapply account_less. Qed.

Lemma PerIP_cleanup_ok pl t n k :
  addresses_ok pl t n -> t <= clock k ->
  let '(pl', k') := PerIP_cleanup pl clock k in
  (k <= k')%nat /\ addresses_ok pl' (clock k') n.
Proof.
  intros (Hr & Hb & Ha) Ht. unfold PerIP_cleanup, tick, mbind, Timed_bind, mret, Timed_ret. rewrite Hb.
  destruct (collect_full burst _ [] clock k) as [d k'] eqn:E. apply collect_full_spec in E as [Hk Hd].
  split; [done|]. do 2 (split; [done|]). intros ip. simpl. rewrite foldl_delete_lookup.
  pose proof (Hclock k k' Hk) as Hkk. case_decide as Hin; [|apply (account_later _ _ _ Hrate _ t); [done|lia]].
  destruct (Hd ip Hin) as [[]%elem_of_nil|(tb & j & Hl & Hj & Hf)].
  rewrite range_perm, elem_of_map_to_list in Hl. specialize (Ha ip). rewrite Hl in Ha.
  apply (account_later _ _ _ Hrate _ (clock j)); [|apply Hclock; lia]. eapply account_drop; [|exact Hf].
  apply (account_later _ _ _ Hrate _ t); [done|]. pose proof (Hclock k j ltac:(lia)). lia.
Qed.
Lemma PerIP_Allow_slot ip pl k :
  PerIP_Allow ip pl clock k =
    let '(pl1, k1) :=
      (if ip_cleanupInterval pl <? time_Sub (clock k) (ip_lastCleanup pl)
       then let '(pl1, k1) := PerIP_cleanup pl clock (S k) in
            (mkPerIPLimiter (ip_limiters pl1) (ip_rate pl1) (ip_burst pl1) (clock k1) (ip_cleanupInterval pl1), S k1)
       else (pl, S k)) in
    let '(ok, tb, k2) := use_slot (ip_rate pl1) (ip_burst pl1) (ip_limiters pl1 !! ip) clock k1 in
    (ok, ip_set_limiters pl1 (<[ip := tb]> (ip_limiters pl1)), k2).
Proof.
  unfold PerIP_Allow, use_slot, mbind, Timed_bind, now, mret, Timed_ret.
  destruct (_ <? _); [destruct (PerIP_cleanup pl clock (S k)) as [pl1 k1]; cbn [ip_limiters ip_rate ip_burst]|];
    (destruct (ip_limiters _ !! ip); [|destruct (NewTokenBucket _ _ _ _)]; by destruct (TokenBucket_Allow _ _ _) as [[? ?] ?]).
Qed.

(** One request counts for its own address only. *)
Definition counted (ip : string) (ok : bool) (n : string -> Z) : string -> Z :=
  fun x => n x + if bool_decide (x = ip) && ok then 1 else 0.

Lemma PerIP_Allow_ok ip pl t n k :
  addresses_ok pl t n -> t <= clock k ->
  let '(ok, pl', k') := PerIP_Allow ip pl clock k in
  (k < k')%nat /\ addresses_ok pl' (clock (pred k')) (counted ip ok n).
Proof.
  intros Ha Ht. rewrite PerIP_Allow_slot.
  assert (let '(pl1, k1) :=
      (if ip_cleanupInterval pl <? time_Sub (clock k) (ip_lastCleanup pl)
       then let '(pl1, k1) := PerIP_cleanup pl clock (S k) in
            (mkPerIPLimiter (ip_limiters pl1) (ip_rate pl1) (ip_burst pl1) (clock k1) (ip_cleanupInterval pl1), S k1)
       else (pl, S k)) in (k < k1)%nat /\ addresses_ok pl1 (clock (pred k1)) n) as Hc.
  { destruct (_ <? _).
    - pose proof (PerIP_cleanup_ok pl t n (S k) Ha ltac:(pose proof (Hclock k (S k)); lia)) as Hc.
      destruct (PerIP_cleanup pl clock (S k)) as [pl1 k1]. destruct Hc as [Hk Hc]. split; [lia|exact Hc].
    - split; [lia|]. simpl. by eapply addresses_later. }
  destruct (if _ <? _ then _ else _) as [pl1 k1]. destruct Hc as [Hk (Hr & Hb & Hc)]. rewrite Hr, Hb.
  pose proof (use_slot_account clock Hclock t0 rate burst Hrate Hburst _ _ _ k1 (Hc ip) (Hclock (pred k1) k1 ltac:(lia))) as Hu.
  destruct (use_slot _ _ _ clock k1) as [[ok tb] k2]. destruct Hu as [Hk2 Hu]. split; [lia|].
  do 2 (split; [done|]). intros x. simpl. unfold counted. destruct (decide (x = ip)) as [->|Hx].
  - rewrite lookup_insert_eq, bool_decide_true by done. done.
  - rewrite lookup_insert_ne, bool_decide_false by done. simpl. rewrite Z.add_0_r.
    apply (account_later _ _ _ Hrate _ (clock (pred k1))); [done|]. apply Hclock. lia.
Qed.
End PerAddress.

(** ** The whole limiter *)

(** What happens to a limiter; a closed connection gives up its bucket. *)
Inductive rl_event :=
  | Request (ip conn : string)
  | Operation (ip : string) (op : OperationType)
  | ConnClosed (conn : string)
  | TakeHandle (ip : string)
  | DropHandle (ip : string).

Definition rl_step {Fl} `{Float64 Fl} `{MapRange} (e : rl_event) (rl : RateLimiter Fl)
    : Timed (bool * RateLimiter Fl) :=
  match e with
  | Request ip conn => AllowRequest ip conn rl
  | Operation ip op => RateLimiter_AllowOperation ip op rl
  | ConnClosed conn => mret (true, CleanupConnection conn rl)
  | TakeHandle ip => mret (AllocateFileHandle ip rl)
  | DropHandle ip => mret (true, ReleaseFileHandle ip rl)
  end.

(** A run, with the answer to each event. *)
Fixpoint rl_run {Fl} `{Float64 Fl} `{MapRange} (es : list rl_event) (rl : RateLimiter Fl)
    : Timed (list (rl_event * bool) * RateLimiter Fl) :=
  match es with
  | [] => mret ([], rl)
  | e :: es => '(ok, rl) ← rl_step e rl; '(rs, rl) ← rl_run es rl; mret ((e, ok) :: rs, rl)
  end.

(** The requests granted among those that satisfy [P]. *)
Definition granted_requests (P : string -> string -> bool) (rs : list (rl_event * bool)) : Z :=
  granted ((fun r => match r with (Request ip conn, ok) => ok && P ip conn | _ => false end) <$> rs).

Lemma AllowRequest_slots `{MapRange} ip c (rl : RateLimiter Q) clock k :
  AllowRequest ip c rl clock k =
    let '(ok1, g) := take_tokens (f_of_int 1) (globalLimiter rl) (clock k) in
    let rl1 := rl_upd rl g (perIPLimiter rl) (perConnectionLimiter rl) (perOperationLimiter rl) in
    if negb ok1 then (false, rl1, S k)
    else
      let '(ok2, p, k2) := PerIP_Allow ip (perIPLimiter rl) clock (S k) in
      let rl2 := rl_upd rl g p (perConnectionLimiter rl) (perOperationLimiter rl) in
      if negb ok2 then (false, rl2, k2)
      else if 0 <? PerConnectionRequestsPerSecond (rl_config rl) then
        let '(ok3, tb, k3) := use_slot (inject_Z (PerConnectionRequestsPerSecond (rl_config rl)))
           (PerConnectionBurstSize (rl_config rl)) (perConnectionLimiter rl !! c) clock k2 in
        (ok3, rl_upd rl g p (<[c := tb]> (perConnectionLimiter rl)) (perOperationLimiter rl), k3)
      else (true, rl2, k2).
Proof.
  unfold AllowRequest, use_slot, mbind, Timed_bind, TokenBucket_Allow, mbind, Timed_bind, now, mret, Timed_ret.
  destruct (take_tokens _ (globalLimiter rl) (clock k)) as [ok1 g]. destruct ok1; [|done]. cbn [negb].
  cbn [rl_upd globalLimiter perIPLimiter perConnectionLimiter perOperationLimiter rl_config].
  destruct (PerIP_Allow ip _ clock (S k)) as [[ok2 p] k2]. destruct ok2; [|done]. cbn [negb].
  cbn [rl_upd globalLimiter perIPLimiter perConnectionLimiter perOperationLimiter rl_config].
  destruct (0 <? _); [|done].
  destruct (perConnectionLimiter rl !! c); [|destruct (NewTokenBucket _ _ _ _)]; by destruct (take_tokens _ _ _).
Qed.

Section Requests.
Context `{MapRange} (clock : nat -> Z) (Hclock : monotone clock) (t0 : Z) (config : RateLimiterConfig).
Context (Hg : 0 <= GlobalRequestsPerSecond config)
  (Hi : 0 <= PerIPRequestsPerSecond config) (Hib : 0 <= PerIPBurstSize config)
  (Hcb : 0 <= PerConnectionBurstSize config).
(** [live]: the connection [conn] is limited, and stays open during the run. *)
Context (conn : string) (live : Prop) (Hlive : live -> 0 < PerConnectionRequestsPerSecond config).

#[local] Abbreviation global_account :=
  (account t0 (inject_Z (GlobalRequestsPerSecond config)) (GlobalRequestsPerSecond config)).
#[local] Abbreviation conn_account :=
  (account t0 (inject_Z (PerConnectionRequestsPerSecond config)) (PerConnectionBurstSize config)).
#[local] Abbreviation ips_ok :=
  (addresses_ok t0 (inject_Z (PerIPRequestsPerSecond config)) (PerIPBurstSize config)).

Record limiter_ok (rl : RateLimiter Q) (t N : Z) (n : string -> Z) (m : Z) : Prop := {
  lo_config : rl_config rl = config;
  lo_global : global_account (Some (globalLimiter rl)) t N;
  lo_ips : ips_ok (perIPLimiter rl) t n;
  lo_conn : live -> conn_account (perConnectionLimiter rl !! conn) t m
}.

Lemma rate_nonneg z : 0 <= z -> (0 <= inject_Z z)%Q.
Proof. change 0%Q with (inject_Z 0). by rewrite <- Zle_Qle. Qed.
#[local] Hint Resolve rate_nonneg Z.lt_le_incl : core.

Lemma conn_later o t t' m : live -> conn_account o t m -> t <= t' -> conn_account o t' m.
Proof. intros Hl Ha Ht. eapply account_later; eauto. Qed.

Lemma limiter_later rl t t' N n m : limiter_ok rl t N n m -> t <= t' -> limiter_ok rl t' N n m.
Proof.
  intros [? Hgl Hip Hco] Ht. split; [done|..].
  - eapply account_later; eauto.
  - eapply addresses_later; eauto.
  - intros Hl. eapply conn_later; eauto.
Qed.

Definition one (b : bool) : Z := if b then 1 else 0.

(** The bucket of the connection of a request. *)
Lemma conn_use_ok c (pc : gmap string (TokenBucket Q)) t m k :
  t <= clock k -> (live -> conn_account (pc !! conn) t m) ->
  let '(ok, tb, k') := use_slot (inject_Z (PerConnectionRequestsPerSecond config)) (PerConnectionBurstSize config)
    (pc !! c) clock k in
  (k < k')%nat /\
  (live -> conn_account (<[c := tb]> pc !! conn) (clock (pred k')) (m + one (bool_decide (c = conn) && ok))).
Proof.
  intros Ht Hco. set (o := pc !! c). assert (o = pc !! c) as Eo by done. clearbody o.
  pose proof (use_slot_time clock (inject_Z (PerConnectionRequestsPerSecond config)) (PerConnectionBurstSize config) o k) as Hk.
  assert (live -> c = conn -> let '(ok, tb, k') :=
      use_slot (inject_Z (PerConnectionRequestsPerSecond config)) (PerConnectionBurstSize config) o clock k in
      conn_account (Some tb) (clock (pred k')) (m + one ok)) as Hu.
  { intros Hl ->. specialize (Hco Hl). rewrite <- Eo in Hco.
    pose proof (use_slot_account clock Hclock t0 _ _ (rate_nonneg _ (Z.lt_le_incl _ _ (Hlive Hl))) Hcb _ _ _ k Hco Ht) as Hu.
    destruct (use_slot _ _ o clock k) as [[ok tb] k']. by destruct Hu. }
  destruct (use_slot _ _ o clock k) as [[ok tb] k']. split; [done|]. intros Hl.
  destruct (decide (c = conn)) as [->|Hne].
  - rewrite lookup_insert_eq, bool_decide_true by done. by apply Hu.
  - rewrite lookup_insert_ne, bool_decide_false by done. simpl. rewrite Z.add_0_r.
    apply (conn_later _ t); [done|by apply Hco|]. pose proof (Hclock k (pred k') ltac:(lia)). lia.
Qed.

Lemma AllowRequest_ok ip c rl t N n m k :
  limiter_ok rl t N n m -> t <= clock k ->
  let '(ok, rl', k') := AllowRequest ip c rl clock k in
  (k < k')%nat /\
  limiter_ok rl' (clock (pred k')) (N + one ok) (counted ip ok n) (m + one (bool_decide (c = conn) && ok)).
Proof.
  intros [Hcf Hgl Hip Hco] Ht. rewrite AllowRequest_slots, Hcf.
  pose proof (account_take t0 _ _ (rate_nonneg _ Hg) _ _ _ _ Hgl Ht) as Hg1.
  destruct (take_tokens _ (globalLimiter rl) (clock k)) as [ok1 g]. simpl in Hg1.
  assert (clock k <= clock (S k)) as Hk by (apply Hclock; lia).
  assert (forall x, counted ip false n x <= n x) as Hrefused.
  { intros x. unfold counted. rewrite andb_false_r. lia. }
  destruct ok1; simpl.
  2: { split; [lia|]. split; [done|exact Hg1|..]; rewrite ?andb_false_r; simpl.
       - eapply addresses_less; [|done]. eapply addresses_later; eauto.
       - rewrite Z.add_0_r. intros Hl. eapply conn_later; eauto. }
  assert (ips_ok (perIPLimiter rl) (clock k) n) as Hip' by (eapply addresses_later; eauto).
  pose proof (PerIP_Allow_ok clock Hclock t0 _ _ (rate_nonneg _ Hi) Hib ip _ _ _ (S k) Hip' Hk) as Hi2.
  destruct (PerIP_Allow ip _ clock (S k)) as [[ok2 p] k2]. destruct Hi2 as [Hk2 Hi2].
  assert (clock k <= clock (pred k2)) as Ht2 by (apply Hclock; lia).
  pose proof (account_later _ _ _ (rate_nonneg _ Hg) _ _ _ _ Hg1 Ht2) as Hg2.
  assert (live -> conn_account (perConnectionLimiter rl !! conn) (clock (pred k2)) m) as Hco2
    by (intros Hl; eapply conn_later; eauto; lia).
  destruct ok2; simpl.
  2: { split; [lia|]. split; [done|..]; rewrite ?andb_false_r, ?Z.add_0_r; simpl; [|done..].
       eapply account_less; [done|lia]. }
  destruct (Z.ltb_spec 0 (PerConnectionRequestsPerSecond config)) as [Hc|Hc].
  2: { split; [lia|]. split; [done|exact Hg2|exact Hi2|]. intros Hl. specialize (Hlive Hl). lia. }
  pose proof (conn_use_ok c (perConnectionLimiter rl) _ m k2 (Hclock (pred k2) k2 ltac:(lia)) Hco2) as Hu.
  destruct (use_slot _ _ _ clock k2) as [[ok3 tb] k3]. destruct Hu as [Hk3 Hu]. split; [lia|].
  assert (clock (pred k2) <= clock (pred k3)) as Ht3 by (apply Hclock; lia).
  split; simpl; [done|..|exact Hu].
  - eapply account_less; [eapply account_later; eauto|]. unfold one. destruct ok3; lia.
  - eapply addresses_less; [eapply addresses_later; eauto|]. intros x. unfold counted.
    destruct (bool_decide (x = ip)), ok3; simpl; lia.
Qed.

Lemma all_full_time bursts l k : let '(_, k') := all_full (Fl := Q) bursts l clock k in (k <= k')%nat.
Proof.
  destruct (all_full bursts l clock k) as [b k'] eqn:E. by apply all_full_spec in E as [Hk _].
Qed.

Lemma po_sweep_time bursts l m k : let '(_, k') := po_sweep (Fl := Q) bursts l m clock k in (k <= k')%nat.
Proof.
  revert m k. induction l as [|[ip lims] l IH]; intros m k; cbn [po_sweep]; [cbn; lia|].
  unfold mbind, Timed_bind, tick. pose proof (all_full_time bursts (range_order k _ (map_to_list lims)) k) as Hf.
  destruct (all_full _ _ clock k) as [b k1]. specialize (IH (if b then delete ip m else m) k1).
  destruct (po_sweep _ _ _ clock k1). lia.
Qed.

Lemma PerOperation_Allow_time ip op (pol : PerOperationLimiter Q) k :
  let '(_, _, k') := PerOperation_Allow ip op pol clock k in (k < k')%nat.
Proof.
  rewrite Allow_swept. assert (let '(_, k1) := swept pol clock k in (k <= k1)%nat) as Hs.
  { unfold swept, PerOperation_cleanup, mbind, Timed_bind, now, tick, mret, Timed_ret. destruct (_ <? _); [|lia].
    pose proof (po_sweep_time (po_bursts pol) (range_order (S k) _ (map_to_list (po_limiters pol))) (po_limiters pol) (S k)) as Hp.
    destruct (po_sweep _ _ _ clock (S k)). lia. }
  destruct (swept pol clock k) as [pol1 k1]. cbv zeta. destruct (default ∅ (po_limiters pol1 !! ip) !! op); destruct (take_tokens _ _ _); lia.
Qed.

(** The count of the requests for one address after one event. *)
Definition is_request (P : string -> string -> bool) (e : rl_event) (ok : bool) : bool :=
  match e with Request ip c => ok && P ip c | _ => false end.

Lemma limiter_same rl rl' t N n n' m :
  rl_config rl' = rl_config rl -> globalLimiter rl' = globalLimiter rl -> perIPLimiter rl' = perIPLimiter rl ->
  (live -> perConnectionLimiter rl' !! conn = perConnectionLimiter rl !! conn) -> (forall x, n' x = n x) ->
  limiter_ok rl t N n m -> limiter_ok rl' t N n' m.
Proof.
  intros E1 E2 E3 E4 En [Hcf Hgl Hip Hco]. split; [congruence|by rewrite E2|rewrite E3|intros Hl; rewrite E4; auto].
  eapply addresses_less; [done|]. intros x. by rewrite En.
Qed.

Lemma rl_step_ok e rl N n m k :
  (0 < k)%nat -> limiter_ok rl (clock (pred k)) N n m -> (live -> e <> ConnClosed conn) ->
  let '(ok, rl', k') := rl_step e rl clock k in
  (k <= k')%nat /\
  limiter_ok rl' (clock (pred k')) (N + one (is_request (fun _ _ => true) e ok))
    (fun x => n x + one (is_request (fun ip _ => bool_decide (x = ip)) e ok))
    (m + one (is_request (fun _ c => bool_decide (c = conn)) e ok)).
Proof.
  intros Hk Hl He. assert (clock (pred k) <= clock k) as Hkk by (apply Hclock; lia).
  destruct e as [ip c|ip op|c|ip|ip]; simpl rl_step; unfold mret, Timed_ret; cbn [is_request].
  - pose proof (AllowRequest_ok ip c rl _ N n m k Hl Hkk) as Ha.
    destruct (AllowRequest ip c rl clock k) as [[ok rl'] k']. destruct Ha as [Hk' Ha]. split; [lia|].
    rewrite !andb_true_r. eapply (limiter_same rl'); [done..| |].
    + intros x. unfold counted, one. by rewrite andb_comm.
    + by rewrite (andb_comm ok).
  - unfold RateLimiter_AllowOperation, mbind, Timed_bind, mret, Timed_ret.
    pose proof (PerOperation_Allow_time ip op (perOperationLimiter rl) k) as Ht.
    destruct (PerOperation_Allow _ _ _ clock k) as [[ok o] k']. split; [lia|]. simpl. rewrite !Z.add_0_r.
    eapply (limiter_same rl _ _ _ n); [done..|intros x; unfold one; simpl; lia|]. eapply limiter_later; [done|]. apply Hclock. lia.
  - split; [done|]. simpl. rewrite !Z.add_0_r. eapply (limiter_same rl _ _ _ n); try done; [|intros x; unfold one; simpl; lia].
    intros Hlv. simpl. apply lookup_delete_ne. intros ->. by apply He.
  - destruct (AllocateFileHandle ip rl) as [ok rl'] eqn:E. split; [done|]. simpl. rewrite !Z.add_0_r.
    eapply (limiter_same rl _ _ _ n); try done; [..|intros x; unfold one; simpl; lia]; unfold AllocateFileHandle in E;
      repeat case_match; by simplify_eq.
  - split; [done|]. simpl. rewrite !Z.add_0_r. eapply (limiter_same rl _ _ _ n); try done; [..|intros x; unfold one; simpl; lia];
      unfold ReleaseFileHandle; by repeat case_match.
Qed.

Lemma granted_requests_cons P e ok rs :
  granted_requests P ((e, ok) :: rs) = one (is_request P e ok) + granted_requests P rs.
Proof. unfold granted_requests. rewrite fmap_cons. by rewrite granted_cons. Qed.

Lemma rl_run_ok es rl N n m k :
  (0 < k)%nat -> limiter_ok rl (clock (pred k)) N n m -> (live -> ConnClosed conn ∉ es) ->
  let '(rs, rl', k') := rl_run es rl clock k in
  (k <= k')%nat /\
  limiter_ok rl' (clock (pred k')) (N + granted_requests (fun _ _ => true) rs)
    (fun x => n x + granted_requests (fun ip _ => bool_decide (x = ip)) rs)
    (m + granted_requests (fun _ c => bool_decide (c = conn)) rs).
Proof.
  revert rl N n m k. induction es as [|e es IH]; intros rl N n m k Hk Hl He; cbn [rl_run].
  - split; [done|]. rewrite !Z.add_0_r. eapply (limiter_same rl _ _ _ n); try done. intros x. apply Z.add_0_r.
  - unfold mbind, Timed_bind, mret, Timed_ret. pose proof (rl_step_ok e rl N n m k Hk Hl) as Hs.
    destruct (rl_step e rl clock k) as [[ok rl1] k1].
    destruct Hs as [Hk1 Hs]; [intros Hlv ->; apply (He Hlv); by left|].
    specialize (IH _ _ _ _ k1 ltac:(lia) Hs). destruct (rl_run es rl1 clock k1) as [[rs rl2] k2].
    destruct IH as [Hk2 IH]; [intros Hlv Hin; apply (He Hlv); by right|]. split; [lia|].
    rewrite !granted_requests_cons, !Z.add_assoc.
    eapply (limiter_same rl2); [done..| |exact IH]. intros x. by rewrite granted_requests_cons, Z.add_assoc.
Qed.
End Requests.

(** ** Properties *)

(** C36: the limiter admits requests at no more than the configured rates.  In
    any run of a new limiter (requests of any clients on any connections,
    limited operations, closed connections and file handles, with the clean-up
    of idle entries), the requests admitted up to the last reading of the
    clock are at most the global rate for one second and for the time that has
    passed; those of one address at most its burst and its rate times that
    time; and those of a connection that stays open likewise.  Exact
    arithmetic, on a clock that does not go back, each call of the limiter one
    step. *)
Theorem requests_within_rates `{MapRange} config clock k es ip conn :
  monotone clock ->
  0 <= GlobalRequestsPerSecond config -> 0 <= PerIPRequestsPerSecond config ->
  0 <= PerIPBurstSize config -> 0 <= PerConnectionBurstSize config ->
  let '(rl, k1) := RateLimiter_New config clock k in
  let '(rs, _, k2) := rl_run es rl clock k1 in
  let elapsed := seconds (clock (pred k2) - clock k) in
  (inject_Z (granted_requests (fun _ _ => true) rs) <=
     inject_Z (GlobalRequestsPerSecond config) + elapsed * inject_Z (GlobalRequestsPerSecond config))%Q /\
  (inject_Z (granted_requests (fun i _ => bool_decide (ip = i)) rs) <=
     inject_Z (PerIPBurstSize config) + elapsed * inject_Z (PerIPRequestsPerSecond config))%Q /\
  (0 < PerConnectionRequestsPerSecond config -> ConnClosed conn ∉ es ->
   (inject_Z (granted_requests (fun _ c => bool_decide (c = conn)) rs) <=
      inject_Z (PerConnectionBurstSize config) + elapsed * inject_Z (PerConnectionRequestsPerSecond config))%Q).
Proof.
  intros Hm Hg Hi Hib Hcb.
  set (live := 0 < PerConnectionRequestsPerSecond config /\ ConnClosed conn ∉ es).
  unfold RateLimiter_New, NewTokenBucket, NewPerIPLimiter, NewPerOperationLimiter, mbind, Timed_bind, now, mret, Timed_ret.
  match goal with |- context [rl_run es ?rl _ _] => set (rl0 := rl) end.
  assert (forall r b, (0 <= r)%Q -> 0 <= b -> account (clock k) r b None (clock k) 0) as Hfresh
    by (intros; apply account_fresh; [done|lia]).
  assert (limiter_ok (clock k) config conn live rl0 (clock k) 0 (fun _ => 0) 0) as Hk.
  { split; [done|..].
    - apply account_new; first [done|by apply rate_nonneg|apply Hfresh; [by apply rate_nonneg|done]].
    - do 2 (split; [done|]). intros x. simpl. rewrite lookup_empty. apply Hfresh; [by apply rate_nonneg|done].
    - intros [Hc _]. simpl. rewrite lookup_empty. apply Hfresh; [apply rate_nonneg; lia|done]. }
  assert (limiter_ok (clock k) config conn live rl0 (clock (pred (S (S (S k))))) 0 (fun _ => 0) 0) as H0.
  { eapply limiter_later; [..|exact Hk|apply Hm; simpl; lia]; first [done|by intros []]. }
  pose proof (rl_run_ok clock Hm (clock k) config Hg Hi Hib Hcb conn live ltac:(by intros []) es rl0 _ _ _ (S (S (S k)))
    ltac:(lia) H0 ltac:(by intros [])) as Hr.
  destruct (rl_run es rl0 clock (S (S (S k)))) as [[rs rl'] k2]. destruct Hr as [_ [_ Hgl (_ & _ & Hip) Hco]].
  split; [|split].
  - apply account_bound in Hgl; [exact Hgl|done].
  - specialize (Hip ip). apply account_bound in Hip; [exact Hip|done].
  - intros Hc He. specialize (Hco (conj Hc He)). apply account_bound in Hco; [exact Hco|done].
Qed.

(** ** Quotas of file handles *)

(** Specification: the bag of the addresses that hold a handle.  A handle is
    granted when the bag and the share of the address are below their limits
    (a limit that is not positive does not count); [None] when an address
    gives back a handle it does not hold. *)
Definition below (limit : Z) (count : nat) : bool := (limit <=? 0) || (Z.of_nat count <? limit).

Fixpoint quota_spec (config : RateLimiterConfig) (es : list (string * bool)) (held : gmultiset string)
    : option (list bool) :=
  match es with
  | [] => Some []
  | (ip, true) :: es =>
      if below (FileHandlesGlobal config) (size held) && below (FileHandlesPerIP config) (multiplicity ip held)
      then cons true <$> quota_spec config es ({[+ ip +]} ⊎ held)
      else cons false <$> quota_spec config es held
  | (ip, false) :: es =>
      if decide (ip ∈ held) then quota_spec config es (held ∖ {[+ ip +]}) else None
  end.

(** The answers of the limiter; giving a handle back has none. *)
Fixpoint quota_run {Fl} (es : list (string * bool)) (rl : RateLimiter Fl) : list bool :=
  match es with
  | [] => []
  | (ip, true) :: es => let '(ok, rl) := AllocateFileHandle ip rl in ok :: quota_run es rl
  | (ip, false) :: es => quota_run es (ReleaseFileHandle ip rl)
  end.

Record quota_rel {Fl} (config : RateLimiterConfig) (rl : RateLimiter Fl) (held : gmultiset string) : Prop := {
  qr_config : rl_config rl = config;
  qr_global : fileHandlesGlobal rl = Z.of_nat (size held);
  qr_ips : 0 < FileHandlesPerIP config -> forall ip,
    default 0 (fileHandlesPerIP rl !! ip) = Z.of_nat (multiplicity ip held)
}.

Section Quotas.
Context {Fl : Type} (config : RateLimiterConfig).

Lemma below_global limit count : below limit count = negb ((0 <? limit) && (limit <=? Z.of_nat count)).
Proof.
  unfold below. destruct (Z.leb_spec limit 0), (Z.ltb_spec (Z.of_nat count) limit), (Z.ltb_spec 0 limit),
    (Z.leb_spec limit (Z.of_nat count)); simpl; lia || done.
Qed.

Lemma Allocate_rel ip (rl : RateLimiter Fl) held :
  quota_rel config rl held ->
  let b := below (FileHandlesGlobal config) (size held) && below (FileHandlesPerIP config) (multiplicity ip held) in
  (AllocateFileHandle ip rl).1 = b /\
  quota_rel config (AllocateFileHandle ip rl).2 (if b then {[+ ip +]} ⊎ held else held).
Proof.
  intros [Hc Hg Hi]. unfold AllocateFileHandle. rewrite Hc, Hg, !below_global.
  destruct ((0 <? FileHandlesGlobal config) && _); simpl; [by split|].
  assert (size ({[+ ip +]} ⊎ held) = S (size held)) as Hsz
    by (rewrite gmultiset_size_disj_union, gmultiset_size_singleton; done).
  destruct (Z.ltb_spec 0 (FileHandlesPerIP config)) as [Hp|Hp]; simpl.
  - rewrite (Hi Hp ip). destruct (Z.leb_spec (FileHandlesPerIP config) (Z.of_nat (multiplicity ip held))); simpl.
    + split; [done|]. split; simpl; [done|done|]. intros _ x. destruct (decide (x = ip)) as [->|Hx].
      * by rewrite lookup_insert_eq.
      * rewrite lookup_insert_ne by done. by apply Hi.
    + split; [done|]. split; simpl; [done|rewrite Hsz; lia|]. intros _ x.
      rewrite multiplicity_disj_union. destruct (decide (x = ip)) as [->|Hx].
      * rewrite lookup_insert_eq, multiplicity_singleton, decide_True by done. unfold default, from_option, id. lia.
      * rewrite lookup_insert_ne, multiplicity_singleton_ne by done. by apply Hi.
  - split; [done|]. split; simpl; [done|rewrite Hsz; lia|lia].
Qed.

Lemma Release_rel ip (rl : RateLimiter Fl) held :
  quota_rel config rl held -> ip ∈ held -> quota_rel config (ReleaseFileHandle ip rl) (held ∖ {[+ ip +]}).
Proof.
  intros [Hc Hg Hi] Hin. assert (size held = S (size (held ∖ {[+ ip +]}))) as Hsz.
  { rewrite (gmultiset_disj_union_difference' ip held Hin) at 1.
    by rewrite gmultiset_size_disj_union, gmultiset_size_singleton. }
  assert (0 < multiplicity ip held)%nat as Hm by done.
  assert (0 <? fileHandlesGlobal rl = true) as Hgp by (apply Z.ltb_lt; lia).
  unfold ReleaseFileHandle. rewrite Hgp.
  assert (0 < FileHandlesPerIP config -> exists c, fileHandlesPerIP rl !! ip = Some c /\ c = Z.of_nat (multiplicity ip held)) as Hip.
  { intros Hp. specialize (Hi Hp ip). destruct (fileHandlesPerIP rl !! ip) as [c|]; simpl in Hi; [by exists c|lia]. }
  split.
  - by destruct (fileHandlesPerIP rl !! ip).
  - destruct (fileHandlesPerIP rl !! ip); simpl; lia.
  - intros Hp x. destruct (Hip Hp) as (c & Ec & ->). rewrite Ec. simpl.
    destruct (Z.ltb_spec 0 (Z.of_nat (multiplicity ip held))) as [_|]; [|lia].
    rewrite multiplicity_difference. destruct (decide (x = ip)) as [->|Hx].
    + rewrite lookup_insert_eq, multiplicity_singleton, decide_True by done. unfold default, from_option, id. lia.
    + rewrite lookup_insert_ne, (Hi Hp), multiplicity_singleton_ne by done. lia.
Qed.

Lemma quota_run_spec es (rl : RateLimiter Fl) held oks :
  quota_rel config rl held -> quota_spec config es held = Some oks -> quota_run es rl = oks.
Proof.
  revert rl held oks. induction es as [|[ip []] es IH]; intros rl held oks Hr; cbn [quota_spec quota_run].
  - by intros [= <-].
  - pose proof (Allocate_rel ip rl held Hr) as Ha. destruct (AllocateFileHandle ip rl) as [ok rl']. simpl in Ha.
    destruct Ha as [-> Ha]. destruct (_ && _); intros (oks' & Hs & ->)%fmap_Some; f_equal; by eapply IH.
  - destruct (decide (ip ∈ held)) as [Hin|]; [|done]. apply IH. by apply Release_rel.
Qed.
End Quotas.

(** As long as every handle given back was held, a new limiter grants handles
    exactly when fewer than the limits are held, globally and by the
    address. *)
Theorem handle_quotas_exact {Fl} `{Float64 Fl} config clock k es oks :
  quota_spec config es ∅ = Some oks ->
  quota_run es (RateLimiter_New (Fl := Fl) config clock k).1 = oks.
Proof.
  intros Hs. eapply quota_run_spec; [|exact Hs]. split; [done|done|]. intros _ ip. simpl. by rewrite lookup_empty.
Qed.

(** A handle given back by an address that holds none still lowers the global
    count: with a limit of one, a second handle is granted. *)
Example unmatched_release :
  let config := mkRateLimiterConfig 0 0 0 0 0 0 0 0 0 0 1 0 in
  quota_run [("a", true); ("b", false); ("c", true)]%string (RateLimiter_New (Fl := Q) config (fun _ => 0) 0%nat).1 =
    [true; true].
Proof. vm_compute. reflexivity. Qed.

(** ** Concrete run *)

#[local] Instance map_order : MapRange.
Proof. by exists (fun _ _ l => l). Defined.

(** Two clients, one of them on two connections. *)
Definition sample_requests : list rl_event :=
  [Request "10.0.0.1" "1"; Request "10.0.0.2" "2"; ConnClosed "1"; Operation "10.0.0.2" OpTypeMount;
   Request "10.0.0.1" "3"; TakeHandle "10.0.0.1"; Request "10.0.0.2" "2"]%string.

Lemma requests_within_rates_witness :
  let '(rl, k1) := RateLimiter_New DefaultRateLimiterConfig second_clock 0%nat in
  let '(rs, _, k2) := rl_run sample_requests rl second_clock k1 in
  let elapsed := seconds (second_clock (pred k2) - second_clock 0) in
  (inject_Z (granted_requests (fun _ _ => true) rs) <=
     inject_Z (GlobalRequestsPerSecond DefaultRateLimiterConfig) +
     elapsed * inject_Z (GlobalRequestsPerSecond DefaultRateLimiterConfig))%Q.
Proof.
  pose proof (requests_within_rates DefaultRateLimiterConfig second_clock 0%nat sample_requests "10.0.0.1" "2"
    second_clock_monotone ltac:(done) ltac:(done) ltac:(done) ltac:(done)) as Hw.
  destruct (RateLimiter_New DefaultRateLimiterConfig second_clock 0%nat) as [rl k1].
  destruct (rl_run sample_requests rl second_clock k1) as [[rs rl'] k2]. exact (proj1 Hw).
Defined.
