(* ===== verification/Metrics.v ===== *)
(** * Metrics (src/metrics.go, src/metrics_api.go)

    The collector: event counters, cache hit rates, latency statistics and the
    health check over ring buffers of the last thousand samples.  Counters are
    [uint64] and durations [int64], with their wrap-around; rates are
    [Float64].  Each method is one step; the calls on a server without a
    collector do nothing and are left out.  The specification describes the
    statistics of a history of events by the last samples of that history. *)

From Stdlib Require Import QArith Qround SpecFloat.
From stdpp Require Import sorting.
From S2P Require Import Prelude Errors Attributes AttrCache Server RateLimiter.
Open Scope Z_scope.

(** ** float64 to int *)

(** [int(x)]: truncation towards zero. *)
Class Float64Int (Fl : Type) := f_trunc : Fl -> Z.

#[export] Instance binary64_int : Float64Int spec_float := fun x =>
  match x with
  | S754_finite s m e =>
      let a := if 0 <=? e then Z.pos m * 2 ^ e else Z.pos m / 2 ^ (- e) in
      if s then - a else a
  | _ => 0
  end.
#[export] Instance exact_int : Float64Int Q := fun q => Z.quot (Qnum q) (Zpos (Qden q)).

(** ** Ring buffers *)

Section Ring.
Context {A : Type}.

(** A buffer of fixed capacity, the next position to write and the number of
    entries written. *)
Record Ring := mkRing { r_buf : list A; r_idx : nat; r_len : nat }.

Definition NewRing (zero : A) (cap : nat) : Ring := mkRing (replicate cap zero) 0 0.

Definition ring_push (x : A) (r : Ring) : Ring :=
  let cap := length (r_buf r) in
  mkRing (<[r_idx r := x]> (r_buf r)) ((r_idx r + 1) mod cap)
    (if (r_len r <? cap)%nat then S (r_len r) else r_len r).

(** The valid entries, [buf[:len]]. *)
Definition ring_samples (r : Ring) : list A := take (r_len r) (r_buf r).

(** The last [cap] elements of a history. *)
Definition window (cap : nat) (xs : list A) : list A := drop (length xs - cap) xs.
End Ring.
Arguments Ring A : clear implicits.

Definition latencyCap : nat := 1000.

(** ** The collector *)

Module Counter.
(** The [uint64] fields of [NFSMetrics] and of [MetricsCollector]. *)
Inductive t :=
  | TotalOperations | ReadOperations | WriteOperations | LookupOperations | GetAttrOperations
  | CreateOperations | RemoveOperations | RenameOperations | MkdirOperations | RmdirOperations
  | ReaddirOperations | AccessOperations
  | TotalConnections | RejectedConnections
  | TLSHandshakes | TLSHandshakeFailures | TLSClientCertProvided | TLSClientCertValidated
  | TLSClientCertRejected | TLSSessionReused | TLSVersion12 | TLSVersion13
  | ErrorCount | AuthFailures | AccessViolations | StaleHandles | ResourceErrors | RateLimitExceeded
  | ReadTimeouts | WriteTimeouts | LookupTimeouts | ReaddirTimeouts | CreateTimeouts | RemoveTimeouts
  | RenameTimeouts | HandleTimeouts | TotalTimeouts
  | attrCacheHits | attrCacheMisses | dirCacheHits | dirCacheMisses
  | negativeCacheHits | negativeCacheMisses.
End Counter.

#[export] Instance Counter_eq_dec : EqDecision Counter.t.
Proof. solve_decision. Defined.

(** The latency fields of one operation: samples, maximum, average and 95th
    percentile. *)
Record Latency := mkLatency { lat_ring : Ring Z; lat_max : Z; lat_avg : Z; lat_p95 : Z }.

Record MetricsCollector (Fl : Type) := mkCollector {
  mc_counters : Counter.t -> Z;
  mc_read : Latency;
  mc_write : Latency;
  CacheHitRate : Fl;
  DirCacheHitRate : Fl;
  NegativeCacheHitRate : Fl;
  AttrCacheSize_ : Z;
  AttrCacheCapacity : Z;
  NegativeCacheSize : Z;
  ActiveConnections : Z;
  recentResults : Ring bool;
  StartTime : Z;
  UptimeSeconds : Z
}.
Arguments mkCollector {Fl}.
Arguments mc_counters {Fl}. Arguments mc_read {Fl}. Arguments mc_write {Fl}.
Arguments CacheHitRate {Fl}. Arguments DirCacheHitRate {Fl}. Arguments NegativeCacheHitRate {Fl}.
Arguments AttrCacheSize_ {Fl}. Arguments AttrCacheCapacity {Fl}. Arguments NegativeCacheSize {Fl}.
Arguments ActiveConnections {Fl}. Arguments recentResults {Fl}. Arguments StartTime {Fl}.
Arguments UptimeSeconds {Fl}.

Section Collector.
Context {Fl : Type} `{Float64 Fl} `{Float64Int Fl}.
#[local] Abbreviation MetricsCollector := (MetricsCollector Fl).

Definition NewMetricsCollector (now : Z) : MetricsCollector :=
  let lat := mkLatency (NewRing 0 latencyCap) 0 0 0 in
  mkCollector (fun _ => 0) lat lat (f_of_int 0) (f_of_int 0) (f_of_int 0) 0 0 0 0
    (NewRing false latencyCap) now 0.

Definition set_counters (f : Counter.t -> Z) (m : MetricsCollector) : MetricsCollector :=
  mkCollector f (mc_read m) (mc_write m) (CacheHitRate m) (DirCacheHitRate m) (NegativeCacheHitRate m)
    (AttrCacheSize_ m) (AttrCacheCapacity m) (NegativeCacheSize m) (ActiveConnections m)
    (recentResults m) (StartTime m) (UptimeSeconds m).
Definition set_latency (r w : Latency) (m : MetricsCollector) : MetricsCollector :=
  mkCollector (mc_counters m) r w (CacheHitRate m) (DirCacheHitRate m) (NegativeCacheHitRate m)
    (AttrCacheSize_ m) (AttrCacheCapacity m) (NegativeCacheSize m) (ActiveConnections m)
    (recentResults m) (StartTime m) (UptimeSeconds m).
Definition set_rates (a d n : Fl) (m : MetricsCollector) : MetricsCollector :=
  mkCollector (mc_counters m) (mc_read m) (mc_write m) a d n
    (AttrCacheSize_ m) (AttrCacheCapacity m) (NegativeCacheSize m) (ActiveConnections m)
    (recentResults m) (StartTime m) (UptimeSeconds m).
Definition set_sizes (size cap neg : Z) (m : MetricsCollector) : MetricsCollector :=
  mkCollector (mc_counters m) (mc_read m) (mc_write m) (CacheHitRate m) (DirCacheHitRate m)
    (NegativeCacheHitRate m) size cap neg (ActiveConnections m) (recentResults m) (StartTime m)
    (UptimeSeconds m).
Definition set_active (a : Z) (m : MetricsCollector) : MetricsCollector :=
  mkCollector (mc_counters m) (mc_read m) (mc_write m) (CacheHitRate m) (DirCacheHitRate m)
    (NegativeCacheHitRate m) (AttrCacheSize_ m) (AttrCacheCapacity m) (NegativeCacheSize m) a
    (recentResults m) (StartTime m) (UptimeSeconds m).
Definition set_recent (r : Ring bool) (m : MetricsCollector) : MetricsCollector :=
  mkCollector (mc_counters m) (mc_read m) (mc_write m) (CacheHitRate m) (DirCacheHitRate m)
    (NegativeCacheHitRate m) (AttrCacheSize_ m) (AttrCacheCapacity m) (NegativeCacheSize m)
    (ActiveConnections m) r (StartTime m) (UptimeSeconds m).
Definition set_uptime (u : Z) (m : MetricsCollector) : MetricsCollector :=
  mkCollector (mc_counters m) (mc_read m) (mc_write m) (CacheHitRate m) (DirCacheHitRate m)
    (NegativeCacheHitRate m) (AttrCacheSize_ m) (AttrCacheCapacity m) (NegativeCacheSize m)
    (ActiveConnections m) (recentResults m) (StartTime m) u.

(** [atomic.AddUint64(&c, 1)] *)
Definition add_one (c : Counter.t) (m : MetricsCollector) : MetricsCollector :=
  set_counters (fun c' => if decide (c' = c) then u64 (mc_counters m c + 1) else mc_counters m c') m.

Definition add_opt (c : option Counter.t) (m : MetricsCollector) : MetricsCollector :=
  match c with Some c => add_one c m | None => m end.

(** *** Operation counts, errors, time-outs, connections *)

Definition operation_counter (opType : string) : option Counter.t :=
  if String.eqb opType "READ" then Some Counter.ReadOperations
  else if String.eqb opType "WRITE" then Some Counter.WriteOperations
  else if String.eqb opType "LOOKUP" then Some Counter.LookupOperations
  else if String.eqb opType "GETATTR" then Some Counter.GetAttrOperations
  else if String.eqb opType "CREATE" then Some Counter.CreateOperations
  else if String.eqb opType "REMOVE" then Some Counter.RemoveOperations
  else if String.eqb opType "RENAME" then Some Counter.RenameOperations
  else if String.eqb opType "MKDIR" then Some Counter.MkdirOperations
  else if String.eqb opType "RMDIR" then Some Counter.RmdirOperations
  else if String.eqb opType "READDIR" then Some Counter.ReaddirOperations
  else if String.eqb opType "ACCESS" then Some Counter.AccessOperations
  else None.

Definition IncrementOperationCount (opType : string) (m : MetricsCollector) : MetricsCollector :=
  add_opt (operation_counter opType) (add_one Counter.TotalOperations m).

Definition error_counter (errorType : string) : option Counter.t :=
  if String.eqb errorType "AUTH" then Some Counter.AuthFailures
  else if String.eqb errorType "ACCESS" then Some Counter.AccessViolations
  else if String.eqb errorType "STALE" then Some Counter.StaleHandles
  else if String.eqb errorType "RESOURCE" then Some Counter.ResourceErrors
  else if String.eqb errorType "RATELIMIT" then Some Counter.RateLimitExceeded
  else None.

Definition RecordError (errorType : string) (m : MetricsCollector) : MetricsCollector :=
  add_opt (error_counter errorType) (add_one Counter.ErrorCount m).

Definition RecordRateLimitExceeded (m : MetricsCollector) : MetricsCollector :=
  add_one Counter.RateLimitExceeded m.

Definition timeout_counter (opType : string) : option Counter.t :=
  if String.eqb opType "READ" then Some Counter.ReadTimeouts
  else if String.eqb opType "WRITE" then Some Counter.WriteTimeouts
  else if String.eqb opType "LOOKUP" then Some Counter.LookupTimeouts
  else if String.eqb opType "READDIR" then Some Counter.ReaddirTimeouts
  else if String.eqb opType "CREATE" then Some Counter.CreateTimeouts
  else if String.eqb opType "REMOVE" then Some Counter.RemoveTimeouts
  else if String.eqb opType "RENAME" then Some Counter.RenameTimeouts
  else if String.eqb opType "HANDLE" then Some Counter.HandleTimeouts
  else None.

Definition RecordTimeout (opType : string) (m : MetricsCollector) : MetricsCollector :=
  add_opt (timeout_counter opType) (add_one Counter.TotalTimeouts m).

Definition RecordConnection (m : MetricsCollector) : MetricsCollector :=
  let m := add_one Counter.TotalConnections m in set_active (i64 (ActiveConnections m + 1)) m.

Definition RecordConnectionClosed (m : MetricsCollector) : MetricsCollector :=
  if 0 <? ActiveConnections m then set_active (ActiveConnections m - 1) m else m.

Definition RecordRejectedConnection (m : MetricsCollector) : MetricsCollector :=
  add_one Counter.RejectedConnections m.

Definition RecordTLSHandshake (m : MetricsCollector) : MetricsCollector := add_one Counter.TLSHandshakes m.
Definition RecordTLSHandshakeFailure (m : MetricsCollector) : MetricsCollector :=
  add_one Counter.TLSHandshakeFailures m.

Definition RecordTLSClientCert (validated : bool) (m : MetricsCollector) : MetricsCollector :=
  let m := add_one Counter.TLSClientCertProvided m in
  if validated then add_one Counter.TLSClientCertValidated m else add_one Counter.TLSClientCertRejected m.

Definition RecordTLSSessionReused (m : MetricsCollector) : MetricsCollector := add_one Counter.TLSSessionReused m.

Definition RecordTLSVersion (version : Z) (m : MetricsCollector) : MetricsCollector :=
  if version =? 0x0303 then add_one Counter.TLSVersion12 m
  else if version =? 0x0304 then add_one Counter.TLSVersion13 m
  else m.

(** *** Cache hit rates *)

(** [float64(hits) / float64(total)] when there was a look-up. *)
Definition hit_rate (hits misses : Z) (old : Fl) : Fl :=
  let total := u64 (hits + misses) in
  if 0 <? total then f_div (f_of_int hits) (f_of_int total) else old.

Definition updateCacheHitRate (m : MetricsCollector) : MetricsCollector :=
  set_rates (hit_rate (mc_counters m Counter.attrCacheHits) (mc_counters m Counter.attrCacheMisses) (CacheHitRate m))
    (DirCacheHitRate m) (NegativeCacheHitRate m) m.
Definition updateDirCacheHitRate (m : MetricsCollector) : MetricsCollector :=
  set_rates (CacheHitRate m)
    (hit_rate (mc_counters m Counter.dirCacheHits) (mc_counters m Counter.dirCacheMisses) (DirCacheHitRate m))
    (NegativeCacheHitRate m) m.
Definition updateNegativeCacheHitRate (m : MetricsCollector) : MetricsCollector :=
  set_rates (CacheHitRate m) (DirCacheHitRate m)
    (hit_rate (mc_counters m Counter.negativeCacheHits) (mc_counters m Counter.negativeCacheMisses)
       (NegativeCacheHitRate m)) m.

Definition RecordAttrCacheHit m := updateCacheHitRate (add_one Counter.attrCacheHits m).
Definition RecordAttrCacheMiss m := updateCacheHitRate (add_one Counter.attrCacheMisses m).
Definition RecordDirCacheHit m := updateDirCacheHitRate (add_one Counter.dirCacheHits m).
Definition RecordDirCacheMiss m := updateDirCacheHitRate (add_one Counter.dirCacheMisses m).
Definition RecordNegativeCacheHit m := updateNegativeCacheHitRate (add_one Counter.negativeCacheHits m).
Definition RecordNegativeCacheMiss m := updateNegativeCacheHitRate (add_one Counter.negativeCacheMisses m).

(** *** Latency *)

(** [sum += d], in 64 bits. *)
Definition sum_durations (samples : list Z) : Z := foldl (fun sum d => i64 (sum + d)) 0 samples.

(** [sortDurations]: [sort.Slice] by [<]. *)
Definition sortDurations (ds : list Z) : list Z := merge_sort Z.le ds.

(** [int(float64(n-1) * 0.95)] *)
Definition p95_index (n : nat) : Z :=
  f_trunc (f_mul (f_of_int (Z.of_nat n - 1)) (f_div (f_of_int 95) (f_of_int 100))).

(** The average and the percentile; [sorted[idx]] out of range panics. *)
Definition updateLatencyStats (samples : list Z) (avg p95 : Z) : option (Z * Z) :=
  let n := length samples in
  if (n =? 0)%nat then Some (avg, p95)
  else
    let avg := Z.quot (sum_durations samples) (Z.of_nat n) in
    if (n <? 20)%nat then Some (avg, p95)
    else
      let idx := p95_index n in
      if idx <? 0 then None
      else p95 ← sortDurations samples !! Z.to_nat idx; Some (avg, p95).

Definition record_latency (duration : Z) (l : Latency) : option Latency :=
  let max := if lat_max l <? duration then duration else lat_max l in
  let ring := ring_push duration (lat_ring l) in
  '(avg, p95) ← updateLatencyStats (ring_samples ring) (lat_avg l) (lat_p95 l);
  Some (mkLatency ring max avg p95).

Definition RecordLatency (opType : string) (duration : Z) (m : MetricsCollector) : option MetricsCollector :=
  if String.eqb opType "READ" then r ← record_latency duration (mc_read m); Some (set_latency r (mc_write m) m)
  else if String.eqb opType "WRITE" then w ← record_latency duration (mc_write m); Some (set_latency (mc_read m) w m)
  else Some m.

(** *** Health *)

Definition RecordOperationResult (isError : bool) (m : MetricsCollector) : MetricsCollector :=
  set_recent (ring_push isError (recentResults m)) m.

Definition maxAllowedLatency : Z := 5 * second.

Definition IsHealthy (m : MetricsCollector) : bool :=
  let results := ring_samples (recentResults m) in
  let n := Z.of_nat (length results) in
  let errors := Z.of_nat (length (filter (fun b => b = true) results)) in
  if (0 <? n) && f_ltb (f_div (f_of_int 1) (f_of_int 2)) (f_div (f_of_int errors) (f_of_int n)) then false
  else if (maxAllowedLatency <? lat_p95 (mc_read m)) || (maxAllowedLatency <? lat_p95 (mc_write m)) then false
  else true.

(** *** Snapshot *)

Definition updateCacheMetrics (c : AttrCache) (m : MetricsCollector) : MetricsCollector :=
  let '(size, capacity) := AttrCache_Stats c in
  set_sizes size capacity (NegativeStats c) m.

(** [int64(time.Since(StartTime).Seconds())] *)
Definition GetMetrics (c : AttrCache) (now : Z) (m : MetricsCollector) : MetricsCollector :=
  let m := updateCacheMetrics c m in
  set_uptime (f_trunc (Seconds (time_Sub now (StartTime m)))) m.
End Collector.

(** ** The interface of the server (src/metrics_api.go) *)

Definition contains_any (s : string) (subs : list string) : bool := existsb (str_contains s) subs.

Section Api.
Context {Fl : Type} `{Float64 Fl} `{Float64Int Fl}.
#[local] Abbreviation MetricsCollector := (MetricsCollector Fl).
(** The text of an error, [err.Error()]. *)
Variable Error : error -> string.

Definition isStaleFileHandle (err : error) : bool :=
  contains_any (Error err) ["stale"; "ESTALE"; "no such file or directory"; "file handle"]%string.

Definition isAuthError (err : error) : bool :=
  errors_Is err os_ErrPermission ||
  contains_any (Error err) ["permission denied"; "EACCES"; "EPERM"; "authentication"; "unauthorized"]%string.

Definition isResourceError (err : error) : bool :=
  contains_any (Error err)
    ["no space left"; "ENOSPC"; "ENOMEM"; "out of memory"; "too many"; "EMFILE"; "ENFILE";
     "quota exceeded"; "resource"; "limit"]%string.

Definition error_type (readOnly : bool) (opType : string) (err : error) : string :=
  if readOnly && String.eqb opType "WRITE" then "ACCESS"
  else if isStaleFileHandle err then "STALE"
  else if isAuthError err then "AUTH"
  else if isResourceError err then "RESOURCE"
  else "UNKNOWN".

(** [RecordOperationStart]: the count is taken at once; the start time is kept
    for the function it returns. *)
Definition RecordOperationStart (opType : string) (now : Z) (m : MetricsCollector) : Z * MetricsCollector :=
  (now, IncrementOperationCount opType m).

(** The function returned, called with the outcome at time [now]. *)
Definition operation_done (readOnly : bool) (opType : string) (startTime now : Z) (err : option error)
    (m : MetricsCollector) : option MetricsCollector :=
  let m := RecordOperationResult (match err with Some _ => true | None => false end) m in
  m ← (if String.eqb opType "READ" || String.eqb opType "WRITE"
       then RecordLatency opType (time_Sub now startTime) m else Some m);
  Some (match err with
        | Some err => RecordError (error_type readOnly opType err) m
        | None => m
        end).
End Api.

(** ** Specification: statistics of a history *)

(** What the collector is told. *)
Inductive event :=
  | EvOperation (op : string)
  | EvLatency (op : string) (d : Z)
  | EvResult (isError : bool)
  | EvError (kind : string)
  | EvRateLimit
  | EvTimeout (op : string)
  | EvAttrCache (hit : bool)
  | EvDirCache (hit : bool)
  | EvNegativeCache (hit : bool)
  | EvConnection
  | EvConnectionClosed
  | EvRejected
  | EvTLSHandshake (ok : bool)
  | EvTLSClientCert (validated : bool)
  | EvTLSSessionReused
  | EvTLSVersion (version : Z).

Section Run.
Context {Fl : Type} `{Float64 Fl} `{Float64Int Fl}.
#[local] Abbreviation MetricsCollector := (MetricsCollector Fl).

Definition apply_event (e : event) (m : MetricsCollector) : option MetricsCollector :=
  match e with
  | EvOperation op => Some (IncrementOperationCount op m)
  | EvLatency op d => RecordLatency op d m
  | EvResult b => Some (RecordOperationResult b m)
  | EvError k => Some (RecordError k m)
  | EvRateLimit => Some (RecordRateLimitExceeded m)
  | EvTimeout op => Some (RecordTimeout op m)
  | EvAttrCache h => Some (if h then RecordAttrCacheHit m else RecordAttrCacheMiss m)
  | EvDirCache h => Some (if h then RecordDirCacheHit m else RecordDirCacheMiss m)
  | EvNegativeCache h => Some (if h then RecordNegativeCacheHit m else RecordNegativeCacheMiss m)
  | EvConnection => Some (RecordConnection m)
  | EvConnectionClosed => Some (RecordConnectionClosed m)
  | EvRejected => Some (RecordRejectedConnection m)
  | EvTLSHandshake ok => Some (if ok then RecordTLSHandshake m else RecordTLSHandshakeFailure m)
  | EvTLSClientCert v => Some (RecordTLSClientCert v m)
  | EvTLSSessionReused => Some (RecordTLSSessionReused m)
  | EvTLSVersion v => Some (RecordTLSVersion v m)
  end.

Fixpoint collect (m : MetricsCollector) (es : list event) : option MetricsCollector :=
  match es with
  | [] => Some m
  | e :: es => m ← apply_event e m; collect m es
  end.
End Run.

(** The counters an event adds to. *)
Definition counted (e : event) : list Counter.t :=
  match e with
  | EvOperation op => Counter.TotalOperations :: option_list (operation_counter op)
  | EvError k => Counter.ErrorCount :: option_list (error_counter k)
  | EvRateLimit => [Counter.RateLimitExceeded]
  | EvTimeout op => Counter.TotalTimeouts :: option_list (timeout_counter op)
  | EvAttrCache h => [if h then Counter.attrCacheHits else Counter.attrCacheMisses]
  | EvDirCache h => [if h then Counter.dirCacheHits else Counter.dirCacheMisses]
  | EvNegativeCache h => [if h then Counter.negativeCacheHits else Counter.negativeCacheMisses]
  | EvConnection => [Counter.TotalConnections]
  | EvRejected => [Counter.RejectedConnections]
  | EvTLSHandshake ok => [if ok then Counter.TLSHandshakes else Counter.TLSHandshakeFailures]
  | EvTLSClientCert v =>
      [Counter.TLSClientCertProvided;
       if v then Counter.TLSClientCertValidated else Counter.TLSClientCertRejected]
  | EvTLSSessionReused => [Counter.TLSSessionReused]
  | EvTLSVersion v =>
      if v =? 0x0303 then [Counter.TLSVersion12] else if v =? 0x0304 then [Counter.TLSVersion13] else []
  | EvLatency _ _ | EvResult _ | EvConnectionClosed => []
  end.

(** How often a history adds to a counter. *)
Definition count (c : Counter.t) (es : list event) : Z :=
  Z.of_nat (length (filter (fun c' => c' = c) (es ≫= counted))).

(** The latencies of an operation, and the results, in a history. *)
Definition latencies (op : string) (es : list event) : list Z :=
  es ≫= (fun e => match e with EvLatency op' d => if String.eqb op' op then [d] else [] | _ => [] end).
Definition outcomes (es : list event) : list bool :=
  es ≫= (fun e => match e with EvResult b => [b] | _ => [] end).

(** The statistics of a history of latencies: over the last thousand for the
    average and the percentile, over all for the maximum. *)
Definition latency_stats (ds : list Z) : Z * Z * Z :=
  let w := window latencyCap ds in
  let n := Z.of_nat (length w) in
  (foldr Z.max 0 ds,
   if (length w =? 0)%nat then 0 else Z.quot (i64 (foldr Z.add 0 w)) n,
   if (length w <? 20)%nat then 0 else default 0 (sortDurations w !! Z.to_nat ((n - 1) * 95 / 100))).

(** At most half of the last thousand results are errors. *)
Definition mostly_ok (rs : list bool) : bool :=
  let w := window latencyCap rs in
  2 * Z.of_nat (length (filter (fun b => b = true) w)) <=? Z.of_nat (length w).

(** ** Lemmas: ring buffers *)

Section RingFacts.
Context {A : Type}.
Implicit Types (r : Ring A) (xs : list A).

(** A ring that was pushed [xs]: the first entries in order while it fills,
    then the last ones, starting at the position to be overwritten. *)
Record ring_inv (cap : nat) (r : Ring A) (xs : list A) : Prop := {
  ri_cap : length (r_buf r) = cap;
  ri_len : r_len r = Nat.min (length xs) cap;
  ri_idx : (r_idx r < cap)%nat;
  ri_filling : (length xs < cap)%nat -> r_idx r = length xs /\ take (length xs) (r_buf r) = xs;
  ri_full : (cap <= length xs)%nat -> drop (r_idx r) (r_buf r) ++ take (r_idx r) (r_buf r) = window cap xs
}.

Lemma ring_inv_new zero cap : (0 < cap)%nat -> ring_inv cap (NewRing zero cap) [].
Proof. intros Hc. constructor; simpl; [apply length_replicate|done|done|done|lia]. Qed.

Lemma window_snoc_short cap xs x : (length xs < cap)%nat -> window cap (xs ++ [x]) = xs ++ [x].
Proof. intros Hl. unfold window. rewrite length_app. simpl. by replace (length xs + 1 - cap)%nat with 0%nat by lia. Qed.

Lemma window_snoc_full cap xs x :
  (cap <= length xs)%nat -> (0 < cap)%nat -> window cap (xs ++ [x]) = drop 1 (window cap xs) ++ [x].
Proof.
  intros Hl Hc. unfold window. rewrite length_app, drop_drop. simpl.
  rewrite drop_app_le by lia. by replace (length xs + 1 - cap)%nat with (length xs - cap + 1)%nat by lia.
Qed.

Lemma ring_inv_push cap r xs x :
  (0 < cap)%nat -> ring_inv cap r xs -> ring_inv cap (ring_push x r) (xs ++ [x]).
Proof.
  intros Hc [Hcap Hlen Hidx Hfill Hfull]. unfold ring_push. rewrite Hcap.
  assert ((r_idx r + 1) mod cap < cap)%nat as Hidx' by (apply Nat.mod_upper_bound; lia).
  assert (r_buf r = take (r_idx r) (r_buf r) ++ drop (r_idx r) (r_buf r)) as Hsplit by (by rewrite take_drop).
  set (a := take (r_idx r) (r_buf r)) in *. set (b := drop (r_idx r) (r_buf r)) in *.
  assert (length a = r_idx r) as Ha by (unfold a; rewrite length_take; lia).
  destruct b as [|y b'] eqn:Eb; [unfold b in Eb; apply (f_equal length) in Eb; rewrite length_drop in Eb; simpl in Eb; lia|].
  assert (<[r_idx r:=x]> (r_buf r) = a ++ x :: b') as Eins.
  { rewrite Hsplit, <- Ha. by rewrite insert_app_r_alt, Nat.sub_diag by lia. }
  assert (length a + S (length b') = cap)%nat as Hab by (rewrite <- Hcap, Hsplit, length_app; simpl; lia).
  constructor; simpl.
  - by rewrite length_insert.
  - rewrite length_app, Hlen. simpl. destruct (Nat.ltb_spec (Nat.min (length xs) cap) cap); lia.
  - done.
  - rewrite length_app. simpl. intros Hl. destruct (Hfill ltac:(lia)) as [Hi Ht]. rewrite Nat.mod_small by lia.
    split; [lia|]. rewrite Eins.
    assert (a = xs) as Eax by (rewrite <- Ht; unfold a; by rewrite Hi). rewrite Eax.
    rewrite firstn_app. replace (length xs + 1 - length xs)%nat with 1%nat by lia.
    by rewrite take_ge by lia.
  - rewrite length_app. simpl. intros Hl. rewrite Eins. destruct (decide (length xs < cap)%nat) as [Hlt|Hge].
    + destruct (Hfill Hlt) as [Hi Ht]. assert (r_idx r + 1 = cap)%nat as E by lia. rewrite E, Nat.Div0.mod_same.
      rewrite window_snoc_short by done. simpl. rewrite app_nil_r.
      assert (a = xs) as <- by (rewrite <- Ht; unfold a; by rewrite Hi).
      destruct b'; [done|simpl in *; lia].
    + rewrite window_snoc_full, <- Hfull by lia. simpl. rewrite drop_0.
      destruct (decide (r_idx r + 1 = cap)%nat) as [E|E].
      * rewrite E, Nat.Div0.mod_same. simpl. rewrite app_nil_r. destruct b'; [done|simpl in *; lia].
      * rewrite Nat.mod_small by lia. rewrite drop_app_ge, firstn_app, Ha by lia.
        replace (r_idx r + 1 - r_idx r)%nat with 1%nat by lia. simpl. rewrite drop_0, take_ge by lia.
        by rewrite (assoc_L (++)).
Qed.

(** The valid entries are the last ones pushed, in some order. *)
Lemma ring_samples_window cap r xs : ring_inv cap r xs -> ring_samples r ≡ₚ window cap xs.
Proof.
  intros [Hcap Hlen Hidx Hfill Hfull]. unfold ring_samples. rewrite Hlen.
  destruct (decide (length xs < cap)%nat) as [Hlt|Hge].
  - destruct (Hfill Hlt) as [_ Ht]. rewrite Nat.min_l by lia. rewrite Ht. unfold window.
    by replace (length xs - cap)%nat with 0%nat by lia.
  - rewrite Nat.min_r by lia. rewrite <- Hfull by lia. rewrite take_ge by lia.
    rewrite <- (take_drop (r_idx r) (r_buf r)) at 1. apply Permutation_app_comm.
Qed.
End RingFacts.

(** ** Lemmas: latency statistics *)

Lemma i64_add_l a b : i64 (i64 a + b) = i64 (a + b).
Proof.
  unfold i64. replace ((a + 2 ^ 63) mod 2 ^ 64 - 2 ^ 63 + b + 2 ^ 63) with ((a + 2 ^ 63) mod 2 ^ 64 + b) by lia.
  rewrite Z.add_mod_idemp_l by lia. do 2 f_equal. lia.
Qed.

Lemma sum_durations_sum l : sum_durations l = i64 (foldr Z.add 0 l).
Proof.
  assert (forall a, foldl (fun sum d => i64 (sum + d)) (i64 a) l = i64 (a + foldr Z.add 0 l)) as Hg.
  { induction l as [|d l IH]; intros a; simpl; [f_equal; lia|]. rewrite i64_add_l, IH. f_equal. lia. }
  apply (Hg 0).
Qed.

Lemma foldr_add_perm l l' : l ≡ₚ l' -> foldr Z.add 0 l = foldr Z.add 0 l'.
Proof. induction 1; simpl; lia. Qed.

Lemma foldr_max_snoc ds d : foldr Z.max 0 (ds ++ [d]) = Z.max (foldr Z.max 0 ds) d.
Proof. induction ds as [|x ds IH]; simpl; [lia|]. rewrite IH. lia. Qed.

Lemma sortDurations_perm l l' : l ≡ₚ l' -> sortDurations l = sortDurations l'.
Proof.
  intros Hp. unfold sortDurations. apply (Sorted_unique Z.le); try apply Sorted_merge_sort; try apply _.
  by rewrite !merge_sort_Permutation.
Qed.

Lemma sortDurations_length l : length (sortDurations l) = length l.
Proof. apply Permutation_length, merge_sort_Permutation. Qed.

Lemma window_length {A} cap (xs : list A) : length (window cap xs) = Nat.min (length xs) cap.
Proof. unfold window. rewrite length_drop. lia. Qed.

(** The index of the percentile is the integer part of [0.95 * (n - 1)]. *)
Class P95Exact (Fl : Type) `{Float64 Fl} `{Float64Int Fl} : Prop :=
  p95_exact : forall n, (20 <= n <= latencyCap)%nat -> p95_index n = (Z.of_nat n - 1) * 95 / 100.

#[export] Instance exact_p95 : P95Exact Q.
Proof.
  intros n Hn. unfold p95_index, f_trunc, exact_int; simpl.
  rewrite Z.mul_1_r. apply Z.quot_div_nonneg; lia.
Qed.

(** In IEEE arithmetic, where 0.95 is not exact, too. *)
#[export] Instance binary64_p95 : P95Exact spec_float.
Proof.
  assert (forallb (fun n => p95_index (Fl := spec_float) n =? (Z.of_nat n - 1) * 95 / 100) (seq 20 981) = true) as Hc
    by (vm_compute; reflexivity).
  intros n Hn. rewrite forallb_forall in Hc. apply Z.eqb_eq, Hc, in_seq. unfold latencyCap in Hn. lia.
Qed.

Section LatencyFacts.
Context {Fl : Type} `{P95Exact Fl}.

Record lat_inv (l : Latency) (ds : list Z) : Prop := {
  la_ring : ring_inv latencyCap (lat_ring l) ds;
  la_stats : (lat_max l, lat_avg l, lat_p95 l) = latency_stats ds
}.

Lemma lat_inv_new : lat_inv (mkLatency (NewRing 0 latencyCap) 0 0 0) [].
Proof. constructor; [apply ring_inv_new; unfold latencyCap; lia|done]. Qed.

Lemma p95_index_range n : (20 <= n <= latencyCap)%nat ->
  0 <= (Z.of_nat n - 1) * 95 / 100 /\ (Z.to_nat ((Z.of_nat n - 1) * 95 / 100) < n)%nat.
Proof.
  intros Hn. assert (0 <= (Z.of_nat n - 1) * 95 / 100) by (apply Z.div_pos; lia).
  assert ((Z.of_nat n - 1) * 95 / 100 < Z.of_nat n) by (apply Z.div_lt_upper_bound; lia). lia.
Qed.

(** The statistics of any arrangement of a window. *)
Lemma updateLatencyStats_window samples w avg p95 :
  samples ≡ₚ w -> (0 < length w <= latencyCap)%nat -> ((length w < 20)%nat -> p95 = 0) ->
  updateLatencyStats samples avg p95 =
    Some (Z.quot (i64 (foldr Z.add 0 w)) (Z.of_nat (length w)),
          if (length w <? 20)%nat then 0
          else default 0 (sortDurations w !! Z.to_nat ((Z.of_nat (length w) - 1) * 95 / 100))).
Proof.
  intros Hp Hl H95. unfold updateLatencyStats. rewrite (Permutation_length Hp).
  destruct (Nat.eqb_spec (length w) 0); [lia|].
  rewrite sum_durations_sum, (foldr_add_perm _ _ Hp), (sortDurations_perm _ _ Hp).
  destruct (Nat.ltb_spec (length w) 20); [by rewrite H95|].
  rewrite p95_exact by lia. destruct (p95_index_range (length w)) as [Hge0 Hlt]; [lia|].
  destruct (Z.ltb_spec ((Z.of_nat (length w) - 1) * 95 / 100) 0); [lia|].
  destruct (lookup_lt_is_Some_2 (sortDurations w) (Z.to_nat ((Z.of_nat (length w) - 1) * 95 / 100))) as [v Hv].
  { by rewrite sortDurations_length. }
  by rewrite Hv.
Qed.

Lemma record_latency_inv l ds d :
  lat_inv l ds -> exists l', record_latency d l = Some l' /\ lat_inv l' (ds ++ [d]).
Proof.
  intros [Hr Hs]. pose proof (ring_inv_push latencyCap (lat_ring l) ds d ltac:(unfold latencyCap; lia) Hr) as Hr'.
  pose proof (ring_samples_window _ _ _ Hr') as Hp. unfold latency_stats in Hs. injection Hs as Hmax Havg H95.
  pose proof (window_length latencyCap (ds ++ [d])) as Hwl. rewrite length_app in Hwl. simpl in Hwl.
  assert (1000 = latencyCap)%nat as Ecap by done.
  unfold record_latency. rewrite (updateLatencyStats_window _ _ _ _ Hp); [|lia|].
  - eexists. split; [done|]. constructor; [done|]. cbn [lat_max lat_avg lat_p95]. unfold latency_stats.
    rewrite foldr_max_snoc, <- Hmax. destruct (Nat.eqb_spec (length (window latencyCap (ds ++ [d]))) 0); [lia|].
    replace (if lat_max l <? d then d else lat_max l) with (Z.max (lat_max l) d); [done|].
    destruct (Z.ltb_spec (lat_max l) d); lia.
  - intros Hlt. rewrite H95. rewrite window_length. destruct (Nat.ltb_spec (Nat.min (length ds) latencyCap) 20); [done|lia].
Qed.
End LatencyFacts.

(** ** Lemmas: histories *)

Lemma count_app c es es' : count c (es ++ es') = count c es + count c es'.
Proof. unfold count. rewrite bind_app, filter_app, length_app. lia. Qed.

Lemma count_nonneg c es : 0 <= count c es.
Proof. unfold count. lia. Qed.

Lemma u64_succ a : u64 (u64 a + 1) = u64 (a + 1).
Proof. unfold u64. by rewrite Z.add_mod_idemp_l by lia. Qed.

Section CollectorFacts.
Context {Fl : Type} `{P95Exact Fl}.
#[local] Abbreviation MetricsCollector := (MetricsCollector Fl).

(** The rate of a pair of counters with these totals. *)
Definition rate_of (hits misses : Z) : Fl :=
  if 0 <? hits + misses then f_div (f_of_int hits) (f_of_int (hits + misses)) else f_of_int 0.

Definition rate_ok (rate : Fl) (h m : Counter.t) (es : list event) : Prop :=
  count h es + count m es < 2 ^ 64 -> rate = rate_of (count h es) (count m es).

(** The collector after the history [es]. *)
Record collected (m : MetricsCollector) (es : list event) : Prop := {
  co_counters c : mc_counters m c = u64 (count c es);
  co_read : lat_inv (mc_read m) (latencies "READ" es);
  co_write : lat_inv (mc_write m) (latencies "WRITE" es);
  co_recent : ring_inv latencyCap (recentResults m) (outcomes es);
  co_attr : rate_ok (CacheHitRate m) Counter.attrCacheHits Counter.attrCacheMisses es;
  co_dir : rate_ok (DirCacheHitRate m) Counter.dirCacheHits Counter.dirCacheMisses es;
  co_neg : rate_ok (NegativeCacheHitRate m) Counter.negativeCacheHits Counter.negativeCacheMisses es
}.

Lemma collected_new now : collected (NewMetricsCollector now) [].
Proof.
  constructor; simpl; try apply lat_inv_new; [done|apply ring_inv_new; unfold latencyCap; lia|done..].
Qed.

(** What adding to counters does to counters alone. *)
Definition bump (cs : list Counter.t) (m : MetricsCollector) : MetricsCollector := foldl (fun m c => add_one c m) m cs.

Lemma bump_counters cs m c :
  (forall c, is_u64 (mc_counters m c)) ->
  mc_counters (bump cs m) c = u64 (mc_counters m c + Z.of_nat (length (filter (fun c' => c' = c) cs))).
Proof.
  revert m. induction cs as [|c' cs IH]; intros m Hm; simpl.
  { rewrite Z.add_0_r. symmetry. by apply u64_small. }
  rewrite IH; [|intros c0; simpl; case_decide; auto using u64_range].
  simpl. rewrite filter_cons. destruct (decide (c = c')) as [->|Hne].
  - rewrite decide_True by done. simpl. unfold u64. rewrite Z.add_mod_idemp_l by lia. f_equal. lia.
  - rewrite decide_False by done. done.
Qed.

Lemma bump_other cs m :
  mc_read (bump cs m) = mc_read m /\ mc_write (bump cs m) = mc_write m /\
  recentResults (bump cs m) = recentResults m /\ CacheHitRate (bump cs m) = CacheHitRate m /\
  DirCacheHitRate (bump cs m) = DirCacheHitRate m /\ NegativeCacheHitRate (bump cs m) = NegativeCacheHitRate m.
Proof. revert m. induction cs as [|c cs IH]; intros m; [done|]. simpl. apply (IH (add_one c m)). Qed.

Lemma collected_bump m es cs c :
  collected m es -> mc_counters (bump cs m) c = u64 (count c es + Z.of_nat (length (filter (fun c' => c' = c) cs))).
Proof.
  intros Hm. rewrite bump_counters by (intros c'; rewrite (co_counters _ _ Hm); apply u64_range).
  rewrite (co_counters _ _ Hm). unfold u64. by rewrite Z.add_mod_idemp_l by lia.
Qed.

(** A rate whose counters the event leaves alone. *)
Lemma rate_ok_other rate h m es e :
  rate_ok rate h m es -> count h [e] = 0 -> count m [e] = 0 -> rate_ok rate h m (es ++ [e]).
Proof. unfold rate_ok. rewrite !count_app. intros Hr -> ->. by rewrite !Z.add_0_r. Qed.

(** A rate that is recomputed from the counters. *)
Lemma rate_ok_updated rate h m es e :
  0 < count h [e] + count m [e] ->
  rate_ok (hit_rate (u64 (count h (es ++ [e]))) (u64 (count m (es ++ [e]))) rate) h m (es ++ [e]).
Proof.
  intros Hpos Hlt. pose proof (count_nonneg h (es ++ [e])). pose proof (count_nonneg m (es ++ [e])).
  unfold hit_rate, rate_of. rewrite (u64_small (count h _)), (u64_small (count m _)), u64_small by (unfold is_u64; lia).
  rewrite !count_app in *. pose proof (count_nonneg h es). pose proof (count_nonneg m es).
  destruct (Z.ltb_spec 0 (count h es + count h [e] + (count m es + count m [e]))); [done|lia].
Qed.
Lemma collected_counters m (m' : MetricsCollector) es e :
  collected m es -> (forall c, mc_counters m' c = mc_counters (bump (counted e) m) c) ->
  forall c, mc_counters m' c = u64 (count c (es ++ [e])).
Proof.
  intros Hm Hc c. rewrite Hc, (collected_bump _ _ _ _ Hm), count_app. unfold count at 3.
  simpl. by rewrite app_nil_r.
Qed.

Lemma latencies_snoc op es e :
  (forall d, e <> EvLatency op d) -> latencies op (es ++ [e]) = latencies op es.
Proof.
  intros He. unfold latencies. rewrite bind_app. simpl. destruct e; rewrite ?app_nil_r; try done.
  destruct (String.eqb_spec op0 op) as [->|]; [by destruct (He d)|by rewrite app_nil_r].
Qed.

Lemma outcomes_snoc es e : (forall b, e <> EvResult b) -> outcomes (es ++ [e]) = outcomes es.
Proof. intros He. unfold outcomes. rewrite bind_app. simpl. destruct e; rewrite ?app_nil_r; try done. by destruct (He isError). Qed.

(** An event that only counts. *)
Lemma collected_counting m (m' : MetricsCollector) es e :
  collected m es -> (forall c, mc_counters m' c = mc_counters (bump (counted e) m) c) ->
  (forall op d, e <> EvLatency op d) -> (forall b, e <> EvResult b) ->
  mc_read m' = mc_read m -> mc_write m' = mc_write m -> recentResults m' = recentResults m ->
  rate_ok (CacheHitRate m') Counter.attrCacheHits Counter.attrCacheMisses (es ++ [e]) ->
  rate_ok (DirCacheHitRate m') Counter.dirCacheHits Counter.dirCacheMisses (es ++ [e]) ->
  rate_ok (NegativeCacheHitRate m') Counter.negativeCacheHits Counter.negativeCacheMisses (es ++ [e]) ->
  collected m' (es ++ [e]).
Proof.
  intros Hm Hc Hl Hr E1 E2 E3 Ha Hd Hn. constructor; try done.
  - by eapply collected_counters.
  - rewrite latencies_snoc, E1 by done. apply Hm.
  - rewrite latencies_snoc, E2 by done. apply Hm.
  - rewrite outcomes_snoc, E3 by done. apply Hm.
Qed.

(** The caches' events recompute their rate. *)
Lemma collected_rate m (m' : MetricsCollector) es e h ms rate :
  collected m es -> mc_counters m' = mc_counters (bump (counted e) m) -> 0 < count h [e] + count ms [e] ->
  rate_ok (hit_rate (mc_counters m' h) (mc_counters m' ms) rate) h ms (es ++ [e]).
Proof.
  intros Hm Hc Hpos. assert (forall c, mc_counters m' c = u64 (count c (es ++ [e]))) as E.
  { eapply collected_counters; [done|]. by rewrite Hc. }
  rewrite !E. by apply rate_ok_updated.
Qed.

Lemma apply_latency m es op d :
  collected m es -> exists m', RecordLatency op d m = Some m' /\ collected m' (es ++ [EvLatency op d]).
Proof.
  intros Hm. assert (forall op', latencies op' (es ++ [EvLatency op d]) =
    if String.eqb op op' then latencies op' es ++ [d] else latencies op' es) as El.
  { intros op'. unfold latencies. rewrite bind_app. simpl. destruct (String.eqb op op'); [done|by rewrite !app_nil_r]. }
  assert (forall m' : MetricsCollector, mc_counters m' = mc_counters m -> forall c, mc_counters m' c = u64 (count c (es ++ [EvLatency op d]))) as Hc.
  { intros m' E c. rewrite E. rewrite count_app, Z.add_0_r. apply Hm. }
  destruct Hm as [Hcn Hr Hw Hrc Ha Hd Hn]. unfold RecordLatency. destruct (String.eqb_spec op "READ") as [->|Hop].
  - destruct (record_latency_inv _ _ d Hr) as (l' & -> & Hl'). eexists. split; [done|].
    constructor; simpl; rewrite ?El, ?outcomes_snoc by done; try done; by apply rate_ok_other || by apply Hc.
  - destruct (String.eqb_spec op "WRITE") as [->|Hop'].
    + destruct (record_latency_inv _ _ d Hw) as (l' & -> & Hl'). eexists. split; [done|].
      constructor; simpl; rewrite ?El, ?outcomes_snoc by done; try done; by apply rate_ok_other || by apply Hc.
    + eexists. split; [done|]. apply String.eqb_neq in Hop, Hop'.
      constructor; rewrite ?El, ?Hop, ?Hop', ?outcomes_snoc by done; try done; by apply rate_ok_other || by apply Hc.
Qed.

(** The counters behind the hit rates. *)
Definition is_cache (c : Counter.t) : bool :=
  match c with
  | Counter.attrCacheHits | Counter.attrCacheMisses | Counter.dirCacheHits | Counter.dirCacheMisses
  | Counter.negativeCacheHits | Counter.negativeCacheMisses => true
  | _ => false
  end.

Lemma plain_counters e :
  match e with EvAttrCache _ | EvDirCache _ | EvNegativeCache _ => True
  | _ => Forall (fun c => is_cache c = false) (counted e) end.
Proof.
  destruct e as [op|op d|b|k| |op|h|h|h| | | |ok|v| |v]; simpl; try done;
    unfold operation_counter, error_counter, timeout_counter; repeat case_match; simpl; repeat constructor.
Qed.

Lemma count_plain h e : is_cache h = true -> Forall (fun c => is_cache c = false) (counted e) -> count h [e] = 0.
Proof.
  intros Hh Hf. unfold count. simpl. rewrite app_nil_r. destruct (filter _ _) as [|c l] eqn:E; [done|].
  assert (c ∈ filter (fun c' => c' = h) (counted e)) as [-> Hin]%list_elem_of_filter by (rewrite E; left).
  rewrite Forall_forall in Hf. by rewrite Hf in Hh.
Qed.

(** An event that touches no cache counter. *)
Lemma collected_plain m (m' : MetricsCollector) es e :
  collected m es -> Forall (fun c => is_cache c = false) (counted e) ->
  (forall op d, e <> EvLatency op d) -> (forall b, e <> EvResult b) ->
  m' = set_active (ActiveConnections m') (bump (counted e) m) -> collected m' (es ++ [e]).
Proof.
  intros Hm Hp Hl Hr ->. destruct (bump_other (counted e) m) as (E1 & E2 & E3 & E4 & E5 & E6).
  apply (collected_counting m); simpl; try done; rewrite ?E4, ?E5, ?E6;
    apply rate_ok_other; try (by apply count_plain); apply Hm.
Qed.

Lemma add_opt_bump c m : add_opt c m = bump (option_list c) m.
Proof. by destruct c. Qed.

Lemma set_active_self (m : MetricsCollector) : m = set_active (ActiveConnections m) m.
Proof. by destruct m. Qed.

Lemma apply_event_collected m es e :
  collected m es -> exists m', apply_event e m = Some m' /\ collected m' (es ++ [e]).
Proof.
  intros Hm. assert (0 < latencyCap)%nat as Hcap by (unfold latencyCap; lia). pose proof (plain_counters e) as Hp.
  destruct e as [op|op d|b|k| |op|h|h|h| | | |ok|v| |v]; simpl in Hp |- *; try (by apply apply_latency);
    (eexists; split; [done|]).
  - apply (collected_plain m); try done. unfold IncrementOperationCount. rewrite add_opt_bump. apply set_active_self.
  - constructor; simpl; try (by apply rate_ok_other; [apply Hm|..]).
    + intros c. rewrite count_app, Z.add_0_r. apply Hm.
    + rewrite latencies_snoc by done. apply Hm.
    + rewrite latencies_snoc by done. apply Hm.
    + unfold outcomes. rewrite bind_app. simpl. apply ring_inv_push; [done|]. apply Hm.
  - apply (collected_plain m); try done. unfold RecordError. rewrite add_opt_bump. apply set_active_self.
  - apply (collected_plain m); try done; apply set_active_self.
  - apply (collected_plain m); try done. unfold RecordTimeout. rewrite add_opt_bump. apply set_active_self.
  - destruct h; (apply (collected_counting m); simpl; try done;
      try (apply rate_ok_other; [apply Hm|reflexivity|reflexivity])).
    + by apply (collected_rate m (add_one Counter.attrCacheHits m)).
    + by apply (collected_rate m (add_one Counter.attrCacheMisses m)).
  - destruct h; (apply (collected_counting m); simpl; try done;
      try (apply rate_ok_other; [apply Hm|reflexivity|reflexivity])).
    + by apply (collected_rate m (add_one Counter.dirCacheHits m)).
    + by apply (collected_rate m (add_one Counter.dirCacheMisses m)).
  - destruct h; (apply (collected_counting m); simpl; try done;
      try (apply rate_ok_other; [apply Hm|reflexivity|reflexivity])).
    + by apply (collected_rate m (add_one Counter.negativeCacheHits m)).
    + by apply (collected_rate m (add_one Counter.negativeCacheMisses m)).
  - apply (collected_plain m); done.
  - apply (collected_plain m); try done. simpl. unfold RecordConnectionClosed. by case_match; [|apply set_active_self].
  - apply (collected_plain m); try done; apply set_active_self.
  - apply (collected_plain m); try done; destruct ok; try done; apply set_active_self.
  - apply (collected_plain m); try done; destruct v; try done; apply set_active_self.
  - apply (collected_plain m); try done; apply set_active_self.
  - apply (collected_plain m); try done. unfold RecordTLSVersion. simpl. repeat case_match; apply set_active_self.
Qed.

Lemma collect_collected es0 es m :
  collected m es0 -> exists m', collect m es = Some m' /\ collected m' (es0 ++ es).
Proof.
  revert es0 m. induction es as [|e es IH]; intros es0 m Hm; simpl; [exists m; by rewrite app_nil_r|].
  destruct (apply_event_collected m es0 e Hm) as (m1 & -> & Hm1). simpl.
  destruct (IH _ _ Hm1) as (m' & E & Hm'). exists m'. split; [done|]. by rewrite <- app_assoc in Hm'.
Qed.
End CollectorFacts.

(** ** Lemmas: health *)

Lemma half_exact e n :
  0 < n -> 0 <= e ->
  f_ltb (Fl := Q) (f_div (f_of_int 1) (f_of_int 2)) (f_div (f_of_int e) (f_of_int n)) = (n <? 2 * e).
Proof.
  intros Hn He. unfold f_ltb; simpl. destruct n as [|n|n]; [lia| |lia].
  destruct (Qle_bool _ _) eqn:E; simpl; symmetry.
  - apply Qle_bool_iff in E. unfold Qle in E; simpl in E. apply Z.ltb_ge. lia.
  - apply Z.ltb_lt. apply not_true_iff_false in E. rewrite Qle_bool_iff in E. unfold Qle in E; simpl in E. lia.
Qed.

Lemma filter_true_perm (l l' : list bool) :
  l ≡ₚ l' -> length (filter (fun b => b = true) l) = length (filter (fun b => b = true) l').
Proof. intros Hp. by rewrite Hp. Qed.

Lemma IsHealthy_collected (m : MetricsCollector Q) es :
  collected m es ->
  IsHealthy m = mostly_ok (outcomes es) &&
    ((latency_stats (latencies "READ" es)).2 <=? maxAllowedLatency) &&
    ((latency_stats (latencies "WRITE" es)).2 <=? maxAllowedLatency).
Proof.
  intros Hm. pose proof (ring_samples_window _ _ _ (co_recent _ _ Hm)) as Hp.
  rewrite <- (la_stats _ _ (co_read _ _ Hm)), <- (la_stats _ _ (co_write _ _ Hm)). cbn [snd].
  unfold IsHealthy, mostly_ok. rewrite (filter_true_perm _ _ Hp), (Permutation_length Hp).
  set (w := window latencyCap (outcomes es)). set (k := length (filter _ w)).
  assert (k <= length w)%nat by apply length_filter.
  destruct (Z.ltb_spec 0 (Z.of_nat (length w))) as [Hn|Hn]; cbn [andb]; [rewrite half_exact by lia|].
  - rewrite (Z.leb_antisym (Z.of_nat (length w))). destruct (Z.of_nat (length w) <? 2 * Z.of_nat k); simpl; [done|].
    rewrite !(Z.leb_antisym maxAllowedLatency).
    by destruct (maxAllowedLatency <? lat_p95 (mc_read m)), (maxAllowedLatency <? lat_p95 (mc_write m)).
  - assert (k = 0%nat) as -> by lia. destruct (Z.leb_spec (2 * Z.of_nat 0) (Z.of_nat (length w))); [|lia]. simpl.
    rewrite !(Z.leb_antisym maxAllowedLatency).
    by destruct (maxAllowedLatency <? lat_p95 (mc_read m)), (maxAllowedLatency <? lat_p95 (mc_write m)).
Qed.

(** ** Properties *)

(** The collector reports its history.  No sequence of events makes it
    panic; afterwards every counter is the number of its events (modulo 2^64);
    the read and write latencies have the maximum of all samples and the
    average and 95th percentile of the last thousand; and the hit rates are
    hits over look-ups.  The arithmetic is IEEE binary64. *)
Theorem metrics_match_history now es :
  exists m : MetricsCollector spec_float,
    collect (NewMetricsCollector now) es = Some m /\
    (forall c, mc_counters m c = u64 (count c es)) /\
    (lat_max (mc_read m), lat_avg (mc_read m), lat_p95 (mc_read m)) = latency_stats (latencies "READ" es) /\
    (lat_max (mc_write m), lat_avg (mc_write m), lat_p95 (mc_write m)) = latency_stats (latencies "WRITE" es) /\
    rate_ok (CacheHitRate m) Counter.attrCacheHits Counter.attrCacheMisses es /\
    rate_ok (DirCacheHitRate m) Counter.dirCacheHits Counter.dirCacheMisses es /\
    rate_ok (NegativeCacheHitRate m) Counter.negativeCacheHits Counter.negativeCacheMisses es.
Proof.
  destruct (collect_collected (Fl := spec_float) [] es _ (collected_new now))
    as (m & E & [Hc [_ Hr] [_ Hw] _ Ha Hd Hn]).
  exists m. done.
Qed.

(** C38: the health check looks at the last thousand outcomes and no further: a
    server is healthy exactly when at most half of them are errors and neither
    95th percentile exceeds five seconds.  The quotient of errors and outcomes
    is exact here; of at most a thousand outcomes, rounding to binary64 does
    not move it across one half. *)
Theorem health_window_exact now es :
  exists m : MetricsCollector Q,
    collect (NewMetricsCollector now) es = Some m /\
    IsHealthy m = mostly_ok (outcomes es) &&
      ((latency_stats (latencies "READ" es)).2 <=? maxAllowedLatency) &&
      ((latency_stats (latencies "WRITE" es)).2 <=? maxAllowedLatency).
Proof.
  destruct (collect_collected (Fl := Q) [] es _ (collected_new now)) as (m & E & Hm).
  exists m. split; [done|]. by apply IsHealthy_collected.
Qed.

(** ** What the server reports *)

(** The events the request handlers record, as calls on the collector. *)
Definition event_of (m : metric) : event :=
  match m with
  | AttrCacheHit => EvAttrCache true
  | AttrCacheMiss => EvAttrCache false
  | DirCacheHit => EvDirCache true
  | DirCacheMiss => EvDirCache false
  | NegativeCacheHit => EvNegativeCache true
  | NegativeCacheMiss => EvNegativeCache false
  | TimeoutOf op => EvTimeout op
  | ErrorOf kind => EvError kind
  | RateLimitExceeded => EvRateLimit
  end.

(** The handlers report no operation, result, latency or connection: whatever
    they do, those counters stay zero and the server is healthy. *)
Theorem server_reports_no_operations now ms :
  exists m : MetricsCollector Q,
    collect (NewMetricsCollector now) (event_of <$> ms) = Some m /\ IsHealthy m = true /\
    mc_counters m Counter.TotalOperations = 0 /\ mc_counters m Counter.TotalConnections = 0.
Proof.
  destruct (collect_collected (Fl := Q) [] (event_of <$> ms) _ (collected_new now)) as (m & E & Hm).
  exists m. split; [done|].
  assert (outcomes (event_of <$> ms) = [] /\ latencies "READ" (event_of <$> ms) = [] /\
    latencies "WRITE" (event_of <$> ms) = []) as (E1 & E2 & E3).
  { clear. induction ms as [|x ms (IH1 & IH2 & IH3)]; [done|]. by destruct x. }
  rewrite (IsHealthy_collected _ _ Hm), !(co_counters _ _ Hm). simpl. rewrite E1, E2, E3.
  assert (forall c, (c = Counter.TotalOperations \/ c = Counter.TotalConnections) ->
    count c (event_of <$> ms) = 0) as Hc.
  { intros c Hc. clear -Hc. induction ms as [|x ms IH]; [done|]. change (x :: ms) with ([x] ++ ms).
    rewrite fmap_app, count_app, IH. unfold count. simpl. rewrite app_nil_r.
    destruct x; simpl; unfold timeout_counter, error_counter; repeat case_match; by destruct Hc as [->| ->]. }
  rewrite !Hc by auto. done.
Qed.

(** ** Concrete runs *)

(** Reads of 1 to 30 ms: the 95th percentile is the 28th. *)
Example latency_run :
  (fun m => (lat_max (mc_read m), lat_avg (mc_read m), lat_p95 (mc_read m)))
    <$> collect (NewMetricsCollector (Fl := spec_float) 0)
          (EvLatency "READ" ∘ (fun n => Z.of_nat n * 1000000) <$> seq 1 30)
  = Some (30000000, 15500000, 28000000).
Proof. vm_compute. reflexivity. Qed.

(** One failure in two operations is healthy, two in three are not. *)
Example health_run :
  (IsHealthy (Fl := spec_float) <$> collect (NewMetricsCollector 0) [EvResult true; EvResult false]) = Some true /\
  (IsHealthy (Fl := spec_float) <$> collect (NewMetricsCollector 0) [EvResult true; EvResult false; EvResult true])
    = Some false.
Proof. vm_compute. done. Qed.
