(* ===== verification/Operations.v ===== *)
(** * The operation layer (src/operations.go)

    The operations between the NFS procedures and the wrapped filesystem:
    look-up and attribute retrieval through the caches, reading and writing,
    creation, removal, renaming, directory listing and symbolic links.  Each
    definition is the whole operation: the guards, the deadline check, the
    filesystem calls in their order and the cache maintenance.  Logging has no
    effect on the state and is left out. *)

From S2P Require Import Prelude Errors Xdr Attributes Rpc MinHeap FileHandle Lru AttrCache Path.
From S2P Require Import Options Filesystem DirCache Server.
Open Scope Z_scope.

(** [fnv.New64a] over the bytes of a path *)
Definition fnv64a (p : string) : Z :=
  foldl (fun h b => u64 (Z.lxor h (byteZ b) * 1099511628211)) 14695981039346656037 (bytes_of_string p).

(** The attributes built from an [os.FileInfo], before [Refresh]. *)
Definition attrs_of_info (info : FileInfo) (fileId uid gid : Z) : NFSAttrs :=
  let attrs := mkNFSAttrs (fi_Mode info) (fi_Size info) fileId time_zero time_zero uid gid time_zero in
  SetAtime (SetMtime attrs (fi_ModTime info)) (fi_ModTime info).

Section Operations.
Context {F FD RL : Type} `{SymlinkFileSystem F FD} `{OpLimiter RL} `{Env}.
#[local] Abbreviation M := (M F RL).

(** The deadline of an operation, checked once before it starts: [true] when
    it has passed, which is recorded. *)
Definition timed_out (op : string) (sel : TimeoutConfig -> Z) : M bool :=
  timeout ← timeout_of sel;
  deadline ← with_timeout timeout;
  expired ← ctx_done deadline;
  if (expired : bool) then record (TimeoutOf op) ;; mret true else mret false.

(** [attrs.Refresh()] *)
Definition refresh (a : NFSAttrs) : M NFSAttrs := now ← time_Now; mret (Refresh a now).

(** [node.attrs.Size = ...; SetMtime; Refresh] under the node's lock *)
Definition refresh_size (n : NFSNode) (info : FileInfo) : M unit :=
  a ← deref_attrs n;
  a ← refresh (SetMtime (set_Size a (fi_Size info)) (fi_ModTime info));
  set_attrs n a.

Definition Lookup (path : string) : M (result NFSNode) :=
  if bool_decide (path = EmptyString) then mret (Err (ErrorString "empty path"))
  else
    expired ← timed_out "LOOKUP" LookupTimeout;
    if (expired : bool) then mret (Err ErrTimeout)
    else
      '(attrs, found) ← attrCache_Get path;
      if (found : bool) then
        match attrs with
        | None => mret (Err (wrapError ("lookup: failed to stat " +:+ path) os_ErrNotExist))
        | Some attrs => node ← new_node path attrs; mret (Ok node)
        end
      else
        r ← fs_call (fs_Lstat path);
        match r with
        | Err err =>
            (if os_IsNotExist err
             then attrCache_PutNegative path ;; record NegativeCacheMiss
             else mret tt) ;;
            mret (Err (wrapError ("lookup: failed to stat " +:+ path) err))
        | Ok info =>
            attrs ← refresh (attrs_of_info info (fnv64a path) 0 0);
            node ← new_node path attrs;
            attrCache_Put path attrs ;;
            mret (Ok node)
        end.

Definition GetAttr (node : NFSNode) : M (result NFSAttrs) :=
  '(attrs, found) ← attrCache_Get (path node);
  now ← time_Now;
  match (if (found : bool) then attrs ≫= (fun a => if IsValid a now then Some a else None) else None) with
  | Some attrs => mret (Ok attrs)
  | None =>
      let* info := fs_call (fs_Lstat (path node))
        else err => mret (Err (wrapError ("getattr: failed to stat " +:+ path node) err)) in
      cur ← node_attrs node;
      attrs ← refresh (attrs_of_info info (fnv64a (path node))
        (default 0 (Uid <$> cur)) (default 0 (Gid <$> cur)));
      attrCache_Put (path node) attrs ;;
      mret (Ok attrs)
  end.

(** [if cond { if err := call; err != nil { return wrapped } }] *)
Definition guarded (cond : bool) (call : F -> result unit * F) (msg : string) : M (result unit) :=
  if cond then
    let* _ := fs_call call else err => mret (Err (wrapError msg err)) in mret (Ok tt)
  else mret (Ok tt).

Definition SetAttr (node : NFSNode) (attrs : NFSAttrs) : M (result unit) :=
  let* _ := fs_call (fs_Stat (path node)) else err => mret (Err (wrapError "setattr" err)) in
  cur ← deref_attrs node;
  let* _ := guarded (negb (Z.land (Mode attrs) os_ModePerm =? Z.land (Mode cur) os_ModePerm))
              (fs_Chmod (path node) (Z.land (Mode attrs) os_ModePerm)) "setattr: chmod failed"
    else err => mret (Err err) in
  let* _ := guarded (negb (Uid attrs =? Uid cur) || negb (Gid attrs =? Gid cur))
              (fs_Chown (path node) (Uid attrs) (Gid attrs)) "setattr: chown failed"
    else err => mret (Err err) in
  let* _ := guarded ((negb (time_IsZero (atime attrs)) || negb (time_IsZero (mtime attrs))) &&
                     (negb (mtime attrs =? mtime cur) || negb (atime attrs =? atime cur)))
              (fs_Chtimes (path node) (atime attrs) (mtime attrs)) "setattr: chtimes failed"
    else err => mret (Err err) in
  attrs ← refresh attrs;
  set_attrs node attrs ;;
  attrCache_Invalidate (path node) ;;
  mret (Ok tt).

(** [NFSNode.Truncate] of src/nfs_node.go *)
Definition node_Truncate (node : NFSNode) (size : Z) : M (result unit) :=
  a ← deref_attrs node;
  set_attrs node (Attributes.Invalidate a) ;;
  fs_call (fs_Truncate (path node) size).

Definition Read (node : NFSNode) (offset count : Z) : M (result (list byte)) :=
  if offset <? 0 then mret (Err (ErrorString "negative offset"))
  else if count <? 0 then mret (Err (ErrorString "negative count"))
  else
    expired ← timed_out "READ" ReadTimeout;
    if (expired : bool) then mret (Err ErrTimeout)
    else
      ts ← gets (fun s => TransferSize (s_tuning s));
      let count := if ts <? count then ts else count in
      let* f := fs_call (fs_OpenFile (path node) os_O_RDONLY 0)
        else err => mret (Err (wrapError ("read: failed to open " +:+ path node) err)) in
      r ← fs_call (f_Stat f);
      match r with
      | Err err =>
          fs_call (f_Close f) ;;
          mret (Err (wrapError ("read: failed to stat " +:+ path node) err))
      | Ok info =>
          let remaining := fi_Size info - offset in
          if remaining <=? 0 then fs_call (f_Close f) ;; mret (Ok [])
          else
            let count := if remaining <? count then remaining else count in
            if count <? 0 then panic       (* make([]byte, count) *)
            else
              '(data, err) ← fs_call (f_ReadAt f count offset);
              fs_call (f_Close f) ;;
              match err with
              | Some e =>
                  if bool_decide (e = io_EOF) then mret (Ok data)
                  else mret (Err (wrapError ("read: failed to read from " +:+ path node) e))
              | None => mret (Ok data)
              end
      end.

(** The deferred [Close] assigns its error to a local variable after the
    results are set, so it does not reach the caller. *)
Definition Write (node : NFSNode) (offset : Z) (data : list byte) : M (Z * option error) :=
  if offset <? 0 then mret (0, Some (ErrorString "negative offset"))
  else
    ro ← read_only;
    if (ro : bool) then mret (0, Some os_ErrPermission)
    else
      expired ← timed_out "WRITE" WriteTimeout;
      if (expired : bool) then mret (0, Some ErrTimeout)
      else
        ts ← gets (fun s => TransferSize (s_tuning s));
        if (ts <? zlen data) && (ts <? 0) then panic     (* data[:TransferSize] *)
        else
          let data := if ts <? zlen data then take (Z.to_nat ts) data else data in
          let* f := fs_call (fs_OpenFile (path node) os_O_WRONLY 0)
            else err => mret (0, Some (wrapError ("write: failed to open " +:+ path node) err)) in
          '(n, err) ← fs_call (f_WriteAt f data offset);
          (match err with
           | Some _ => mret tt
           | None =>
               attrCache_Invalidate (path node) ;;
               now ← time_Now;
               fs_call (fs_Chtimes (path node) now now) ;;
               st ← fs_call (fs_Stat (path node));
               match st with
               | Ok info => refresh_size node info
               | Err _ => mret tt
               end
           end) ;;
          fs_call (f_Close f) ;;
          mret (n, err).

(** The cache maintenance after an entry of [dir] came into being. *)
Definition invalidate_created (dir path : string) : M unit :=
  attrCache_Invalidate dir ;;
  attrCache_InvalidateNegativeInDir dir ;;
  attrCache_Invalidate path ;;
  dirCache_Invalidate dir.

Definition Create (dir : NFSNode) (name : string) (attrs : NFSAttrs) : M (result NFSNode) :=
  if bool_decide (name = EmptyString) then mret (Err (ErrorString "empty name"))
  else
    ro ← read_only;
    if (ro : bool) then mret (Err os_ErrPermission)
    else
      expired ← timed_out "CREATE" CreateTimeout;
      if (expired : bool) then mret (Err ErrTimeout)
      else
        match sanitizePath (path dir) name with
        | Err err => mret (Err (wrapError "create: failed to sanitize path" err))
        | Ok p =>
            let* f := fs_call (fs_Create p)
              else err => mret (Err (wrapError ("create: failed to create " +:+ p) err)) in
            closeErr ← fs_call (f_Close f);
            match closeErr with
            | Some err =>
                fs_call (fs_Remove p) ;;
                mret (Err (wrapError ("create: failed to close " +:+ p) err))
            | None =>
                r ← fs_call (fs_Chmod p (Z.land (Mode attrs) os_ModePerm));
                match r with
                | Err err =>
                    fs_call (fs_Remove p) ;;
                    mret (Err (wrapError ("create: failed to chmod " +:+ p) err))
                | Ok _ => invalidate_created (path dir) p ;; Lookup p
                end
            end
        end.

Definition Remove (dir : NFSNode) (name : string) : M (result unit) :=
  if bool_decide (name = EmptyString) then mret (Err (ErrorString "empty name"))
  else
    ro ← read_only;
    if (ro : bool) then mret (Err os_ErrPermission)
    else
      expired ← timed_out "REMOVE" RemoveTimeout;
      if (expired : bool) then mret (Err ErrTimeout)
      else
        match sanitizePath (path dir) name with
        | Err err => mret (Err (wrapError "remove: failed to sanitize path" err))
        | Ok p =>
            let* _ := fs_call (fs_Remove p)
              else err => mret (Err (wrapError ("remove: failed to remove " +:+ p) err)) in
            attrCache_Invalidate p ;;
            attrCache_Invalidate (path dir) ;;
            dirCache_Invalidate (path dir) ;;
            mret (Ok tt)
        end.

Definition Rename (oldDir : NFSNode) (oldName : string) (newDir : NFSNode) (newName : string)
    : M (result unit) :=
  if bool_decide (oldName = EmptyString) || bool_decide (newName = EmptyString)
  then mret (Err (ErrorString "empty name"))
  else
    ro ← read_only;
    if (ro : bool) then mret (Err os_ErrPermission)
    else
      expired ← timed_out "RENAME" RenameTimeout;
      if (expired : bool) then mret (Err ErrTimeout)
      else
        match sanitizePath (path oldDir) oldName with
        | Err err => mret (Err (wrapError "rename: failed to sanitize old path" err))
        | Ok oldPath =>
            match sanitizePath (path newDir) newName with
            | Err err => mret (Err (wrapError "rename: failed to sanitize new path" err))
            | Ok newPath =>
                let* _ := fs_call (fs_Rename oldPath newPath)
                  else err => mret (Err (wrapError ("rename: failed to rename " +:+ oldPath) err)) in
                attrCache_Invalidate oldPath ;;
                attrCache_Invalidate newPath ;;
                attrCache_Invalidate (path oldDir) ;;
                attrCache_Invalidate (path newDir) ;;
                attrCache_InvalidateNegativeInDir (path oldDir) ;;
                attrCache_InvalidateNegativeInDir (path newDir) ;;
                dirCache_Invalidate (path oldDir) ;;
                dirCache_Invalidate (path newDir) ;;
                mret (Ok tt)
            end
        end.

(** The loop that turns directory entries into nodes: "." and "..", names
    [sanitizePath] refuses and entries that cannot be looked up are skipped. *)
Fixpoint entries_to_nodes (dir : string) (entries : list FileInfo) : M (list NFSNode) :=
  match entries with
  | [] => mret []
  | entry :: rest =>
      let name := fi_Name entry in
      if String.eqb name "." || String.eqb name ".." then entries_to_nodes dir rest
      else
        match sanitizePath dir name with
        | Err _ => entries_to_nodes dir rest
        | Ok entryPath =>
            r ← Lookup entryPath;
            match r with
            | Err _ => entries_to_nodes dir rest
            | Ok node => nodes ← entries_to_nodes dir rest; mret (node :: nodes)
            end
        end
  end.

Definition ReadDir (dir : NFSNode) : M (result (list NFSNode)) :=
  expired ← timed_out "READDIR" ReaddirTimeout;
  if (expired : bool) then mret (Err ErrTimeout)
  else
    cached ← dirCache_Get (path dir);
    match cached with
    | Some (entries, true) =>
        record DirCacheHit ;;
        nodes ← entries_to_nodes (path dir) entries; mret (Ok nodes)
    | _ =>
        (match cached with Some _ => record DirCacheMiss | None => mret tt end) ;;
        let* f := fs_call (fs_OpenFile (path dir) os_O_RDONLY 0)
          else err => mret (Err (wrapError ("readdir: failed to open directory " +:+ path dir) err)) in
        r ← fs_call (f_Readdir f (-1));
        match r with
        | Err err =>
            fs_call (f_Close f) ;;
            mret (Err (wrapError ("readdir: failed to read entries from " +:+ path dir) err))
        | Ok entries =>
            dirCache_Put (path dir) entries ;;
            nodes ← entries_to_nodes (path dir) entries;
            fs_call (f_Close f) ;;
            mret (Ok nodes)
        end
    end.

(** One round of the loop of [ReadDirPlus]. *)
Definition precache_attrs (node : NFSNode) : M unit :=
  '(attrs, found) ← attrCache_Get (path node);
  now ← time_Now;
  if match (found : bool), attrs with true, Some a => IsValid a now | _, _ => false end then mret tt
  else
    r ← fs_call (fs_Stat (path node));
    match r with
    | Err _ => mret tt
    | Ok info =>
        cur ← deref_attrs node;
        attrs ← refresh (attrs_of_info info 0 (Uid cur) (Gid cur));
        attrCache_Put (path node) attrs ;;
        set_attrs node attrs
    end.

Fixpoint precache_all (nodes : list NFSNode) : M unit :=
  match nodes with
  | [] => mret tt
  | n :: rest => precache_attrs n ;; precache_all rest
  end.

Definition ReadDirPlus (dir : NFSNode) : M (result (list NFSNode)) :=
  let* nodes := ReadDir dir else err => mret (Err err) in
  precache_all nodes ;;
  mret (Ok nodes).

Definition Symlink (dir : NFSNode) (name target : string) (attrs : NFSAttrs) : M (result NFSNode) :=
  if bool_decide (name = EmptyString) then mret (Err (ErrorString "empty name"))
  else if bool_decide (target = EmptyString) then mret (Err (ErrorString "empty target"))
  else
    ro ← read_only;
    if (ro : bool) then mret (Err os_ErrPermission)
    else
      match sanitizePath (path dir) name with
      | Err err => mret (Err (wrapError "symlink: failed to sanitize path" err))
      | Ok p =>
          let* _ := fs_call (fs_Symlink target p)
            else err => mret (Err (wrapError ("symlink: failed to create symlink at " +:+ p) err)) in
          invalidate_created (path dir) p ;;
          Lookup p
      end.

Definition Readlink (node : NFSNode) : M (result string) :=
  let* target := fs_call (fs_Readlink (path node))
    else err => mret (Err (wrapError ("readlink: failed to read symlink " +:+ path node) err)) in
  if negb (str_prefix "/" target) && has_dotdot target
  then mret (Err (ErrorString "readlink: symlink target with '..' not allowed"))
  else mret (Ok target).

(** [Unexport], the export server apart: handles are released and the caches
    cleared. *)
Definition Unexport : M unit :=
  modify (fun s => upd_fileMap (snd (ReleaseAll (s_fileMap s))) s) ;;
  modify (fun s => upd_attrCache (AttrCache_Clear (s_attrCache s)) s) ;;
  modify (fun s => upd_dirCache (DirCache_Clear <$> s_dirCache s) s).

End Operations.
