(* ===== verification/Safety.v ===== *)
(** * Program logic for requests

    The invariant of the server state, and a judgement [safe]: from a state in
    the invariant a computation does not panic, returns, keeps the invariant
    and every node it could see, and its result satisfies a postcondition.
    The invariant fixes the options in force and includes a chosen invariant
    [P] of the wrapped filesystem, kept by the calls the export's options
    allow ([FSInv]): safety of a handler includes that it keeps [P].  The operations of Operations.v are
    proved safe here; the handlers are proved safe from these lemmas. *)

From S2P Require Import Prelude Errors Xdr Attributes Rpc MinHeap FileHandle Lru AttrCache Path.
From S2P Require Import Options Filesystem DirCache Server Operations.
Open Scope Z_scope.

(** Whether a policy lets clients change files. *)
Definition writable_by (pol : PolicyOptions) : bool := negb (ReadOnly pol).

Section Safety.
Context {F FD RL : Type} `{SymlinkFileSystem F FD} `{OpLimiter RL} `{Env}.
Context (pol : PolicyOptions) (tun : TuningOptions) (P : F -> Prop).
Context {HP : FSInv F FD rooted (writable_by pol) P}.
#[local] Abbreviation M := (M F RL).
#[local] Abbreviation Srv := (Srv F RL).

(** A node whose attributes are set, with an absolute path. *)
Definition node_ok (s : Srv) (n : NFSNode) : Prop :=
  (exists a, s_nodes s !! node_addr n = Some (Some a)) /\ rooted (path n).

Record srv_inv (s : Srv) : Prop := {
  si_policy : s_policy s = pol;
  si_tuning : s_tuning s = tun;
  si_tuning_ok : tuning_ok tun;
  si_fs : P (s_fs s);
  si_fm : fm_inv (s_fileMap s);
  si_bounded : fm_bounded (s_fileMap s);
  si_handles : forall h n, handles (s_fileMap s) !! h = Some (FNode n) -> node_ok s n;
  si_attr : ac_inv (s_attrCache s);
  si_dir : forall c, s_dirCache s = Some c -> dc_inv c
}.

(** Nodes stay. *)
Definition nodes_le (s s' : Srv) : Prop :=
  forall a x, s_nodes s !! a = Some (Some x) -> exists y, s_nodes s' !! a = Some (Some y).

Definition safe {A} (s : Srv) (m : M A) (Q : A -> Srv -> Prop) : Prop :=
  srv_inv s -> exists a s', m s = Some (a, s') /\ srv_inv s' /\ nodes_le s s' /\ Q a s'.

(** ** Rules *)

#[export] Instance nodes_le_preorder : PreOrder nodes_le.
Proof.
  split; [intros s a x Hx; eauto|]. intros s1 s2 s3 H12 H23 a x Hx.
  destruct (H12 a x Hx) as [y Hy]. by apply H23 in Hy.
Qed.

Lemma node_ok_le s s' n : nodes_le s s' -> node_ok s n -> node_ok s' n.
Proof. intros Hle [[a Ha] Hp]. split; [by eapply Hle|done]. Qed.

Lemma safe_ret {A} s (a : A) (Q : A -> Srv -> Prop) : Q a s -> safe s (mret a) Q.
Proof. intros HQ Hi. exists a, s. by split; [|split; [|split]]. Qed.

Lemma safe_bind {A B} s (m : M A) (k : A -> M B) Q :
  safe s m (fun a s' => nodes_le s s' -> safe s' (k a) Q) -> safe s (m ≫= k) Q.
Proof.
  intros Hm Hi. destruct (Hm Hi) as (a & s1 & E1 & Hi1 & Hle & Hk).
  destruct (Hk Hle Hi1) as (b & s2 & E2 & Hi2 & Hle2 & HQ).
  exists b, s2. unfold mbind, M_bind. rewrite E1. split; [done|]. split; [done|]. split; [|done].
  by transitivity s1.
Qed.

Lemma safe_mono {A} s (m : M A) (R Q : A -> Srv -> Prop) :
  safe s m R -> (forall a s', R a s' -> Q a s') -> safe s m Q.
Proof. intros Hm HRQ Hi. destruct (Hm Hi) as (a & s1 & E & Hi1 & Hle & HR). eauto 10. Qed.

Lemma safe_inv {A} s (m : M A) Q : (srv_inv s -> safe s m Q) -> safe s m Q.
Proof. intros Hm Hi. by apply Hm. Qed.

(** A computation that changes the state by a function that keeps the
    invariant and the node store. *)
Lemma safe_modify s f (Q : unit -> Srv -> Prop) :
  (srv_inv s -> srv_inv (f s)) -> s_nodes (f s) = s_nodes s -> Q tt (f s) -> safe s (modify f) Q.
Proof.
  intros Hf Hn HQ Hi. exists tt, (f s). split; [done|]. split; [by apply Hf|]. split; [|done].
  intros a x Hx. rewrite Hn. eauto.
Qed.

Lemma safe_gets {A} s (f : Srv -> A) (Q : A -> Srv -> Prop) : Q (f s) s -> safe s (gets f) Q.
Proof. intros HQ Hi. exists (f s), s. by split; [|split; [|split]]. Qed.

Lemma inv_upd_tick s t : srv_inv s -> srv_inv (upd_tick t s).
Proof. intros []. by constructor. Qed.
Lemma inv_upd_metrics s m : srv_inv s -> srv_inv (upd_metrics m s).
Proof. intros []. by constructor. Qed.
Lemma inv_upd_limiter s r t : srv_inv s -> srv_inv (upd_limiter r t s).
Proof. intros []. by constructor. Qed.
Lemma inv_upd_unread s b : srv_inv s -> srv_inv (upd_unread b s).
Proof. intros []. by constructor. Qed.
Lemma inv_upd_attrCache s c : srv_inv s -> ac_inv c -> srv_inv (upd_attrCache c s).
Proof. intros [] Hc. by constructor. Qed.
Lemma inv_upd_dirCache s c : srv_inv s -> (forall x, c = Some x -> dc_inv x) -> srv_inv (upd_dirCache c s).
Proof. intros [] Hc. by constructor. Qed.
Lemma inv_upd_fs s f :
  srv_inv s -> P f -> srv_inv (upd_fs f s).
Proof. intros [] Hf. by constructor. Qed.

(** *** Primitive effects *)

Lemma time_Now_safe s (Q : Z -> Srv -> Prop) :
  (forall t s', nodes_le s s' -> Q t s') -> safe s time_Now Q.
Proof.
  intros HQ Hi. do 2 eexists. split; [done|]. split; [by apply inv_upd_tick|].
  assert (nodes_le s (upd_tick (S (s_tick s)) s)) by (intros a x Hx; eauto). split; [done|by apply HQ].
Qed.

Lemma select_choice_safe s (Q : bool -> Srv -> Prop) :
  (forall b s', nodes_le s s' -> Q b s') -> safe s select_choice Q.
Proof.
  intros HQ Hi. do 2 eexists. split; [done|]. split; [by apply inv_upd_tick|].
  assert (nodes_le s (upd_tick (S (s_tick s)) s)) by (intros a x Hx; eauto). split; [done|by apply HQ].
Qed.

(** A filesystem call is safe when it keeps the filesystem's invariant; its
    result is what the filesystem returns. *)
Lemma fs_call_safe {A} s (op : F -> A * F) (Q : A -> Srv -> Prop) :
  (P (s_fs s) -> P (op (s_fs s)).2) ->
  (P (s_fs s) -> forall s', nodes_le s s' -> Q (op (s_fs s)).1 s') ->
  safe s (fs_call op) Q.
Proof.
  intros Ht HQ Hi. unfold fs_call. destruct (op (s_fs s)) as [a f] eqn:E. simpl in *.
  exists a, (upd_fs f s). split; [done|].
  assert (nodes_le s (upd_fs f s)) by (intros b x Hx; eauto).
  split; [|split; [done|apply HQ; [apply Hi|done]]]. apply inv_upd_fs; [done|].
  apply Ht, Hi.
Qed.

Lemma record_safe s m : safe s (record m) (fun _ _ => True).
Proof. apply safe_modify; [apply inv_upd_metrics|done|done]. Qed.

Lemma read_to_safe s b : safe s (read_to b) (fun _ _ => True).
Proof. apply safe_modify; [apply inv_upd_unread|done|done]. Qed.

Lemma timeout_of_safe s sel : safe s (timeout_of sel) (fun _ _ => True).
Proof.
  intros Hi. pose proof (si_tuning_ok _ Hi) as [_ [t Ht]]. unfold timeout_of, mbind, M_bind, gets.
  rewrite (si_tuning _ Hi), Ht. exists (sel t), s. by split; [|split; [|split]].
Qed.

Lemma new_node_safe s p a :
  rooted p ->
  safe s (new_node p a) (fun n s' => node_ok s' n /\ path n = p).
Proof.
  intros Hp Hi. do 2 eexists. split; [done|].
  assert (nodes_le s (upd_nodes (<[s_nextNode s := Some a]> (s_nodes s)) (S (s_nextNode s)) s)) as Hle.
  { intros k x Hx. simpl. destruct (decide (s_nextNode s = k)) as [<-|].
    - rewrite lookup_insert_eq. eauto.
    - rewrite lookup_insert_ne by done. eauto. }
  split; [|split; [done|]].
  - destruct Hi. constructor; try done. intros h n Hn. simpl in Hn. eapply node_ok_le; eauto.
  - split; [|done]. split; [|done]. simpl. rewrite lookup_insert_eq. eauto.
Qed.

Lemma node_attrs_safe s n :
  node_ok s n -> safe s (node_attrs n) (fun a s' => (exists x, a = Some x) /\ s' = s).
Proof.
  intros [[a Ha] _] Hi. unfold node_attrs. rewrite Ha. exists (Some a), s.
  split; [done|]. split; [done|]. split; [done|]. eauto.
Qed.

Lemma deref_attrs_safe s n : node_ok s n -> safe s (deref_attrs n) (fun _ s' => s' = s).
Proof.
  intros [[a Ha] _] Hi. unfold deref_attrs, node_attrs, mbind, M_bind. rewrite Ha.
  exists a, s. by split; [|split; [|split]].
Qed.

Lemma set_attrs_safe s n a : safe s (set_attrs n a) (fun _ _ => True).
Proof.
  intros Hi. do 2 eexists. split; [done|].
  assert (nodes_le s (upd_nodes (<[node_addr n := Some a]> (s_nodes s)) (s_nextNode s) s)) as Hle.
  { intros k x Hx. simpl. destruct (decide (node_addr n = k)) as [<-|].
    - rewrite lookup_insert_eq. eauto.
    - rewrite lookup_insert_ne by done. eauto. }
  split; [|done]. destruct Hi. constructor; try done. intros h m Hm. simpl in Hm. eapply node_ok_le; eauto.
Qed.

Lemma allocate_safe s n : node_ok s n -> safe s (allocate n) (fun h _ => is_u64 h).
Proof.
  intros Hn Hi. unfold allocate.
  destruct (Allocate_bounded (s_fileMap s) (FNode n) (si_fm _ Hi) (si_bounded _ Hi))
    as (h & cl & fm & -> & Hfm & Hb & _ & Hh & Hin).
  exists h, (upd_fileMap fm s). split; [done|]. split.
  - destruct Hi. constructor; try done. simpl. intros k m Hm. apply Hin in Hm as [Hm|Hm]; [eauto|].
    by injection Hm as ->.
  - split; [|done]. intros a x Hx. eauto.
Qed.

Lemma lookupNode_safe s h :
  safe s (lookupNode h) (fun r s' => match r with Some n => node_ok s' n | None => True end).
Proof.
  intros Hi. unfold lookupNode, gets. do 2 eexists. split; [done|]. split; [done|]. split; [done|].
  unfold Get. destruct (handles (s_fileMap s) !! h) as [[m|]|] eqn:E; [|done|done].
  by apply (si_handles _ Hi h).
Qed.

(** *** Caches *)

Lemma ac_step_inv c o : ac_inv c -> exists r c', ac_step c o = Some (r, c') /\ ac_inv c'.
Proof. intros Hc. destruct (step_refines c o Hc) as (r & c' & E & Hc' & _). eauto. Qed.

(** A cache operation without a result keeps the cache's invariant. *)
Lemma ac_unit_inv c o c' : ac_inv c -> ac_step c o = Some (OutUnit, c') -> ac_inv c'.
Proof. intros Hc E. destruct (ac_step_inv c o Hc) as (r & c'' & E' & Hi). by simplify_eq. Qed.

Lemma attrCache_Get_safe s p : safe s (attrCache_Get p) (fun _ _ => True).
Proof.
  unfold attrCache_Get. apply safe_bind, time_Now_safe. intros now s1 _ _.
  apply safe_bind, time_Now_safe. intros now' s2 _ _.
  apply safe_bind, safe_gets. intros _. apply safe_inv. intros Hi.
  destruct (get_refines (s_attrCache s2) p now now' (si_attr _ Hi)) as (a & ok & c & -> & Hc & _).
  apply safe_bind, safe_modify; [intros; by apply inv_upd_attrCache|done|]. intros _.
  apply safe_bind. eapply safe_mono; [apply record_safe|]. intros _ s3 _ _. by apply safe_ret.
Qed.

Lemma attrCache_upd_safe s f :
  (forall c, ac_inv c -> ac_inv (f c)) ->
  safe s (modify (fun s => upd_attrCache (f (s_attrCache s)) s)) (fun _ _ => True).
Proof. intros Hf. apply safe_modify; [|done|done]. intros Hi. apply inv_upd_attrCache; [done|]. apply Hf, Hi. Qed.

Lemma attrCache_Put_safe s p a : safe s (attrCache_Put p a) (fun _ _ => True).
Proof.
  unfold attrCache_Put. apply safe_bind, time_Now_safe. intros now s1 _ _.
  apply (attrCache_upd_safe s1 (fun c => AttrCache_Put c p a now)).
  intros c Hc. by apply (ac_unit_inv c (OpPut p a now)).
Qed.

Lemma attrCache_PutNegative_safe s p : safe s (attrCache_PutNegative p) (fun _ _ => True).
Proof.
  unfold attrCache_PutNegative. apply safe_bind, time_Now_safe. intros now s1 _ _.
  apply (attrCache_upd_safe s1 (fun c => PutNegative c p now)).
  intros c Hc. by apply (ac_unit_inv c (OpPutNegative p now)).
Qed.

Lemma attrCache_Invalidate_safe s p : safe s (attrCache_Invalidate p) (fun _ _ => True).
Proof.
  apply (attrCache_upd_safe s (fun c => AttrCache_Invalidate c p)).
  intros c Hc. by apply (ac_unit_inv c (OpInvalidate p)).
Qed.

Lemma attrCache_InvalidateNegativeInDir_safe s p :
  safe s (attrCache_InvalidateNegativeInDir p) (fun _ _ => True).
Proof.
  apply (attrCache_upd_safe s (fun c => InvalidateNegativeInDir c p)).
  intros c Hc. by apply (ac_unit_inv c (OpInvalidateNegativeInDir p)).
Qed.

Lemma dirCache_upd_safe s f :
  (forall c, dc_inv c -> dc_inv (f c)) ->
  safe s (modify (fun s => upd_dirCache (f <$> s_dirCache s) s)) (fun _ _ => True).
Proof.
  intros Hf. apply safe_modify; [|done|done]. intros Hi. apply inv_upd_dirCache; [done|].
  intros x Hx. apply fmap_Some in Hx as (c & Hc & ->). by apply Hf, (si_dir _ Hi).
Qed.

Lemma dirCache_Invalidate_safe s p : safe s (dirCache_Invalidate p) (fun _ _ => True).
Proof. apply (dirCache_upd_safe s (fun c => DirCache_Invalidate c p)). intros c. apply dc_remove_inv. Qed.

Lemma dirCache_Put_safe s p es : safe s (dirCache_Put p es) (fun _ _ => True).
Proof.
  unfold dirCache_Put. apply safe_bind, time_Now_safe. intros now s1 _ _.
  apply (dirCache_upd_safe s1 (fun c => DirCache_Put c p es now)). intros c Hc. by apply dc_put_refines.
Qed.

Lemma dirCache_Get_safe s p : safe s (dirCache_Get p) (fun _ _ => True).
Proof.
  unfold dirCache_Get. apply safe_bind, time_Now_safe. intros now s1 _ _.
  apply safe_bind, time_Now_safe. intros now' s2 _ _.
  apply safe_bind, safe_gets. intros _. apply safe_inv. intros Hi.
  destruct (s_dirCache s2) as [c|] eqn:Ec; [|by apply safe_ret].
  pose proof (dc_get_refines c p now now' (si_dir _ Hi c Ec)) as [Hc _].
  destruct (DirCache_Get c p now now') as [[es ok] c'].
  apply safe_bind, safe_modify; [|done|intros _; by apply safe_ret].
  intros _. apply inv_upd_dirCache; [done|]. by intros x [= <-].
Qed.

Lemma rate_limited_safe s ip op : safe s (rate_limited ip op) (fun _ _ => True).
Proof.
  unfold rate_limited. apply safe_bind, safe_gets. intros _. apply safe_bind, safe_gets. intros _.
  destruct (s_rateLimiter s) as [rl|]; [|by apply safe_ret].
  destruct (EnableRateLimiting (s_policy s)); [|by apply safe_ret].
  apply safe_bind, safe_gets. intros _.
  destruct (AllowOperation ip op clock (s_tick s) rl) as [[ok t'] rl'].
  apply safe_bind, safe_modify; [apply inv_upd_limiter|done|]. intros _.
  destruct ok; [by apply safe_ret|].
  apply safe_bind. eapply safe_mono; [apply record_safe|]. intros _ s3 _ _. by apply safe_ret.
Qed.

Lemma read_only_safe s : safe s read_only (fun b s' => b = ReadOnly pol /\ s' = s).
Proof. intros Hi. do 2 eexists. split; [done|]. split; [done|]. split; [done|]. by rewrite (si_policy _ Hi). Qed.

(** *** Filesystem calls: those that only inspect, and, when the export is
    writable, the others *)

Lemma fs_keep_safe {A} s (op : F -> A * F) :
  (P (s_fs s) -> P (op (s_fs s)).2) -> safe s (fs_call op) (fun _ _ => True).
Proof. intros Hop. by apply fs_call_safe. Qed.

Lemma fs_open_safe s (op : F -> result FD * F) w :
  (P (s_fs s) -> P (op (s_fs s)).2 /\ forall fd, (op (s_fs s)).1 = Ok fd -> fd_ok w fd) ->
  safe s (fs_call op) (fun r _ => match r with Ok fd => fd_ok w fd | Err _ => True end).
Proof.
  intros Hop. apply fs_call_safe; [apply Hop|]. intros HPs s' _.
  destruct (op (s_fs s)).1 as [fd|e] eqn:E; [|done]. by apply Hop.
Qed.

Lemma Stat_safe s p : rooted p -> safe s (fs_call (fs_Stat p)) (fun _ _ => True).
Proof. intros Hp. by apply fs_keep_safe, inv_stat. Qed.
Lemma Lstat_safe s p : rooted p -> safe s (fs_call (fs_Lstat p)) (fun _ _ => True).
Proof. intros Hp. by apply fs_keep_safe, inv_lstat. Qed.
Lemma fs_Readlink_safe s p : rooted p -> safe s (fs_call (fs_Readlink p)) (fun _ _ => True).
Proof. intros Hp. by apply fs_keep_safe, inv_readlink. Qed.
Lemma open_rdonly_safe s p perm :
  rooted p ->
  safe s (fs_call (fs_OpenFile p os_O_RDONLY perm))
    (fun r _ => match r with Ok fd => fd_ok false fd | Err _ => True end).
Proof. intros Hp. by apply fs_open_safe, inv_open. Qed.
Lemma f_Stat_safe s w fd : fd_ok w fd -> safe s (fs_call (f_Stat fd)) (fun _ _ => True).
Proof. intros Hr. by eapply fs_keep_safe, inv_fstat. Qed.
Lemma f_ReadAt_safe s w fd n off : fd_ok w fd -> safe s (fs_call (f_ReadAt fd n off)) (fun _ _ => True).
Proof. intros Hr. by eapply fs_keep_safe, inv_readat. Qed.
Lemma f_Readdir_safe s w fd n : fd_ok w fd -> safe s (fs_call (f_Readdir fd n)) (fun _ _ => True).
Proof. intros Hr. by eapply fs_keep_safe, inv_readdir. Qed.
Lemma f_Close_safe s w fd : fd_ok w fd -> safe s (fs_call (f_Close fd)) (fun _ _ => True).
Proof. intros Hr. by eapply fs_keep_safe, inv_close. Qed.

Section Writable.
Context (Hrw : ReadOnly pol = false).

#[local] Lemma is_writable : writable_by pol = true.
Proof. unfold writable_by. by rewrite Hrw. Qed.
#[local] Hint Resolve is_writable : core.

Lemma open_write_safe s p perm :
  rooted p ->
  safe s (fs_call (fs_OpenFile p os_O_WRONLY perm))
    (fun r _ => match r with Ok fd => fd_ok true fd | Err _ => True end).
Proof. intros Hp. by apply fs_open_safe, inv_open_write. Qed.
Lemma fs_Create_safe s p :
  rooted p ->
  safe s (fs_call (fs_Create p)) (fun r _ => match r with Ok fd => fd_ok true fd | Err _ => True end).
Proof. intros Hp. by apply fs_open_safe, inv_create. Qed.
Lemma f_WriteAt_safe s fd b off : fd_ok true fd -> safe s (fs_call (f_WriteAt fd b off)) (fun _ _ => True).
Proof. intros Hw. by apply fs_keep_safe, inv_writeat. Qed.
Lemma fs_Mkdir_safe s p m : rooted p -> safe s (fs_call (fs_Mkdir p m)) (fun _ _ => True).
Proof. intros Hp. by apply fs_keep_safe, inv_mkdir. Qed.
Lemma fs_Remove_safe s p : rooted p -> safe s (fs_call (fs_Remove p)) (fun _ _ => True).
Proof. intros Hp. by apply fs_keep_safe, inv_remove. Qed.
Lemma fs_Rename_safe s p q : rooted p -> rooted q -> safe s (fs_call (fs_Rename p q)) (fun _ _ => True).
Proof. intros Hp Hq. by apply fs_keep_safe, inv_rename. Qed.
Lemma fs_Symlink_safe s t p : inner_target t -> rooted p -> safe s (fs_call (fs_Symlink t p)) (fun _ _ => True).
Proof. intros Ht Hp. by apply fs_keep_safe, inv_symlink. Qed.
Lemma fs_Truncate_safe s p n : rooted p -> safe s (fs_call (fs_Truncate p n)) (fun _ _ => True).
Proof. intros Hp. by apply fs_keep_safe, inv_truncate. Qed.
Lemma fs_Chmod_safe s p m : rooted p -> safe s (fs_call (fs_Chmod p m)) (fun _ _ => True).
Proof. intros Hp. by apply fs_keep_safe, inv_chmod. Qed.
Lemma fs_Chown_safe s p u g : rooted p -> safe s (fs_call (fs_Chown p u g)) (fun _ _ => True).
Proof. intros Hp. by apply fs_keep_safe, inv_chown. Qed.
Lemma fs_Lchown_safe s p u g : rooted p -> safe s (fs_call (fs_Lchown p u g)) (fun _ _ => True).
Proof. intros Hp. by apply fs_keep_safe, inv_lchown. Qed.
Lemma fs_Chtimes_safe s p a m : rooted p -> safe s (fs_call (fs_Chtimes p a m)) (fun _ _ => True).
Proof. intros Hp. by apply fs_keep_safe, inv_chtimes. Qed.

End Writable.

Lemma node_rooted (s : Srv) n : node_ok s n -> rooted (path n).
Proof. by intros [_ Hp]. Qed.

Lemma Now_safe s : safe s time_Now (fun _ _ => True).
Proof. by apply time_Now_safe. Qed.
Lemma choice_safe s : safe s select_choice (fun _ _ => True).
Proof. by apply select_choice_safe. Qed.

Lemma tuning_safe {A} s (f : TuningOptions -> A) :
  safe s (gets (fun s => f (s_tuning s))) (fun a s' => a = f tun /\ s' = s).
Proof. intros Hi. do 2 eexists. split; [done|]. split; [done|]. split; [done|]. by rewrite (si_tuning _ Hi). Qed.

Lemma Forall_node_ok_le s s' l : nodes_le s s' -> Forall (node_ok s) l -> Forall (node_ok s') l.
Proof. intros Hle Hl. eapply Forall_impl; [done|]. intros n. by apply node_ok_le. Qed.

End Safety.

Create HintDb safe_db.
#[export] Hint Resolve Stat_safe Lstat_safe fs_Readlink_safe open_rdonly_safe f_Stat_safe f_ReadAt_safe
  f_Readdir_safe f_Close_safe Now_safe choice_safe record_safe read_to_safe timeout_of_safe new_node_safe
  node_attrs_safe deref_attrs_safe set_attrs_safe allocate_safe lookupNode_safe attrCache_Get_safe
  attrCache_Put_safe attrCache_PutNegative_safe attrCache_Invalidate_safe
  attrCache_InvalidateNegativeInDir_safe dirCache_Invalidate_safe dirCache_Put_safe dirCache_Get_safe
  rate_limited_safe read_only_safe : safe_db.
#[export] Hint Resolve open_write_safe fs_Create_safe f_WriteAt_safe fs_Mkdir_safe fs_Remove_safe fs_Rename_safe
  fs_Symlink_safe fs_Truncate_safe fs_Chmod_safe fs_Chown_safe fs_Lchown_safe fs_Chtimes_safe
  node_rooted : safe_db.
#[export] Hint Resolve tuning_safe | 20 : safe_db.
#[export] Hint Resolve inner_target_of : safe_db.

(** Move the facts about nodes to the current state. *)
Ltac carry :=
  repeat match goal with
  | Hle : nodes_le ?s ?s', K : node_ok ?s ?n |- _ => apply (node_ok_le s s' n Hle) in K
  | Hle : nodes_le ?s ?s', K : Forall (node_ok ?s) ?l |- _ => apply (Forall_node_ok_le s s' l Hle) in K
  end;
  repeat match goal with Hle : nodes_le _ _ |- _ => clear Hle end.

(** Split and simplify what a lemma says of a result. *)
Ltac use_post :=
  cbv beta iota in *;
  repeat match goal with
  | K : True |- _ => clear K
  | K : _ /\ _ |- _ => destruct K
  | K : exists _, _ |- _ => destruct K
  end; subst.

(** One step of a proof of [safe] along the code. *)
Ltac safe_step :=
  lazymatch goal with
  | |- safe _ _ _ _ (mret _) _ => apply safe_ret
  | |- safe _ _ _ _ (mbind _ _) _ => apply safe_bind
  | |- safe _ _ _ _ (if ?b then _ else _) _ => destruct b eqn:?
  | |- safe _ _ _ _ (match ?x with _ => _ end) _ =>
      first [is_var x; destruct x | destruct x eqn:?]
  | |- nodes_le _ _ -> _ => let Hle := fresh "Hle" in intros Hle; carry; use_post
  | |- safe _ _ _ _ _ _ =>
      eapply safe_mono; [solve [eauto with safe_db]|intros ? ? ?; carry; use_post]
  end.

Ltac safe_go := repeat (safe_step; use_post).
