(* ===== verification/OpsSafe.v ===== *)
(** * Safety of the operation layer

    Every operation of Operations.v, from a server state in the invariant,
    returns without a panic and keeps the invariant; on a read-only export it
    leaves the tree of files as it was. *)

From S2P Require Import Prelude Errors Xdr Attributes Rpc MinHeap FileHandle Lru AttrCache Path.
From S2P Require Import Options Filesystem DirCache Server Operations Safety.
Open Scope Z_scope.

Section OpsSafe.
Context {F FD RL : Type} `{SymlinkFileSystem F FD} `{OpLimiter RL} `{Env}.
Context (pol : PolicyOptions) (tun : TuningOptions) (P : F -> Prop).
Context {HP : FSInv F FD rooted (writable_by pol) P}.
#[local] Abbreviation safe := (safe pol tun P).
#[local] Abbreviation Srv := (Srv F RL).

Lemma timed_out_safe (s : Srv) op sel : safe s (timed_out op sel) (fun _ _ => True).
Proof. unfold timed_out, with_timeout, ctx_done. safe_go; done. Qed.
#[local] Hint Resolve timed_out_safe : safe_db.

Lemma refresh_safe (s : Srv) a : safe s (refresh a) (fun _ _ => True).
Proof. unfold refresh. safe_go; done. Qed.
#[local] Hint Resolve refresh_safe : safe_db.

Lemma refresh_size_safe (s : Srv) n info : node_ok s n -> safe s (refresh_size n info) (fun _ _ => True).
Proof. intros Hn. unfold refresh_size. safe_go; done. Qed.
#[local] Hint Resolve refresh_size_safe : safe_db.

Lemma Lookup_safe (s : Srv) p :
  rooted p ->
  safe s (Lookup p) (fun r s' => match r with Ok n => node_ok s' n /\ path n = p | Err _ => True end).
Proof. intros Hp. unfold Lookup. safe_go; try done. Qed.
#[local] Hint Resolve Lookup_safe : safe_db.

Lemma GetAttr_safe (s : Srv) n : node_ok s n -> safe s (GetAttr n) (fun _ _ => True).
Proof. intros Hn. unfold GetAttr. safe_go; done. Qed.
#[local] Hint Resolve GetAttr_safe : safe_db.

Lemma guarded_safe (s : Srv) b call msg :
  (forall s' : Srv, safe s' (fs_call call) (fun _ _ => True)) -> safe s (guarded b call msg) (fun _ _ => True).
Proof. intros Hc. unfold guarded. safe_go; done. Qed.
#[local] Hint Resolve guarded_safe : safe_db.

Lemma SetAttr_safe (s : Srv) n a :
  ReadOnly pol = false -> node_ok s n -> safe s (SetAttr n a) (fun _ _ => True).
Proof. intros Hro Hn. unfold SetAttr. safe_go; done. Qed.

Lemma node_Truncate_safe (s : Srv) n size :
  ReadOnly pol = false -> node_ok s n -> safe s (node_Truncate n size) (fun _ _ => True).
Proof. intros Hro Hn. unfold node_Truncate. safe_go; done. Qed.

Lemma Read_safe (s : Srv) n off cnt :
  node_ok s n -> safe s (Read n off cnt) (fun _ _ => True).
Proof.
  intros Hn. apply safe_inv. intros [_ _ [Hts _] _ _ _ _ _ _]. unfold Read. safe_go; try done.
  exfalso. repeat case_match; lia.
Qed.
#[local] Hint Resolve Read_safe : safe_db.

Lemma Write_safe (s : Srv) n off data :
  node_ok s n -> safe s (Write n off data) (fun _ _ => True).
Proof.
  intros Hn. apply safe_inv. intros [_ _ [Hts _] _ _ _ _ _ _]. unfold Write. safe_go; try done.
  exfalso. lia.
Qed.
#[local] Hint Resolve Write_safe : safe_db.

Lemma invalidate_created_safe (s : Srv) d p : safe s (invalidate_created d p) (fun _ _ => True).
Proof. unfold invalidate_created. safe_go; done. Qed.
#[local] Hint Resolve invalidate_created_safe : safe_db.

(** What [sanitizePath] returns for an absolute directory is absolute. *)
Lemma sanitizePath_rooted base name p :
  rooted base -> sanitizePath base name = Ok p -> rooted p.
Proof.
  intros Hb E. unfold sanitizePath in E.
  repeat case_match; try done. injection E as <-.
  apply path_Clean_rooted. unfold path_Join. destruct base; [done|]. destruct name; [done|].
  by apply path_Clean_rooted, str_prefix_slash_app.
Qed.

Lemma sanitize_node (s : Srv) d name p :
  node_ok s d -> sanitizePath (path d) name = Ok p -> rooted p.
Proof. intros [_ Hp]. by apply sanitizePath_rooted. Qed.
#[local] Hint Resolve sanitize_node : safe_db.

Lemma Create_safe (s : Srv) d name a :
  node_ok s d ->
  safe s (Create d name a) (fun r s' => match r with Ok n => node_ok s' n | Err _ => True end).
Proof. intros Hd. unfold Create. safe_go; try done. case_match; by use_post. Qed.

Lemma Remove_safe (s : Srv) d name : node_ok s d -> safe s (Remove d name) (fun _ _ => True).
Proof. intros Hd. unfold Remove. safe_go; try done. Qed.

Lemma Rename_safe (s : Srv) d name d' name' :
  node_ok s d -> node_ok s d' -> safe s (Rename d name d' name') (fun _ _ => True).
Proof. intros Hd Hd'. unfold Rename. safe_go; try done. Qed.

Lemma entries_to_nodes_safe (s : Srv) d es :
  rooted d ->
  safe s (entries_to_nodes d es) (fun ns s' => Forall (node_ok s') ns).
Proof.
  intros Hd. revert s. induction es as [|e es IH]; intros s; cbn [entries_to_nodes].
  - apply safe_ret. constructor.
  - safe_step; [apply IH|]. safe_step; [|apply IH].
    apply safe_bind. eapply safe_mono; [apply Lookup_safe; by eapply sanitizePath_rooted|].
    intros [n|err] s1 Hr Hle; [|apply IH]. destruct Hr as [Hn _].
    apply safe_bind. eapply safe_mono; [apply IH|]. intros ns s2 Hns Hle2. apply safe_ret.
    constructor; [by eapply node_ok_le|done].
Qed.

Lemma ReadDir_safe (s : Srv) d :
  node_ok s d ->
  safe s (ReadDir d) (fun r s' => match r with Ok ns => Forall (node_ok s') ns | Err _ => True end).
Proof.
  intros Hd. assert (rooted (path d)) as Hp by apply Hd.
  pose proof entries_to_nodes_safe as He. unfold ReadDir. safe_go; try done.
Qed.

Lemma precache_attrs_safe (s : Srv) n : node_ok s n -> safe s (precache_attrs n) (fun _ _ => True).
Proof. intros Hn. unfold precache_attrs. safe_go; done. Qed.

Lemma precache_all_safe (s : Srv) ns : Forall (node_ok s) ns -> safe s (precache_all ns) (fun _ _ => True).
Proof.
  revert s. induction ns as [|n ns IH]; intros s Hns; cbn [precache_all]; [by apply safe_ret|].
  apply Forall_cons in Hns as [Hn Hns].
  apply safe_bind. eapply safe_mono; [by apply precache_attrs_safe|]. intros _ s1 _ Hle.
  apply IH. by eapply Forall_node_ok_le.
Qed.

Lemma ReadDirPlus_safe (s : Srv) d :
  node_ok s d ->
  safe s (ReadDirPlus d) (fun r s' => match r with Ok ns => Forall (node_ok s') ns | Err _ => True end).
Proof.
  intros Hd. unfold ReadDirPlus. apply safe_bind. eapply safe_mono; [by apply ReadDir_safe|].
  intros [ns|err] s1 Hns Hle; [|by apply safe_ret].
  apply safe_bind. eapply safe_mono; [by apply precache_all_safe|]. intros _ s2 _ Hle2.
  apply safe_ret. by eapply Forall_node_ok_le.
Qed.

Lemma Symlink_safe (s : Srv) d name target a :
  inner_target target -> node_ok s d ->
  safe s (Symlink d name target a) (fun r s' => match r with Ok n => node_ok s' n | Err _ => True end).
Proof. intros Ht Hd. unfold Symlink. safe_go; try done. case_match; by use_post. Qed.

Lemma Readlink_safe (s : Srv) n : node_ok s n -> safe s (Readlink n) (fun _ _ => True).
Proof. intros Hn. unfold Readlink. safe_go; done. Qed.

End OpsSafe.

#[export] Hint Resolve timed_out_safe refresh_safe refresh_size_safe Lookup_safe GetAttr_safe SetAttr_safe
  node_Truncate_safe Read_safe Write_safe invalidate_created_safe Create_safe Remove_safe Rename_safe
  ReadDir_safe ReadDirPlus_safe Symlink_safe Readlink_safe sanitize_node : safe_db.
