(* ===== verification/Procs.v ===== *)
(** * NFSv3 procedures: attributes, look-up, data transfer
    (src/nfs_handlers.go, src/nfs_proc_handlers.go, src/nfs_proc_lookup.go,
    src/nfs_proc_attr.go, src/nfs_proc_readwrite.go)

    Each handler takes the bytes of the arguments, the reply to fill in and
    the authentication context, and returns the reply; an encoder writes to a
    memory buffer and cannot fail, so the branches for encoding errors are
    gone. *)

From S2P Require Import Prelude Errors Xdr Attributes Rpc MinHeap FileHandle Lru AttrCache Path.
From S2P Require Import Options NetIP Auth Filesystem DirCache Server Operations.
Open Scope Z_scope.

(** ** Error replies (src/nfs_handlers.go) *)

Definition nfsErrorReply (reply : RPCReply) (status : Z) : RPCReply :=
  set_Data reply (DataBytes (xdrEncodeUint32 status)).

Definition nfsErrorWithPostOp (reply : RPCReply) (status : Z) : RPCReply :=
  set_Data reply (DataBytes (xdrEncodeUint32 status ++ xdrEncodeUint32 0)).

Definition nfsErrorWithWcc (reply : RPCReply) (status : Z) : RPCReply :=
  set_Data reply (DataBytes (xdrEncodeUint32 status ++ xdrEncodeUint32 0 ++ xdrEncodeUint32 0)).

Definition nfsErrorWithPostOpAndWcc (reply : RPCReply) (status : Z) : RPCReply :=
  set_Data reply (DataBytes (xdrEncodeUint32 status ++ xdrEncodeUint32 0 ++ xdrEncodeUint32 0 ++
    xdrEncodeUint32 0)).

Definition nfsErrorWithDoubleWcc (reply : RPCReply) (status : Z) : RPCReply :=
  set_Data reply (DataBytes (xdrEncodeUint32 status ++ xdrEncodeUint32 0 ++ xdrEncodeUint32 0 ++
    xdrEncodeUint32 0 ++ xdrEncodeUint32 0)).

Definition with_data (reply : RPCReply) (b : list byte) : RPCReply := set_Data reply (DataBytes b).

(** ** sattr3 (src/nfs_proc_handlers.go) *)

Record sattr3 := mkSattr3 {
  SetMode : bool; sa_Mode : Z;
  SetUID : bool; sa_UID : Z;
  SetGID : bool; sa_GID : Z;
  SetSize : bool; sa_Size : Z;
  sa_SetAtime : Z; AtimeSec : Z; AtimeNsec : Z;
  sa_SetMtime : Z; MtimeSec : Z; MtimeNsec : Z
}.

(** A flag followed, when it is set, by a value. *)
Definition decode_optional (val : Dec Z) : Dec (bool * Z) :=
  flag ← xdrDecodeUint32;
  if negb (flag =? 0) then v ← val; mret (true, v) else mret (false, 0).

(** A [set_atime]/[set_mtime] union: the times follow for
    SET_TO_CLIENT_TIME only. *)
Definition decode_set_time : Dec (Z * Z * Z) :=
  how ← xdrDecodeUint32;
  if how =? 2 then sec ← xdrDecodeUint32; nsec ← xdrDecodeUint32; mret (how, sec, nsec)
  else mret (how, 0, 0).

Definition decodeSattr3 : Dec sattr3 :=
  '(setMode, mode) ← decode_optional xdrDecodeUint32;
  '(setUID, uid) ← decode_optional xdrDecodeUint32;
  '(setGID, gid) ← decode_optional xdrDecodeUint32;
  '(setSize, size) ← decode_optional binary_ReadUint64;
  '(setAtime, asec, ansec) ← decode_set_time;
  '(setMtime, msec, mnsec) ← decode_set_time;
  mret (mkSattr3 setMode mode setUID uid setGID gid setSize size setAtime asec ansec setMtime msec mnsec).

(** ** ACCESS bits (src/nfs_types.go) *)

Definition ACCESS3_READ := 1.
Definition ACCESS3_LOOKUP := 2.
Definition ACCESS3_MODIFY := 4.
Definition ACCESS3_EXTEND := 8.
Definition ACCESS3_DELETE := 16.
Definition ACCESS3_EXECUTE := 32.

(** The permission bits that apply to the caller. *)
Definition perm_bits (attrs : NFSAttrs) (ctx : AuthContext) : Z :=
  let fileMode := Mode attrs in
  let bits :=
    if EffectiveUID ctx =? Uid attrs then Z.land (Z.shiftr fileMode 6) 7
    else if EffectiveGID ctx =? Gid attrs then Z.land (Z.shiftr fileMode 3) 7
    else
      let isGroupMember :=
        match AuthSys ctx with
        | Some a => existsb (fun g => g =? Gid attrs) (AuxGIDs a)
        | None => false
        end in
      if isGroupMember then Z.land (Z.shiftr fileMode 3) 7 else Z.land fileMode 7 in
  if EffectiveUID ctx =? 0 then 7 else bits.

(** [if access&bit != 0 && cond { accessAllowed |= bit }] *)
Definition grant (access bit : Z) (cond : bool) (allowed : Z) : Z :=
  if has_bits access bit && cond then Z.lor allowed bit else allowed.

Definition accessAllowed (access : Z) (attrs : NFSAttrs) (ctx : AuthContext) (readOnly : bool) : Z :=
  let isDir := has_bits (Mode attrs) os_ModeDir in
  let permBits := perm_bits attrs ctx in
  let r := has_bits permBits 4 in
  let w := has_bits permBits 2 in
  let x := has_bits permBits 1 in
  let a := grant access ACCESS3_READ r 0 in
  let a := grant access ACCESS3_LOOKUP (isDir && x) a in
  let a := grant access ACCESS3_EXECUTE x a in
  if readOnly then a
  else
    let a := grant access ACCESS3_MODIFY w a in
    let a := grant access ACCESS3_EXTEND w a in
    grant access ACCESS3_DELETE (isDir && w) a.

Section Procs.
Context {F FD RL : Type} `{SymlinkFileSystem F FD} `{OpLimiter RL} `{Env}.
#[local] Abbreviation M := (M F RL).

(** [node, ok := h.lookupNode(handle); if !ok { return stale }] *)
Definition with_node (handle : Z) (stale : RPCReply) (k : NFSNode -> M RPCReply) : M RPCReply :=
  r ← lookupNode handle;
  match r with Some node => k node | None => mret stale end.

(** Handle decoding and look-up in one; on failure the reply is set and there
    is no node. *)
Definition decodeAndLookupHandle (body : list byte) (reply : RPCReply) : M (option (NFSNode * Z) * RPCReply) :=
  let? (handleVal, r1) := xdrDecodeFileHandle @ body
    else mret (None, nfsErrorReply reply GARBAGE_ARGS) in
  r ← lookupNode handleVal;
  match r with
  | Some node => mret (Some (node, handleVal), reply)
  | None => mret (None, nfsErrorReply reply NFSERR_STALE)
  end.

(** [isDir := node.attrs.Mode&os.ModeDir != 0], under the node's lock *)
Definition node_mode_has (node : NFSNode) (mask : Z) : M bool :=
  a ← deref_attrs node; mret (has_bits (Mode a) mask).

(** *** NULL, FSSTAT, FSINFO, PATHCONF (src/nfs_proc_handlers.go) *)

Definition handleNull (body : list byte) (reply : RPCReply) (authCtx : AuthContext) : M RPCReply :=
  mret reply.

(** The common shape of the three information procedures: a handle in, the
    attributes and constants out. *)
Definition info_reply (tail : list byte) (body : list byte) (reply : RPCReply) : M RPCReply :=
  let? (handleVal, rest) := xdrDecodeFileHandle @ body
    else mret (nfsErrorWithPostOp reply GARBAGE_ARGS) in
  with_node handleVal (nfsErrorWithPostOp reply NFSERR_STALE) (fun node =>
    let* attrs := GetAttr node else err => mret (nfsErrorWithPostOp reply (mapError err)) in
    mret (with_data reply (xdrEncodeUint32 NFS_OK ++ xdrEncodeUint32 1 ++
      encodeFileAttributes attrs ++ tail))).

Definition handleFsstat (body : list byte) (reply : RPCReply) (authCtx : AuthContext) : M RPCReply :=
  info_reply
    (xdrEncodeUint64 (1024 * 1024 * 1024 * 10) ++ xdrEncodeUint64 (1024 * 1024 * 1024 * 5) ++
     xdrEncodeUint64 (1024 * 1024 * 1024 * 5) ++ xdrEncodeUint64 1000000 ++
     xdrEncodeUint64 900000 ++ xdrEncodeUint64 900000 ++ xdrEncodeUint32 1) body reply.

Definition handleFsinfo (body : list byte) (reply : RPCReply) (authCtx : AuthContext) : M RPCReply :=
  info_reply
    (xdrEncodeUint32 1048576 ++ xdrEncodeUint32 65536 ++ xdrEncodeUint32 4096 ++
     xdrEncodeUint32 1048576 ++ xdrEncodeUint32 65536 ++ xdrEncodeUint32 4096 ++
     xdrEncodeUint32 8192 ++ xdrEncodeUint64 1099511627776 ++
     xdrEncodeUint32 0 ++ xdrEncodeUint32 1000000 ++
     xdrEncodeUint32 (Z.lor 2 (Z.lor 8 16))) body reply.

Definition handlePathconf (body : list byte) (reply : RPCReply) (authCtx : AuthContext) : M RPCReply :=
  info_reply
    (xdrEncodeUint32 1024 ++ xdrEncodeUint32 255 ++ xdrEncodeUint32 1 ++ xdrEncodeUint32 1 ++
     xdrEncodeUint32 0 ++ xdrEncodeUint32 1) body reply.

(** *** LOOKUP, READLINK (src/nfs_proc_lookup.go) *)

(** The reply to a failed LOOKUP: the status and the directory's attributes. *)
Definition lookup_failed (node : NFSNode) (reply : RPCReply) (status : Z) : M RPCReply :=
  a ← node_attrs node;
  match a with
  | None => mret (nfsErrorWithPostOp reply NFSERR_IO)
  | Some a => mret (with_data reply (xdrEncodeUint32 status ++ xdrEncodeUint32 1 ++ encodeFileAttributes a))
  end.

Definition handleLookup (body : list byte) (reply : RPCReply) (authCtx : AuthContext) : M RPCReply :=
  let? (handleVal, r1) := xdrDecodeFileHandle @ body
    else mret (nfsErrorWithPostOp reply GARBAGE_ARGS) in
  let? (name, r2) := xdrDecodeString @ r1
    else mret (nfsErrorWithPostOp reply GARBAGE_ARGS) in
  if negb (validateFilename windows name =? NFS_OK)
  then mret (nfsErrorWithPostOp reply NFSERR_ACCES)
  else with_node handleVal (nfsErrorWithPostOp reply NFSERR_STALE) (fun node =>
    isDir ← node_mode_has node os_ModeDir;
    if negb isDir then lookup_failed node reply NFSERR_NOTDIR
    else
      let lookupPath := path_Join (path node) name in
      r ← Lookup lookupPath;
      match r with
      | Err err => lookup_failed node reply (mapError err)
      | Ok found =>
          handle ← allocate found;
          fa ← deref_attrs found;
          da ← deref_attrs node;
          mret (with_data reply (xdrEncodeUint32 NFS_OK ++ xdrEncodeFileHandle handle ++
            xdrEncodeUint32 1 ++ encodeFileAttributes fa ++
            xdrEncodeUint32 1 ++ encodeFileAttributes da))
      end).

Definition handleReadlink (body : list byte) (reply : RPCReply) (authCtx : AuthContext) : M RPCReply :=
  let? (handleVal, r1) := xdrDecodeFileHandle @ body
    else mret (nfsErrorWithPostOp reply GARBAGE_ARGS) in
  with_node handleVal (nfsErrorWithPostOp reply NFSERR_STALE) (fun node =>
    isSymlink ← node_mode_has node os_ModeSymlink;
    if negb isSymlink then mret (nfsErrorWithPostOp reply NFSERR_INVAL)
    else
      let* target := Readlink node else err => mret (nfsErrorWithPostOp reply (mapError err)) in
      let* attrs := GetAttr node else err => mret (nfsErrorWithPostOp reply (mapError err)) in
      mret (with_data reply (xdrEncodeUint32 NFS_OK ++ xdrEncodeUint32 1 ++
        encodeFileAttributes attrs ++ xdrEncodeString target))).

(** *** GETATTR, SETATTR, ACCESS (src/nfs_proc_attr.go) *)

Definition handleGetattr (body : list byte) (reply : RPCReply) (authCtx : AuthContext) : M RPCReply :=
  let? (handleVal, r1) := xdrDecodeFileHandle @ body
    else mret (nfsErrorReply reply GARBAGE_ARGS) in
  with_node handleVal (nfsErrorReply reply NFSERR_STALE) (fun node =>
    let* attrs := GetAttr node else err => mret (nfsErrorReply reply (mapError err)) in
    mret (with_data reply (xdrEncodeUint32 NFS_OK ++ encodeFileAttributes attrs))).

(** The guard of SETATTR: the check flag and, when set, a time. *)
Definition decode_guard : Dec (Z * Z * Z) :=
  check ← xdrDecodeUint32;
  if negb (check =? 0) then sec ← xdrDecodeUint32; nsec ← xdrDecodeUint32; mret (check, sec, nsec)
  else mret (check, 0, 0).

(** The truncation part of SETATTR. *)
Definition setattr_size (node : NFSNode) (sattr : sattr3) (reply : RPCReply) (k : M RPCReply)
    : M RPCReply :=
  if SetSize sattr then
    if 2 ^ 63 - 1 <? sa_Size sattr then mret (nfsErrorWithWcc reply NFSERR_INVAL)
    else
      let* _ := node_Truncate node (sa_Size sattr)
        else err => mret (nfsErrorWithWcc reply (mapError err)) in
      attrCache_Invalidate (path node) ;;
      st ← fs_call (fs_Stat (path node));
      (match st with Ok info => refresh_size node info | Err _ => mret tt end) ;;
      k
  else k.

(** A time field of the new attributes: kept zero, the server's time, or the
    client's. *)
Definition setattr_time (how sec nsec : Z) : M Z :=
  if how =? 1 then time_Now
  else if how =? 2 then mret (time_Unix sec nsec)
  else mret time_zero.

Definition handleSetattr (body : list byte) (reply : RPCReply) (authCtx : AuthContext) : M RPCReply :=
  ro ← read_only;
  if (ro : bool) then mret (nfsErrorWithWcc reply NFSERR_ROFS)
  else
  let? (handleVal, r1) := xdrDecodeFileHandle @ body
    else mret (nfsErrorWithWcc reply GARBAGE_ARGS) in
  let? (sattr, r2) := decodeSattr3 @ r1
    else mret (nfsErrorWithWcc reply GARBAGE_ARGS) in
  let? (guard, r3) := decode_guard @ r2
    else mret (nfsErrorWithWcc reply GARBAGE_ARGS) in
  let '(guardCheck, guardSec, guardNsec) := guard in
  if SetMode sattr && has_bits (sa_Mode sattr) 32768 then mret (nfsErrorWithWcc reply NFSERR_INVAL)
  else with_node handleVal (nfsErrorWithWcc reply NFSERR_STALE) (fun node =>
    let* preAttrs := GetAttr node else err => mret (nfsErrorWithWcc reply (mapError err)) in
    if negb (guardCheck =? 0) &&
       (negb (guardSec =? u32 (time_Unix_sec (mtime preAttrs))) ||
        negb (guardNsec =? u32 (time_Nanosecond (mtime preAttrs))))
    then mret (nfsErrorWithWcc reply NFSERR_NOT_SYNC)
    else
      setattr_size node sattr reply (
        cur ← node_attrs node;
        match cur with
        | None => mret (nfsErrorWithWcc reply NFSERR_IO)
        | Some cur =>
            let root := EffectiveUID authCtx =? 0 in
            let mode := if SetMode sattr then sa_Mode sattr else Mode cur in
            let uid := if SetUID sattr && root then sa_UID sattr else Uid cur in
            let gid := if SetGID sattr && root then sa_GID sattr else Gid cur in
            at_ ← setattr_time (sa_SetAtime sattr) (AtimeSec sattr) (AtimeNsec sattr);
            mt ← setattr_time (sa_SetMtime sattr) (MtimeSec sattr) (MtimeNsec sattr);
            let attrs := mkNFSAttrs mode 0 0 mt at_ uid gid time_zero in
            let* _ := SetAttr node attrs else err => mret (nfsErrorWithWcc reply (mapError err)) in
            let* postAttrs := GetAttr node else err => mret (nfsErrorWithWcc reply (mapError err)) in
            mret (with_data reply (xdrEncodeUint32 NFS_OK ++ encodeWccData preAttrs postAttrs))
        end)).

Definition handleAccess (body : list byte) (reply : RPCReply) (authCtx : AuthContext) : M RPCReply :=
  let? (handleVal, r1) := xdrDecodeFileHandle @ body
    else mret (nfsErrorWithPostOp reply GARBAGE_ARGS) in
  let? (access, r2) := xdrDecodeUint32 @ r1
    else mret (nfsErrorWithPostOp reply GARBAGE_ARGS) in
  with_node handleVal (nfsErrorWithPostOp reply NFSERR_STALE) (fun node =>
    let* attrs := GetAttr node else err => mret (nfsErrorWithPostOp reply (mapError err)) in
    ro ← read_only;
    mret (with_data reply (xdrEncodeUint32 NFS_OK ++ xdrEncodeUint32 1 ++ encodeFileAttributes attrs ++
      xdrEncodeUint32 (accessAllowed access attrs authCtx ro)))).

(** *** READ, WRITE, COMMIT (src/nfs_proc_readwrite.go) *)

Definition MaxUint64 : Z := 2 ^ 64 - 1.

Definition handleRead (body : list byte) (reply : RPCReply) (authCtx : AuthContext) : M RPCReply :=
  let? (handleVal, r1) := xdrDecodeFileHandle @ body
    else mret (nfsErrorWithPostOp reply GARBAGE_ARGS) in
  let? (offset, r2) := binary_ReadUint64 @ r1
    else mret (nfsErrorWithPostOp reply GARBAGE_ARGS) in
  let? (count, r3) := xdrDecodeUint32 @ r2
    else mret (nfsErrorWithPostOp reply GARBAGE_ARGS) in
  if MaxUint64 - count <? offset then mret (nfsErrorWithPostOp reply NFSERR_INVAL)
  else
    limited ← (if 65536 <? count then rate_limited (ClientIP authCtx) OpTypeReadLarge else mret false);
    if (limited : bool) then mret (nfsErrorWithPostOp reply NFSERR_DELAY)
    else with_node handleVal (nfsErrorWithPostOp reply NFSERR_STALE) (fun node =>
      let* data := Read node (i64 offset) count
        else err => mret (nfsErrorWithPostOp reply (mapError err)) in
      let* attrs := GetAttr node else err => mret (nfsErrorWithPostOp reply (mapError err)) in
      let eof := if Size attrs <=? i64 (i64 offset + zlen data) then 1 else 0 in
      mret (with_data reply (xdrEncodeUint32 NFS_OK ++ xdrEncodeUint32 1 ++ encodeFileAttributes attrs ++
        xdrEncodeUint32 (zlen data) ++ xdrEncodeUint32 eof ++
        xdrEncodeUint32 (zlen data) ++ data ++ replicate (Z.to_nat (xdr_pad (zlen data))) x00))).

Definition handleWrite (body : list byte) (reply : RPCReply) (authCtx : AuthContext) : M RPCReply :=
  ro ← read_only;
  if (ro : bool) then mret (nfsErrorWithWcc reply NFSERR_ROFS)
  else
  let? (handleVal, r1) := xdrDecodeFileHandle @ body
    else mret (nfsErrorWithWcc reply GARBAGE_ARGS) in
  let? (offset, r2) := binary_ReadUint64 @ r1 else mret (nfsErrorWithWcc reply GARBAGE_ARGS) in
  let? (count, r3) := xdrDecodeUint32 @ r2 else mret (nfsErrorWithWcc reply GARBAGE_ARGS) in
  let? (stable, r4) := xdrDecodeUint32 @ r3 else mret (nfsErrorWithWcc reply GARBAGE_ARGS) in
  if MaxUint64 - count <? offset then mret (nfsErrorWithWcc reply NFSERR_INVAL)
  else
    limited ← (if 65536 <? count then rate_limited (ClientIP authCtx) OpTypeWriteLarge else mret false);
    if (limited : bool) then mret (nfsErrorWithWcc reply NFSERR_DELAY)
    else
    let? (dataLen, r5) := xdrDecodeUint32 @ r4 else mret (nfsErrorWithWcc reply GARBAGE_ARGS) in
    if negb (dataLen =? count) then mret (nfsErrorWithWcc reply GARBAGE_ARGS)
    else
      ts ← gets (fun s => TransferSize (s_tuning s));
      let maxWriteSize := if u32 ts =? 0 then 1048576 else u32 ts in
      if maxWriteSize <? count then mret (nfsErrorWithWcc reply NFSERR_INVAL)
      else
      let? (data, r6) := io_ReadFull (Z.to_nat count) @ r5
        else mret (nfsErrorWithWcc reply GARBAGE_ARGS) in
      let pad := xdr_pad count in
      (if 0 <? pad then read_to (unread (io_ReadFull (Z.to_nat pad)) r6) else mret tt) ;;
      with_node handleVal (nfsErrorWithWcc reply NFSERR_STALE) (fun node =>
        let* preAttrs := GetAttr node else err => mret (nfsErrorWithWcc reply (mapError err)) in
        '(n, werr) ← Write node (i64 offset) data;
        match werr with
        | Some err =>
            r ← GetAttr node;
            let postAttrs := match r with Ok a => a | Err _ => preAttrs end in
            mret (with_data reply (xdrEncodeUint32 (mapError err) ++ encodeWccData preAttrs postAttrs))
        | None =>
            let* attrs := GetAttr node else err => mret (nfsErrorWithWcc reply (mapError err)) in
            mret (with_data reply (xdrEncodeUint32 NFS_OK ++ encodeWccData preAttrs attrs ++
              xdrEncodeUint32 n ++ xdrEncodeUint32 2 ++ writeVerf))
        end).

Definition handleCommit (body : list byte) (reply : RPCReply) (authCtx : AuthContext) : M RPCReply :=
  ro ← read_only;
  if (ro : bool) then mret (nfsErrorWithWcc reply NFSERR_ROFS)
  else
  let? (handleVal, r1) := xdrDecodeFileHandle @ body
    else mret (nfsErrorWithWcc reply GARBAGE_ARGS) in
  let? (offset, r2) := binary_ReadUint64 @ r1 else mret (nfsErrorWithWcc reply GARBAGE_ARGS) in
  let? (count, r3) := xdrDecodeUint32 @ r2 else mret (nfsErrorWithWcc reply GARBAGE_ARGS) in
  with_node handleVal (nfsErrorWithWcc reply NFSERR_STALE) (fun node =>
    let* attrs := GetAttr node else err => mret (nfsErrorWithWcc reply (mapError err)) in
    mret (with_data reply (xdrEncodeUint32 NFS_OK ++ encodeWccData attrs attrs ++ writeVerf))).

End Procs.
