(* ===== verification/Access.v ===== *)
(** * What ACCESS grants (src/nfs_proc_attr.go handleAccess) *)

From S2P Require Import Prelude Errors Xdr Attributes Rpc Options NetIP Auth Filesystem Server.
From S2P Require Import Procs.
Open Scope Z_scope.

(** ** Specification

    Who the caller is to the file, which of the nine permission bits of the
    mode is theirs, and what ACCESS may grant for it. *)

Inductive class := Owner | Group | Others.
Inductive permission := ReadPermission | WritePermission | ExecutePermission.

(** The groups the caller is in. *)
Definition groups (ctx : AuthContext) : list Z :=
  EffectiveGID ctx :: match AuthSys ctx with Some a => AuxGIDs a | None => [] end.

Definition class_of (attrs : NFSAttrs) (ctx : AuthContext) : class :=
  if decide (EffectiveUID ctx = Uid attrs) then Owner
  else if decide (Gid attrs ∈ groups ctx) then Group
  else Others.

(** The bits of a mode, from others' execution (0) to the owner's reading (8). *)
Definition mode_bit (c : class) (p : permission) : Z :=
  match c, p with
  | Owner, ReadPermission => 8 | Owner, WritePermission => 7 | Owner, ExecutePermission => 6
  | Group, ReadPermission => 5 | Group, WritePermission => 4 | Group, ExecutePermission => 3
  | Others, ReadPermission => 2 | Others, WritePermission => 1 | Others, ExecutePermission => 0
  end.

Definition may (attrs : NFSAttrs) (ctx : AuthContext) (p : permission) : bool :=
  bool_decide (EffectiveUID ctx = 0) || Z.testbit (Mode attrs) (mode_bit (class_of attrs ctx) p).

(** The bits of ACCESS, by number. *)
Definition grantable (attrs : NFSAttrs) (ctx : AuthContext) (readOnly : bool) (bit : Z) : bool :=
  let dir := negb (Z.land (Mode attrs) os_ModeDir =? 0) in
  if bit =? 0 then may attrs ctx ReadPermission                                          (* READ *)
  else if bit =? 1 then dir && may attrs ctx ExecutePermission                           (* LOOKUP *)
  else if bit =? 2 then negb readOnly && may attrs ctx WritePermission                   (* MODIFY *)
  else if bit =? 3 then negb readOnly && may attrs ctx WritePermission                   (* EXTEND *)
  else if bit =? 4 then negb readOnly && dir && may attrs ctx WritePermission            (* DELETE *)
  else if bit =? 5 then may attrs ctx ExecutePermission                                  (* EXECUTE *)
  else false.

(** ** Lemmas *)

(** A bit of a number as a mask. *)
Lemma has_bit p k : 0 <= k -> has_bits p (2 ^ k) = Z.testbit p k.
Proof.
  intros Hk. unfold has_bits.
  assert (Z.land p (2 ^ k) = if Z.testbit p k then 2 ^ k else 0) as ->.
  { apply Z.bits_inj'. intros n Hn. rewrite Z.land_spec, Z.pow2_bits_eqb by done.
    destruct (Z.testbit p k) eqn:Et; rewrite ?Z.pow2_bits_eqb, ?Z.bits_0 by done;
      (destruct (Z.eqb_spec k n) as [->|]; [by rewrite Et|by rewrite andb_false_r]). }
  pose proof (Z.pow_pos_nonneg 2 k ltac:(lia) Hk). destruct (Z.testbit p k); [|done].
  by destruct (Z.eqb_spec (2 ^ k) 0); [lia|].
Qed.

(** A grant of a single bit, bit by bit. *)
Lemma grant_bit access k cond allowed n :
  0 <= k -> 0 <= n ->
  Z.testbit (grant access (2 ^ k) cond allowed) n = Z.testbit allowed n || ((n =? k) && Z.testbit access n && cond).
Proof.
  intros Hk Hn. unfold grant. rewrite has_bit by done. destruct (Z.eqb_spec n k) as [->|Hne].
  - destruct (Z.testbit access k), cond; cbn [andb]; rewrite ?Z.lor_spec, ?Z.pow2_bits_true by done;
      by rewrite ?orb_true_r, ?orb_false_r.
  - cbn [andb]. rewrite orb_false_r. destruct (_ && _); [|done].
    by rewrite Z.lor_spec, Z.pow2_bits_false, orb_false_r by done.
Qed.

(** The bits of the class the code selects are those of the specification. *)
Lemma perm_bits_may attrs ctx p k :
  (p, k) ∈ [(ReadPermission, 2); (WritePermission, 1); (ExecutePermission, 0)] ->
  Z.testbit (perm_bits attrs ctx) k = may attrs ctx p.
Proof.
  intros Hp. assert (mode_bit Owner p = k + 6 /\ mode_bit Group p = k + 3 /\ mode_bit Others p = k /\ 0 <= k < 3)
    as (Ho & Hg & Hx & Hk).
  { rewrite !elem_of_cons, elem_of_nil in Hp. destruct_or! Hp; simplify_eq; repeat split; done || lia. }
  assert (forall m, Z.testbit (Z.land m 7) k = Z.testbit m k) as Hland.
  { intros m. rewrite Z.land_spec. change 7 with (Z.ones 3). rewrite Z.ones_spec_low by lia. apply andb_true_r. }
  unfold perm_bits, may, class_of, groups.
  destruct (Z.eqb_spec (EffectiveUID ctx) 0) as [H0|H0].
  { rewrite bool_decide_true by done. change 7 with (Z.ones 3). by rewrite Z.ones_spec_low by lia. }
  rewrite bool_decide_false by done. cbn [orb].
  destruct (Z.eqb_spec (EffectiveUID ctx) (Uid attrs)) as [Hu|Hu].
  { rewrite decide_True by done. by rewrite Hland, Z.shiftr_spec, Ho by lia. }
  rewrite decide_False by done.
  destruct (Z.eqb_spec (EffectiveGID ctx) (Gid attrs)) as [He|He].
  { rewrite decide_True by (rewrite He; set_solver). by rewrite Hland, Z.shiftr_spec, Hg by lia. }
  destruct (AuthSys ctx) as [a|];
    [|rewrite decide_False by (rewrite list_elem_of_singleton; congruence); by rewrite Hland, Hx].
  destruct (existsb _ _) eqn:Ee.
  - apply existsb_exists in Ee as (g & Hin & ->%Z.eqb_eq). apply list_elem_of_In in Hin.
    rewrite decide_True by set_solver.
    by rewrite Hland, Z.shiftr_spec, Hg by lia.
  - rewrite decide_False; [by rewrite Hland, Hx|]. rewrite elem_of_cons. intros [?|Hin]; [congruence|].
    apply not_true_iff_false in Ee. apply Ee, existsb_exists. exists (Gid attrs).
    split; [by apply list_elem_of_In|apply Z.eqb_refl].
Qed.

(** ** Properties *)

(** C31: ACCESS grants exactly the requested bits that the file's mode allows the
    caller.  Bit by bit, the answer has what was asked for and is due: reading
    and executing by the read and execute bit of the caller's class, looking up
    by the execute bit and only in a directory, modifying and extending by the
    write bit and deleting by it and only in a directory, these three only on a
    writable export; no other bit.  The class is the owner's for the owner, else
    the group's for a caller whose effective or auxiliary groups include the
    file's, else the others'; root may everything. *)
Theorem access_grants_exactly access attrs ctx ro n :
  Z.testbit (accessAllowed access attrs ctx ro) n = Z.testbit access n && grantable attrs ctx ro n.
Proof.
  destruct (Z.ltb_spec n 0) as [Hneg|Hn]; [by rewrite !Z.testbit_neg_r by done|].
  pose proof (perm_bits_may attrs ctx) as Hp. unfold accessAllowed, grantable.
  change ACCESS3_READ with (2 ^ 0). change ACCESS3_LOOKUP with (2 ^ 1).
  change ACCESS3_MODIFY with (2 ^ 2). change ACCESS3_EXTEND with (2 ^ 3).
  change ACCESS3_DELETE with (2 ^ 4). change ACCESS3_EXECUTE with (2 ^ 5).
  change (has_bits (perm_bits attrs ctx) 4) with (has_bits (perm_bits attrs ctx) (2 ^ 2)).
  change (has_bits (perm_bits attrs ctx) 2) with (has_bits (perm_bits attrs ctx) (2 ^ 1)).
  change (has_bits (perm_bits attrs ctx) 1) with (has_bits (perm_bits attrs ctx) (2 ^ 0)).
  rewrite !(has_bit (perm_bits attrs ctx)) by lia.
  rewrite (Hp ReadPermission 2), (Hp WritePermission 1), (Hp ExecutePermission 0) by set_solver.
  fold (has_bits (Mode attrs) os_ModeDir).
  destruct ro; rewrite !grant_bit, Z.bits_0 by lia;
    (destruct (Z.eqb_spec n 0), (Z.eqb_spec n 1), (Z.eqb_spec n 2), (Z.eqb_spec n 3), (Z.eqb_spec n 4), (Z.eqb_spec n 5);
     try lia; destruct (Z.testbit access n); cbn [andb orb negb]; rewrite ?orb_false_r; done).
Qed.
