(* ===== verification/ProcsDir.v ===== *)
(** * NFSv3 procedures on directories, MOUNT, and dispatch
    (src/nfs_proc_create.go, src/nfs_proc_remove.go, src/nfs_proc_dir.go,
    src/mount_handlers.go, src/nfs_operations.go, src/nfs_handlers.go) *)

From S2P Require Import Prelude Errors Xdr Attributes Rpc MinHeap FileHandle Lru AttrCache Path.
From S2P Require Import Options NetIP Auth Filesystem DirCache Server Operations Procs.
Open Scope Z_scope.

(** The user and group of a new object: the caller's, unless root asks for
    others. *)
Definition new_owner (sattr : sattr3) (ctx : AuthContext) : Z * Z :=
  (if SetUID sattr && (EffectiveUID ctx =? 0) then sa_UID sattr else EffectiveUID ctx,
   if SetGID sattr && (EffectiveUID ctx =? 0) then sa_GID sattr else EffectiveGID ctx).

(** The part of CREATE arguments that depends on the mode of creation: the
    mode, the owner and whether the create is EXCLUSIVE. *)
Definition decode_createhow (ctx : AuthContext) : Dec (Z * (Z * Z) * bool) :=
  createHow ← xdrDecodeUint32;
  if (createHow =? 0) || (createHow =? 1) then
    sattr ← decodeSattr3;
    mret (if SetMode sattr then sa_Mode sattr else 420, new_owner sattr ctx, false)
  else if createHow =? 2 then
    _ ← io_ReadFull 8;
    mret (420, (EffectiveUID ctx, EffectiveGID ctx), true)
  else mret (420, (EffectiveUID ctx, EffectiveGID ctx), false).

(** The reply that carries a new object. *)
Definition created_reply (reply : RPCReply) (handle : Z) (attrs dirPre dirPost : NFSAttrs) : RPCReply :=
  with_data reply (xdrEncodeUint32 NFS_OK ++ xdrEncodeUint32 1 ++ xdrEncodeFileHandle handle ++
    xdrEncodeUint32 1 ++ encodeFileAttributes attrs ++ encodeWccData dirPre dirPost).

(** ** The entry loops of READDIR and READDIRPLUS *)

Definition entry_name (p : string) : string := if String.eqb p "/" then "/" else path_Base p.

(** One READDIR entry: the value-follows flag, file id, name and cookie. *)
Definition readdir_entry (fileId : Z) (name : string) (cookie : Z) : list byte :=
  xdrEncodeUint32 1 ++ xdrEncodeUint64 fileId ++ xdrEncodeString name ++ xdrEncodeUint64 cookie.

(** [maxReplySize] of READDIR, from the count of the call *)
Definition readdir_max (count : Z) : Z := if count - 100 <? 128 then 128 else count - 100.

(** What READDIR and READDIRPLUS write before the entries. *)
Definition readdir_header (attrs : NFSAttrs) (cookieVerf : list byte) : list byte :=
  xdrEncodeUint32 NFS_OK ++ xdrEncodeUint32 1 ++ encodeFileAttributes attrs ++ cookieVerf.

Section ProcsDir.
Context {F FD RL : Type} `{SymlinkFileSystem F FD} `{OpLimiter RL} `{Env}.
#[local] Abbreviation M := (M F RL).

(** The reply to a failed change of a directory: the status and the
    directory's attributes before and after, the latter as far as known. *)
Definition dir_failed (node : NFSNode) (reply : RPCReply) (status : Z) (dirPre : NFSAttrs) : M RPCReply :=
  r ← GetAttr node;
  let dirPost := match r with Ok a => a | Err _ => dirPre end in
  mret (with_data reply (xdrEncodeUint32 status ++ encodeWccData dirPre dirPost)).

(** The end of a successful creation: attributes after, handle, reply. *)
Definition finish_created (node newNode : NFSNode) (reply : RPCReply) (dirPre : NFSAttrs) : M RPCReply :=
  let* dirPost := GetAttr node else err => mret (nfsErrorWithWcc reply (mapError err)) in
  handle ← allocate newNode;
  a ← deref_attrs newNode;
  mret (created_reply reply handle a dirPre dirPost).

(** ** CREATE, MKDIR, SYMLINK, MKNOD *)

Definition handleCreate (body : list byte) (reply : RPCReply) (authCtx : AuthContext) : M RPCReply :=
  ro ← read_only;
  if (ro : bool) then mret (nfsErrorWithWcc reply NFSERR_ROFS)
  else
  let? (handleVal, r1) := xdrDecodeFileHandle @ body
    else mret (nfsErrorWithWcc reply GARBAGE_ARGS) in
  let? (name, r2) := xdrDecodeString @ r1 else mret (nfsErrorWithWcc reply GARBAGE_ARGS) in
  let status := validateFilename windows name in
  if negb (status =? NFS_OK) then mret (nfsErrorWithWcc reply status)
  else
  let? (how, r3) := decode_createhow authCtx @ r2 else mret (nfsErrorWithWcc reply GARBAGE_ARGS) in
  let '(mode, (newUID, newGID), isExclusive) := how in
  let status := validateMode mode false in
  if negb (status =? NFS_OK) then mret (nfsErrorWithWcc reply status)
  else with_node handleVal (nfsErrorWithWcc reply NFSERR_STALE) (fun node =>
    let* dirPre := GetAttr node else err => mret (nfsErrorWithWcc reply (mapError err)) in
    let attrs := mkNFSAttrs mode 0 0 time_zero time_zero newUID newGID time_zero in
    r ← Create node name attrs;
    match r with
    | Ok newNode => finish_created node newNode reply dirPre
    | Err err =>
        if isExclusive && os_IsExist err then
          r ← Lookup (path_Join (path node) name);
          match r with
          | Ok existing =>
              r ← GetAttr node;
              let dirPost := match r with Ok a => a | Err _ => dirPre end in
              handle ← allocate existing;
              a ← deref_attrs existing;
              mret (created_reply reply handle a dirPre dirPost)
          | Err _ => dir_failed node reply (mapError err) dirPre
          end
        else dir_failed node reply (mapError err) dirPre
    end).

Definition handleMkdir (body : list byte) (reply : RPCReply) (authCtx : AuthContext) : M RPCReply :=
  ro ← read_only;
  if (ro : bool) then mret (nfsErrorWithWcc reply NFSERR_ROFS)
  else
  let? (handleVal, r1) := xdrDecodeFileHandle @ body
    else mret (nfsErrorWithWcc reply GARBAGE_ARGS) in
  let? (name, r2) := xdrDecodeString @ r1 else mret (nfsErrorWithWcc reply GARBAGE_ARGS) in
  let status := validateFilename windows name in
  if negb (status =? NFS_OK) then mret (nfsErrorWithWcc reply status)
  else
  let? (sattr, r3) := decodeSattr3 @ r2 else mret (nfsErrorWithWcc reply GARBAGE_ARGS) in
  let mode := if SetMode sattr then sa_Mode sattr else 493 in
  let status := validateMode mode true in
  if negb (status =? NFS_OK) then mret (nfsErrorWithWcc reply status)
  else with_node handleVal (nfsErrorWithWcc reply NFSERR_STALE) (fun node =>
    let* dirPre := GetAttr node else err => mret (nfsErrorWithWcc reply (mapError err)) in
    let dirPath := path_Join (path node) name in
    r ← fs_call (fs_Mkdir dirPath mode);
    match r with
    | Err err => dir_failed node reply (mapError err) dirPre
    | Ok _ =>
        let '(uid, gid) := new_owner sattr authCtx in
        fs_call (fs_Chown dirPath uid gid) ;;
        let* newNode := Lookup dirPath else err => mret (nfsErrorWithWcc reply (mapError err)) in
        finish_created node newNode reply dirPre
    end).

Definition handleSymlink (body : list byte) (reply : RPCReply) (authCtx : AuthContext) : M RPCReply :=
  ro ← read_only;
  if (ro : bool) then mret (nfsErrorWithWcc reply NFSERR_ROFS)
  else
  let? (handleVal, r1) := xdrDecodeFileHandle @ body
    else mret (nfsErrorWithWcc reply GARBAGE_ARGS) in
  let? (name, r2) := xdrDecodeString @ r1 else mret (nfsErrorWithWcc reply GARBAGE_ARGS) in
  let status := validateFilename windows name in
  if negb (status =? NFS_OK) then mret (nfsErrorWithWcc reply status)
  else
  let? (sattr, r3) := decodeSattr3 @ r2 else mret (nfsErrorWithWcc reply GARBAGE_ARGS) in
  let? (target, r4) := xdrDecodeString @ r3 else mret (nfsErrorWithWcc reply GARBAGE_ARGS) in
  if bool_decide (target = EmptyString) then mret (nfsErrorWithWcc reply NFSERR_INVAL)
  else if str_prefix "/" target then mret (nfsErrorWithWcc reply NFSERR_ACCES)
  else if has_dotdot target then mret (nfsErrorWithWcc reply NFSERR_ACCES)
  else with_node handleVal (nfsErrorWithWcc reply NFSERR_STALE) (fun node =>
    let* dirPre := GetAttr node else err => mret (nfsErrorWithWcc reply (mapError err)) in
    let mode := if SetMode sattr then Z.land (sa_Mode sattr) 4095 else 511 in
    let '(uid, gid) := new_owner sattr authCtx in
    let attrs := mkNFSAttrs (Z.lor mode os_ModeSymlink) 0 0 time_zero time_zero uid gid time_zero in
    r ← Symlink node name target attrs;
    match r with
    | Err err => dir_failed node reply (mapError err) dirPre
    | Ok newNode =>
        fs_call (fs_Lchown (path_Join (path node) name) uid gid) ;;
        finish_created node newNode reply dirPre
    end).

Definition handleMknod (body : list byte) (reply : RPCReply) (authCtx : AuthContext) : M RPCReply :=
  read_to (unread xdrDecodeUint32 (unread xdrDecodeString (unread xdrDecodeFileHandle body))) ;;
  mret (nfsErrorWithWcc reply NFSERR_NOTSUPP).

(** ** REMOVE, RMDIR, RENAME, LINK *)

Definition handleRemove (body : list byte) (reply : RPCReply) (authCtx : AuthContext) : M RPCReply :=
  ro ← read_only;
  if (ro : bool) then mret (nfsErrorWithWcc reply NFSERR_ROFS)
  else
  let? (handleVal, r1) := xdrDecodeFileHandle @ body
    else mret (nfsErrorWithWcc reply GARBAGE_ARGS) in
  let? (name, r2) := xdrDecodeString @ r1 else mret (nfsErrorWithWcc reply GARBAGE_ARGS) in
  let status := validateFilename windows name in
  if negb (status =? NFS_OK) then mret (nfsErrorWithWcc reply status)
  else with_node handleVal (nfsErrorWithWcc reply NFSERR_STALE) (fun node =>
    isDir ← node_mode_has node os_ModeDir;
    if negb isDir then mret (nfsErrorWithWcc reply NFSERR_NOTDIR)
    else
      let* dirPre := GetAttr node else err => mret (nfsErrorWithWcc reply (mapError err)) in
      r ← Remove node name;
      match r with
      | Err err => dir_failed node reply (mapError err) dirPre
      | Ok _ =>
          let* dirPost := GetAttr node else err => mret (nfsErrorWithWcc reply (mapError err)) in
          mret (with_data reply (xdrEncodeUint32 NFS_OK ++ encodeWccData dirPre dirPost))
      end).

(** The status of a failed directory removal. *)
Definition rmdir_status (err : error) : Z :=
  if os_IsPermission err then NFSERR_ACCES
  else if os_IsNotExist err then NFSERR_NOENT
  else
    let code := mapError err in
    if (code =? NFSERR_EXIST) || (code =? NFSERR_IO) then NFSERR_NOTEMPTY else code.

Definition handleRmdir (body : list byte) (reply : RPCReply) (authCtx : AuthContext) : M RPCReply :=
  ro ← read_only;
  if (ro : bool) then mret (nfsErrorWithWcc reply NFSERR_ROFS)
  else
  let? (handleVal, r1) := xdrDecodeFileHandle @ body
    else mret (nfsErrorWithWcc reply GARBAGE_ARGS) in
  let? (name, r2) := xdrDecodeString @ r1 else mret (nfsErrorWithWcc reply GARBAGE_ARGS) in
  if negb (validateFilename windows name =? NFS_OK) then mret (nfsErrorWithWcc reply NFSERR_ACCES)
  else with_node handleVal (nfsErrorWithWcc reply NFSERR_STALE) (fun node =>
    isDir ← node_mode_has node os_ModeDir;
    if negb isDir then mret (nfsErrorWithWcc reply NFSERR_NOTDIR)
    else
      let* dirPre := GetAttr node else err => mret (nfsErrorWithWcc reply (mapError err)) in
      let targetPath := path_Join (path node) name in
      st ← fs_call (fs_Stat targetPath);
      match st with
      | Err _ => mret (with_data reply (xdrEncodeUint32 NFSERR_NOENT ++ encodeWccData dirPre dirPre))
      | Ok info =>
          if negb (fi_IsDir info)
          then mret (with_data reply (xdrEncodeUint32 NFSERR_NOTDIR ++ encodeWccData dirPre dirPre))
          else
            r ← fs_call (fs_Remove targetPath);
            match r with
            | Err err => dir_failed node reply (rmdir_status err) dirPre
            | Ok _ =>
                attrCache_Invalidate targetPath ;;
                attrCache_Invalidate (path node) ;;
                dirCache_Invalidate (path node) ;;
                dirCache_Invalidate targetPath ;;
                let* dirPost := GetAttr node else err => mret (nfsErrorWithWcc reply (mapError err)) in
                mret (with_data reply (xdrEncodeUint32 NFS_OK ++ encodeWccData dirPre dirPost))
            end
      end).

Definition handleRename (body : list byte) (reply : RPCReply) (authCtx : AuthContext) : M RPCReply :=
  ro ← read_only;
  if (ro : bool) then mret (nfsErrorWithDoubleWcc reply NFSERR_ROFS)
  else
  let? (srcHandleVal, r1) := xdrDecodeFileHandle @ body
    else mret (nfsErrorWithDoubleWcc reply GARBAGE_ARGS) in
  let? (srcName, r2) := xdrDecodeString @ r1 else mret (nfsErrorWithDoubleWcc reply GARBAGE_ARGS) in
  let status := validateFilename windows srcName in
  if negb (status =? NFS_OK) then mret (nfsErrorWithDoubleWcc reply status)
  else
  let? (dstHandleVal, r3) := xdrDecodeFileHandle @ r2
    else mret (nfsErrorWithDoubleWcc reply GARBAGE_ARGS) in
  let? (dstName, r4) := xdrDecodeString @ r3 else mret (nfsErrorWithDoubleWcc reply GARBAGE_ARGS) in
  let status := validateFilename windows dstName in
  if negb (status =? NFS_OK) then mret (nfsErrorWithDoubleWcc reply status)
  else
  with_node srcHandleVal (nfsErrorWithDoubleWcc reply NFSERR_STALE) (fun srcDir =>
  with_node dstHandleVal (nfsErrorWithDoubleWcc reply NFSERR_STALE) (fun dstDir =>
    let* srcPre := GetAttr srcDir else err => mret (nfsErrorWithDoubleWcc reply (mapError err)) in
    let* dstPre := GetAttr dstDir else err => mret (nfsErrorWithDoubleWcc reply (mapError err)) in
    r ← Rename srcDir srcName dstDir dstName;
    match r with
    | Err err =>
        r1 ← GetAttr srcDir;
        let srcPost := match r1 with Ok a => a | Err _ => srcPre end in
        r2 ← GetAttr dstDir;
        let dstPost := match r2 with Ok a => a | Err _ => dstPre end in
        mret (with_data reply (xdrEncodeUint32 (mapError err) ++ encodeWccData srcPre srcPost ++
          encodeWccData dstPre dstPost))
    | Ok _ =>
        let* srcPost := GetAttr srcDir else err => mret (nfsErrorWithDoubleWcc reply (mapError err)) in
        let* dstPost := GetAttr dstDir else err => mret (nfsErrorWithDoubleWcc reply (mapError err)) in
        mret (with_data reply (xdrEncodeUint32 NFS_OK ++ encodeWccData srcPre srcPost ++
          encodeWccData dstPre dstPost))
    end)).

Definition handleLink (body : list byte) (reply : RPCReply) (authCtx : AuthContext) : M RPCReply :=
  read_to (unread xdrDecodeString (unread xdrDecodeFileHandle (unread xdrDecodeFileHandle body))) ;;
  mret (nfsErrorWithPostOpAndWcc reply
    (mapError (NotSupportedError "LINK" "hard links are not supported by this NFS implementation"))).

(** ** READDIR, READDIRPLUS *)

(** [for i, entry := range entries]: [i] is the index of the first entry; the
    result is the buffer and [reachedLimit]. *)
Fixpoint readdir_loop (i : Z) (entries : list NFSNode) (cookie maxReplySize : Z) (buf : list byte)
    : M (list byte * bool) :=
  match entries with
  | [] => mret (buf, false)
  | entry :: rest =>
      if i <? cookie then readdir_loop (i + 1) rest cookie maxReplySize buf
      else if maxReplySize <=? zlen buf then mret (buf, true)
      else
        a ← node_attrs entry;
        match a with
        | None => readdir_loop (i + 1) rest cookie maxReplySize buf
        | Some a =>
            readdir_loop (i + 1) rest cookie maxReplySize
              (buf ++ readdir_entry (FileId a) (entry_name (path entry)) (i + 1))
        end
  end.

Fixpoint readdirplus_loop (i : Z) (entries : list NFSNode) (cookie maxReplySize entryCount : Z)
    (buf : list byte) : M (list byte * bool) :=
  match entries with
  | [] => mret (buf, false)
  | entry :: rest =>
      if i <? cookie then readdirplus_loop (i + 1) rest cookie maxReplySize entryCount buf
      else if (maxReplySize <=? zlen buf) && (0 <? entryCount) then mret (buf, true)
      else
        a ← node_attrs entry;
        match a with
        | None => readdirplus_loop (i + 1) rest cookie maxReplySize entryCount buf
        | Some a =>
            handle ← allocate entry;
            readdirplus_loop (i + 1) rest cookie maxReplySize (entryCount + 1)
              (buf ++ readdir_entry (FileId a) (entry_name (path entry)) (i + 1) ++
               xdrEncodeUint32 1 ++ encodeFileAttributes a ++
               xdrEncodeUint32 1 ++ xdrEncodeFileHandle handle)
        end
  end.

(** The end of the list and the end-of-directory flag. *)
Definition readdir_end (reply : RPCReply) (r : list byte * bool) : RPCReply :=
  with_data reply (r.1 ++ xdrEncodeUint32 0 ++ xdrEncodeUint32 (if r.2 then 0 else 1)).

Definition handleReaddir (body : list byte) (reply : RPCReply) (authCtx : AuthContext) : M RPCReply :=
  let? (handleVal, r1) := xdrDecodeFileHandle @ body
    else mret (nfsErrorWithPostOp reply GARBAGE_ARGS) in
  let? (cookie, r2) := binary_ReadUint64 @ r1 else mret (nfsErrorWithPostOp reply GARBAGE_ARGS) in
  let? (cookieVerf, r3) := io_ReadFull 8 @ r2 else mret (nfsErrorWithPostOp reply GARBAGE_ARGS) in
  let? (count, r4) := xdrDecodeUint32 @ r3 else mret (nfsErrorWithPostOp reply GARBAGE_ARGS) in
  limited ← rate_limited (ClientIP authCtx) OpTypeReaddir;
  if (limited : bool) then mret (nfsErrorWithPostOp reply NFSERR_DELAY)
  else with_node handleVal (nfsErrorWithPostOp reply NFSERR_STALE) (fun dir =>
    isDir ← node_mode_has dir os_ModeDir;
    if negb isDir then mret (nfsErrorWithPostOp reply NFSERR_NOTDIR)
    else
      let* entries := ReadDir dir else err => mret (nfsErrorWithPostOp reply (mapError err)) in
      let* attrs := GetAttr dir else err => mret (nfsErrorWithPostOp reply (mapError err)) in
      r ← readdir_loop 0 entries cookie (readdir_max count) (readdir_header attrs cookieVerf);
      mret (readdir_end reply r)).

Definition handleReaddirplus (body : list byte) (reply : RPCReply) (authCtx : AuthContext) : M RPCReply :=
  let? (handleVal, r1) := xdrDecodeFileHandle @ body
    else mret (nfsErrorWithPostOp reply GARBAGE_ARGS) in
  let? (cookie, r2) := binary_ReadUint64 @ r1 else mret (nfsErrorWithPostOp reply GARBAGE_ARGS) in
  let? (cookieVerf, r3) := io_ReadFull 8 @ r2 else mret (nfsErrorWithPostOp reply GARBAGE_ARGS) in
  let? (dirCount, r4) := xdrDecodeUint32 @ r3 else mret (nfsErrorWithPostOp reply GARBAGE_ARGS) in
  let? (maxCount, r5) := xdrDecodeUint32 @ r4 else mret (nfsErrorWithPostOp reply GARBAGE_ARGS) in
  limited ← rate_limited (ClientIP authCtx) OpTypeReaddir;
  if (limited : bool) then mret (nfsErrorWithPostOp reply NFSERR_DELAY)
  else with_node handleVal (nfsErrorWithPostOp reply NFSERR_STALE) (fun dir =>
    isDir ← node_mode_has dir os_ModeDir;
    if negb isDir then mret (nfsErrorWithPostOp reply NFSERR_NOTDIR)
    else
      let* entries := ReadDirPlus dir else err => mret (nfsErrorWithPostOp reply (mapError err)) in
      let* attrs := GetAttr dir else err => mret (nfsErrorWithPostOp reply (mapError err)) in
      let maxReplySize := if maxCount - 200 <? 256 then 256 else maxCount - 200 in
      r ← readdirplus_loop 0 entries cookie maxReplySize 0 (readdir_header attrs cookieVerf);
      mret (readdir_end reply r)).

(** ** MOUNT (src/mount_handlers.go) *)

Definition MNT3ERR_NOENT := 2.

Definition mount_MNT (body : list byte) (reply : RPCReply) (authCtx : AuthContext) : M RPCReply :=
  limited ← rate_limited (ClientIP authCtx) OpTypeMount;
  if (limited : bool) then mret (with_data reply (xdrEncodeUint32 10006))
  else
  let? (mountPath, rest) := xdrDecodeString @ body else mret (set_AcceptStatus reply GARBAGE_ARGS) in
  let mountPath := path_Clean mountPath in
  if negb (String.eqb mountPath "/") && negb (str_prefix "/" mountPath)
  then mret (with_data reply (xdrEncodeUint32 MNT3ERR_NOENT))
  else
    let* node := Lookup mountPath else _err => mret (with_data reply (xdrEncodeUint32 MNT3ERR_NOENT)) in
    handle ← allocate node;
    mret (with_data reply (xdrEncodeUint32 0 ++ xdrEncodeUint32 8 ++ xdrEncodeUint64 handle ++
      xdrEncodeUint32 1 ++ xdrEncodeUint32 AUTH_SYS)).

Definition handleMountCall (call : RPCCall) (body : list byte) (reply : RPCReply) (authCtx : AuthContext)
    : M RPCReply :=
  let vers := Version (call_Header call) in
  let proc := Procedure (call_Header call) in
  if negb (vers =? 1) && negb (vers =? MOUNT_V3) then mret (set_AcceptStatus reply PROG_MISMATCH)
  else if proc =? 0 then mret reply
  else if proc =? 1 then mount_MNT body reply authCtx
  else if proc =? 2 then mret (with_data reply (xdrEncodeUint32 0))
  else if proc =? 3 then
    let? (p, rest) := xdrDecodeString @ body else mret (set_AcceptStatus reply GARBAGE_ARGS) in
    mret reply
  else if proc =? 4 then mret reply
  else if proc =? 5 then
    mret (with_data reply (xdrEncodeUint32 1 ++ xdrEncodeString "/" ++ xdrEncodeUint32 0 ++ xdrEncodeUint32 0))
  else mret (set_AcceptStatus reply PROC_UNAVAIL).

(** ** Dispatch *)

Definition nfsHandler : Type := list byte -> RPCReply -> AuthContext -> M RPCReply.

(** The table [nfsHandlers]. *)
Definition nfsHandlers (proc : Z) : option nfsHandler :=
  match proc with
  | 0 => Some handleNull
  | 1 => Some handleGetattr
  | 2 => Some handleSetattr
  | 3 => Some handleLookup
  | 4 => Some handleAccess
  | 5 => Some handleReadlink
  | 6 => Some handleRead
  | 7 => Some handleWrite
  | 8 => Some handleCreate
  | 9 => Some handleMkdir
  | 10 => Some handleSymlink
  | 11 => Some handleMknod
  | 12 => Some handleRemove
  | 13 => Some handleRmdir
  | 14 => Some handleRename
  | 15 => Some handleLink
  | 16 => Some handleReaddir
  | 17 => Some handleReaddirplus
  | 18 => Some handleFsstat
  | 19 => Some handleFsinfo
  | 20 => Some handlePathconf
  | 21 => Some handleCommit
  | _ => None
  end.

Definition handleNFSCall (call : RPCCall) (body : list byte) (reply : RPCReply) (authCtx : AuthContext)
    : M RPCReply :=
  if negb (Version (call_Header call) =? NFS_V3) then mret (set_AcceptStatus reply PROG_MISMATCH)
  else
    match nfsHandlers (Procedure (call_Header call)) with
    | Some handler => handler body reply authCtx
    | None => mret (set_AcceptStatus reply PROC_UNAVAIL)
    end.

(** The program switch of the goroutine of [HandleCall]. *)
Definition dispatch (call : RPCCall) (body : list byte) (reply : RPCReply) (authCtx : AuthContext)
    : M RPCReply :=
  let prog := Program (call_Header call) in
  if prog =? MOUNT_PROGRAM then handleMountCall call body reply authCtx
  else if prog =? NFS_PROGRAM then handleNFSCall call body reply authCtx
  else mret (set_AcceptStatus reply PROG_UNAVAIL).

Definition initial_reply (call : RPCCall) : RPCReply :=
  mkRPCReply (call_Header call) MSG_ACCEPTED SUCCESS (mkRPCVerifier 0 []) DataNil.

(** [HandleCall]: [draining] is the failure of [TryRLock] during a policy
    update.  The deadline is checked before the work; after it, when the
    deadline has passed as well, the runtime chooses between the reply and the
    time-out. *)
Definition HandleCall (draining : bool) (call : RPCCall) (body : list byte) (authCtx : AuthContext)
    : M (result RPCReply) :=
  let reply := initial_reply call in
  if draining then mret (Ok (with_data reply (xdrEncodeUint32 NFSERR_JUKEBOX)))
  else
    policy ← gets s_policy;
    timeout ← timeout_of DefaultTimeout;
    deadline ← with_timeout timeout;
    let '(authResult, authCtx) := ValidateAuthentication authCtx policy in
    if negb (Allowed authResult) then
      record (ErrorOf "AUTH") ;;
      mret (Ok (set_Status reply MSG_DENIED))
    else
      let authCtx := set_Effective authCtx (res_UID authResult) (res_GID authResult) in
      expired ← ctx_done deadline;
      if (expired : bool) then mret (Err (ErrorString "operation timed out"))
      else
        result ← dispatch call body reply authCtx;
        late ← ctx_done deadline;
        pick ← select_choice;
        if (late : bool) && pick then mret (Err (ErrorString "operation timed out"))
        else mret (Ok result).

End ProcsDir.
