(* ===== verification/ProcsSafe.v ===== *)
(** * Safety of the procedures and of the dispatcher

    Every procedure handler keeps the server invariant and returns; hence so
    does [HandleCall], for any call and any argument bytes. *)

From S2P Require Import Prelude Errors Xdr Attributes Rpc MinHeap FileHandle Lru AttrCache Path.
From S2P Require Import Options NetIP Auth Filesystem DirCache Server Operations Safety OpsSafe.
From S2P Require Import Procs ProcsDir.
Open Scope Z_scope.

Section ProcsSafe.
Context {F FD RL : Type} `{SymlinkFileSystem F FD} `{OpLimiter RL} `{Env}.
Context (pol : PolicyOptions) (tun : TuningOptions) (P : F -> Prop).
Context {HP : FSInv F FD rooted (writable_by pol) P}.
#[local] Abbreviation safe := (safe pol tun P).
#[local] Abbreviation Srv := (Srv F RL).
#[local] Abbreviation fine := (fun _ _ => True).

Lemma path_Join_rooted a b : rooted a -> rooted (path_Join a b).
Proof.
  intros Ha. unfold path_Join. destruct a as [|c a]; [done|].
  destruct b as [|d b]; apply path_Clean_rooted; [done|]. by apply str_prefix_slash_app.
Qed.

Lemma join_node (s : Srv) n name : node_ok s n -> rooted (path_Join (path n) name).
Proof. intros [_ Hp]. by apply path_Join_rooted. Qed.
#[local] Hint Resolve join_node : safe_db.

Lemma with_node_safe (s : Srv) h stale k :
  (forall n s', nodes_le s s' -> node_ok s' n -> safe s' (k n) fine) ->
  safe s (with_node h stale k) fine.
Proof.
  intros Hk. unfold with_node. apply safe_bind. eapply safe_mono; [apply lookupNode_safe|].
  intros [n|] s' Hn Hle; [by apply Hk|by apply safe_ret].
Qed.

Lemma node_mode_has_safe (s : Srv) n mask : node_ok s n -> safe s (node_mode_has n mask) (fun _ s' => s' = s).
Proof. intros Hn. unfold node_mode_has. safe_go; done. Qed.
#[local] Hint Resolve node_mode_has_safe : safe_db.

Ltac proc_go :=
  repeat (first
    [ lazymatch goal with |- Safety.safe _ _ _ _ (with_node _ _ _) _ => apply with_node_safe; intros ? ? ? ?; carry end
    | safe_step ]; use_post); try done.

Lemma info_reply_safe (s : Srv) tail body reply : safe s (info_reply tail body reply) fine.
Proof. unfold info_reply. proc_go. Qed.

Lemma lookup_failed_safe (s : Srv) n reply st : node_ok s n -> safe s (lookup_failed n reply st) fine.
Proof. intros Hn. unfold lookup_failed. proc_go. Qed.
#[local] Hint Resolve info_reply_safe lookup_failed_safe : safe_db.

Lemma handleLookup_safe (s : Srv) body reply ctx : safe s (handleLookup body reply ctx) fine.
Proof. unfold handleLookup. proc_go. Qed.

Lemma handleReadlink_safe (s : Srv) body reply ctx : safe s (handleReadlink body reply ctx) fine.
Proof. unfold handleReadlink. proc_go. Qed.

Lemma handleGetattr_safe (s : Srv) body reply ctx : safe s (handleGetattr body reply ctx) fine.
Proof. unfold handleGetattr. proc_go. Qed.

Lemma setattr_time_safe (s : Srv) how sec nsec : safe s (setattr_time how sec nsec) fine.
Proof. unfold setattr_time. proc_go. Qed.
#[local] Hint Resolve setattr_time_safe : safe_db.

Lemma setattr_size_safe (s : Srv) n sattr reply k :
  ReadOnly pol = false -> node_ok s n ->
  (forall s', node_ok s' n -> safe s' k fine) -> safe s (setattr_size n sattr reply k) fine.
Proof. intros Hro Hn Hk. unfold setattr_size. proc_go. Qed.

Lemma handleSetattr_safe (s : Srv) body reply ctx : safe s (handleSetattr body reply ctx) fine.
Proof.
  unfold handleSetattr. proc_go. apply setattr_size_safe; [done|done|].
  intros s2 Hn2. proc_go.
Qed.

Lemma handleAccess_safe (s : Srv) body reply ctx : safe s (handleAccess body reply ctx) fine.
Proof. unfold handleAccess. proc_go. Qed.

Lemma handleRead_safe (s : Srv) body reply ctx : safe s (handleRead body reply ctx) fine.
Proof. unfold handleRead. proc_go. Qed.

Lemma handleWrite_safe (s : Srv) body reply ctx : safe s (handleWrite body reply ctx) fine.
Proof. unfold handleWrite. proc_go. Qed.

Lemma handleCommit_safe (s : Srv) body reply ctx : safe s (handleCommit body reply ctx) fine.
Proof. unfold handleCommit. proc_go. Qed.

(** *** Directories *)

Lemma dir_failed_safe (s : Srv) n reply st a : node_ok s n -> safe s (dir_failed n reply st a) fine.
Proof. intros Hn. unfold dir_failed. proc_go. Qed.

Lemma finish_created_safe (s : Srv) n n' reply a :
  node_ok s n -> node_ok s n' -> safe s (finish_created n n' reply a) fine.
Proof. intros Hn Hn'. unfold finish_created. proc_go. Qed.
#[local] Hint Resolve dir_failed_safe finish_created_safe : safe_db.

Lemma handleCreate_safe (s : Srv) body reply ctx : safe s (handleCreate body reply ctx) fine.
Proof. unfold handleCreate. proc_go. Qed.

Lemma handleMkdir_safe (s : Srv) body reply ctx : safe s (handleMkdir body reply ctx) fine.
Proof. unfold handleMkdir. proc_go. Qed.

Lemma handleSymlink_safe (s : Srv) body reply ctx : safe s (handleSymlink body reply ctx) fine.
Proof. unfold handleSymlink. proc_go. Qed.

Lemma handleRemove_safe (s : Srv) body reply ctx : safe s (handleRemove body reply ctx) fine.
Proof. unfold handleRemove. proc_go. Qed.

Lemma handleRmdir_safe (s : Srv) body reply ctx : safe s (handleRmdir body reply ctx) fine.
Proof. unfold handleRmdir. proc_go. Qed.

Lemma handleRename_safe (s : Srv) body reply ctx : safe s (handleRename body reply ctx) fine.
Proof. unfold handleRename. proc_go. Qed.

Lemma readdir_loop_safe (s : Srv) i es cookie m buf :
  Forall (node_ok s) es -> safe s (readdir_loop i es cookie m buf) fine.
Proof.
  revert s i buf. induction es as [|e es IH]; intros s i buf Hes; cbn [readdir_loop]; [by apply safe_ret|].
  apply Forall_cons in Hes as [He Hes]. proc_go; by apply IH.
Qed.

Lemma readdirplus_loop_safe (s : Srv) i es cookie m n buf :
  Forall (node_ok s) es -> safe s (readdirplus_loop i es cookie m n buf) fine.
Proof.
  revert s i n buf. induction es as [|e es IH]; intros s i n buf Hes; cbn [readdirplus_loop]; [by apply safe_ret|].
  apply Forall_cons in Hes as [He Hes]. proc_go; by apply IH.
Qed.
#[local] Hint Resolve readdir_loop_safe readdirplus_loop_safe : safe_db.

Lemma handleReaddir_safe (s : Srv) body reply ctx : safe s (handleReaddir body reply ctx) fine.
Proof. unfold handleReaddir. proc_go. Qed.

Lemma handleReaddirplus_safe (s : Srv) body reply ctx : safe s (handleReaddirplus body reply ctx) fine.
Proof. unfold handleReaddirplus. proc_go. Qed.

(** *** MOUNT and dispatch *)

Lemma mount_MNT_safe (s : Srv) body reply ctx : safe s (mount_MNT body reply ctx) fine.
Proof.
  unfold mount_MNT. apply safe_bind. eapply safe_mono; [eauto with safe_db|].
  intros [] s1 _ _; [by apply safe_ret|].
  destruct (xdrDecodeString body) as [[p|e] r]; [|proc_go].
  apply safe_bind. eapply safe_mono; [apply read_to_safe|]. intros _ s2 _ _. cbv zeta.
  destruct (_ && _) eqn:E; [by apply safe_ret|].
  assert (rooted (path_Clean p)) as Hp.
  { apply andb_false_iff in E as [E|E]; apply negb_false_iff in E; [|done].
    apply String.eqb_eq in E. by rewrite E. }
  proc_go.
Qed.
#[local] Hint Resolve mount_MNT_safe : safe_db.

Lemma handleMountCall_safe (s : Srv) call body reply ctx : safe s (handleMountCall call body reply ctx) fine.
Proof. unfold handleMountCall. proc_go. Qed.

Lemma nfsHandlers_safe proc handler :
  nfsHandlers proc = Some handler -> forall (s : Srv) body reply ctx, safe s (handler body reply ctx) fine.
Proof.
  unfold nfsHandlers. intros E s body reply ctx.
  repeat case_match; simplify_eq; eauto using handleLookup_safe, handleReadlink_safe, handleGetattr_safe,
    handleSetattr_safe, handleAccess_safe, handleRead_safe, handleWrite_safe, handleCommit_safe,
    handleCreate_safe, handleMkdir_safe, handleSymlink_safe, handleRemove_safe, handleRmdir_safe,
    handleRename_safe, handleReaddir_safe, handleReaddirplus_safe;
  first [apply info_reply_safe | unfold handleMknod, handleLink; by proc_go | by apply safe_ret].
Qed.

Lemma dispatch_safe (s : Srv) call body reply ctx : safe s (dispatch call body reply ctx) fine.
Proof.
  unfold dispatch. safe_step; [apply handleMountCall_safe|].
  safe_step; [|by apply safe_ret]. unfold handleNFSCall.
  safe_step; [by apply safe_ret|]. destruct (nfsHandlers _) as [h|] eqn:Eh; [|by apply safe_ret].
  by eapply nfsHandlers_safe.
Qed.
#[local] Hint Resolve dispatch_safe : safe_db.

Lemma HandleCall_safe (s : Srv) draining call body ctx : safe s (HandleCall draining call body ctx) fine.
Proof.
  unfold HandleCall, with_timeout, ctx_done. safe_step; [by apply safe_ret|].
  apply safe_bind, safe_gets. intros _. proc_go.
Qed.

End ProcsSafe.
