(* ===== verification/Reads.v ===== *)
(** * What the handlers read of their arguments

    Without record marking the arguments of a call and the next call come from
    one reader, so it matters how far a handler reads.  Two judgements on
    computations: [quiet], the reader is not touched, which holds of all
    operations on files; and [reads body], what is left unread afterwards is
    what was left before or a suffix of [body], which holds of every handler. *)

From S2P Require Import Prelude Errors Xdr Attributes Rpc MinHeap FileHandle Lru AttrCache Path.
From S2P Require Import Options NetIP Auth Filesystem DirCache Server Operations Procs ProcsDir.
Open Scope Z_scope.

(** ** Decoders leave a suffix *)

Definition shrinks {A} (d : Dec A) : Prop := forall b, unread d b `suffix_of` b.

Lemma shrinks_ret {A} (a : A) : shrinks (mret a).
Proof. intros b. done. Qed.
Lemma shrinks_fail {A} e : shrinks (Dec_fail (A := A) e).
Proof. intros b. done. Qed.
Lemma shrinks_bind {A B} (m : Dec A) (f : A -> Dec B) : shrinks m -> (forall a, shrinks (f a)) -> shrinks (m ≫= f).
Proof.
  intros Hm Hf b. specialize (Hm b). unfold unread, mbind, Dec_bind in *. destruct (m b) as [[a|e] r]; [|done].
  simpl in Hm. etrans; [apply Hf|done].
Qed.
Lemma shrinks_wrap {A} msg (m : Dec A) : shrinks m -> shrinks (Dec_wrap msg m).
Proof. intros Hm b. specialize (Hm b). unfold unread, Dec_wrap in *. by destruct (m b) as [[a|e] r]. Qed.
Lemma shrinks_full n : shrinks (io_ReadFull n).
Proof.
  intros b. unfold unread, io_ReadFull. destruct (n <=? length b)%nat; simpl; [|apply suffix_nil].
  exists (take n b). by rewrite take_drop.
Qed.

Create HintDb reads_db.
#[export] Hint Resolve shrinks_ret shrinks_fail shrinks_wrap shrinks_full : reads_db.

Ltac shrinks_go :=
  repeat first
    [ apply shrinks_bind; [|intros ?]
    | solve [eauto with reads_db]
    | lazymatch goal with |- shrinks (match ?x with _ => _ end) => destruct x end ].

Lemma shrinks_Uint32 : shrinks xdrDecodeUint32.
Proof. unfold xdrDecodeUint32. shrinks_go. Qed.
Lemma shrinks_Uint64 : shrinks binary_ReadUint64.
Proof. unfold binary_ReadUint64. shrinks_go. Qed.
#[export] Hint Resolve shrinks_Uint32 shrinks_Uint64 : reads_db.
Lemma shrinks_FileHandle : shrinks xdrDecodeFileHandle.
Proof. unfold xdrDecodeFileHandle. shrinks_go. Qed.
Lemma shrinks_String : shrinks xdrDecodeString.
Proof. unfold xdrDecodeString. shrinks_go. Qed.
Lemma shrinks_optional d : shrinks d -> shrinks (decode_optional d).
Proof. intros Hd. unfold decode_optional. shrinks_go. Qed.
Lemma shrinks_time : shrinks decode_set_time.
Proof. unfold decode_set_time. shrinks_go. Qed.
#[export] Hint Resolve shrinks_FileHandle shrinks_String shrinks_optional shrinks_time : reads_db.
Lemma shrinks_Sattr3 : shrinks decodeSattr3.
Proof. unfold decodeSattr3. shrinks_go. Qed.
#[export] Hint Resolve shrinks_Sattr3 : reads_db.
Lemma shrinks_guard : shrinks decode_guard.
Proof. unfold decode_guard. shrinks_go. Qed.
Lemma shrinks_createhow ctx : shrinks (decode_createhow ctx).
Proof. unfold decode_createhow. shrinks_go. Qed.
#[export] Hint Resolve shrinks_guard shrinks_createhow : reads_db.

(** The remainder of a decoding that has been carried out. *)
Lemma shrinks_eq {A} (d : Dec A) b res r : d b = (res, r) -> shrinks d -> r `suffix_of` b.
Proof. intros E Hd. specialize (Hd b). unfold unread in Hd. by rewrite E in Hd. Qed.

(** A call takes bytes off the stream. *)
Lemma DecodeRPCCall_shrinks : shrinks DecodeRPCCall.
Proof. unfold DecodeRPCCall. shrinks_go. Qed.

Lemma DecodeRPCCall_progress b call r : DecodeRPCCall b = (Ok call, r) -> (length r < length b)%nat.
Proof.
  unfold DecodeRPCCall. intros E. dec_inv E.
  match goal with Hx : xdrDecodeUint32 b = (Ok _, ?q) |- _ =>
    assert (length q < length b)%nat as Hq;
      [unfold xdrDecodeUint32, io_ReadFull, mbind, Dec_bind in Hx; destruct (Nat.leb_spec 4 (length b)); [|done];
       injection Hx as _ <-; rewrite length_drop; lia|];
    assert (r `suffix_of` q) as Hs end.
  { eapply shrinks_eq; [exact E|]. shrinks_go. }
  apply suffix_length in Hs. lia.
Qed.

(** ** Computations *)

Section Reads.
Context {F FD RL : Type} `{SymlinkFileSystem F FD} `{OpLimiter RL} `{Env}.
#[local] Abbreviation M := (M F RL).

Definition quiet {A} (m : M A) : Prop := forall s a s', m s = Some (a, s') -> s_unread s' = s_unread s.

Definition reads {A} (body : list byte) (m : M A) : Prop := forall s a s', m s = Some (a, s') ->
  s_unread s' = s_unread s \/ s_unread s' `suffix_of` body.

Lemma quiet_ret {A} (a : A) : quiet (mret a).
Proof. by intros s b s' [= <- <-]. Qed.
Lemma quiet_panic {A} : quiet (panic (A := A)).
Proof. done. Qed.
Lemma quiet_bind {A B} (m : M A) (k : A -> M B) : quiet m -> (forall a, quiet (k a)) -> quiet (m ≫= k).
Proof.
  intros Hm Hk s b s' E. unfold mbind, M_bind in E. destruct (m s) as [[a s1]|] eqn:E1; [|done].
  rewrite (Hk _ _ _ _ E). by eapply Hm.
Qed.
Lemma quiet_gets {A} (f : Srv F RL -> A) : quiet (gets f).
Proof. by intros s b s' [= <- <-]. Qed.
Lemma quiet_modify f : (forall s, s_unread (f s) = s_unread s) -> quiet (modify (F := F) (RL := RL) f).
Proof. intros Hf s b s' [= <- <-]. apply Hf. Qed.
Lemma quiet_fs {A} (op : F -> A * F) : quiet (fs_call op).
Proof. intros s b s' E. unfold fs_call in E. destruct (op (s_fs s)). by injection E as <- <-. Qed.
Lemma quiet_allocate n : quiet (allocate n).
Proof.
  intros s b s' E. unfold allocate in E. destruct (Allocate _ _) as [[[h c] fm]|]; [|done]. by injection E as <- <-.
Qed.
Lemma quiet_node_attrs n : quiet (node_attrs n).
Proof. intros s b s' E. unfold node_attrs in E. destruct (s_nodes s !! _); [|done]. by injection E as <- <-. Qed.
Lemma quiet_new_node p a : quiet (new_node p a).
Proof. by intros s b s' [= <- <-]. Qed.
Lemma quiet_now : quiet time_Now.
Proof. by intros s b s' [= <- <-]. Qed.
Lemma quiet_choice : quiet select_choice.
Proof. by intros s b s' [= <- <-]. Qed.

Lemma reads_ret {A} body (a : A) : reads body (mret a).
Proof. intros s b s' [= <- <-]. by left. Qed.
Lemma quiet_reads {A} body (m : M A) : quiet m -> reads body m.
Proof. intros Hm s a s' E. left. by eapply Hm. Qed.
Lemma reads_bind {A B} body (m : M A) (k : A -> M B) : quiet m -> (forall a, reads body (k a)) -> reads body (m ≫= k).
Proof.
  intros Hm Hk s b s' E. unfold mbind, M_bind in E. destruct (m s) as [[a s1]|] eqn:E1; [|done].
  apply Hm in E1. rewrite <- E1. by eapply Hk.
Qed.
Lemma reads_to {A} body r (k : unit -> M A) :
  r `suffix_of` body -> (forall u, reads body (k u)) -> reads body (read_to r ≫= k).
Proof.
  intros Hr Hk s b s' E. apply Hk in E. destruct E as [E|E]; [|by right]. right. by rewrite E.
Qed.

End Reads.

#[export] Hint Resolve quiet_ret quiet_panic quiet_gets quiet_fs quiet_allocate quiet_node_attrs quiet_new_node
  quiet_now quiet_choice : reads_db.

Ltac quiet_go :=
  repeat first
    [ solve [eauto with reads_db]
    | lazymatch goal with |- quiet (_ ≫= _) => apply quiet_bind; [|intros ?; cbv beta] end
    | apply quiet_modify; intros ?; reflexivity
    | lazymatch goal with
      | |- quiet (match ?x with _ => _ end) => destruct x
      | |- quiet (let '(_, _) := ?x in _) => destruct x
      end ].

Section Operations.
Context {F FD RL : Type} `{SymlinkFileSystem F FD} `{OpLimiter RL} `{Env}.
#[local] Abbreviation quiet := (quiet (F := F) (RL := RL)).

Lemma quiet_rate_limited ip op : quiet (rate_limited ip op).
Proof. unfold rate_limited, record. quiet_go. Qed.
Lemma quiet_lookupNode h : quiet (lookupNode h).
Proof. unfold lookupNode. quiet_go. Qed.
Lemma quiet_deref n : quiet (deref_attrs n).
Proof. unfold deref_attrs. quiet_go. Qed.
#[local] Hint Resolve quiet_rate_limited quiet_lookupNode quiet_deref : reads_db.

Lemma quiet_timed_out op sel : quiet (timed_out op sel).
Proof. unfold timed_out, timeout_of, with_timeout, ctx_done, record. quiet_go. Qed.
Lemma quiet_Get p : quiet (attrCache_Get p).
Proof. unfold attrCache_Get, record. quiet_go. Qed.
Lemma quiet_dirGet p : quiet (dirCache_Get p).
Proof. unfold dirCache_Get. quiet_go. Qed.
#[local] Hint Resolve quiet_timed_out quiet_Get quiet_dirGet : reads_db.

Lemma quiet_Lookup p : quiet (Lookup p).
Proof. unfold Lookup, record, refresh, attrCache_Put, attrCache_PutNegative. quiet_go. Qed.
Lemma quiet_GetAttr n : quiet (GetAttr n).
Proof. unfold GetAttr, refresh, attrCache_Put. quiet_go. Qed.
#[local] Hint Resolve quiet_Lookup quiet_GetAttr : reads_db.
Lemma quiet_SetAttr n a : quiet (SetAttr n a).
Proof. unfold SetAttr, guarded, refresh, set_attrs, attrCache_Invalidate. quiet_go. Qed.
Lemma quiet_Truncate n z : quiet (node_Truncate n z).
Proof. unfold node_Truncate, set_attrs. quiet_go. Qed.
Lemma quiet_Read n o c : quiet (Read n o c).
Proof. unfold Read. quiet_go. Qed.
Lemma quiet_Write n o d : quiet (Write n o d).
Proof. unfold Write, read_only, attrCache_Invalidate, refresh_size, refresh, set_attrs. quiet_go. Qed.
Lemma quiet_created d p : quiet (invalidate_created d p).
Proof.
  unfold invalidate_created, attrCache_Invalidate, attrCache_InvalidateNegativeInDir, dirCache_Invalidate. quiet_go.
Qed.
#[local] Hint Resolve quiet_created : reads_db.
Lemma quiet_Create d name a : quiet (Create d name a).
Proof. unfold Create, read_only. quiet_go. Qed.
Lemma quiet_Remove d name : quiet (Remove d name).
Proof. unfold Remove, read_only, attrCache_Invalidate, dirCache_Invalidate. quiet_go. Qed.
Lemma quiet_Rename d n d' n' : quiet (Rename d n d' n').
Proof.
  unfold Rename, read_only, attrCache_Invalidate, attrCache_InvalidateNegativeInDir, dirCache_Invalidate. quiet_go.
Qed.
Lemma quiet_entries d es : quiet (entries_to_nodes d es).
Proof. induction es as [|e es IH]; cbn [entries_to_nodes]; quiet_go. Qed.
#[local] Hint Resolve quiet_entries : reads_db.
Lemma quiet_ReadDir d : quiet (ReadDir d).
Proof. unfold ReadDir, record, dirCache_Put. quiet_go. Qed.
#[local] Hint Resolve quiet_ReadDir : reads_db.
Lemma quiet_precache ns : quiet (precache_all ns).
Proof.
  induction ns as [|n ns IH]; cbn [precache_all]; [quiet_go|].
  unfold precache_attrs, refresh, attrCache_Put, set_attrs. quiet_go.
Qed.
#[local] Hint Resolve quiet_precache : reads_db.
Lemma quiet_ReadDirPlus d : quiet (ReadDirPlus d).
Proof. unfold ReadDirPlus. quiet_go. Qed.
Lemma quiet_Symlink d n t a : quiet (Symlink d n t a).
Proof. unfold Symlink, read_only. quiet_go. Qed.
Lemma quiet_Readlink n : quiet (Readlink n).
Proof. unfold Readlink. quiet_go. Qed.

End Operations.

#[export] Hint Resolve quiet_rate_limited quiet_lookupNode quiet_deref quiet_timed_out quiet_Lookup quiet_GetAttr
  quiet_SetAttr quiet_Truncate quiet_Read quiet_Write quiet_Create quiet_Remove quiet_Rename quiet_ReadDir
  quiet_ReadDirPlus quiet_Symlink quiet_Readlink quiet_created : reads_db.

(** ** Handlers *)

Lemma unread_suffix {A} (d : Dec A) b body : shrinks d -> b `suffix_of` body -> unread d b `suffix_of` body.
Proof. intros Hd Hb. etrans; [apply Hd|done]. Qed.

Ltac solve_suffix :=
  first [ reflexivity | assumption
        | apply unread_suffix; [solve [eauto with reads_db]|solve_suffix]
        | etrans; [eassumption|solve_suffix] ].

Ltac reads_step :=
  lazymatch goal with
  | |- reads _ (mret _) => apply reads_ret
  | |- reads _ panic => apply quiet_reads, quiet_panic
  | |- reads _ (read_to _ ≫= _) => apply reads_to; [solve_suffix|intros ?]
  | |- reads _ ((if _ then read_to _ else mret _) ≫= _) => case_match
  | |- reads _ (_ ≫= _) => apply reads_bind; [solve [quiet_go]|intros ?]
  | |- reads _ (with_node _ _ _) => unfold with_node
  | |- reads _ (match ?x with _ => _ end) =>
      let E := fresh "E" in
      destruct x eqn:E; try (apply shrinks_eq in E; [|solve [eauto with reads_db]])
  | |- reads _ _ => apply quiet_reads; solve [quiet_go]
  end.
Ltac reads_go := repeat (reads_step; cbv beta zeta).

Section Handlers.
Context {F FD RL : Type} `{SymlinkFileSystem F FD} `{OpLimiter RL} `{Env}.
#[local] Abbreviation quiet := (quiet (F := F) (RL := RL)).
#[local] Abbreviation reads := (reads (F := F) (RL := RL)).

Lemma quiet_readdir_loop i es c m b : quiet (readdir_loop i es c m b).
Proof. revert i b. induction es as [|e es IH]; intros i b; cbn [readdir_loop]; quiet_go. Qed.
Lemma quiet_readdirplus_loop i es c m n b : quiet (readdirplus_loop i es c m n b).
Proof. revert i n b. induction es as [|e es IH]; intros i n b; cbn [readdirplus_loop]; quiet_go. Qed.
Lemma quiet_dir_failed n reply st a : quiet (dir_failed n reply st a).
Proof. unfold dir_failed. quiet_go. Qed.
Lemma quiet_finish_created n n' reply a : quiet (finish_created n n' reply a).
Proof. unfold finish_created. quiet_go. Qed.
Lemma quiet_lookup_failed n reply st : quiet (lookup_failed n reply st).
Proof. unfold lookup_failed. quiet_go. Qed.
Lemma quiet_mode_has n m : quiet (node_mode_has n m).
Proof. unfold node_mode_has. quiet_go. Qed.
Lemma quiet_read_only : quiet read_only.
Proof. unfold read_only. quiet_go. Qed.
Lemma quiet_setattr_time a b c : quiet (setattr_time a b c).
Proof. unfold setattr_time. quiet_go. Qed.
#[local] Hint Resolve quiet_readdir_loop quiet_readdirplus_loop quiet_dir_failed quiet_finish_created
  quiet_lookup_failed quiet_mode_has quiet_read_only quiet_setattr_time : reads_db.

Lemma quiet_setattr_size n sattr reply k : quiet k -> quiet (setattr_size n sattr reply k).
Proof. intros Hk. unfold setattr_size, attrCache_Invalidate, refresh_size, refresh, set_attrs. quiet_go. Qed.
#[local] Hint Resolve quiet_setattr_size : reads_db.

Lemma handlers_read proc handler body reply ctx :
  nfsHandlers proc = Some handler -> reads body (handler body reply ctx).
Proof.
  unfold nfsHandlers. intros E. repeat case_match; simplify_eq.
  all: unfold handleNull, handleGetattr, handleSetattr, handleLookup, handleAccess, handleReadlink, handleRead,
    handleWrite, handleCreate, handleMkdir, handleSymlink, handleMknod, handleRemove, handleRmdir,
    handleRename, handleLink, handleReaddir, handleReaddirplus, handleFsstat, handleFsinfo, handlePathconf,
    handleCommit, info_reply; reads_go.
  apply quiet_reads, quiet_setattr_size. quiet_go.
Qed.

(** What comes after the handler does not read. *)
Lemma quiet_tail (late : M F RL bool) (rep : RPCReply) s1 r s' :
  quiet late ->
  (late ← late; pick ← select_choice;
   if (late : bool) && (pick : bool) then mret (Err (ErrorString "operation timed out")) else mret (Ok rep)) s1
    = Some (r, s') -> s_unread s' = s_unread s1.
Proof. intros Hl E. eapply quiet_bind; [| |exact E]; [done|]. intros b. cbv beta. quiet_go. Qed.

Lemma mount_reads call body reply ctx : reads body (handleMountCall call body reply ctx).
Proof. unfold handleMountCall, mount_MNT. reads_go. Qed.

Lemma dispatch_reads call body reply ctx : reads body (dispatch call body reply ctx).
Proof.
  unfold dispatch, handleNFSCall. repeat case_match; try apply reads_ret; [apply mount_reads|by eapply handlers_read].
Qed.

(** However a call ends, its handler has read a prefix of the bytes it was
    given. *)
Lemma HandleCall_reads draining call body ctx : reads body (HandleCall draining call body ctx).
Proof.
  unfold HandleCall, timeout_of, with_timeout, ctx_done, record. destruct draining; [apply reads_ret|].
  do 3 (apply reads_bind; [quiet_go|intros ?]). destruct (ValidateAuthentication _ _) as [res ctx'].
  destruct (negb _); [apply quiet_reads; quiet_go|]. apply reads_bind; [quiet_go|intros [|]]; [apply reads_ret|].
  intros s r s'. unfold mbind at 1, M_bind at 1.
  destruct (dispatch _ _ _ _ s) as [[rep s1]|] eqn:E; [|done]. apply dispatch_reads in E.
  intros E2. eapply quiet_tail in E2; [|quiet_go]. by rewrite E2.
Qed.

End Handlers.

#[export] Hint Resolve quiet_readdir_loop quiet_readdirplus_loop quiet_dir_failed quiet_finish_created
  quiet_lookup_failed quiet_mode_has quiet_read_only quiet_setattr_time : reads_db.
