(* ===== verification/Sample.v ===== *)
(** * A concrete environment, for evaluating the model

    An in-memory filesystem, a clock that advances a millisecond per reading
    and a limiter that allows everything, with the encodings of a few calls. *)

From S2P Require Import Prelude Errors Xdr Attributes Rpc Options NetIP Auth Filesystem Server.
Open Scope Z_scope.

#[export] Existing Instances MemFS.memfs MemFS.memfs_laws.

Definition ms : Z := 1000000.

#[export] Instance sample_env : Env := {|
  clock n := 1000 * second + Z.of_nat n * ms;
  choice _ := false;
  windows := false;
  writeVerf := be_bytes 8 77
|}.

#[export] Instance open_limiter : OpLimiter unit := {|
  NewRateLimiter _ _ _ := tt;
  AllowOperation _ _ _ t rl := (true, t, rl)
|}.

(** "/" with a file "a" holding "hello", an empty directory "d" and a symbolic
    link "l" to "a". *)
Definition sample_fs : MemFS.state :=
  list_to_map [
    ("/"%string, MemFS.mkMNode MemFS.CDir 493 (5 * second));
    ("/a"%string, MemFS.mkMNode (MemFS.CFile (bytes_of_string "hello")) 420 (7 * second));
    ("/d"%string, MemFS.mkMNode MemFS.CDir 493 (6 * second));
    ("/l"%string, MemFS.mkMNode (MemFS.CLink "a") 511 (8 * second))].

(** Options: read-only or not, with negative and directory caching. *)
Definition sample_options (readOnly : bool) : ExportOptions :=
  mkExport readOnly false [] "none" false 0 0 0 0 true 0 true 0 0 0 0 0 0 false false false 0 0
    false None None None None.

(** A call of user root with AUTH_SYS. *)
Definition root_ctx : AuthContext :=
  mkAuthContext "127.0.0.1" 700 (mkRPCCredential AUTH_SYS []) (Some (mkAuthSys 0 "host" 0 0 []))
    false 0 0.

Definition nfs_call (prog proc : Z) : RPCCall :=
  mkRPCCall (mkRPCMsgHeader 1 RPC_CALL 2 prog 3 proc) (mkRPCCredential AUTH_SYS [])
    (mkRPCVerifier 0 []).

(** The arguments [dir handle, name]. *)
Definition dirop_args (handle : Z) (name : string) : list byte :=
  xdrEncodeFileHandle handle ++ xdrEncodeString name.

(** A [sattr3] that sets nothing. *)
Definition empty_sattr : list byte :=
  xdrEncodeUint32 0 ++ xdrEncodeUint32 0 ++ xdrEncodeUint32 0 ++ xdrEncodeUint32 0 ++
  xdrEncodeUint32 0 ++ xdrEncodeUint32 0.
