(* ===== verification/Node.v ===== *)
(** * NFSNode as an absfs.File (src/nfs_node.go)

    A node implements the file interface by opening its path anew in every
    call.  The operations of files and filesystems that only these methods use
    are a further class [FileOps], with what is documented of them as
    [FileOpsLaws]. *)

From S2P Require Import Prelude Errors Xdr Attributes Rpc MinHeap FileHandle Lru AttrCache Path.
From S2P Require Import Options Filesystem DirCache Server Operations Safety Sample.
Open Scope Z_scope.

(** [f.Read(p)] and [f.Seek] use the offset of the descriptor. *)
Class FileOps (F FD : Type) := {
  f_Read : FD -> Z -> F -> (list byte * option error) * F;          (* len(p) *)
  f_Write : FD -> list byte -> F -> (Z * option error) * F;
  f_Seek : FD -> Z -> Z -> F -> result Z * F;
  fs_Chdir : string -> F -> result unit * F;
  fs_ReadDir : string -> F -> result (list FileInfo) * F
}.

(** Reading and moving the offset of a file opened read-only, changing the
    working directory and listing leave the tree of files alone; what a fresh
    descriptor reads depends on that tree. *)
Class FileOpsLaws (F FD Tree : Type) `{FSLaws F FD Tree} `{FileOps F FD} : Prop := {
  read_tree : forall fd n s, fd_rdonly fd = true -> fs_tree (f_Read fd n s).2 = fs_tree s;
  seek_tree : forall fd o w s, fd_rdonly fd = true -> fs_tree (f_Seek fd o w s).2 = fs_tree s;
  chdir_tree : forall p s, fs_tree (fs_Chdir p s).2 = fs_tree s;
  readdir_path_tree : forall p s, fs_tree (fs_ReadDir p s).2 = fs_tree s;
  fresh_read : forall p n s s' fd fd' s1 s1', fs_tree s = fs_tree s' ->
    fs_OpenFile p os_O_RDONLY 0 s = (Ok fd, s1) -> fs_OpenFile p os_O_RDONLY 0 s' = (Ok fd', s1') ->
    (f_Read fd n s1).1 = (f_Read fd' n s1').1;
  open_tree_only : forall p s s', fs_tree s = fs_tree s' ->
    match fs_OpenFile p os_O_RDONLY 0 s, fs_OpenFile p os_O_RDONLY 0 s' with
    | (Ok _, _), (Ok _, _) => True
    | (Err e, _), (Err e', _) => e = e'
    | _, _ => False
    end
}.

Section Node.
Context {F FD RL : Type} `{SymlinkFileSystem F FD} `{FileOps F FD}.
#[local] Abbreviation M := (M F RL).

(** Open the node's path, use the descriptor, close it ([defer f.Close()]). *)
Definition with_open {A} (n : NFSNode) (flag : Z) (fail : error -> A) (k : FD -> F -> A * F) : M A :=
  f ← fs_call (fs_OpenFile (path n) flag 0);
  match f with
  | Err err => mret (fail err)
  | Ok f =>
      a ← fs_call (k f);
      fs_call (f_Close f) ;;
      mret a
  end.

Definition node_Close (n : NFSNode) : M (result unit) := mret (Ok tt).

(** [Read(p)], [ReadAt(p, off)]: the bytes and the error. *)
Definition node_Read (n : NFSNode) (len : Z) : M (list byte * option error) :=
  with_open n os_O_RDONLY (fun err => ([], Some err)) (fun f => f_Read f len).
Definition node_ReadAt (n : NFSNode) (len off : Z) : M (list byte * option error) :=
  with_open n os_O_RDONLY (fun err => ([], Some err)) (fun f => f_ReadAt f len off).

(** [n.attrs.Invalidate()] *)
Definition invalidate_attrs (n : NFSNode) : M unit :=
  a ← deref_attrs n; set_attrs n (Attributes.Invalidate a).

(** A write, after which the attributes are invalidated if it succeeded; the
    file is closed last. *)
Definition node_write (n : NFSNode) (op : FD -> F -> (Z * option error) * F) : M (Z * option error) :=
  f ← fs_call (fs_OpenFile (path n) os_O_WRONLY 0);
  match f with
  | Err err => mret (0, Some err)
  | Ok f =>
      r ← fs_call (op f);
      (match r.2 with None => invalidate_attrs n | Some _ => mret tt end) ;;
      fs_call (f_Close f) ;;
      mret r
  end.

Definition node_Write (n : NFSNode) (p : list byte) : M (Z * option error) := node_write n (fun f => f_Write f p).
Definition node_WriteAt (n : NFSNode) (p : list byte) (off : Z) : M (Z * option error) :=
  node_write n (fun f => f_WriteAt f p off).
Definition node_WriteString (n : NFSNode) (s : string) : M (Z * option error) := node_Write n (bytes_of_string s).

Definition node_Seek (n : NFSNode) (offset whence : Z) : M (result Z) :=
  with_open n os_O_RDONLY Err (fun f => f_Seek f offset whence).

Definition node_Name (n : NFSNode) : string :=
  if String.eqb (path n) "/" then "/" else path_Base (path n).

(** The entries other than the directory itself and its parent. *)
Definition without_dots (entries : list FileInfo) : list FileInfo :=
  filter (fun e => fi_Name e <> "."%string /\ fi_Name e <> ".."%string) entries.

Definition node_Readdir (n : NFSNode) (count : Z) : M (result (list FileInfo)) :=
  with_open n os_O_RDONLY Err (fun f s =>
    let '(r, s) := f_Readdir f count s in
    (match r with Ok entries => Ok (without_dots entries) | Err err => Err err end, s)).

Definition node_Readdirnames (n : NFSNode) (count : Z) : M (result (list string)) :=
  r ← node_Readdir n count;
  mret (match r with Ok entries => Ok (fi_Name <$> entries) | Err err => Err err end).

Definition node_Stat (n : NFSNode) : M (result FileInfo) := fs_call (fs_Stat (path n)).

Definition node_Sync (n : NFSNode) : M (result unit) :=
  r ← fs_call (fs_Stat (path n)); mret (match r with Ok _ => Ok tt | Err err => Err err end).

Definition node_Chdir (n : NFSNode) : M (result unit) := fs_call (fs_Chdir (path n)).

Definition node_Chmod (n : NFSNode) (mode : Z) : M (result unit) :=
  invalidate_attrs n ;; fs_call (fs_Chmod (path n) mode).
Definition node_Chown (n : NFSNode) (uid gid : Z) : M (result unit) :=
  invalidate_attrs n ;; fs_call (fs_Chown (path n) uid gid).
Definition node_Chtimes (n : NFSNode) (atime mtime : Z) : M (result unit) :=
  invalidate_attrs n ;; fs_call (fs_Chtimes (path n) atime mtime).

(** [ReadDir(count)]: at most [count] entries when it is positive. *)
Definition node_ReadDir (n : NFSNode) (count : Z) : M (result (list FileInfo)) :=
  r ← fs_call (fs_ReadDir (path n));
  mret (match r with
        | Err err => Err err
        | Ok entries =>
            let filtered := without_dots entries in
            Ok (if (0 <? count) && (count <? zlen filtered) then take (Z.to_nat count) filtered else filtered)
        end).
End Node.

(** ** Lemmas *)

Section NodeFacts.
Context {F FD RL Tree : Type} `{FileOpsLaws F FD Tree}.
#[local] Abbreviation M := (M F RL).
#[local] Abbreviation Srv := (Srv F RL).

(** The computation returns and changes at most the filesystem, not its tree. *)
Definition harmless {A} (m : M A) : Prop :=
  forall s, exists a f, m s = Some (a, upd_fs f s) /\ fs_tree f = fs_tree (s_fs s).

Lemma upd_fs_id (s : Srv) : upd_fs (s_fs s) s = s.
Proof. by destruct s. Qed.

Lemma harmless_ret {A} (a : A) : harmless (mret a).
Proof. intros s. exists a, (s_fs s). by rewrite upd_fs_id. Qed.

Lemma harmless_bind {A B} (m : M A) (k : A -> M B) : harmless m -> (forall a, harmless (k a)) -> harmless (m ≫= k).
Proof.
  intros Hm Hk s. destruct (Hm s) as (a & f & E & Ht). destruct (Hk a (upd_fs f s)) as (b & f' & E' & Ht').
  exists b, f'. unfold mbind, M_bind. rewrite E, E'. split; [done|]. simpl in Ht'. congruence.
Qed.

Lemma harmless_fs {A} (op : F -> A * F) : (forall s, fs_tree (op s).2 = fs_tree s) -> harmless (fs_call op).
Proof.
  intros Hop s. unfold fs_call. specialize (Hop (s_fs s)). destruct (op (s_fs s)) as [a f]. by exists a, f.
Qed.

Lemma harmless_with_open {A} n (fail : error -> A) (k : FD -> F -> A * F) :
  (forall fd s, fd_rdonly fd = true -> fs_tree (k fd s).2 = fs_tree s) -> harmless (with_open n os_O_RDONLY fail k).
Proof.
  intros Hk s. unfold with_open, mbind, M_bind, fs_call at 1.
  pose proof (open_tree (path n) 0 (s_fs s)) as Ht. pose proof (open_rdonly (path n) 0 (s_fs s)) as Hr.
  destruct (fs_OpenFile (path n) os_O_RDONLY 0 (s_fs s)) as [[fd|err] f]; simpl in Ht, Hr; [|by exists (fail err), f].
  specialize (Hr _ eq_refl). unfold fs_call. simpl. pose proof (Hk fd f Hr) as Hkt.
  destruct (k fd f) as [a f1]. simpl. pose proof (close_tree fd f1 Hr) as Hct.
  destruct (f_Close fd f1) as [e f2]. exists a, f2. split; [done|]. simpl in *. congruence.
Qed.

(** A write on a node: all that may change is the filesystem and, when it
    succeeds, the attributes, which become invalid. *)
Lemma node_write_run n op (s : Srv) a0 :
  s_nodes s !! node_addr n = Some (Some a0) ->
  exists r f, node_write n op s = Some (r,
    upd_fs f (match r.2 with
              | None => upd_nodes (<[node_addr n := Some (Attributes.Invalidate a0)]> (s_nodes s)) (s_nextNode s) s
              | Some _ => s
              end)).
Proof.
  intros Ha. unfold node_write, mbind, M_bind, fs_call at 1.
  destruct (fs_OpenFile (path n) os_O_WRONLY 0 (s_fs s)) as [[fd|err] f]; [|by exists (0, Some err), f].
  unfold fs_call at 1. simpl. destruct (op fd f) as [[w [err|]] f1]; simpl.
  - unfold fs_call. simpl. destruct (f_Close fd f1) as [e f2]. by exists (w, Some err), f2.
  - unfold invalidate_attrs, deref_attrs, node_attrs, set_attrs, modify, mbind, M_bind. simpl. rewrite Ha. simpl.
    unfold fs_call. simpl. destruct (f_Close fd f1) as [e f2]. by exists (w, None), f2.
Qed.

(** ** Properties *)

(** Using a node as a file to read is harmless: [Read], [ReadAt], [Seek],
    [Readdir], [Readdirnames], [ReadDir], [Stat], [Sync], [Chdir] and [Close]
    always return, leave the tree of files as it is and change nothing of the
    server, neither the cached attributes of the node nor its handles. *)
Theorem node_reads_harmless n :
  (forall len, harmless (node_Read n len)) /\ (forall len off, harmless (node_ReadAt n len off)) /\
  (forall off whence, harmless (node_Seek n off whence)) /\
  (forall count, harmless (node_Readdir n count)) /\ (forall count, harmless (node_Readdirnames n count)) /\
  (forall count, harmless (node_ReadDir n count)) /\
  harmless (node_Stat n) /\ harmless (node_Sync n) /\ harmless (node_Chdir n) /\ harmless (node_Close n).
Proof.
  assert (forall count, harmless (node_Readdir n count)) as Hrd.
  { intros count. apply harmless_with_open. intros fd s Hfd. pose proof (readdir_tree fd count s Hfd).
    by destruct (f_Readdir fd count s) as [[?|?] ?]. }
  repeat split; try done.
  - intros len. apply harmless_with_open. intros fd s Hfd. by apply read_tree.
  - intros len off. apply harmless_with_open. intros fd s Hfd. by apply readat_tree.
  - intros off whence. apply harmless_with_open. intros fd s Hfd. by apply seek_tree.
  - intros count. apply harmless_bind; [apply Hrd|]. intros r. apply harmless_ret.
  - intros count. apply harmless_bind; [apply harmless_fs, readdir_path_tree|]. intros r. apply harmless_ret.
  - apply harmless_fs, stat_tree.
  - apply harmless_bind; [apply harmless_fs, stat_tree|]. intros r. apply harmless_ret.
  - apply harmless_fs, chdir_tree.
  - apply harmless_ret.
Qed.

(** After a successful write no cached attribute of the node is used again; a
    failed one leaves them. *)
Theorem node_write_invalidates n op (s : Srv) a0 :
  s_nodes s !! node_addr n = Some (Some a0) ->
  exists r s', node_write n op s = Some (r, s') /\
    (r.2 = None -> exists a, s_nodes s' !! node_addr n = Some (Some a) /\ forall now, 0 <= now -> IsValid a now = false) /\
    (r.2 <> None -> s_nodes s' = s_nodes s).
Proof.
  intros Ha. destruct (node_write_run n op s a0 Ha) as (r & f & E). eexists r, _. split; [exact E|].
  destruct (r.2); simpl; (split; [|try done]); [done|]. intros _.
  exists (Attributes.Invalidate a0). rewrite lookup_insert_eq. split; [done|]. intros now Hnow.
  unfold IsValid, Attributes.Invalidate, time_zero, second. simpl. apply Z.ltb_ge. lia.
Qed.

(** What [Read] returns, as a function of the tree. *)
Lemma node_Read_tree n len (s s' : Srv) r r' s1 s1' :
  fs_tree (s_fs s) = fs_tree (s_fs s') ->
  node_Read n len s = Some (r, s1) -> node_Read n len s' = Some (r', s1') -> r' = r.
Proof.
  intros Ht. unfold node_Read, with_open, mbind, M_bind, fs_call.
  pose proof (open_tree_only (path n) (s_fs s) (s_fs s') Ht) as Ho.
  pose proof (fresh_read (path n) len (s_fs s) (s_fs s')) as Hf.
  destruct (fs_OpenFile (path n) os_O_RDONLY 0 (s_fs s)) as [[fd|e] f];
    destruct (fs_OpenFile (path n) os_O_RDONLY 0 (s_fs s')) as [[fd'|e'] f']; try done; simpl.
  - specialize (Hf _ _ _ _ Ht eq_refl eq_refl). destruct (f_Read fd len f) as [a g], (f_Read fd' len f') as [a' g'].
    simpl in Hf. subst a'. simpl. destruct (f_Close fd g), (f_Close fd' g'). by intros [= <- _] [= <- _].
  - intros [= <- _] [= <- _]. by rewrite Ho.
Qed.

(** [Read] starts at the beginning of the file every time: two calls in a row
    return the same bytes, whatever [Seek] does in between. *)
Theorem node_read_never_advances n len off whence (s : Srv) :
  exists r s1 x s2 s3, node_Read n len s = Some (r, s1) /\ node_Seek n off whence s1 = Some (x, s2) /\
    node_Read n len s2 = Some (r, s3).
Proof.
  assert (forall len, harmless (node_Read n len)) as Hr.
  { intros l. apply harmless_with_open. intros fd s0 Hfd. by apply read_tree. }
  assert (harmless (node_Seek n off whence)) as Hs.
  { apply harmless_with_open. intros fd s0 Hfd. by apply seek_tree. }
  destruct (Hr len s) as (r & f1 & E1 & T1). destruct (Hs (upd_fs f1 s)) as (x & f2 & E2 & T2).
  destruct (Hr len (upd_fs f2 (upd_fs f1 s))) as (r' & f3 & E3 & T3).
  eexists r, _, x, _, _. split; [done|]. split; [done|].
  replace r with r'; [exact E3|]. eapply node_Read_tree; [|exact E1|exact E3]. simpl in *. congruence.
Qed.
End NodeFacts.

(** ** Concrete runs *)

(** [MemFS] descriptors have no offset of their own: one that is used once
    starts at the beginning. *)
#[export] Instance memfs_ops : FileOps MemFS.state MemFS.fd := {|
  f_Read fd n s := f_ReadAt fd n 0 s;
  f_Write fd b s := f_WriteAt fd b 0 s;
  f_Seek fd off whence s := (Ok off, s);
  fs_Chdir p s := MemFS.with_node "chdir" p s (fun _ => (Ok tt, s));
  fs_ReadDir p s := (Ok ((fun cn => MemFS.info cn.1 cn.2) <$> MemFS.children p s), s)
|}.

#[export] Instance memfs_ops_laws : FileOpsLaws MemFS.state MemFS.fd MemFS.state.
Proof.
  constructor; try done.
  - intros fd n s _. simpl. by repeat case_match.
  - intros p s. simpl. unfold MemFS.with_node. by case_match.
  - intros p n s s' fd fd' s1 s1' Ht E E'. change (s = s') in Ht. subst s'. congruence.
  - intros p s s' Ht. change (s = s') in Ht. subst s'. by destruct (fs_OpenFile p os_O_RDONLY 0 s) as [[?|?] ?].
Qed.

Definition sample_node_state : Srv MemFS.state unit :=
  mkSrv sample_fs {[ 0%nat := Some (NewNFSAttrs 420 5 0 0 0 0) ]} 1 (NewFileHandleMap 0) (NewAttrCache 0 0) None
    None None (tuningFromExportOptions empty_options) (policyFromExportOptions empty_options) 0 [].

(** The file "a" holds "hello"; reading two bytes twice gives "he" twice. *)
Example node_read_run :
  match node_Read (mkNode 0 "/a") 2 sample_node_state with
  | Some (r1, s) =>
      r1 = (bytes_of_string "he", None) /\ (fst <$> node_Read (mkNode 0 "/a") 2 s) = Some (bytes_of_string "he", None)
  | None => False
  end.
Proof. vm_compute. done. Qed.

Lemma node_reads_harmless_witness :
  exists r f, node_Read (mkNode 0 "/a") 2 sample_node_state = Some (r, upd_fs f sample_node_state) /\
    fs_tree f = fs_tree (s_fs sample_node_state).
Proof. exact (proj1 (node_reads_harmless (RL := unit) (mkNode 0 "/a")) 2 sample_node_state). Defined.
