(* ===== verification/Readdir.v ===== *)
(** * Paging through a directory (src/nfs_proc_dir.go)

    A client lists a directory by repeated READDIR calls, each continuing at
    the cookie of the last entry it got.  The theorem of this file: however
    small the reply sizes it asks for, the client gets every entry exactly
    once, in order, and is told so after at most one request per entry. *)

From S2P Require Import Prelude Errors Xdr Attributes Rpc MinHeap FileHandle Lru AttrCache Path.
From S2P Require Import Options NetIP Auth Filesystem DirCache Server Operations Safety OpsSafe.
From S2P Require Import Procs ProcsDir ProcsSafe Sample.
Open Scope Z_scope.

Section Readdir.
Context {F FD RL : Type} `{SymlinkFileSystem F FD} `{OpLimiter RL} `{Env}.
#[local] Abbreviation Srv := (Srv F RL).

Definition fileid (s : Srv) (n : NFSNode) : Z :=
  match s_nodes s !! node_addr n with Some (Some a) => FileId a | _ => 0 end.

(** The encoding of consecutive entries, the first one having index [i]. *)
Fixpoint encode_entries (s : Srv) (i : Z) (es : list NFSNode) : list byte :=
  match es with
  | [] => []
  | e :: es => readdir_entry (fileid s e) (entry_name (path e)) (i + 1) ++ encode_entries s (i + 1) es
  end.

(** The cookie to continue at: the last eight bytes of the entries. *)
Definition last_cookie (page : list byte) : Z := be_val (drop (length page - 8) page).

(** A client that fetches page after page; [counts k] is the count of the
    request made with [k] more to spare, [hdr] what precedes the entries. *)
Fixpoint fetch_all (fuel : nat) (counts : nat -> Z) (hdr : list byte) (s : Srv) (es : list NFSNode)
    (cookie : Z) : option (list byte) :=
  match fuel with
  | O => None
  | S fuel =>
      match readdir_loop 0 es cookie (readdir_max (counts fuel)) hdr s with
      | Some ((buf, true), _) =>
          let page := drop (length hdr) buf in
          rest ← fetch_all fuel counts hdr s es (last_cookie page);
          Some (page ++ rest)
      | Some ((buf, false), _) => Some (drop (length hdr) buf)
      | None => None
      end
  end.

Definition has_attrs (s : Srv) (n : NFSNode) : Prop :=
  exists a, s_nodes s !! node_addr n = Some (Some a).

(** ** Lemmas *)

Lemma encode_entries_app s i es es' :
  encode_entries s i (es ++ es') = encode_entries s i es ++ encode_entries s (i + zlen es) es'.
Proof.
  revert i. induction es as [|e es IH]; intros i; cbn [encode_entries app].
  - unfold zlen; simpl. by rewrite Z.add_0_r.
  - rewrite IH, <- app_assoc. do 3 f_equal. unfold zlen; simpl. lia.
Qed.

(** The loop skips the entries before the cookie. *)
Lemma readdir_loop_skip (s : Srv) pre es i cookie m buf :
  i + zlen pre = cookie ->
  readdir_loop i (pre ++ es) cookie m buf s = readdir_loop cookie es cookie m buf s.
Proof.
  revert i. induction pre as [|e pre IH]; intros i Hi; cbn [app readdir_loop].
  - unfold zlen in Hi; simpl in Hi. by replace cookie with i by lia.
  - unfold zlen in *; simpl in Hi. destruct (Z.ltb_spec i cookie); [|lia]. apply IH. lia.
Qed.

(** From the cookie on it writes entries until the reply is full. *)
Lemma readdir_loop_fill (s : Srv) es i cookie m buf :
  cookie <= i -> Forall (has_attrs s) es ->
  exists k, (k <= length es)%nat /\
    readdir_loop i es cookie m buf s =
      Some ((buf ++ encode_entries s i (take k es), bool_decide (k < length es)%nat), s) /\
    (es <> [] -> zlen buf < m -> (0 < k)%nat).
Proof.
  revert i buf. induction es as [|e es IH]; intros i buf Hi Hes.
  { exists 0%nat. simpl. rewrite app_nil_r. done. }
  apply Forall_cons in Hes as [[a Ha] Hes]. cbn [readdir_loop].
  destruct (Z.ltb_spec i cookie); [lia|].
  destruct (Z.leb_spec m (zlen buf)) as [Hfull|Hroom].
  { exists 0%nat. split; [lia|]. split; [|lia]. simpl. by rewrite app_nil_r. }
  unfold node_attrs, mbind, M_bind. rewrite Ha.
  destruct (IH (i + 1) (buf ++ readdir_entry (FileId a) (entry_name (path e)) (i + 1)) ltac:(lia) Hes)
    as (k & Hk & E & _).
  exists (S k). split; [simpl; lia|]. split; [|lia].
  rewrite E. cbn [take encode_entries]. unfold fileid. rewrite Ha, <- app_assoc.
  do 4 f_equal. apply bool_decide_ext. simpl. lia.
Qed.

Lemma last_cookie_app b z : is_u64 z -> last_cookie (b ++ be_bytes 8 z) = z.
Proof.
  intros Hz. unfold last_cookie. rewrite length_app, be_bytes_length.
  replace (length b + 8 - 8)%nat with (length b) by lia. rewrite drop_app_length.
  by apply be_val_bytes_u64.
Qed.

Lemma last_cookie_entries s i es :
  es <> [] -> is_u64 (i + zlen es) -> last_cookie (encode_entries s i es) = i + zlen es.
Proof.
  intros Hne Hu. destruct es as [|e es _] using rev_ind; [done|].
  rewrite encode_entries_app. cbn [encode_entries]. rewrite app_nil_r. unfold readdir_entry.
  rewrite zlen_app in *. change (zlen [e]) with 1 in *.
  rewrite !app_assoc. unfold xdrEncodeUint64 at 2. rewrite last_cookie_app; [lia|].
  replace (i + zlen es + 1) with (i + (zlen es + 1)) by lia. done.
Qed.

Lemma fetch_all_spec (s : Srv) es hdr counts fuel cookie :
  Forall (has_attrs s) es -> zlen hdr < 128 -> is_u64 (zlen es) ->
  (cookie <= length es)%nat -> (length es - cookie < fuel)%nat ->
  fetch_all fuel counts hdr s es (Z.of_nat cookie) =
    Some (encode_entries s (Z.of_nat cookie) (drop cookie es)).
Proof.
  intros Hes Hh Hu. revert cookie. induction fuel as [|fuel IH]; intros cookie Hc Hf; [lia|].
  cbn [fetch_all]. set (m := readdir_max (counts fuel)).
  assert (128 <= m) as Hm by (unfold m, readdir_max; destruct (Z.ltb_spec (counts fuel - 100) 128); lia).
  assert (zlen (take cookie es) = Z.of_nat cookie) as Ht by (unfold zlen; rewrite length_take; lia).
  assert (readdir_loop 0 es (Z.of_nat cookie) m hdr s =
          readdir_loop (Z.of_nat cookie) (drop cookie es) (Z.of_nat cookie) m hdr s) as ->.
  { rewrite <- (take_drop cookie es) at 1. apply readdir_loop_skip. lia. }
  destruct (readdir_loop_fill s (drop cookie es) (Z.of_nat cookie) (Z.of_nat cookie) m hdr)
    as (k & Hk & -> & Hpos); [lia|by apply Forall_drop|].
  rewrite length_drop in *. rewrite drop_app_length. case_bool_decide as Hlt.
  - assert (drop cookie es <> []) as Hne
      by (intros E; apply (f_equal length) in E; rewrite length_drop in E; simpl in E; lia).
    specialize (Hpos Hne ltac:(lia)).
    assert (length (take k (drop cookie es)) = k) as Hl by (rewrite length_take, length_drop; lia).
    rewrite last_cookie_entries.
    2: { intros E. rewrite E in Hl. simpl in Hl. lia. }
    2: { unfold is_u64, zlen in *. rewrite Hl. lia. }
    unfold zlen. rewrite Hl, <- Nat2Z.inj_add, IH by lia. simpl. f_equal.
    rewrite <- drop_drop. rewrite <- (take_drop k (drop cookie es)) at 3.
    rewrite encode_entries_app. unfold zlen. rewrite Hl, Nat2Z.inj_add. done.
  - rewrite take_ge; [done|]. rewrite length_drop. lia.
Qed.

(** ** Properties *)

(** The bytes READDIR writes before the entries are 100. *)
Lemma readdir_header_length attrs verf :
  length verf = 8%nat -> zlen (readdir_header attrs verf) = 100.
Proof.
  intros Hv. unfold readdir_header, encodeFileAttributes, xdrEncodeUint32, xdrEncodeUint64, zlen.
  rewrite !length_app, !be_bytes_length, Hv. reflexivity.
Qed.

(** C18: listing a directory page by page.  With the entries [es] of a
    directory, a client that starts at cookie 0 and continues at the cookie of
    the last entry of each page, asking for whatever counts, is done after at
    most one request per entry plus one, and has received every entry exactly
    once and in order. *)
Theorem readdir_pages_complete (s : Srv) es attrs verf counts :
  Forall (has_attrs s) es -> length verf = 8%nat -> is_u64 (zlen es) ->
  fetch_all (S (length es)) counts (readdir_header attrs verf) s es 0 = Some (encode_entries s 0 es).
Proof.
  intros Hes Hv Hu. pose proof (readdir_header_length attrs verf Hv).
  apply (fetch_all_spec s es (readdir_header attrs verf) counts (S (length es)) 0 Hes); [lia|done|lia|lia].
Qed.

End Readdir.

Lemma readdir_pages_complete_witness :
  let a i := mkNFSAttrs 420 0 i 0 0 0 0 0 in
  let s : Srv MemFS.state unit :=
    mkSrv ∅ (list_to_map [(1%nat, Some (a 11)); (2%nat, Some (a 12)); (3%nat, Some (a 13))]) 4
      (NewFileHandleMap 0) (NewAttrCache 0 0) None None None
      (tuningFromExportOptions empty_options) (policyFromExportOptions empty_options) 0 [] in
  let es := [mkNode 1 "/a"; mkNode 2 "/b"; mkNode 3 "/c"] in
  fetch_all 4 (fun _ => 10) (readdir_header (a 1) (be_bytes 8 0)) s es 0 = Some (encode_entries s 0 es).
Proof.
  intros a s es. apply (readdir_pages_complete s es (a 1) (be_bytes 8 0) (fun _ => 10)).
  - repeat constructor; eexists; vm_compute; reflexivity.
  - vm_compute. reflexivity.
  - vm_compute. split; [discriminate|reflexivity].
Defined.
