(* ===== verification/Service.v ===== *)
(** * The server as a whole (src/absnfs.go New, src/nfs_handlers.go HandleCall)

    Construction of the server and the theorems about every call it can
    receive: it returns, it keeps the server's invariant, a read-only export
    is never modified, and the dispatcher's refusals have no effect. *)

From S2P Require Import Prelude Errors Xdr Attributes Rpc MinHeap FileHandle Lru AttrCache Path.
From S2P Require Import Options NetIP Auth Filesystem DirCache Server Operations Safety OpsSafe.
From S2P Require Import Procs ProcsDir ProcsSafe Sample RateLimiter.
Open Scope Z_scope.

Section Service.
Context {F FD RL : Type} `{SymlinkFileSystem F FD} `{OpLimiter RL} `{Env}.
#[local] Abbreviation Srv := (Srv F RL).

(** [New]: options are checked and completed, the caches, the handle map and
    the limiter are built, and the root directory is inspected.  [tick] is the
    number of clock readings taken before. *)
Definition New (numCPU : Z) (options : ExportOptions) (fs : F) (tick : nat) : result Srv :=
  match New_options numCPU options with
  | Err err => Err err
  | Ok options =>
      let attrCache := ConfigureNegativeCaching
        (NewAttrCache (o_AttrCacheTimeout options) (o_AttrCacheSize options))
        (o_CacheNegativeLookups options) (o_NegativeCacheTimeout options) in
      let dirCache :=
        if o_EnableDirCache options
        then Some (NewDirCache (o_DirCacheTimeout options) (o_DirCacheMaxEntries options)
                     (o_DirCacheMaxDirSize options))
        else None in
      let rateLimiter :=
        if o_EnableRateLimiting options
        then (fun c => NewRateLimiter c clock tick) <$> o_RateLimitConfig options else None in
      match fs_Stat "/" fs with
      | (Err err, _) => Err err
      | (Ok info, fs) =>
          let rootAttrs := Refresh (attrs_of_info info 0 0 0) (clock tick) in
          Ok (mkSrv fs {[ 0%nat := Some rootAttrs ]} 1 (NewFileHandleMap 0) attrCache dirCache
                rateLimiter (Some []) (tuningFromExportOptions options) (policyFromExportOptions options)
                (S tick) [])
      end
  end.

(** The invariant of a running server, whatever its options and files. *)
Definition server_ok (s : Srv) : Prop := srv_inv (s_policy s) (s_tuning s) (fun _ => True) s.

(** From [s] to [s'] the server stays consistent under the same options, and
    keeps every invariant of the wrapped filesystem. *)
Definition served (s s' : Srv) : Prop :=
  server_ok s' /\ s_policy s' = s_policy s /\ s_tuning s' = s_tuning s /\
  forall P : F -> Prop, FSInv F FD rooted (writable_by (s_policy s)) P -> P (s_fs s) -> P (s_fs s').

(** A request: a decoded call, the bytes of its arguments, its origin, and
    whether a policy update was draining requests when it arrived. *)
Record request := mkRequest {
  rq_draining : bool; rq_call : RPCCall; rq_body : list byte; rq_ctx : AuthContext
}.

Definition serve (s : Srv) (r : request) : option (result RPCReply * Srv) :=
  HandleCall (rq_draining r) (rq_call r) (rq_body r) (rq_ctx r) s.

Fixpoint serve_all (s : Srv) (rs : list request) : option (list (result RPCReply) * Srv) :=
  match rs with
  | [] => Some ([], s)
  | r :: rs =>
      '(reply, s) ← serve s r;
      '(replies, s) ← serve_all s rs;
      Some (reply :: replies, s)
  end.

(** ** Lemmas *)

Lemma server_ok_of pol tun P s : srv_inv pol tun P s -> server_ok s.
Proof. intros [Hp Ht ???????]. unfold server_ok. rewrite Hp, Ht. by constructor. Qed.

Lemma srv_inv_of (P : F -> Prop) s : server_ok s -> P (s_fs s) -> srv_inv (s_policy s) (s_tuning s) P s.
Proof. intros [] Hf. by constructor. Qed.

Lemma served_refl s : server_ok s -> served s s.
Proof. done. Qed.

Lemma served_trans s1 s2 s3 : served s1 s2 -> served s2 s3 -> served s1 s3.
Proof.
  intros (_ & Hp & Ht & Hf) (Hok & Hp' & Ht' & Hf'). split; [done|]. split; [congruence|].
  split; [congruence|]. intros P HP Hs. apply Hf'; [by rewrite Hp|]. by apply Hf.
Qed.

(** What is safe for every invariant of the filesystem serves. *)
Lemma safe_served {A} s (m : M F RL A) :
  (forall P, FSInv F FD rooted (writable_by (s_policy s)) P ->
    safe (s_policy s) (s_tuning s) P s m (fun _ _ => True)) ->
  server_ok s -> exists a s', m s = Some (a, s') /\ served s s'.
Proof.
  intros Hm Hs. destruct (Hm _ (FSInv_any _ _) Hs) as (a & s' & E & Hs' & _ & _).
  exists a, s'. split; [done|]. split; [by eapply server_ok_of|].
  split; [by destruct Hs'|]. split; [by destruct Hs'|]. intros P HP Hf.
  destruct (Hm P HP (srv_inv_of P s Hs Hf)) as (a' & s'' & E' & Hs'' & _ & _). simplify_eq. by destruct Hs''.
Qed.

(** A read-only export keeps its tree of files. *)
Lemma served_tree {Tree} `{!FSLaws F FD Tree} s s' :
  served s s' -> ReadOnly (s_policy s) = true -> fs_tree (s_fs s') = fs_tree (s_fs s).
Proof.
  intros (_ & _ & _ & Hf) Hro. apply (Hf _ (FSInv_tree rooted _ (fs_tree (s_fs s)))); [done|].
  unfold writable_by. by rewrite Hro.
Qed.

Lemma serve_step s r : server_ok s -> exists reply s', serve s r = Some (reply, s') /\ served s s'.
Proof. apply (safe_served s (fun s => serve s r)). intros P HP. by apply (HandleCall_safe _ _ P). Qed.

Lemma serve_all_ok rs s :
  server_ok s ->
  exists replies s', serve_all s rs = Some (replies, s') /\ length replies = length rs /\ served s s'.
Proof.
  revert s. induction rs as [|r rs IH]; intros s Hs; [by exists [], s|].
  destruct (serve_step s r Hs) as (reply & s1 & E1 & Hs1).
  destruct (IH s1 (proj1 Hs1)) as (replies & s2 & E2 & Hl & Hs2).
  exists (reply :: replies), s2. cbn [serve_all]. rewrite E1. simpl. rewrite E2. simpl.
  split; [done|]. split; [by rewrite Hl|]. by eapply served_trans.
Qed.

Lemma New_ok numCPU o fs t s : New numCPU o fs t = Ok s -> server_ok s.
Proof.
  unfold New. destruct (New_options numCPU o) as [o'|e] eqn:Eo; [|done].
  destruct (fs_Stat "/" fs) as [[info|e] fs']; [|done]. intros [= <-].
  constructor; cbn [s_policy s_tuning s_fs s_fileMap s_attrCache s_dirCache s_nodes].
  - done.
  - done.
  - by eapply New_options_tuning_ok.
  - done.
  - apply fm_inv_new.
  - by apply fm_bounded_new.
  - intros h n Hh. cbn [handles NewFileHandleMap] in Hh. by rewrite lookup_empty in Hh.
  - by apply (ac_unit_inv (NewAttrCache (o_AttrCacheTimeout o') (o_AttrCacheSize o'))
      (OpConfigure (o_CacheNegativeLookups o') (o_NegativeCacheTimeout o'))); [apply NewAttrCache_inv|].
  - intros c Hc. destruct (o_EnableDirCache o'); [|done]. injection Hc as <-. apply NewDirCache_inv.
Qed.

(** [New] looks at the filesystem once. *)
Lemma New_fs numCPU o fs t s : New numCPU o fs t = Ok s -> s_fs s = (fs_Stat "/" fs).2.
Proof.
  unfold New. destruct (New_options numCPU o); [|done].
  by destruct (fs_Stat "/" fs) as [[info|e] fs']; [intros [= <-]|].
Qed.

Lemma New_ReadOnly numCPU o fs t s : New numCPU o fs t = Ok s -> ReadOnly (s_policy s) = o_ReadOnly o.
Proof.
  unfold New, New_options. destruct (_ && _); [done|].
  by destruct (fs_Stat "/" fs) as [[info|e] fs']; [intros [= <-]|].
Qed.

(** An invariant of the filesystem survives any requests. *)
Lemma served_invariant (P : F -> Prop) numCPU o fs t s rs :
  FSInv F FD rooted (negb (o_ReadOnly o)) P -> P fs -> New numCPU o fs t = Ok s ->
  exists replies s', serve_all s rs = Some (replies, s') /\ P (s_fs s').
Proof.
  intros HP Hfs Hs. destruct (serve_all_ok rs s (New_ok _ _ _ _ _ Hs)) as (replies & s' & E & _ & Hs').
  exists replies, s'. split; [done|]. destruct Hs' as (_ & _ & _ & Hk). apply Hk.
  - unfold writable_by. by rewrite (New_ReadOnly _ _ _ _ _ Hs).
  - rewrite (New_fs _ _ _ _ _ Hs). by apply inv_stat.
Qed.

(** ** Properties *)

(** C1: a server built by [New] answers every sequence of requests: for any
    calls, argument bytes and credentials, no handler panics or fails to
    return, every request gets its outcome, and the server stays consistent
    (handle map, caches, node store) and so ready for the next one. *)
Theorem server_answers_every_request numCPU o fs t s rs :
  New numCPU o fs t = Ok s ->
  exists replies s', serve_all s rs = Some (replies, s') /\ length replies = length rs /\ server_ok s'.
Proof.
  intros Hs. destruct (serve_all_ok rs s (New_ok _ _ _ _ _ Hs)) as (replies & s' & E & Hl & Hok & _).
  eauto 10.
Qed.

(** C9: a read-only export is immutable: no sequence of NFS and MOUNT
    requests changes the tree of files of the wrapped filesystem. *)
Theorem read_only_export_immutable {Tree} `{!FSLaws F FD Tree} numCPU o fs t s rs :
  New numCPU o fs t = Ok s -> o_ReadOnly o = true ->
  exists replies s', serve_all s rs = Some (replies, s') /\ fs_tree (s_fs s') = fs_tree fs.
Proof.
  intros Hs Hro. destruct (serve_all_ok rs s (New_ok _ _ _ _ _ Hs)) as (replies & s' & E & _ & Hs').
  exists replies, s'. split; [done|]. rewrite (served_tree s s' Hs').
  - by rewrite (New_fs _ _ _ _ _ Hs), stat_tree.
  - by rewrite (New_ReadOnly _ _ _ _ _ Hs).
Qed.

(** C14: while a policy update is draining requests, and when authentication
    fails, no handler runs: the reply is JUKEBOX, respectively a denial, and
    neither the filesystem nor the handles nor the caches change. *)
Theorem refused_calls_have_no_effect s call body ctx :
  server_ok s ->
  HandleCall true call body ctx s =
    Some (Ok (with_data (initial_reply call) (xdrEncodeUint32 NFSERR_JUKEBOX)), s) /\
  (Allowed (fst (ValidateAuthentication ctx (s_policy s))) = false ->
   exists s', HandleCall false call body ctx s =
       Some (Ok (set_Status (initial_reply call) MSG_DENIED), s') /\
     s_fs s' = s_fs s /\ s_fileMap s' = s_fileMap s /\ s_nodes s' = s_nodes s /\
     s_attrCache s' = s_attrCache s /\ s_dirCache s' = s_dirCache s).
Proof.
  intros Hi. split; [done|]. intros Hd. pose proof (si_tuning_ok _ _ _ _ Hi) as [_ [t Ht]].
  unfold HandleCall, timeout_of, with_timeout, time_Now, mbind, M_bind, gets, record, modify.
  rewrite Ht. cbn. destruct (ValidateAuthentication ctx (s_policy s)) as [r ctx'].
  simpl in Hd. rewrite Hd. eexists. split; [done|]. done.
Qed.

(** The procedures that change files, and what each answers on a read-only
    export: MKNOD (11) and LINK (15) are not supported on any export. *)
Definition mutating_procs : list Z := [2; 7; 8; 9; 10; 11; 12; 13; 14; 15; 21].
Definition read_only_status (proc : Z) : Z :=
  if bool_decide (proc ∈ [11; 15]) then NFSERR_NOTSUPP else NFSERR_ROFS.

(** The status word of a reply. *)
Definition reply_status (r : RPCReply) : option Z :=
  match Data r with DataBytes b => Some (be_val (take 4 b)) | _ => None end.

(** C15: on a read-only export each procedure that changes files is refused,
    whatever its arguments, and changes nothing but how much of the arguments
    has been read: SETATTR, WRITE, CREATE, MKDIR, SYMLINK, REMOVE, RMDIR, RENAME
    and COMMIT answer NFSERR_ROFS, MKNOD and LINK answer NFSERR_NOTSUPP. *)
Theorem mutations_refused_read_only s proc handler body reply ctx :
  ReadOnly (s_policy s) = true -> proc ∈ mutating_procs -> nfsHandlers proc = Some handler ->
  exists r s', handler body reply ctx s = Some (r, s') /\ reply_status r = Some (read_only_status proc) /\
    s' = if bool_decide (proc ∈ [11; 15]) then upd_unread (s_unread s') s else s.
Proof.
  intros Hro Hin. unfold mutating_procs in Hin. rewrite !elem_of_cons, elem_of_nil in Hin.
  destruct_or! Hin; subst proc; simpl; intros [= <-]; try done;
  unfold handleSetattr, handleWrite, handleCreate, handleMkdir, handleSymlink, handleMknod, handleRemove, handleRmdir,
    handleRename, handleLink, handleCommit, read_to, modify, mbind, M_bind, read_only, gets; rewrite ?Hro;
    do 2 eexists; split; done.
Qed.

End Service.

(** ** Concrete runs *)

Definition sample_server (readOnly : bool) : Srv MemFS.state unit :=
  match New 4 (sample_options readOnly) sample_fs 0 with
  | Ok s => s
  | Err _ => mkSrv ∅ ∅ 0 (NewFileHandleMap 0) (NewAttrCache 0 0) None None None
               (tuningFromExportOptions empty_options) (policyFromExportOptions empty_options) 0 []
  end.

Lemma sample_server_New readOnly : New 4 (sample_options readOnly) sample_fs 0 = Ok (sample_server readOnly).
Proof. by destruct readOnly; vm_compute. Qed.

Lemma sample_server_ok readOnly : server_ok (sample_server readOnly).
Proof. eapply New_ok, sample_server_New. Qed.

(** MNT "/", then MKDIR "x" in the mounted directory, then WRITE to it. *)
Definition sample_requests : list request :=
  [mkRequest false (nfs_call MOUNT_PROGRAM 1) (xdrEncodeString "/") root_ctx;
   mkRequest false (nfs_call NFS_PROGRAM 9) (dirop_args 1 "x" ++ empty_sattr) root_ctx;
   mkRequest false (nfs_call NFS_PROGRAM 3) (dirop_args 1 "a") root_ctx].

Lemma server_answers_every_request_witness :
  exists replies s', serve_all (sample_server false) sample_requests = Some (replies, s') /\
    length replies = 3%nat /\ server_ok s'.
Proof.
  exact (server_answers_every_request 4 (sample_options false) sample_fs 0 (sample_server false)
    sample_requests (sample_server_New false)).
Defined.

Lemma read_only_export_immutable_witness :
  exists replies s', serve_all (sample_server true) sample_requests = Some (replies, s') /\
    s_fs s' = sample_fs.
Proof.
  exact (read_only_export_immutable 4 (sample_options true) sample_fs 0 (sample_server true)
    sample_requests (sample_server_New true) eq_refl).
Defined.

(** The same requests on a writable export do change the tree, and all three
    succeed. *)
Example sample_requests_writable :
  match serve_all (sample_server false) sample_requests with
  | Some (replies, s) =>
      map (fun x => match x with Ok p => reply_status p | Err _ => None end) replies
        = [Some 0; Some 0; Some 0] /\
      is_Some ((s_fs s : gmap string MemFS.node) !! "/x"%string)
  | None => False
  end.
Proof. vm_compute. split; [reflexivity|by eexists]. Qed.

Lemma refused_calls_witness :
  exists s', HandleCall false (nfs_call NFS_PROGRAM 9) []
      (mkAuthContext "10.0.0.9" 700 (mkRPCCredential 77 []) None false 0 0) (sample_server false) =
    Some (Ok (set_Status (initial_reply (nfs_call NFS_PROGRAM 9)) MSG_DENIED), s') /\
    s_fs s' = s_fs (sample_server false) /\ s_fileMap s' = s_fileMap (sample_server false) /\
    s_nodes s' = s_nodes (sample_server false) /\
    s_attrCache s' = s_attrCache (sample_server false) /\
    s_dirCache s' = s_dirCache (sample_server false).
Proof.
  exact (proj2 (refused_calls_have_no_effect (sample_server false) (nfs_call NFS_PROGRAM 9) []
    (mkAuthContext "10.0.0.9" 700 (mkRPCCredential 77 []) None false 0 0) (sample_server_ok false))
    ltac:(vm_compute; reflexivity)).
Defined.

Lemma mutations_refused_witness :
  (exists r s', handleCreate (dirop_args 1 "x") (initial_reply (nfs_call NFS_PROGRAM 8)) root_ctx
      (sample_server true) = Some (r, s') /\ reply_status r = Some NFSERR_ROFS /\ s' = sample_server true) /\
  (exists r s', handleMknod (dirop_args 1 "x") (initial_reply (nfs_call NFS_PROGRAM 11)) root_ctx
      (sample_server true) = Some (r, s') /\ reply_status r = Some NFSERR_NOTSUPP /\
      s' = upd_unread (s_unread s') (sample_server true)).
Proof.
  split.
  - exact (mutations_refused_read_only (sample_server true) 8 handleCreate (dirop_args 1 "x")
      (initial_reply (nfs_call NFS_PROGRAM 8)) root_ctx ltac:(vm_compute; reflexivity)
      ltac:(unfold mutating_procs; rewrite !elem_of_cons; tauto) eq_refl).
  - exact (mutations_refused_read_only (sample_server true) 11 handleMknod (dirop_args 1 "x")
      (initial_reply (nfs_call NFS_PROGRAM 11)) root_ctx ltac:(vm_compute; reflexivity)
      ltac:(unfold mutating_procs; rewrite !elem_of_cons; tauto) eq_refl).
Defined.

(** The same server with the rate limiter of [RateLimiter] in IEEE arithmetic:
    the third MNT within a few milliseconds is turned away. *)
Definition limited_options : ExportOptions :=
  mkExport false false [] "none" false 0 0 0 0 true 0 true 0 0 0 0 0 0 false false false 0 0
    true None None None None.

#[local] Instance map_order : MapRange.
Proof. by exists (fun _ _ l => l). Defined.

Example mounts_rate_limited :
  let mnt := mkRequest false (nfs_call MOUNT_PROGRAM 1) (xdrEncodeString "/") root_ctx in
  match New (RL := RateLimiter SpecFloat.spec_float) 4 limited_options sample_fs 0 with
  | Ok s =>
      match serve_all s [mnt; mnt; mnt] with
      | Some (replies, _) =>
          map (fun x => match x with Ok p => reply_status p | Err _ => None end) replies
            = [Some 0; Some 0; Some 10006]
      | None => False
      end
  | Err _ => False
  end.
Proof. vm_compute. reflexivity. Qed.
