(* ===== verification/Handles.v ===== *)
(** * File handles stay valid from one request to the next

    Only [allocate] touches the handle map while a request is served.  The
    first part shows this once and for all, for any relation between handle
    maps that is reflexive, transitive and respected by [Allocate]; the second
    part is the relation that clients rely on: a handle they were given keeps
    naming the same path. *)

From S2P Require Import Prelude Errors Xdr Attributes Rpc MinHeap FileHandle Lru AttrCache Path.
From S2P Require Import Options NetIP Auth Filesystem DirCache Server Operations Safety OpsSafe.
From S2P Require Import Procs ProcsDir ProcsSafe Sample Service.
Open Scope Z_scope.

(** ** Computations and the handle map *)

Section Frame.
Context {F FD RL : Type} `{SymlinkFileSystem F FD} `{OpLimiter RL} `{Env}.
#[local] Abbreviation M := (M F RL).
Variable R : FileHandleMap -> FileHandleMap -> Prop.
Context `{!PreOrder R}.

(** The handle map before and after the computation is related by [R]. *)
Definition within {A} (m : M A) : Prop := forall s a s', m s = Some (a, s') -> R (s_fileMap s) (s_fileMap s').

Lemma within_ret {A} (a : A) : within (mret a).
Proof. by intros s b s' [= <- <-]. Qed.
Lemma within_panic {A} : within (panic (A := A)).
Proof. done. Qed.
Lemma within_bind {A B} (m : M A) (k : A -> M B) : within m -> (forall a, within (k a)) -> within (m ≫= k).
Proof.
  intros Hm Hk s b s' E. unfold mbind, M_bind in E. destruct (m s) as [[a s1]|] eqn:E1; [|done].
  etrans; [by eapply Hm|by eapply Hk].
Qed.
Lemma within_gets {A} (f : Srv F RL -> A) : within (gets f).
Proof. by intros s b s' [= <- <-]. Qed.
Lemma within_modify f : (forall s, s_fileMap (f s) = s_fileMap s) -> within (modify f).
Proof. intros Hf s b s' [= <- <-]. by rewrite Hf. Qed.
Lemma within_fs {A} (op : F -> A * F) : within (fs_call op).
Proof. intros s b s' E. unfold fs_call in E. destruct (op (s_fs s)). by injection E as <- <-. Qed.
Lemma within_node_attrs n : within (node_attrs n).
Proof. intros s b s' E. unfold node_attrs in E. destruct (s_nodes s !! _); [|done]. by injection E as <- <-. Qed.
Lemma within_new_node p a : within (new_node p a).
Proof. by intros s b s' [= <- <-]. Qed.
Lemma within_now : within time_Now.
Proof. by intros s b s' [= <- <-]. Qed.
Lemma within_choice : within select_choice.
Proof. by intros s b s' [= <- <-]. Qed.
Lemma within_read_to r : within (read_to r).
Proof. by apply within_modify. Qed.
End Frame.

Create HintDb frame_db.
#[export] Hint Resolve within_ret within_panic within_gets within_fs within_node_attrs within_new_node
  within_now within_choice within_read_to : frame_db.

Ltac within_go :=
  repeat first
    [ solve [eauto with frame_db typeclass_instances]
    | lazymatch goal with |- within _ (_ ≫= _) => apply within_bind; [exact _| |intros ?; cbv beta] end
    | apply within_modify; [exact _|intros ?; reflexivity]
    | lazymatch goal with
      | |- within _ (match ?x with _ => _ end) => destruct x
      | |- within _ (let '(_, _) := ?x in _) => destruct x
      end ].

Section FrameOps.
Context {F FD RL : Type} `{SymlinkFileSystem F FD} `{OpLimiter RL} `{Env}.
Variable R : FileHandleMap -> FileHandleMap -> Prop.
Context `{!PreOrder R}.
#[local] Abbreviation within := (within (F := F) (RL := RL) R).

Lemma within_rate_limited ip op : within (rate_limited ip op).
Proof. unfold rate_limited, record. within_go. Qed.
Lemma within_lookupNode h : within (lookupNode h).
Proof. unfold lookupNode. within_go. Qed.
Lemma within_deref n : within (deref_attrs n).
Proof. unfold deref_attrs. within_go. Qed.
Lemma within_read_only : within read_only.
Proof. unfold read_only. within_go. Qed.
#[local] Hint Resolve within_rate_limited within_lookupNode within_deref within_read_only : frame_db.

Lemma within_timed_out op sel : within (timed_out op sel).
Proof. unfold timed_out, timeout_of, with_timeout, ctx_done, record. within_go. Qed.
Lemma within_Get p : within (attrCache_Get p).
Proof. unfold attrCache_Get, record. within_go. Qed.
Lemma within_dirGet p : within (dirCache_Get p).
Proof. unfold dirCache_Get. within_go. Qed.
#[local] Hint Resolve within_timed_out within_Get within_dirGet : frame_db.

Lemma within_Lookup p : within (Lookup p).
Proof. unfold Lookup, record, refresh, attrCache_Put, attrCache_PutNegative. within_go. Qed.
Lemma within_GetAttr n : within (GetAttr n).
Proof. unfold GetAttr, refresh, attrCache_Put. within_go. Qed.
#[local] Hint Resolve within_Lookup within_GetAttr : frame_db.
Lemma within_SetAttr n a : within (SetAttr n a).
Proof. unfold SetAttr, guarded, refresh, set_attrs, attrCache_Invalidate. within_go. Qed.
Lemma within_Truncate n z : within (node_Truncate n z).
Proof. unfold node_Truncate, set_attrs. within_go. Qed.
Lemma within_Read n o c : within (Read n o c).
Proof. unfold Read. within_go. Qed.
Lemma within_Write n o d : within (Write n o d).
Proof. unfold Write, attrCache_Invalidate, refresh_size, refresh, set_attrs. within_go. Qed.
Lemma within_created d p : within (invalidate_created d p).
Proof.
  unfold invalidate_created, attrCache_Invalidate, attrCache_InvalidateNegativeInDir, dirCache_Invalidate. within_go.
Qed.
#[local] Hint Resolve within_created : frame_db.
Lemma within_Create d name a : within (Create d name a).
Proof. unfold Create. within_go. Qed.
Lemma within_Remove d name : within (Remove d name).
Proof. unfold Remove, attrCache_Invalidate, dirCache_Invalidate. within_go. Qed.
Lemma within_Rename d n d' n' : within (Rename d n d' n').
Proof.
  unfold Rename, attrCache_Invalidate, attrCache_InvalidateNegativeInDir, dirCache_Invalidate. within_go.
Qed.
Lemma within_entries d es : within (entries_to_nodes d es).
Proof. induction es as [|e es IH]; cbn [entries_to_nodes]; within_go. Qed.
#[local] Hint Resolve within_entries : frame_db.
Lemma within_ReadDir d : within (ReadDir d).
Proof. unfold ReadDir, record, dirCache_Put. within_go. Qed.
#[local] Hint Resolve within_ReadDir : frame_db.
Lemma within_precache ns : within (precache_all ns).
Proof.
  induction ns as [|n ns IH]; cbn [precache_all]; [within_go|].
  unfold precache_attrs, refresh, attrCache_Put, set_attrs. within_go.
Qed.
#[local] Hint Resolve within_precache : frame_db.
Lemma within_ReadDirPlus d : within (ReadDirPlus d).
Proof. unfold ReadDirPlus. within_go. Qed.
Lemma within_Symlink d n t a : within (Symlink d n t a).
Proof. unfold Symlink. within_go. Qed.
Lemma within_Readlink n : within (Readlink n).
Proof. unfold Readlink. within_go. Qed.
Lemma within_mode_has n m : within (node_mode_has n m).
Proof. unfold node_mode_has. within_go. Qed.
Lemma within_setattr_time a b c : within (setattr_time a b c).
Proof. unfold setattr_time. within_go. Qed.
End FrameOps.

#[export] Hint Resolve within_rate_limited within_lookupNode within_deref within_read_only within_timed_out
  within_Get within_dirGet within_Lookup within_GetAttr within_SetAttr within_Truncate within_Read within_Write
  within_created within_Create within_Remove within_Rename within_ReadDir within_ReadDirPlus within_Symlink
  within_Readlink within_mode_has within_setattr_time : frame_db.

Section FrameCalls.
Context {F FD RL : Type} `{SymlinkFileSystem F FD} `{OpLimiter RL} `{Env}.
Variable R : FileHandleMap -> FileHandleMap -> Prop.
Context `{!PreOrder R}.
Hypothesis R_Allocate : forall fm f h closed fm', Allocate fm f = Some (h, closed, fm') -> R fm fm'.
#[local] Abbreviation within := (within (F := F) (RL := RL) R).

Lemma within_allocate n : within (allocate n).
Proof.
  intros s b s' E. unfold allocate in E. destruct (Allocate _ _) as [[[h c] fm]|] eqn:Ea; [|done].
  injection E as <- <-. by eapply R_Allocate.
Qed.
#[local] Hint Resolve within_allocate : frame_db.

Lemma within_readdir_loop i es c m b : within (readdir_loop i es c m b).
Proof. revert i b. induction es as [|e es IH]; intros i b; cbn [readdir_loop]; within_go. Qed.
Lemma within_readdirplus_loop i es c m n b : within (readdirplus_loop i es c m n b).
Proof. revert i n b. induction es as [|e es IH]; intros i n b; cbn [readdirplus_loop]; within_go. Qed.
Lemma within_setattr_size n sattr reply k : within k -> within (setattr_size n sattr reply k).
Proof. intros Hk. unfold setattr_size, attrCache_Invalidate, refresh_size, refresh, set_attrs. within_go. Qed.
#[local] Hint Resolve within_readdir_loop within_readdirplus_loop within_setattr_size : frame_db.

Lemma handlers_within proc handler body reply ctx :
  nfsHandlers proc = Some handler -> within (handler body reply ctx).
Proof.
  unfold nfsHandlers. intros E. repeat case_match; simplify_eq.
  all: unfold handleNull, handleGetattr, handleSetattr, handleLookup, handleAccess, handleReadlink, handleRead,
    handleWrite, handleCreate, handleMkdir, handleSymlink, handleMknod, handleRemove, handleRmdir,
    handleRename, handleLink, handleReaddir, handleReaddirplus, handleFsstat, handleFsinfo, handlePathconf,
    handleCommit, info_reply, dir_failed, finish_created, lookup_failed, with_node, attrCache_Invalidate,
    dirCache_Invalidate; within_go.
  apply within_setattr_size. within_go.
Qed.

Lemma dispatch_within call body reply ctx : within (dispatch call body reply ctx).
Proof.
  unfold dispatch, handleNFSCall, handleMountCall, mount_MNT.
  destruct (nfsHandlers _) as [handler|] eqn:E; [|within_go].
  pose proof (handlers_within _ _ body reply ctx E). within_go.
Qed.
#[local] Hint Resolve dispatch_within : frame_db.

Lemma HandleCall_within draining call body ctx : within (HandleCall draining call body ctx).
Proof. unfold HandleCall, timeout_of, with_timeout, ctx_done, record. within_go. Qed.

Lemma serve_all_within s rs replies s' : serve_all s rs = Some (replies, s') -> R (s_fileMap s) (s_fileMap s').
Proof.
  revert s replies. induction rs as [|r rs IH]; intros s replies E; simpl in E; [by simplify_eq|].
  apply bind_Some in E as ([reply s1] & E1 & E). apply bind_Some in E as ([replies1 s2] & E2 & E). simplify_eq.
  etrans; [by eapply HandleCall_within|by eapply IH].
Qed.
End FrameCalls.

(** ** What a handle names *)

(** From [fm] to [fm'] every handle keeps its path, as long as no more handles
    were handed out than the map may hold. *)
Definition handles_kept (fm fm' : FileHandleMap) : Prop :=
  fm_inv fm -> fm_bounded fm ->
  fm_inv fm' /\ fm_bounded fm' /\ nextHandle fm <= nextHandle fm' /\ maxHandles fm' = maxHandles fm /\
  (nextHandle fm' <= effective_max fm' + 1 ->
   forall h n, handles fm !! h = Some (FNode n) -> exists n', handles fm' !! h = Some (FNode n') /\ path n' = path n).

#[export] Instance handles_kept_preorder : PreOrder handles_kept.
Proof.
  split.
  - intros fm Hi Hb. split; [done|]. split; [done|]. split; [done|]. split; [done|]. eauto.
  - intros fm1 fm2 fm3 H12 H23 Hi Hb. destruct (H12 Hi Hb) as (Hi2 & Hb2 & Hn2 & Hm2 & Hk2).
    destruct (H23 Hi2 Hb2) as (Hi3 & Hb3 & Hn3 & Hm3 & Hk3).
    split; [done|]. split; [done|]. split; [lia|]. split; [congruence|]. intros Hle h n Hh.
    assert (effective_max fm3 = effective_max fm2) as Ee by (unfold effective_max; by rewrite Hm3).
    destruct (Hk2 ltac:(lia) h n Hh) as (n' & Hn' & Ep). destruct (Hk3 Hle h n' Hn') as (n'' & Hn'' & Ep').
    exists n''. split; [done|congruence].
Qed.

(** Handles are below the counter, so there are fewer of them. *)
Lemma handles_size fm : fm_inv fm -> Z.of_nat (size (handles fm)) <= nextHandle fm - 1.
Proof.
  intros Hi. pose proof (fi_next _ Hi).
  assert (dom (handles fm) ⊆ list_to_set (seqZ 1 (nextHandle fm - 1))) as Hsub.
  { intros h [f Hf]%elem_of_dom. apply (fi_range _ Hi) in Hf. rewrite elem_of_list_to_set, elem_of_seqZ. lia. }
  rewrite <- size_dom. apply subseteq_size in Hsub.
  rewrite size_list_to_set in Hsub by apply NoDup_seqZ. rewrite length_seqZ in Hsub. lia.
Qed.

(** An allocation for a path without a handle. *)
Lemma Allocate_new fm f h closed fm' :
  fm_inv fm -> nextHandle fm < 2 ^ 64 - 1 -> dedup_path f ≫= (fun p => pathHandles fm !! p) = None ->
  Allocate fm f = Some (h, closed, fm') ->
  handles fm !! h = None /\ nextHandle fm <= nextHandle fm' /\
  (nextHandle fm' <= effective_max fm + 1 -> forall k g, <[h := f]> (handles fm) !! k = Some g -> handles fm' !! k = Some g).
Proof.
  intros Hi Hn Hd. unfold Allocate. rewrite Hd. destruct (pick_handle fm) as [k fm0] eqn:Ep.
  apply pick_handle_spec in Ep as (Hh & Hhs & Hph & Hmx & Hfr & Hr & Hnx & Hi0); [|done..].
  change (mkFM (<[k := f]> (handles fm0)) _ (nextHandle fm0) (freeHandles fm0) (maxHandles fm0)) with (store fm0 k f).
  assert (fm_inv (store fm0 k f)) as His by (apply store_inv; [done|by rewrite Hhs|done|done|by rewrite Hph]).
  destruct (evict_spec _ His) as (rm & fm1 & -> & He & Hno & _). intros [= <- <- <-].
  pose proof (ev_next _ _ _ _ He) as En. simpl in En. split; [done|]. split; [lia|].
  intros Hle j g Hj. rewrite <- Hhs in Hj. change (handles (store fm0 k f) !! j = Some g) in Hj. rewrite Hno in He.
  - apply (ev_split _ _ _ _ He) in Hj as [?|Hin]; [done|set_solver].
  - pose proof (handles_size _ His) as Hsz. simpl in Hsz. unfold effective_max in *. simpl. rewrite Hmx. lia.
Qed.

Lemma Allocate_kept fm f h closed fm' : Allocate fm f = Some (h, closed, fm') -> handles_kept fm fm'.
Proof.
  intros E Hi Hb.
  destruct (Allocate_bounded fm f Hi Hb) as (h1 & c1 & fm1 & E1 & Hi' & Hb' & Hm & _). rewrite E in E1. simplify_eq.
  assert (nextHandle fm < 2 ^ 64 - 1) as Hn by (destruct Hb as (_ & ? & ?); lia).
  split; [done|]. split; [done|]. destruct (dedup_path f ≫= (fun p => pathHandles fm !! p)) as [k|] eqn:Ed.
  - pose proof (Allocate_spec fm f Hi Hn) as Hs. rewrite Ed in Hs.
    destruct Hs as (_ & fm2 & E2 & _ & Hh & _ & Hx). rewrite E in E2. simplify_eq.
    split; [lia|]. split; [done|]. intros _ h n Hn'. rewrite Hh.
    destruct (decide (h = k)) as [->|]; [|rewrite lookup_insert_ne by done; by exists n].
    rewrite lookup_insert_eq. apply bind_Some in Ed as (p & Hd & Hp).
    apply (fi_path _ Hi) in Hp as (g & Hg & Hgd). rewrite Hn' in Hg. simplify_eq.
    apply dedup_path_Some in Hgd as (n1 & [= <-] & <- & _). apply dedup_path_Some in Hd as (n2 & -> & Hp2 & _).
    by exists n2.
  - destruct (Allocate_new _ _ _ _ _ Hi Hn Ed E) as (Hk & Hge & Hkeep). split; [done|]. split; [done|].
    intros Hle h n Hn'. exists n. split; [|done]. apply Hkeep; [unfold effective_max in *; by rewrite Hm in Hle|].
    rewrite lookup_insert_ne; [done|]. intros ->. congruence.
Qed.

(** ** Property *)

Section Stable.
Context {F FD RL : Type} `{SymlinkFileSystem F FD} `{OpLimiter RL} `{Env}.

(** C8: a file handle keeps naming the file it was given for.  Whatever a
    consistent server is asked, by whomever, a handle that resolves to a node
    still resolves to a node of the same path afterwards, and the handle map
    stays consistent, as long as the server has not handed out more handles
    than it keeps: the map evicts nothing before that, and no request releases
    a handle. *)
Theorem handles_stay_valid (s : Srv F RL) rs :
  server_ok s ->
  exists replies s', serve_all s rs = Some (replies, s') /\ server_ok s' /\
    (nextHandle (s_fileMap s') <= effective_max (s_fileMap s') + 1 ->
     forall h n, Get (s_fileMap s) h = Some (FNode n) ->
       exists n', Get (s_fileMap s') h = Some (FNode n') /\ path n' = path n).
Proof.
  intros Hs. destruct (serve_all_ok rs s Hs) as (replies & s' & E & _ & Hs'). exists replies, s'.
  split; [done|]. split; [apply Hs'|].
  destruct (serve_all_within handles_kept Allocate_kept s rs replies s' E (si_fm _ _ _ _ Hs) (si_bounded _ _ _ _ Hs))
    as (_ & _ & _ & _ & Hk). exact Hk.
Qed.
End Stable.

(** ** A run *)

(** MNT hands out handle 1 for "/"; LOOKUP of "a", READDIRPLUS and a second MNT
    follow. *)
Definition mounted : Srv MemFS.state unit :=
  match serve_all (sample_server false) [mkRequest false (nfs_call MOUNT_PROGRAM 1) (xdrEncodeString "/") root_ctx] with
  | Some (_, s) => s
  | None => sample_server false
  end.
Definition later_requests : list request :=
  [mkRequest false (nfs_call NFS_PROGRAM 3) (dirop_args 1 "a") root_ctx;
   mkRequest false (nfs_call NFS_PROGRAM 17)
     (xdrEncodeFileHandle 1 ++ be_bytes 8 0 ++ be_bytes 8 0 ++ xdrEncodeUint32 4096 ++ xdrEncodeUint32 4096) root_ctx;
   mkRequest false (nfs_call MOUNT_PROGRAM 1) (xdrEncodeString "/") root_ctx].

Lemma mounted_ok : server_ok mounted.
Proof.
  destruct (serve_all_ok [mkRequest false (nfs_call MOUNT_PROGRAM 1) (xdrEncodeString "/") root_ctx]
    (sample_server false) (sample_server_ok false)) as (replies & s' & E & _ & Hs').
  unfold mounted. rewrite E. apply Hs'.
Qed.

Lemma handles_stay_valid_witness :
  exists replies s', serve_all mounted later_requests = Some (replies, s') /\ server_ok s' /\
    exists n', Get (s_fileMap s') 1 = Some (FNode n') /\ path n' = "/"%string.
Proof.
  destruct (handles_stay_valid mounted later_requests mounted_ok) as (replies & s' & E & Hok & Hk).
  exists replies, s'. split; [exact E|]. split; [exact Hok|].
  assert (match serve_all mounted later_requests with
          | Some (_, s') => nextHandle (s_fileMap s') <=? effective_max (s_fileMap s') + 1
          | None => false
          end = true) as Hle by (vm_compute; reflexivity).
  rewrite E in Hle. apply Z.leb_le in Hle.
  refine (Hk Hle 1 (mkNode 1 "/") _). vm_compute. reflexivity.
Defined.

(** The entries of the root have handles of their own by then. *)
Example later_handles :
  match serve_all mounted later_requests with
  | Some (_, s') => nextHandle (s_fileMap s') = 5
  | None => False
  end.
Proof. vm_compute. reflexivity. Qed.
