(* ===== verification/Programs.v ===== *)
(** * The programs (src/cmd/testserver, src/examples/composed-workspace, src/examples/fusion-drive)

    What the three [main] functions put together: filesystems, wrappers, the
    NFS handler and the server.  The packages memfs, osfs, lockfs and cachefs
    and the host are parameters; [log.Fatalf] is the error result.  Printing,
    the statistics page and the wait for a signal are left out. *)

From S2P Require Import Prelude Errors Xdr Attributes Rpc MinHeap FileHandle Lru AttrCache Path.
From S2P Require Import NetIP Options Auth Portmapper Tls Lifecycle Filesystem Wrappers Composed Fusion.
From S2P Require Import DirCache Server Operations Safety OpsSafe Procs ProcsDir ProcsSafe Sample Service.
Open Scope Z_scope.

Class Packages (W FD Sub : Type) := {
  memfs_NewFS : W -> result (SymlinkFS W FD Sub) * W;
  osfs_NewFS : W -> result (SymlinkFS W FD Sub) * W;
  lockfs_NewFS : AnyFS W FD Sub -> W -> result (AnyFS W FD Sub) * W;
  filepath_Abs : string -> result string;              (* the process does not change directory *)
  os_MkdirAll : string -> Z -> W -> result unit * W;
  m_Write : FD -> list byte -> W -> (Z * option error) * W;
  new_cell : W -> Ref W string * W                     (* the field cwd of a struct being allocated *)
}.

(** ** Programs that stop at the first error *)

Definition Prog (W A : Type) : Type := W -> result A * W.

#[export] Instance Prog_ret {W} : MRet (Prog W) := fun A a w => (Ok a, w).
#[export] Instance Prog_bind {W} : MBind (Prog W) := fun A B f m w =>
  match m w with (Ok a, w) => f a w | (Err e, w) => (Err e, w) end.

(** [if err != nil { log.Fatalf(msg + ": %v", err) }] *)
Definition or_fatal {W A} (msg : string) (m : Prog W A) : Prog W A := fun w =>
  match m w with (Ok a, w) => (Ok a, w) | (Err e, w) => (Err (wrapError msg e), w) end.

(** A function of the language that cannot fail. *)
Definition lift {W A} (f : W -> A * W) : Prog W A := fun w => let '(a, w) := f w in (Ok a, w).

Section Programs.
Context {W FD Sub RL Disk Cert Pool N : Type}.
Context `{Packages W FD Sub} `{FileMethods W FD} `{CachePackage W FD Sub} `{MapRange}.
Context `{OpLimiter RL} `{Env} `{Pki Disk Cert Pool} `{Network N}.
Variable disk : Disk.
Variable numCPU : Z.
Variable iter : W -> nat.
#[local] Abbreviation Prog := (Prog W).

(** The end of the three programs, which differ in their messages: the handler,
    the server with one port for NFS and MOUNT and record marking, and its
    start. *)
Definition start_server (handlerName serverName : string) (v : SymlinkFS W FD Sub) (port : Z) (debug usePortmapper : bool) (w : W) (net : N)
    : result (Srv W RL * Server) * N :=
  match New (H := exported v) numCPU empty_options w 0 with
  | Err err => (Err (wrapError ("Failed to create " +:+ handlerName) err), net)
  | Ok nfs =>
      match NewServer (mkServerOptions "" 0 0 false port port "" debug false true) with
      | Err err => (Err (wrapError ("Failed to create " +:+ serverName) err), net)
      | Ok server =>
          let server := SetHandler (mkHandler (s_tuning nfs) (s_policy nfs)) server in
          match (if usePortmapper then StartWithPortmapper (Cert := Cert) (Pool := Pool) disk server net
                 else Listen (Cert := Cert) (Pool := Pool) disk server net) with
          | (Some err, _, net) =>
              (Err (wrapError ("Failed to start server" +:+ if usePortmapper then " with portmapper" else "") err), net)
          | (None, server, net) => (Ok (nfs, server), net)
          end
      end
  end.

(** ** cmd/testserver *)

(** [f, err := fs.Create(name); f.Write(text); f.Close()] *)
Definition create_with (fs : SymlinkFS W FD Sub) (name msg : string) (text : string) : Prog unit :=
  f ← or_fatal msg (i_Create fs name);
  lift (m_Write f (bytes_of_string text)) ;;
  lift (m_Close f) ;;
  mret tt.

Definition newline : string := String (Ascii.ascii_of_nat 10) EmptyString.

Definition testserver_fs : Prog (SymlinkFS W FD Sub) :=
  fs ← or_fatal "Failed to create memfs" memfs_NewFS;
  or_fatal "Failed to create test directory" (i_Mkdir fs "/test" 493) ;;
  create_with fs "/test/hello.txt" "Failed to create test file" ("Hello from NFS!" +:+ newline) ;;
  create_with fs "/README.txt" "Failed to create README"
    ("Welcome to the absnfs example server." +:+ newline +:+ newline +:+
     "This is an in-memory filesystem exported via NFSv3." +:+ newline) ;;
  mret fs.

Definition testserver_main (port : Z) (usePortmapper debug : bool) (w : W) (net : N)
    : result (Srv W RL * Server) * N :=
  match testserver_fs w with
  | (Err err, _) => (Err err, net)
  | (Ok fs, w) => start_server "NFS" "server" fs port debug usePortmapper w net
  end.

(** ** examples/composed-workspace *)

(** The blocks [if *dir != "" { ... }] that mount a directory of the disk. *)
Definition mount_dir (readOnly : bool) (name info dir : string) (c : ComposedFS W FD Sub) : Prog (ComposedFS W FD Sub) :=
  if String.eqb dir "" then mret c
  else
    absPath ← or_fatal ("Invalid " +:+ name +:+ " path") (fun w => (filepath_Abs dir, w));
    fs ← or_fatal ("Failed to create " +:+ name +:+ " filesystem") osfs_NewFS;
    cwd ← lift new_cell;
    basedFS ← lift (NewBasePathFS fs absPath cwd);
    view ← (if readOnly then
              cwd ← lift new_cell;
              r ← lift (NewReadOnlyFS (basePathFS basedFS) cwd);
              mret (readOnlyFS r)
            else mret (basePathFS basedFS));
    or_fatal ("Failed to mount /" +:+ name) (Mount c ("/" +:+ name) view (info +:+ ": " +:+ absPath)).

Definition workspace_fs (projectDir libsDir sharedDir : string) : Prog (ComposedFS W FD Sub) :=
  cwd ← lift new_cell;
  composed ← or_fatal "Failed to create composed filesystem" (NewComposedFS memfs_NewFS cwd);
  scratchFS ← or_fatal "Failed to create scratch filesystem" memfs_NewFS;
  composed ← or_fatal "Failed to mount /scratch" (Mount composed "/scratch" scratchFS "In-memory scratch space");
  composed ← mount_dir false "project" "Project directory" projectDir composed;
  composed ← mount_dir true "libs" "Read-only libs" libsDir composed;
  mount_dir false "shared" "Shared directory" sharedDir composed.

Definition workspace_main (port : Z) (projectDir libsDir sharedDir : string) (debug : bool) (w : W) (net : N)
    : result (Srv W RL * Server) * N :=
  match workspace_fs projectDir libsDir sharedDir w with
  | (Err err, _) => (Err err, net)
  | (Ok composed, w) => start_server "NFS handler" "NFS server" (composedFS iter composed) port debug false w net
  end.

(** ** examples/fusion-drive *)

Definition cold_tier (dataDir : string) (demoMode : bool) : Prog (AnyFS W FD Sub) :=
  if demoMode then
    m ← or_fatal "Failed to create memfs" memfs_NewFS;
    mret (mkAnyFS (i_fs m) (Some (i_links m)))
  else
    absPath ← or_fatal "Invalid data path" (fun w => (filepath_Abs dataDir, w));
    or_fatal "Failed to create data directory" (os_MkdirAll absPath 493) ;;
    rawFS ← or_fatal "Failed to create osfs" osfs_NewFS;
    mret (fusionBaseFS (mkFusionBase (mkAnyFS (i_fs rawFS) (Some (i_links rawFS))) absPath)).

(** [cacheSize] is in megabytes. *)
Definition fusion_fs (dataDir : string) (cacheSize : Z) (demoMode : bool) : Prog (FusionFS W FD Sub) :=
  if String.eqb dataDir "" && negb demoMode
  then fun w => (Err (ErrorString "Error: -data flag is required (or use -demo for testing)"), w)
  else
    cold ← cold_tier dataDir demoMode;
    lockedColdTier ← or_fatal "Failed to create lockfs" (lockfs_NewFS cold);
    let config := DefaultFusionConfig in
    let config := mkFusionConfig (u64 (cacheSize * 1024 * 1024)) (CacheTTL config) (fc_WriteMode config)
                    (fc_EvictionPolicy config) in
    cwd ← lift new_cell;
    or_fatal "Failed to create fusion filesystem" (NewFusionFS lockedColdTier config cwd).

Definition fusion_main (port : Z) (dataDir : string) (cacheSize : Z) (debug demoMode : bool) (w : W) (net : N)
    : result (Srv W RL * Server) * N :=
  match fusion_fs dataDir cacheSize demoMode w with
  | (Err err, _) => (Err err, net)
  | (Ok fusion, w) => start_server "NFS handler" "NFS server" (fusionFS fusion) port debug false w net
  end.

End Programs.

(** ** Lemmas *)

(** From a world with [P] a program that succeeds ends in one, with a result
    that satisfies [Q]. *)
Definition ensures {W A} (P : W -> Prop) (m : Prog W A) (Q : A -> Prop) : Prop :=
  forall w a w', P w -> m w = (Ok a, w') -> P w' /\ Q a.

Section Ensures.
Context {W : Type} (P : W -> Prop).

Lemma ensures_ret {A} (a : A) (Q : A -> Prop) : Q a -> ensures P (mret a) Q.
Proof. intros HQ w b w' Hw [= <- <-]. done. Qed.

Lemma ensures_bind {A B} (m : Prog W A) (f : A -> Prog W B) R Q :
  ensures P m R -> (forall a, R a -> ensures P (f a) Q) -> ensures P (m ≫= f) Q.
Proof.
  intros Hm Hf w b w' Hw. unfold mbind, Prog_bind. destruct (m w) as [[a|e] w1] eqn:E; [|done].
  destruct (Hm _ _ _ Hw E) as [Hw1 Ha]. by apply Hf.
Qed.

Lemma ensures_fatal {A} msg (m : Prog W A) Q : ensures P m Q -> ensures P (or_fatal msg m) Q.
Proof.
  intros Hm w a w' Hw. unfold or_fatal. destruct (m w) as [[b|e] w1] eqn:E; [|done].
  intros [= <- <-]. by eapply Hm.
Qed.

Lemma ensures_lift {A} (f : W -> A * W) (Q : A -> Prop) :
  (forall w, P w -> P (f w).2 /\ Q (f w).1) -> ensures P (lift f) Q.
Proof.
  intros Hf w a w' Hw. unfold lift. specialize (Hf w Hw). destruct (f w) as [b w1]. by intros [= <- <-].
Qed.

Lemma ensures_value {A} (r : result A) (Q : A -> Prop) :
  (forall a, r = Ok a -> Q a) -> ensures P (fun w => (r, w)) Q.
Proof. intros HQ w a w' Hw [= -> <-]. auto. Qed.
End Ensures.

(** An invariant [P] of the world that the packages keep: memory filesystems
    keep it, the disk keeps it for calls on names below the directories [rw],
    and, as long as it is only inspected, below the directories [ro]; absolute
    paths are clean.  [Recording] proves it of the record of the calls that
    reach the disk, whatever the disk does with them. *)
Class HostKeeps {W FD Sub} `{Packages W FD Sub} `{FileMethods W FD} (P : W -> Prop) (rw ro : string -> Prop) : Prop := {
  hk_cell w : P w -> P (new_cell w).2;
  hk_set w s w' : P w' -> P (ref_set (new_cell w).1 s w');
  hk_memfs w v w' : memfs_NewFS w = (Ok v, w') -> P w ->
    P w' /\ Kept v rooted true P /\ (forall p m x, P x -> P (i_MkdirAll v p m x).2);
  hk_osfs w v w' : osfs_NewFS w = (Ok v, w') -> P w ->
    P w' /\ (forall a, rw a -> Kept v (under a) true P) /\ (forall a, ro a -> Kept v (under a) false P);
  hk_abs d a : filepath_Abs d = Ok a -> rooted a /\ path_Clean a = a
}.

Section Workspace.
Context {W FD Sub RL Disk Cert Pool N : Type}.
Context `{Packages W FD Sub} `{FileMethods W FD} `{MapRange}.
Context `{OpLimiter RL} `{Env} `{Pki Disk Cert Pool} `{Network N}.
Context (disk : Disk) (numCPU : Z) (iter : W -> nat).
Context (P : W -> Prop) (rw ro : string -> Prop) `{!HostKeeps P rw ro}.

(** A composition whose parts keep the invariant, and whose root can be given
    mount points. *)
Definition composed_ok (c : ComposedFS W FD Sub) : Prop :=
  mounts_ok c /\ Kept (c_root c) rooted true P /\
  (forall p m x, P x -> P (i_MkdirAll (c_root c) p m x).2) /\
  forall k m, mounts c !! k = Some m -> Kept (mp_FS m) rooted true P.

Lemma ensures_cell : ensures P (lift new_cell) (fun r => exists w, r = (new_cell w).1).
Proof. apply ensures_lift. intros w Hw. split; [by apply (hk_cell (P := P))|]. by exists w. Qed.

Lemma ensures_Mount c path v info :
  composed_ok c -> Kept v rooted true P -> ensures P (Mount c path v info) composed_ok.
Proof.
  intros (Hok & Hr & Hmk & Hm) Hv w c' w' Hw E. pose proof (Mount_ok _ _ _ _ _ _ _ Hok E) as Hok'.
  unfold Mount in E. specialize (Hmk path 493 w Hw) as Hw1.
  destruct (i_MkdirAll (c_root c) path 493 w) as [[u|e] w1]; [|done]. injection E as <- <-.
  split; [done|]. split; [done|]. split; [done|]. split; [done|]. intros k m. simpl.
  rewrite lookup_insert_Some. intros [[_ <-]|[_ Hk]]; [done|by eapply Hm].
Qed.

Lemma ensures_osfs a (readOnly : bool) :
  (if readOnly then ro a else rw a) ->
  ensures P osfs_NewFS (fun v => Kept v (under a) (negb readOnly) P).
Proof.
  intros Ha w v w' Hw E. destruct (hk_osfs w v w' E Hw) as (Hw' & Hrw & Hro). split; [done|].
  destruct readOnly; by auto.
Qed.

Lemma ensures_set {A} (x : A) r : (exists w, r = (new_cell w).1) -> ensures P (lift (fun w => (x, ref_set r "/"%string w))) (eq x).
Proof. intros [w ->]. apply ensures_lift. intros w' Hw'. split; [|done]. by apply (hk_set (P := P)). Qed.

(** The two kinds of view of a directory. *)
Lemma based_kept (v : SymlinkFS W FD Sub) a cwd (readOnly : bool) :
  rooted a -> path_Clean a = a -> Kept v (under a) (negb readOnly) P ->
  Kept (basePathFS (mkBasePathFS v a cwd)) rooted (negb readOnly) P.
Proof. intros Ha Hc Hk. by apply (basePathFS_keeps (mkBasePathFS v a cwd)). Qed.

Lemma ensures_mount_dir (readOnly : bool) name info dir c :
  (dir <> EmptyString -> forall a, filepath_Abs dir = Ok a -> if readOnly then ro a else rw a : Prop) ->
  composed_ok c -> ensures P (mount_dir readOnly name info dir c) composed_ok.
Proof.
  intros Hd Hc. unfold mount_dir. destruct (String.eqb_spec dir "") as [|Hne]; [by apply ensures_ret|].
  specialize (Hd Hne). eapply ensures_bind; [apply ensures_fatal, ensures_value; intros a E; exact (conj (Hd a E) (hk_abs (P := P) dir a E))|].
  intros a (Ha & Hroot & Hcl).
  eapply ensures_bind; [by apply ensures_fatal, (ensures_osfs a readOnly)|]. intros v Hv.
  eapply ensures_bind; [apply ensures_cell|]. intros cwd Hcwd.
  eapply ensures_bind; [by apply (ensures_set (mkBasePathFS v a cwd))|]. intros b <-.
  eapply ensures_bind.
  2: { intros view Hview. by apply ensures_fatal, ensures_Mount; [|exact Hview]. }
  pose proof (based_kept v a cwd readOnly Hroot Hcl Hv) as Hb. destruct readOnly; [|by apply ensures_ret].
  eapply ensures_bind; [apply ensures_cell|]. intros cwd' Hcwd'.
  eapply ensures_bind; [by apply (ensures_set (mkReadOnlyFS (basePathFS (mkBasePathFS v a cwd)) cwd'))|].
  intros r <-. apply ensures_ret. by apply (readOnlyFS_keeps (mkReadOnlyFS _ cwd')).
Qed.

Lemma ensures_workspace project libs shared :
  (forall d a, d <> EmptyString -> d = project \/ d = shared -> filepath_Abs d = Ok a -> rw a) ->
  (forall a, libs <> EmptyString -> filepath_Abs libs = Ok a -> ro a) ->
  ensures P (workspace_fs project libs shared) composed_ok.
Proof.
  intros Hrw Hro. unfold workspace_fs. eapply ensures_bind; [apply ensures_cell|]. intros cwd Hcwd.
  eapply ensures_bind with (R := composed_ok).
  { apply ensures_fatal. intros w c w' Hw E. pose proof (NewComposedFS_ok _ _ _ _ _ E) as Hok.
    unfold NewComposedFS in E. destruct (memfs_NewFS w) as [[root|e] w1] eqn:Em; [|done]. injection E as <- <-.
    destruct (hk_memfs w root w1 Em Hw) as (Hw1 & Hr & Hmk). destruct Hcwd as [w0 ->].
    split; [by apply (hk_set (P := P))|]. split; [done|]. split; [done|]. split; [done|].
    intros k m. simpl. by rewrite lookup_empty. }
  intros c Hc. eapply ensures_bind with (R := fun v => Kept v rooted true P).
  { apply ensures_fatal. intros w v w' Hw E. by destruct (hk_memfs w v w' E Hw) as (? & ? & _). }
  intros v Hv. eapply ensures_bind; [by apply ensures_fatal, ensures_Mount|]. intros c1 Hc1.
  eapply ensures_bind; [apply (ensures_mount_dir false); [|done]; intros Hd a Ha; apply (Hrw project); tauto|].
  intros c2 Hc2. eapply ensures_bind; [apply (ensures_mount_dir true); by auto|].
  intros c3 Hc3. apply (ensures_mount_dir false); [|done]. intros Hd a Ha. apply (Hrw shared); tauto.
Qed.

Lemma start_server_New hn sn (v : SymlinkFS W FD Sub) port debug pm w net nfs server net' :
  start_server (RL := RL) (Cert := Cert) (Pool := Pool) disk numCPU hn sn v port debug pm w net = (Ok (nfs, server), net') ->
  New (H := exported v) numCPU empty_options w 0 = Ok nfs.
Proof.
  unfold start_server. destruct (New _ _ _ _) as [s|e]; [|done]. destruct (NewServer _) as [sv|e]; [|done].
  destruct pm; [destruct (StartWithPortmapper _ _ _) as [[[err|] s2] n2]|
                destruct (Listen _ _ _) as [[[err|] s2] n2]]; by intros [= -> _ _] || done.
Qed.

(** The handler [nfs] of the exported value answers any requests, after which
    the world satisfies [P]. *)
Definition serves_within (v : SymlinkFS W FD Sub) (nfs : Srv W RL) : Prop :=
  forall rs, exists replies nfs', serve_all (H := exported v) nfs rs = Some (replies, nfs') /\ P (s_fs nfs').

Lemma start_server_within hn sn v port debug pm w net nfs server net' :
  Kept v rooted true P -> P w ->
  start_server (RL := RL) (Cert := Cert) (Pool := Pool) disk numCPU hn sn v port debug pm w net = (Ok (nfs, server), net') ->
  serves_within v nfs.
Proof.
  intros [I] Hw E rs. apply start_server_New in E.
  exact (served_invariant (H := exported v) P numCPU empty_options w 0 nfs rs I Hw E).
Qed.

(** What the packages keep for the names below the mounted directories survives
    any requests of the program's clients. *)
Lemma workspace_keeps port project libs shared debug w net nfs server net' :
  (forall d a, d <> EmptyString -> d = project \/ d = shared -> filepath_Abs d = Ok a -> rw a) ->
  (forall a, libs <> EmptyString -> filepath_Abs libs = Ok a -> ro a) -> P w ->
  workspace_main (RL := RL) (Cert := Cert) (Pool := Pool) disk numCPU iter port project libs shared debug w net
    = (Ok (nfs, server), net') ->
  exists c w1, workspace_fs project libs shared w = (Ok c, w1) /\ serves_within (composedFS iter c) nfs.
Proof.
  intros Hrw Hro Hw. unfold workspace_main. destruct (workspace_fs project libs shared w) as [[c|e] w1] eqn:E; [|done].
  intros Es. exists c, w1. split; [done|].
  destruct (ensures_workspace project libs shared Hrw Hro w c w1 Hw E) as (Hw1 & Hok & Hr & _ & Hm).
  eapply start_server_within; [|done|exact Es]. by apply composedFS_keeps.
Qed.

End Workspace.

(** ** The fusion drive *)

(** A filesystem with the links its dynamic type has, or none. *)
Definition with_links {W FD Sub} (fs : FileSystem W FD Sub) (l : option (SymLinker W)) : SymlinkFS W FD Sub :=
  match l with Some l => mkSymlinkFS fs l | None => plain fs end.

(** The layers lockfs and cachefs act on the world only through what they
    wrap. *)
Class TiersKeep {W FD Sub} `{Packages W FD Sub} `{FileMethods W FD} `{CachePackage W FD Sub}
    (P : W -> Prop) (rw : string -> Prop) : Prop := {
  tk_lockfs v w v' w' : lockfs_NewFS v w = (Ok v', w') -> P w ->
    P w' /\ (Kept (with_links v (a_links v)) rooted true P -> Kept (with_links v' (a_links v')) rooted true P);
  tk_cachefs cold size ev wm ttl meta n w :
    P w -> let r := cachefs_New cold size ev wm ttl meta n w in
    P r.2 /\ (Kept (with_links cold (a_links cold)) rooted true P -> Kept (with_links r.1 (a_links cold)) rooted true P);
  tk_mkdir a m w : rw a -> P w -> P (os_MkdirAll a m w).2
}.

Section FusionDrive.
Context {W FD Sub RL Disk Cert Pool N : Type}.
Context `{Packages W FD Sub} `{FileMethods W FD} `{CachePackage W FD Sub}.
Context `{OpLimiter RL} `{Env} `{Pki Disk Cert Pool} `{Network N}.
Context (disk : Disk) (numCPU : Z).
Context (P : W -> Prop) (rw ro : string -> Prop) `{!HostKeeps P rw ro} `{!TiersKeep P rw}.

(** Hiding the links of a filesystem keeps what it keeps. *)
Lemma plain_kept (v : SymlinkFS W FD Sub) dom w : Kept v dom w P -> Kept (plain (i_fs v)) dom w P.
Proof.
  intros [I]. constructor. refine {| fd_ok := fd_ok (FSInv := I) |}; intros; try done; use_inv I.
Qed.

Lemma ensures_cold_tier dataDir demoMode :
  (forall a, filepath_Abs dataDir = Ok a -> rw a) ->
  ensures P (cold_tier dataDir demoMode) (fun v => Kept (with_links v (a_links v)) rooted true P).
Proof.
  intros Hrw. unfold cold_tier. destruct demoMode.
  - eapply ensures_bind with (R := fun v => Kept v rooted true P).
    + apply ensures_fatal. intros w v w' Hw E. by destruct (hk_memfs w v w' E Hw) as (? & ? & _).
    + intros v Hv. apply ensures_ret. by destruct v.
  - eapply ensures_bind; [apply ensures_fatal, ensures_value; intros a E; exact (conj (Hrw a E) (hk_abs (P := P) dataDir a E))|].
    intros a (Ha & Hroot & Hcl). eapply ensures_bind with (R := fun _ => True).
    { apply ensures_fatal. intros w u w' Hw E. split; [|done]. pose proof (tk_mkdir a 493 w Ha Hw) as Hk. by rewrite E in Hk. }
    intros _ _. eapply ensures_bind; [by apply ensures_fatal, (ensures_osfs P rw ro a false)|].
    intros v Hv. apply ensures_ret. apply fusionBaseFS_keeps; [done|done|]. by apply plain_kept.
Qed.

Lemma ensures_fusion dataDir cacheSize demoMode :
  (forall a, filepath_Abs dataDir = Ok a -> rw a) ->
  ensures P (fusion_fs dataDir cacheSize demoMode) (fun f => Kept (fusionFS f) rooted true P).
Proof.
  intros Hrw. unfold fusion_fs. destruct (_ && _); [by intros w a w' _ [=]|].
  eapply ensures_bind; [by apply ensures_cold_tier|]. intros cold Hcold.
  eapply ensures_bind with (R := fun v : AnyFS W FD Sub => Kept (with_links v (a_links v)) rooted true P).
  { apply ensures_fatal. intros w v w' Hw E. destruct (tk_lockfs _ _ _ _ E Hw) as [? Hk]. by auto. }
  intros v Hv. eapply ensures_bind; [by apply (ensures_cell P rw ro)|]. intros cwd [w0 ->].
  apply ensures_fatal. intros w f w' Hw E. unfold NewFusionFS in E.
  match type of E with context [cachefs_New ?a ?b ?c ?d ?e ?f ?g w] =>
    pose proof (tk_cachefs a b c d e f g w Hw) as Hk; destruct (cachefs_New a b c d e f g w) as [cache w1] end.
  injection E as <- <-. destruct Hk as [Hw1 Hk]. split; [by apply (hk_set (P := P))|].
  apply fusionFS_keeps. exact (Hk Hv).
Qed.

(** What the packages keep for the names below the data directory (in
    demonstration mode, for a memory filesystem) survives any requests of the
    program's clients. *)
Lemma fusion_keeps port dataDir cacheSize debug demoMode w net nfs server net' :
  (forall a, filepath_Abs dataDir = Ok a -> rw a) -> P w ->
  fusion_main (RL := RL) (Cert := Cert) (Pool := Pool) disk numCPU port dataDir cacheSize debug demoMode w net
    = (Ok (nfs, server), net') ->
  exists f w1, fusion_fs dataDir cacheSize demoMode w = (Ok f, w1) /\ serves_within P (fusionFS f) nfs.
Proof.
  intros Hrw Hw. unfold fusion_main. destruct (fusion_fs dataDir cacheSize demoMode w) as [[f|e] w1] eqn:E; [|done].
  intros Es. exists f, w1. split; [done|].
  destruct (ensures_fusion dataDir cacheSize demoMode Hrw w f w1 Hw E) as [Hw1 Hk].
  by eapply start_server_within.
Qed.
End FusionDrive.

(** ** Concrete runs

    A host with a disk and memory filesystems, all of them [MemFS]. *)

Record world := mkWorld {
  w_disk : MemFS.state; w_mem : gmap nat MemFS.state; w_next : nat; w_cells : gmap nat string
}.

(** The disk, or a memory filesystem by its number. *)
Definition get_fs (i : option nat) (w : world) : MemFS.state :=
  match i with None => w_disk w | Some n => default ∅ (w_mem w !! n) end.
Definition put_fs (i : option nat) (s : MemFS.state) (w : world) : world :=
  match i with
  | None => mkWorld s (w_mem w) (w_next w) (w_cells w)
  | Some n => mkWorld (w_disk w) (<[n := s]> (w_mem w)) (w_next w) (w_cells w)
  end.
Definition on_fs {A} (i : option nat) (op : MemFS.state -> A * MemFS.state) (w : world) : A * world :=
  let '(a, s) := op (get_fs i w) in (a, put_fs i s w).

#[local] Abbreviation wfd := (prod (option nat) MemFS.fd).

Definition opened (i : option nat) (op : MemFS.state -> result MemFS.fd * MemFS.state) : world -> result wfd * world :=
  on_fs i (fun s => match op s with (Ok fd, s) => (Ok (i, fd), s) | (Err e, s) => (Err e, s) end).

Definition unsupported {A} (w : world) : result A * world := (Err (NotSupportedError "sample" ""), w).

Definition mem_value (i : option nat) : SymlinkFS world wfd unit := mkSymlinkFS
  {| i_Open p := opened i (fs_OpenFile p os_O_RDONLY 0);
     i_OpenFile p flag perm := opened i (fs_OpenFile p flag perm);
     i_Create p := opened i (fs_Create p);
     i_Mkdir p m := on_fs i (fs_Mkdir p m);
     i_MkdirAll p m := on_fs i (fun s => (Ok tt, (fs_Mkdir p m s).2));
     i_Remove p := on_fs i (fs_Remove p);
     i_RemoveAll _ := unsupported;
     i_Rename o n := on_fs i (fs_Rename o n);
     i_Stat p := on_fs i (fs_Stat p);
     i_Chmod p m := on_fs i (fs_Chmod p m);
     i_Chown p u g := on_fs i (fs_Chown p u g);
     i_Chtimes p a m := on_fs i (fs_Chtimes p a m);
     i_Truncate p n := on_fs i (fs_Truncate p n);
     i_ReadDir _ := unsupported;
     i_ReadFile _ := unsupported;
     i_Sub _ := unsupported;
     i_Chdir _ := unsupported;
     i_Getwd := unsupported;
     i_TempDir := "/tmp"%string |}
  {| i_Lstat p := on_fs i (fs_Lstat p);
     i_Lchown p u g := on_fs i (fs_Lchown p u g);
     i_Readlink p := on_fs i (fs_Readlink p);
     i_Symlink t p := on_fs i (fs_Symlink t p) |}.

#[local] Instance world_files : FileMethods world wfd := {|
  m_Stat fd := on_fs fd.1 (f_Stat fd.2);
  m_ReadAt fd n off := on_fs fd.1 (f_ReadAt fd.2 n off);
  m_WriteAt fd b off := on_fs fd.1 (f_WriteAt fd.2 b off);
  m_Readdir fd n := on_fs fd.1 (f_Readdir fd.2 n);
  m_Close fd := on_fs fd.1 (f_Close fd.2) |}.

Definition fresh_root : MemFS.state := {[ "/"%string := MemFS.mkMNode MemFS.CDir 493 0 ]}.

#[local] Instance world_packages : Packages world wfd unit := {|
  memfs_NewFS w := (Ok (mem_value (Some (w_next w))),
    mkWorld (w_disk w) (<[w_next w := fresh_root]> (w_mem w)) (S (w_next w)) (w_cells w));
  osfs_NewFS w := (Ok (mem_value None), w);
  lockfs_NewFS v w := (Ok v, w);
  filepath_Abs d := if str_prefix "/" d then Ok (path_Clean d) else Err os_ErrInvalid;
  os_MkdirAll p m := i_MkdirAll (mem_value None) p m;
  m_Write fd b := on_fs fd.1 (f_WriteAt fd.2 b 0);
  new_cell w :=
    (mkRef (fun x => default EmptyString (w_cells x !! w_next w))
           (fun d x => mkWorld (w_disk x) (w_mem x) (w_next x) (<[w_next w := d]> (w_cells x))),
     mkWorld (w_disk w) (w_mem w) (S (w_next w)) (w_cells w)) |}.

Lemma get_put_fs i s w : get_fs i (put_fs i s w) = s.
Proof. destruct i as [n|]; [|done]. simpl. by rewrite lookup_insert_eq. Qed.

(** An invariant [Q] of one of the filesystems is one of the world. *)
Lemma on_fs_keeps {A} (Q : MemFS.state -> Prop) i (op : MemFS.state -> A * MemFS.state) w :
  Q (op (get_fs i w)).2 -> Q (get_fs i (on_fs i op w).2).
Proof. unfold on_fs. destruct (op (get_fs i w)) as [a s]. simpl. by rewrite get_put_fs. Qed.

Lemma opened_keeps (Q : MemFS.state -> Prop) (R : MemFS.fd -> Prop) i op w :
  Q (op (get_fs i w)).2 /\ (forall fd, (op (get_fs i w)).1 = Ok fd -> R fd) ->
  Q (get_fs i (opened i op w).2) /\ forall fd, (opened i op w).1 = Ok fd -> fd.1 = i /\ R fd.2.
Proof.
  unfold opened, on_fs. destruct (op (get_fs i w)) as [[fd|e] s]; simpl; rewrite get_put_fs;
    intros [HQ HR]; (split; [done|]); intros x [= <-]. split; [done|]. by apply HR.
Qed.

Lemma mem_value_keeps i dom w Q :
  FSInv MemFS.state MemFS.fd dom w Q -> Kept (mem_value i) dom w (fun x => Q (get_fs i x)).
Proof.
  intros I. constructor.
  refine {| fd_ok := fun b (fd : wfd) => fd.1 = i /\ fd_ok (FSInv := I) b fd.2 |}; intros; destruct_and?;
    try match goal with fd : wfd |- _ => destruct fd; cbn [fst snd] in *; subst end.
  all: first [apply (on_fs_keeps Q) | apply (opened_keeps Q (fd_ok (FSInv := I) _))].
  all: use_inv I.
  Unshelve. exact 0.
Qed.

(** A memory filesystem does not touch the disk. *)
Lemma on_fs_disk {A} (Q : MemFS.state -> Prop) n (op : MemFS.state -> A * MemFS.state) w :
  Q (w_disk w) -> Q (w_disk (on_fs (Some n) op w).2).
Proof. unfold on_fs. by destruct (op _). Qed.

Lemma opened_disk (Q : MemFS.state -> Prop) n op w :
  Q (w_disk w) ->
  Q (w_disk (opened (Some n) op w).2) /\ forall fd, (opened (Some n) op w).1 = Ok fd -> fd.1 = Some n.
Proof. unfold opened, on_fs. destruct (op _) as [[fd|e] s]; simpl; (split; [done|]); by intros x [= <-]. Qed.

Lemma mem_value_disk n dom w (Q : MemFS.state -> Prop) : Kept (mem_value (Some n)) dom w (fun x => Q (w_disk x)).
Proof.
  constructor. refine {| fd_ok := fun _ (fd : wfd) => fd.1 = Some n |}; intros;
    try match goal with fd : wfd |- _ => destruct fd; cbn [fst snd] in *; subst end.
  all: first [apply (on_fs_disk Q) | apply (opened_disk Q)]; done.
Qed.

(** Disk content: a project and a directory of libraries. *)
Definition sample_disk : MemFS.state :=
  list_to_map [
    ("/"%string, MemFS.mkMNode MemFS.CDir 493 0);
    ("/p"%string, MemFS.mkMNode MemFS.CDir 493 0);
    ("/p/main"%string, MemFS.mkMNode (MemFS.CFile (bytes_of_string "x")) 420 0);
    ("/lib"%string, MemFS.mkMNode MemFS.CDir 493 0);
    ("/lib/v"%string, MemFS.mkMNode (MemFS.CFile (bytes_of_string "v1")) 420 0)].

Definition sample_world : world := mkWorld sample_disk ∅ 0 ∅.

(** Nothing but what is below the project has changed. *)
Definition outside_kept (s : MemFS.state) : Prop := forall q, ~ under "/p" q -> s !! q = sample_disk !! q.
Definition outside_project_kept (w : world) : Prop := outside_kept (w_disk w).

Definition sample_confined : FSInv MemFS.state MemFS.fd (under "/p") true outside_kept :=
  MemFS.memfs_confined (under "/p") true sample_disk.

Lemma sample_world_kept : outside_project_kept sample_world.
Proof. by intros q _. Qed.

#[local] Instance sample_host : HostKeeps outside_project_kept (eq "/p"%string) (eq "/lib"%string).
Proof.
  constructor.
  - done.
  - done.
  - intros w v w' [= <- <-] Hw. split; [done|]. split.
    + apply (mem_value_disk _ _ _ outside_kept).
    + intros p m x. apply (on_fs_disk outside_kept).
  - intros w v w' [= <- <-] Hw. split; [done|]. split; intros a <-.
    + apply (mem_value_keeps None _ _ outside_kept), sample_confined.
    + apply (mem_value_keeps None _ _ outside_kept), MemFS.memfs_inspect.
  - intros d a. unfold filepath_Abs, world_packages. destruct (str_prefix "/" d) eqn:E; [|done]. intros [= <-].
    split; [by apply path_Clean_rooted|by apply path_Clean_idem].
Qed.

#[local] Instance program_order : MapRange.
Proof. by exists (fun _ _ l => l). Defined.
#[local] Instance program_net : Network (gset Z) := {|
  net_Listen _ n := if decide (2049 ∈ n) then (Err (ErrorString "address already in use"), n) else (Ok 2049, {[2049]} ∪ n);
  net_Close p n := n ∖ {[p]};
  bound n := n |}.
#[local] Instance program_pki : Pki unit unit unit := {|
  os_Stat _ _ := Some os_ErrNotExist;
  os_ReadFile _ _ := Err os_ErrNotExist;
  tls_LoadX509KeyPair _ _ _ := Err os_ErrNotExist;
  x509_AppendCertsFromPEM _ := None |}.

Definition sample_workspace : result (Srv world unit * Server) * gset Z :=
  workspace_main (RL := unit) (Cert := unit) (Pool := unit) tt 4 (fun _ => O) 2049 "/p" "/lib" "" false sample_world ∅.

Lemma workspace_keeps_witness :
  exists nfs server net c w1, sample_workspace = (Ok (nfs, server), net) /\
    workspace_fs "/p" "/lib" "" sample_world = (Ok c, w1) /\
    serves_within outside_project_kept (composedFS (fun _ => O) c) nfs.
Proof.
  destruct sample_workspace as [[[nfs server]|e] net] eqn:E; [|vm_compute in E; discriminate E].
  exists nfs, server, net.
  destruct (workspace_keeps tt 4 (fun _ => O) outside_project_kept (eq "/p"%string) (eq "/lib"%string)
    2049 "/p" "/lib" "" false sample_world ∅ nfs server net) as (c & w1 & Ec & Hs); [| |exact sample_world_kept|exact E|].
  - intros d a Hd [->| ->]; [|done]. by intros [= <-].
  - by intros a _ [= <-].
  - exact (ex_intro _ c (ex_intro _ w1 (conj eq_refl (conj Ec Hs)))).
Defined.

(** A mount below another, and a name below both. *)
Definition nested_mounts : ComposedFS world wfd unit :=
  mkComposedFS
    (<["/a" := mkMountPoint "/a" (mem_value (Some 0%nat)) ""]>
      (<["/a/b" := mkMountPoint "/a/b" (mem_value (Some 1%nat)) ""]> ∅))
    (mem_value None) (mkRef (fun _ => "/"%string) (fun _ w => w)).

Lemma resolveMount_exact_witness :
  resolves nested_mounts "/a/b/c" (Some (mkMountPoint "/a/b" (mem_value (Some 1%nat)) ""), "/c"%string) /\
  resolves nested_mounts "/ab" (None, "/ab"%string).
Proof.
  assert (mounts_ok nested_mounts) as Hok.
  { intros k m. unfold nested_mounts. cbn [mounts].
    rewrite !lookup_insert_Some, lookup_empty. by intros [[<- <-]|[_ [[<- <-]|[_ ?]]]]. }
  split; (apply (resolveMount_exact 0); [exact Hok|discriminate|lazy -[mem_value]; reflexivity]).
Defined.

(** A cache that is no cache. *)
#[local] Instance no_cache : CachePackage world wfd unit := {|
  WriteMode := unit; EvictionPolicy := unit; WriteModeWriteThrough := tt; EvictionLRU := tt;
  cachefs_New cold _ _ _ _ _ _ w := (mkCacheFS _ _ _ (a_fs cold) (fun w => (None, w)), w) |}.

#[local] Instance sample_tiers : TiersKeep outside_project_kept (eq "/p"%string).
Proof.
  constructor.
  - by intros v w v' w' [= <- <-].
  - done.
  - intros a m w <- Hw. apply (on_fs_keeps outside_kept None). simpl.
    exact (inv_mkdir (FSInv := sample_confined) "/p" m (w_disk w) eq_refl (ex_intro _ [] eq_refl) Hw).
Qed.

Definition sample_fusion : result (Srv world unit * Server) * gset Z :=
  fusion_main (RL := unit) (Cert := unit) (Pool := unit) tt 4 2049 "/p" 256 false false sample_world ∅.

Lemma fusion_keeps_witness :
  exists nfs server net f w1, sample_fusion = (Ok (nfs, server), net) /\
    fusion_fs "/p" 256 false sample_world = (Ok f, w1) /\ serves_within outside_project_kept (fusionFS f) nfs.
Proof.
  destruct sample_fusion as [[[nfs server]|e] net] eqn:E; [|vm_compute in E; discriminate E].
  exists nfs, server, net.
  destruct (fusion_keeps tt 4 outside_project_kept (eq "/p"%string) (eq "/lib"%string)
    2049 "/p" 256 false false sample_world ∅ nfs server net) as (f & w1 & Ef & Hs); [|exact sample_world_kept|exact E|].
  - by intros a [= <-].
  - exact (ex_intro _ f (ex_intro _ w1 (conj eq_refl (conj Ef Hs)))).
Defined.

(** A client of the workspace: MNT "/", LOOKUP "project" and "libs", and a
    MKDIR in each. *)
Definition workspace_requests : list request :=
  let req prog proc args := mkRequest false (nfs_call prog proc) args root_ctx in
  [req MOUNT_PROGRAM 1 (xdrEncodeString "/");
   req NFS_PROGRAM 3 (dirop_args 1 "project");
   req NFS_PROGRAM 3 (dirop_args 1 "libs");
   req NFS_PROGRAM 9 (dirop_args 2 "new" ++ empty_sattr);
   req NFS_PROGRAM 9 (dirop_args 3 "new" ++ empty_sattr)].

(** The project gets the directory, the libraries refuse it. *)
Example workspace_run :
  match sample_workspace with
  | (Ok (nfs, _), _) =>
      match workspace_fs "/p" "/lib" "" sample_world with
      | (Ok c, _) =>
          match serve_all (H := exported (composedFS (fun _ => O) c)) nfs workspace_requests with
          | Some (replies, nfs) =>
              map (fun x => match x with Ok p => reply_status p | Err _ => None end) replies
                = [Some 0; Some 0; Some 0; Some 0; Some NFSERR_PERM] /\
              is_Some (w_disk (s_fs nfs) !! "/p/new"%string) /\ w_disk (s_fs nfs) !! "/lib/new"%string = None
          | None => False
          end
      | _ => False
      end
  | _ => False
  end.
Proof. vm_compute. split; [reflexivity|]. split; [by eexists|reflexivity]. Qed.

(** The test server starts and serves its files: MNT "/test", LOOKUP
    "hello.txt", READ. *)
Example testserver_run :
  match testserver_main (RL := unit) (Cert := unit) (Pool := unit) (Disk := unit) tt 4 2049 false true sample_world
          (∅ : gset Z) with
  | (Ok (nfs, server), net) =>
      listener server = Some 2049 /\ so_UseRecordMarking (sv_options server) = true /\
      match testserver_fs sample_world with
      | (Ok fs, _) =>
          match serve_all (H := exported fs) nfs
                  [mkRequest false (nfs_call MOUNT_PROGRAM 1) (xdrEncodeString "/test") root_ctx;
                   mkRequest false (nfs_call NFS_PROGRAM 3) (dirop_args 1 "hello.txt") root_ctx;
                   mkRequest false (nfs_call NFS_PROGRAM 6)
                     (xdrEncodeFileHandle 2 ++ xdrEncodeUint64 0 ++ xdrEncodeUint32 100) root_ctx] with
          | Some (replies, _) =>
              map (fun x => match x with Ok p => reply_status p | Err _ => None end) replies = [Some 0; Some 0; Some 0]
          | None => False
          end
      | _ => False
      end
  | _ => False
  end.
Proof. vm_compute. repeat split. Qed.
