(* ===== verification/Recording.v ===== *)
(** * Which calls of the composed workspace reach the disk

    The packages of a host, instrumented so that every call on the filesystem
    osfs returns is recorded before it is answered.  What the disk does with
    a call is arbitrary: the theorem is about the calls examples/composed-workspace
    lets through. *)

From S2P Require Import Prelude Errors Xdr Attributes Rpc MinHeap FileHandle Lru AttrCache Path.
From S2P Require Import NetIP Options Auth Portmapper Tls Lifecycle Filesystem Wrappers Composed Fusion.
From S2P Require Import DirCache Server Operations Safety OpsSafe Procs ProcsDir ProcsSafe Sample Service Programs.
Open Scope Z_scope.

(** ** The record *)

Inductive disk_call :=
  | Inspected (p : string)               (* stat, readlink, listing, reading *)
  | Opened (p : string) (flag : Z)
  | Changed (p : string)                 (* contents, attributes, creation, removal *)
  | Renamed (p q : string)
  | Linked (target p : string).

Section Recording.
Context {W FD Sub : Type}.
#[local] Abbreviation RW := (prod W (list disk_call)).

(** A call of the host, recorded when it is one on the disk. *)
Definition note {A} (disk : bool) (c : disk_call) (f : W -> A * W) : RW -> A * RW := fun '(w, l) =>
  let '(a, w) := f w in (a, (w, if disk then l ++ [c] else l)).

(** A call that is not one on a filesystem. *)
Definition unseen {A} (f : W -> A * W) : RW -> A * RW := note false (Inspected "") f.

Definition recorded (disk : bool) (v : SymlinkFS W FD Sub) : SymlinkFS RW FD Sub := mkSymlinkFS
  {| i_Open p := note disk (Opened p os_O_RDONLY) (i_Open v p);
     i_OpenFile p flag perm := note disk (Opened p flag) (i_OpenFile v p flag perm);
     i_Create p := note disk (Changed p) (i_Create v p);
     i_Mkdir p m := note disk (Changed p) (i_Mkdir v p m);
     i_MkdirAll p m := note disk (Changed p) (i_MkdirAll v p m);
     i_Remove p := note disk (Changed p) (i_Remove v p);
     i_RemoveAll p := note disk (Changed p) (i_RemoveAll v p);
     i_Rename p q := note disk (Renamed p q) (i_Rename v p q);
     i_Stat p := note disk (Inspected p) (i_Stat v p);
     i_Chmod p m := note disk (Changed p) (i_Chmod v p m);
     i_Chown p u g := note disk (Changed p) (i_Chown v p u g);
     i_Chtimes p a m := note disk (Changed p) (i_Chtimes v p a m);
     i_Truncate p n := note disk (Changed p) (i_Truncate v p n);
     i_ReadDir p := note disk (Inspected p) (i_ReadDir v p);
     i_ReadFile p := note disk (Inspected p) (i_ReadFile v p);
     i_Sub p := note disk (Inspected p) (i_Sub v p);
     i_Chdir p := note disk (Inspected p) (i_Chdir v p);
     i_Getwd := unseen (i_Getwd v);
     i_TempDir := i_TempDir v |}
  {| i_Lstat p := note disk (Inspected p) (i_Lstat v p);
     i_Lchown p u g := note disk (Changed p) (i_Lchown v p u g);
     i_Readlink p := note disk (Inspected p) (i_Readlink v p);
     i_Symlink t p := note disk (Linked t p) (i_Symlink v t p) |}.

(** Files are used as they were opened. *)
Definition recorded_files `{FileMethods W FD} : FileMethods RW FD := {|
  m_Stat fd := unseen (m_Stat fd);
  m_ReadAt fd n off := unseen (m_ReadAt fd n off);
  m_WriteAt fd b off := unseen (m_WriteAt fd b off);
  m_Readdir fd n := unseen (m_Readdir fd n);
  m_Close fd := unseen (m_Close fd) |}.

Definition recorded_new (disk : bool) (new : W -> result (SymlinkFS W FD Sub) * W)
    : RW -> result (SymlinkFS RW FD Sub) * RW := fun w =>
  match unseen new w with
  | (Ok v, w) => (Ok (recorded disk v), w)
  | (Err e, w) => (Err e, w)
  end.

(** The instrumented packages; lockfs wraps values of the instrumented kind
    and is not used by this program. *)
Definition recorded_packages (host : Packages W FD Sub)
    (lockfs : AnyFS RW FD Sub -> RW -> result (AnyFS RW FD Sub) * RW) : Packages RW FD Sub := {|
  memfs_NewFS := recorded_new false memfs_NewFS;
  osfs_NewFS := recorded_new true osfs_NewFS;
  lockfs_NewFS := lockfs;
  filepath_Abs := filepath_Abs;
  os_MkdirAll p m := note true (Changed p) (os_MkdirAll p m);
  m_Write fd b := unseen (m_Write fd b);
  new_cell w :=
    let '(r, w') := new_cell w.1 in
    (mkRef (fun x => ref_get r x.1) (fun d x => (ref_set r d x.1, x.2)), (w', w.2)) |}.

(** ** What may be in it *)

Variables (host : Packages W FD Sub) (project libs shared : string).

(** The directories the program mounts, as the host resolves them. *)
Definition writable_dir (a : string) : Prop :=
  exists d, d <> EmptyString /\ (d = project \/ d = shared) /\ filepath_Abs d = Ok a.
Definition library_dir (a : string) : Prop := libs <> EmptyString /\ filepath_Abs libs = Ok a.

Definition in_writable (p : string) : Prop := exists a, writable_dir a /\ under a p.

(** Changes only below the project and shared directories, links only with
    targets that lead no further up, and below the libraries only inspection. *)
Definition let_through (c : disk_call) : Prop :=
  match c with
  | Inspected p => in_writable p \/ exists a, library_dir a /\ under a p
  | Opened p flag => in_writable p \/ flag = os_O_RDONLY /\ exists a, library_dir a /\ under a p
  | Changed p => in_writable p
  | Renamed p q => in_writable p /\ in_writable q
  | Linked t p => inner_target t /\ in_writable p
  end.

Definition all_let_through (w : RW) : Prop := Forall let_through w.2.

Lemma note_kept {A} (disk : bool) c (f : W -> A * W) w :
  all_let_through w -> (disk = true -> let_through c) -> all_let_through (note disk c f w).2.
Proof.
  destruct w as [w l]. intros Hl Hc. unfold note. destruct (f w) as [a w']. destruct disk; [|done].
  apply Forall_app. split; [done|]. by repeat constructor; apply Hc.
Qed.

Lemma unseen_kept {A} (f : W -> A * W) w : all_let_through w -> all_let_through (unseen f w).2.
Proof. intros Hw. by apply note_kept. Qed.

Context `{FileMethods W FD}.
#[local] Existing Instance recorded_files.

(** Memory filesystems leave no record. *)
Lemma memory_kept (v : SymlinkFS W FD Sub) dom b : Kept (recorded false v) dom b all_let_through.
Proof.
  constructor. refine {| fd_ok := fun _ _ => True |}; intros; try (split; [|done]);
    first [by apply unseen_kept | by apply note_kept].
Qed.

(** The disk, seen through a directory the program mounts. *)
Lemma writable_kept (v : SymlinkFS W FD Sub) a :
  writable_dir a -> Kept (recorded true v) (under a) true all_let_through.
Proof.
  intros Ha. assert (forall p, under a p -> in_writable p) as Hin by (intros p Hp; by exists a). constructor.
  refine {| fd_ok := fun _ _ => True |}; intros; try (split; [|done]);
    first [by apply unseen_kept | apply note_kept; [done|]; intros _; simpl; by auto].
Qed.

Lemma library_kept (v : SymlinkFS W FD Sub) a :
  library_dir a -> Kept (recorded true v) (under a) false all_let_through.
Proof.
  intros Ha. constructor.
  refine {| fd_ok := fun _ _ => True |}; intros; try done; try (split; [|done]);
    first [by apply unseen_kept | apply note_kept; [done|]; intros _; right; by eauto].
Qed.
End Recording.

Section Confined.
Context {W FD Sub RL Disk Cert Pool N : Type}.
Context (host : Packages W FD Sub) `{FileMethods W FD} `{MapRange}.
Context `{OpLimiter RL} `{Env} `{Pki Disk Cert Pool} `{Network N}.
Context (disk : Disk) (numCPU : Z).
#[local] Abbreviation RW := (prod W (list disk_call)).
Context (iter : RW -> nat) (lockfs : AnyFS RW FD Sub -> RW -> result (AnyFS RW FD Sub) * RW).
#[local] Existing Instance recorded_files.
#[local] Instance recorded_host : Packages RW FD Sub := recorded_packages host lockfs.

Lemma recorded_new_Ok (d : bool) (new : W -> result (SymlinkFS W FD Sub) * W) w v w' :
  recorded_new d new w = (Ok v, w') -> exists v0, v = recorded d v0 /\ w'.2 = w.2.
Proof.
  destruct w as [w l]. unfold recorded_new, unseen, note. destruct (new w) as [[v0|e] w1]; [|done].
  intros [= <- <-]. by exists v0.
Qed.

(** The record is an invariant the instrumented packages keep. *)
Lemma recorded_keeps project libs shared :
  (forall d a, filepath_Abs (Packages := host) d = Ok a -> rooted a /\ path_Clean a = a) ->
  HostKeeps (all_let_through host project libs shared) (writable_dir host project shared) (library_dir host libs).
Proof.
  intros Habs. constructor.
  - intros [w l] Hw. simpl. by destruct (new_cell w).
  - intros [w l] s [w' l'] Hw. simpl. by destruct (new_cell w).
  - intros w v w' (v0 & -> & E)%recorded_new_Ok Hw. split; [by unfold all_let_through; rewrite E|].
    split; [apply memory_kept|]. intros p m x Hx. by apply note_kept.
  - intros w v w' (v0 & -> & E)%recorded_new_Ok Hw. split; [by unfold all_let_through; rewrite E|].
    split; intros a Ha; [by apply writable_kept|by apply library_kept].
  - exact Habs.
Qed.

(** ** Properties *)

(** C12: The composed workspace lets through to the disk only what it is meant to.
    Whatever the host and its disk do and whatever clients send, every call the
    running program makes on the disk names a path below a mounted directory;
    below the libraries directory it only inspects or opens for reading, and it
    never creates a link whose target is absolute or contains "..".  (The
    mounted directory itself counts as below it.) *)
Theorem workspace_calls_confined port project libs shared debug w net nfs server net' :
  (forall d a, filepath_Abs (Packages := host) d = Ok a -> rooted a /\ path_Clean a = a) ->
  workspace_main (RL := RL) (Cert := Cert) (Pool := Pool) disk numCPU iter port project libs shared debug (w, []) net
    = (Ok (nfs, server), net') ->
  exists c w1, workspace_fs project libs shared (w, []) = (Ok c, w1) /\
    forall rs, exists replies nfs', serve_all (H := exported (composedFS iter c)) nfs rs = Some (replies, nfs') /\
      Forall (let_through host project libs shared) (s_fs nfs').2.
Proof.
  intros Habs E. pose proof (recorded_keeps project libs shared Habs) as Hk.
  refine (workspace_keeps disk numCPU iter (all_let_through host project libs shared)
    (writable_dir host project shared) (library_dir host libs)
    port project libs shared debug (w, []) net nfs server net' _ _ _ E).
  - intros d a Hd Hor Ha. by exists d.
  - by intros a Hl Ha.
  - by apply Forall_nil.
Qed.
End Confined.

(** ** A run *)

#[local] Existing Instances world_files program_order program_net program_pki recorded_files.
#[local] Abbreviation recorded_world := (prod world (list disk_call)).
#[local] Abbreviation world_fd := (prod (option nat) MemFS.fd).
#[local] Instance recorded_sample : Packages recorded_world world_fd unit :=
  recorded_packages world_packages (fun v w => (Ok v, w)).

Definition recorded_workspace (w : world) : result (Srv recorded_world unit * Server) * gset Z :=
  workspace_main (RL := unit) (Cert := unit) (Pool := unit) tt 4 (fun _ => O) 2049 "/p" "/lib" "" false (w, []) ∅.

Lemma sample_abs d a : filepath_Abs (Packages := world_packages) d = Ok a -> rooted a /\ path_Clean a = a.
Proof.
  unfold filepath_Abs, world_packages. destruct (str_prefix "/" d) eqn:E; [|done]. intros [= <-].
  split; [by apply path_Clean_rooted|by apply path_Clean_idem].
Qed.

Lemma workspace_calls_confined_witness :
  exists nfs server net c w1, recorded_workspace sample_world = (Ok (nfs, server), net) /\
    workspace_fs "/p" "/lib" "" (sample_world, []) = (Ok c, w1) /\
    forall rs, exists replies nfs', serve_all (H := exported (composedFS (fun _ => O) c)) nfs rs = Some (replies, nfs') /\
      Forall (let_through world_packages "/p" "/lib" "") (s_fs nfs').2.
Proof.
  destruct (recorded_workspace sample_world) as [[[nfs server]|e] net] eqn:E; [|vm_compute in E; discriminate E].
  exists nfs, server, net.
  destruct (workspace_calls_confined world_packages tt 4 (fun _ => O) (fun v w => (Ok v, w))
    2049 "/p" "/lib" "" false sample_world ∅ nfs server net sample_abs E) as (c & w1 & Ec & Hs).
  exact (ex_intro _ c (ex_intro _ w1 (conj eq_refl (conj Ec Hs)))).
Defined.

(** The calls a run of requests makes on the disk [d]. *)
Definition disk_calls (d : MemFS.state) (rs : list request) : option (list disk_call) :=
  let w := mkWorld d ∅ 0 ∅ in
  match recorded_workspace w, workspace_fs "/p" "/lib" "" (w, []) with
  | (Ok (nfs, _), _), (Ok c, _) =>
      '(_, nfs') ← serve_all (H := exported (composedFS (fun _ => O) c)) nfs rs; Some (s_fs nfs').2
  | _, _ => None
  end.

Definition beyond_inspection (c : disk_call) : bool := match c with Inspected _ => false | _ => true end.

(** A MKDIR below the project and one below the libraries: the second reaches
    the disk as inspection only. *)
Example workspace_calls :
  List.filter beyond_inspection <$> disk_calls sample_disk workspace_requests
    = Some [Changed "/p/new"; Changed "/p/new"].
Proof. vm_compute. reflexivity. Qed.

(** The mounted directory itself is within reach: when it is empty a client can
    remove it and put a link in its place, after which a disk that follows
    links serves what the link leads to. *)
Example mounted_directory_replaced :
  List.filter beyond_inspection <$>
    disk_calls (list_to_map [("/"%string, MemFS.mkMNode MemFS.CDir 493 0); ("/p"%string, MemFS.mkMNode MemFS.CDir 493 0)])
      [mkRequest false (nfs_call MOUNT_PROGRAM 1) (xdrEncodeString "/") root_ctx;
       mkRequest false (nfs_call NFS_PROGRAM 13) (dirop_args 1 "project") root_ctx;
       mkRequest false (nfs_call NFS_PROGRAM 10) (dirop_args 1 "project" ++ empty_sattr ++ xdrEncodeString "etc") root_ctx]
    = Some [Changed "/p"; Linked "etc" "/p"; Changed "/p"].
Proof. vm_compute. reflexivity. Qed.
