(* ===== verification/Connection.v ===== *)
(** * A connection from bytes to bytes (src/server.go)

    The request loop of a connection ([handleConnectionLoop]) over the
    interface [connIO] of its framing, with record marking or without: calls
    are read and decoded, the rate limiter is asked, the call is handled and
    the reply is written back.  The stream is what the peer sends until it closes; socket
    deadlines, failing writes and the shutdown of the server end a connection
    early and are left out, and so is the worker pool, which runs the same
    call.  The table of connections is in [ConnTable]. *)

From S2P Require Import Prelude Errors Xdr Attributes Rpc Transport MinHeap FileHandle Lru AttrCache.
From S2P Require Import Path Options NetIP Auth Filesystem DirCache Server RateLimiter Operations.
From S2P Require Import Safety OpsSafe Procs ProcsDir ProcsSafe Reads Sample Service.
Open Scope Z_scope.

(** ** Replies keep the header of their call *)

Section Returns.
Context {F FD RL : Type} `{SymlinkFileSystem F FD} `{OpLimiter RL} `{Env}.
#[local] Abbreviation M := (M F RL).

(** Whatever the computation returns satisfies [P]. *)
Definition returns {A} (P : A -> Prop) (m : M A) : Prop :=
  forall s a s', m s = Some (a, s') -> P a.

Lemma returns_ret {A} (P : A -> Prop) (a : A) : P a -> returns P (mret a).
Proof. intros Ha s b s' E. by injection E as <- _. Qed.

Lemma returns_panic {A} (P : A -> Prop) : returns P panic.
Proof. done. Qed.

Lemma returns_bind_strong {A B} (Q : A -> Prop) (P : B -> Prop) (m : M A) (k : A -> M B) :
  returns Q m -> (forall a, Q a -> returns P (k a)) -> returns P (m ≫= k).
Proof.
  intros Hm Hk s b s' E. unfold mbind, M_bind in E. destruct (m s) as [[a s1]|] eqn:E1; [|done].
  apply Hm in E1. by eapply Hk.
Qed.

Lemma returns_bind {A B} (P : B -> Prop) (m : M A) (k : A -> M B) :
  (forall a, returns P (k a)) -> returns P (m ≫= k).
Proof. intros Hk. apply (returns_bind_strong (fun _ => True)); [done|]. eauto. Qed.

Definition keeps (reply : RPCReply) (m : M RPCReply) : Prop :=
  returns (fun r => reply_Header r = reply_Header reply) m.

Lemma with_node_keeps reply handle stale k :
  reply_Header stale = reply_Header reply -> (forall n, keeps reply (k n)) ->
  keeps reply (with_node handle stale k).
Proof. intros Hs Hk. apply returns_bind. intros [n|]; [apply Hk|by apply returns_ret]. Qed.

End Returns.

Ltac keeps_step :=
  match goal with
  | |- keeps _ _ => unfold keeps
  | |- returns _ (mret _) => apply returns_ret; done
  | |- returns _ panic => apply returns_panic
  | |- returns _ (_ ≫= _) => apply returns_bind; intros
  | |- returns _ (with_node _ _ _) => apply with_node_keeps; [done|intros]
  | |- returns _ (match ?x with _ => _ end) => destruct x
  | |- returns _ (let '(_, _) := ?x in _) => destruct x
  | |- forall _, _ => intros
  end.
Ltac keeps_go := repeat keeps_step.

Section Headers.
Context {F FD RL : Type} `{SymlinkFileSystem F FD} `{OpLimiter RL} `{Env}.
#[local] Abbreviation M := (M F RL).
#[local] Abbreviation keeps := (keeps (F := F) (RL := RL)).

Lemma handlers_keep proc handler body reply ctx :
  nfsHandlers proc = Some handler -> keeps reply (handler body reply ctx).
Proof.
  unfold nfsHandlers. intros E. repeat case_match; simplify_eq.
  all: unfold handleNull, handleGetattr, handleSetattr, handleLookup, handleAccess, handleReadlink, handleRead,
    handleWrite, handleCreate, handleMkdir, handleSymlink, handleMknod, handleRemove, handleRmdir,
    handleRename, handleLink, handleReaddir, handleReaddirplus, handleFsstat, handleFsinfo, handlePathconf,
    handleCommit, info_reply, lookup_failed, dir_failed, finish_created, setattr_size; keeps_go.
Qed.

Lemma mount_keeps call body reply ctx : keeps reply (handleMountCall call body reply ctx).
Proof. unfold handleMountCall, mount_MNT; keeps_go. Qed.

Lemma dispatch_keeps call body reply ctx : keeps reply (dispatch call body reply ctx).
Proof.
  unfold dispatch, handleNFSCall. repeat case_match; keeps_go; [apply mount_keeps|by eapply handlers_keep].
Qed.

Lemma HandleCall_header draining call body ctx :
  returns (F := F) (RL := RL) (fun r => forall reply, r = Ok reply -> reply_Header reply = call_Header call)
    (HandleCall draining call body ctx).
Proof.
  unfold HandleCall. destruct draining; [apply returns_ret; by intros ? [= <-]|].
  do 3 (apply returns_bind; intros ?). destruct (ValidateAuthentication _ _) as [res ctx'].
  destruct (negb _); [apply returns_bind; intros _; apply returns_ret; by intros ? [= <-]|].
  apply returns_bind; intros [|]; [by apply returns_ret|].
  eapply returns_bind_strong; [apply dispatch_keeps|]. intros rep E.
  do 2 (apply returns_bind; intros ?). destruct (_ && _); apply returns_ret; [done|].
  by intros ? [= <-].
Qed.
End Headers.

(** ** The loop *)

(** What the loop uses of the rate limiter, beside [OpLimiter]. *)
Class ConnLimiter (RL : Type) := {
  conn_AllowRequest : string -> string -> (nat -> Z) -> nat -> RL -> bool * nat * RL;
  conn_CleanupConnection : string -> RL -> RL
}.

#[export] Instance rate_limiter_conn {Fl} `{Float64 Fl} `{MapRange} : ConnLimiter (RateLimiter Fl) := {|
  conn_AllowRequest ip connID clock k rl :=
    let '(ok, rl, k) := AllowRequest ip connID rl clock k in (ok, k, rl);
  conn_CleanupConnection := CleanupConnection
|}.

#[export] Instance open_conn_limiter : ConnLimiter unit := {|
  conn_AllowRequest _ _ _ t rl := (true, t, rl);
  conn_CleanupConnection _ rl := rl
|}.

(** [connIO]: framing.  [cio_left] takes note of what the handler of a call
    left unread of the reader [ReadCall] gave it. *)
Class ConnIO (C : Type) := {
  cio_ReadCall : C -> option (result (RPCCall * list byte) * C);
  cio_WriteReply : RPCReply -> C -> option C;
  cio_left : list byte -> C -> C
}.

(** [rawConnIO]: calls, arguments and replies follow each other on the
    connection; the reader handed out is the connection itself. *)
Record rawConn := mkRawConn { raw_in : list byte; raw_out : list byte }.

Definition raw_ReadCall (c : rawConn) : result (RPCCall * list byte) * rawConn :=
  match DecodeRPCCall (raw_in c) with
  | (Err err, rest) => (Err err, mkRawConn rest (raw_out c))
  | (Ok call, rest) => (Ok (call, rest), mkRawConn rest (raw_out c))
  end.

Definition raw_WriteReply (reply : RPCReply) (c : rawConn) : rawConn :=
  mkRawConn (raw_in c) (raw_out c ++ EncodeRPCReply reply).

#[export] Instance rawConnIO : ConnIO rawConn := {|
  cio_ReadCall c := Some (raw_ReadCall c);
  cio_WriteReply reply c := Some (raw_WriteReply reply c);
  cio_left rest c := mkRawConn rest (raw_out c)
|}.

(** [recordMarkingConnIO.ReadCall]: a record, the call at its start, and the
    bytes after the call. *)
Definition ReadCall (c : RecordMarkingConn) : option (result (RPCCall * list byte) * RecordMarkingConn) :=
  '(res, rd) ← ReadRecord (reader c);
  let c := mkConn rd (writer c) in
  Some (match res with
        | Err err => Err err
        | Ok data =>
            match DecodeRPCCall data with
            | (Err err, _) => Err err
            | (Ok call, remaining) => Ok (call, remaining)
            end
        end, c).

(** [recordMarkingConnIO.WriteReply] *)
Definition WriteReply (reply : RPCReply) (c : RecordMarkingConn) : option RecordMarkingConn :=
  wr ← WriteRecord (writer c) (EncodeRPCReply reply);
  Some (mkConn (reader c) wr).

(** The arguments have a reader of their own. *)
#[export] Instance recordMarkingConnIO : ConnIO RecordMarkingConn := {|
  cio_ReadCall := ReadCall;
  cio_WriteReply := WriteReply;
  cio_left _ c := c
|}.

(** The remote end of a TCP connection, [draining i] telling whether a policy
    update holds the lock when request [i] arrives. *)
Record peer := mkPeer { RemoteIP : string; RemotePort : Z; connID : string; draining : nat -> bool }.

Section Loop.
Context {F FD RL : Type} `{SymlinkFileSystem F FD} `{OpLimiter RL} `{ConnLimiter RL} `{Env}.
#[local] Abbreviation M := (M F RL).
#[local] Abbreviation Srv := (Srv F RL).
Variable p : peer.

(** The limiter the connection holds is the server's as long as no policy
    update replaces it. *)
Definition request_allowed : M bool :=
  rl ← gets s_rateLimiter;
  en ← gets (fun s => EnableRateLimiting (s_policy s));
  match rl with
  | Some rl =>
      if (en : bool) then
        t ← gets s_tick;
        let '(ok, t', rl') := conn_AllowRequest (RemoteIP p) (connID p) clock t rl in
        modify (upd_limiter (Some rl') t') ;; mret ok
      else mret true
  | None => mret true
  end.

(** The body of the loop between reading a call and writing its reply: a reply
    to write, or the handler's error, which ends the connection. *)
Definition answer (i : nat) (call : RPCCall) (body : list byte) : M (result RPCReply) :=
  let authCtx := mkAuthContext (RemoteIP p) (RemotePort p) (Credential call) None false 0 0 in
  read_to body ;;
  ok ← request_allowed;
  if negb (ok : bool) then
    record RateLimitExceeded ;;
    mret (Ok (mkRPCReply (call_Header call) MSG_DENIED 0 (mkRPCVerifier 0 []) DataNil))
  else HandleCall (draining p i) call body authCtx.

Fixpoint handleConnectionLoop {C} `{ConnIO C} (fuel i : nat) (c : C) (s : Srv) : option (C * Srv) :=
  match fuel with
  | O => None
  | S fuel =>
      '(res, c) ← cio_ReadCall c;
      match res with
      | Err _ => Some (c, s)
      | Ok (call, body) =>
          '(outcome, s) ← answer i call body s;
          let c := cio_left (s_unread s) c in
          match outcome with
          | Err _ => Some (c, s)
          | Ok reply => c ← cio_WriteReply reply c; handleConnectionLoop fuel (S i) c s
          end
      end
  end.

(** The deferred [CleanupConnection]. *)
Definition cleanup_limiter (s : Srv) : Srv :=
  match s_rateLimiter s with
  | Some rl => upd_limiter (Some (conn_CleanupConnection (connID p) rl)) (s_tick s) s
  | None => s
  end.

(** The bytes written to the peer that sends [input] and closes.  A record
    takes at least four bytes, so the fuel suffices ([loop_total]). *)
Definition handleConnectionWithRecordMarking (input : list byte) (s : Srv) : option (list byte * Srv) :=
  '(c, s) ← handleConnectionLoop (S (length input)) 0 (NewRecordMarkingConn input []) s;
  Some (wr_w (writer c), cleanup_limiter s).

Definition handleConnection (input : list byte) (s : Srv) : option (list byte * Srv) :=
  '(c, s) ← handleConnectionLoop (S (length input)) 0 (mkRawConn input []) s;
  Some (raw_out c, cleanup_limiter s).

(** ** Specification: calls in, replies out *)

(** The replies to the calls, in order, up to the first handler error. *)
Fixpoint answer_all (i : nat) (calls : list (RPCCall * list byte)) (s : Srv) : option (list RPCReply * Srv) :=
  match calls with
  | [] => Some ([], s)
  | (call, body) :: calls =>
      '(outcome, s) ← answer i call body s;
      match outcome with
      | Err _ => Some ([], s)
      | Ok reply => '(replies, s) ← answer_all (S i) calls s; Some (reply :: replies, s)
      end
  end.
End Loop.

(** ** Lemmas *)

Lemma ReadCall_total c :
  exists res rd, ReadCall c = Some (res, mkConn rd (writer c)) /\
    (forall x, res = Ok x -> (length (rd_r rd) < length (rd_r (reader c)))%nat).
Proof.
  unfold ReadCall. destruct (ReadRecord_is_Some (reader c)) as [[res rd] E]. rewrite E. simpl.
  eexists _, rd. split; [done|]. destruct res as [data|]; [|done]. intros _ _.
  by eapply ReadRecord_progress.
Qed.

Lemma ReadCall_record c call args fs l rest :
  rd_r (reader c) = record_bytes fs l ++ rest -> MaxRecordSize (reader c) = DefaultMaxRecordSize ->
  Forall (fun f => zlen f <= MaxFragmentSize) (fs ++ [l]) ->
  mjoin fs ++ l = encode_call call ++ args -> call_wf call ->
  zlen (encode_call call ++ args) <= DefaultMaxRecordSize ->
  exists rd, ReadCall c = Some (Ok (call, args), mkConn rd (writer c)) /\ rd_r rd = rest /\
    MaxRecordSize rd = DefaultMaxRecordSize.
Proof.
  intros Hr Hm HF Hj Hwf Hsz. unfold ReadCall.
  erewrite ReadRecord_fragments; [|exact Hr|exact HF|]; cycle 1.
  { rewrite Hj. unfold max_record_size. by rewrite Hm. }
  simpl. rewrite Hj, DecodeRPCCall_encode by done. by eexists.
Qed.

Lemma WriteReply_framed reply c :
  0 < maxFragment (writer c) <= MaxFragmentSize ->
  exists fs l, WriteReply reply c =
      Some (mkConn (reader c) (mkWriter (wr_w (writer c) ++ record_bytes fs l) (maxFragment (writer c)))) /\
    mjoin fs ++ l = EncodeRPCReply reply /\ Forall (fun f => zlen f <= MaxFragmentSize) (fs ++ [l]).
Proof.
  intros Hm. destruct (WriteRecord_fragments (writer c) (EncodeRPCReply reply) Hm)
    as (fs & l & E & Hj & HF). exists fs, l. unfold WriteReply. rewrite E. split; [done|]. split; [done|].
  eapply Forall_impl; [done|]. simpl. lia.
Qed.

(** What the loop needs of a framing: reading a call takes something off the
    connection, whatever part of the arguments is left, and replies can be
    written. *)
Class ConnIOLaws (C : Type) `{ConnIO C} := {
  cio_ok : C -> Prop;
  cio_size : C -> nat;
  cio_read_total : forall c, cio_ok c -> exists res c', cio_ReadCall c = Some (res, c') /\
    forall call body, res = Ok (call, body) -> forall rest, rest `suffix_of` body ->
      cio_ok (cio_left rest c') /\ (cio_size (cio_left rest c') < cio_size c)%nat;
  cio_write_total : forall reply c, cio_ok c -> exists c', cio_WriteReply reply c = Some c' /\
    cio_ok c' /\ cio_size c' = cio_size c
}.

#[export] Instance rawConnIO_laws : ConnIOLaws rawConn.
Proof.
  refine {| cio_ok := fun _ => True; cio_size := fun c => length (raw_in c) |}.
  - intros c _. simpl. unfold raw_ReadCall. destruct (DecodeRPCCall (raw_in c)) as [[call|e] rest] eqn:E.
    + do 2 eexists. split; [done|]. intros call' body [= -> ->] r Hr. split; [done|]. simpl.
      apply DecodeRPCCall_progress in E. apply suffix_length in Hr. lia.
    + do 2 eexists. by split.
  - intros reply c _. eexists. by split.
Defined.

#[export] Instance recordMarkingConnIO_laws : ConnIOLaws RecordMarkingConn.
Proof.
  refine {| cio_ok := fun c => 0 < maxFragment (writer c) <= MaxFragmentSize;
            cio_size := fun c => length (rd_r (reader c)) |}.
  - intros c Hm. simpl. destruct (ReadCall_total c) as (res & rd & E & Hrd). rewrite E.
    do 2 eexists. split; [done|]. intros call body Hres rest _. split; [done|]. by eapply Hrd.
  - intros reply c Hm. simpl. destruct (WriteReply_framed reply c Hm) as (fs & l & E & _). rewrite E.
    eexists. by split.
Defined.

Section LoopFacts.
Context {F FD RL : Type} `{SymlinkFileSystem F FD} `{OpLimiter RL} `{ConnLimiter RL} `{Env}.
#[local] Abbreviation Srv := (Srv F RL).
Variable p : peer.

Lemma request_allowed_safe pol tun P (s : Srv) : safe pol tun P s (request_allowed p) (fun _ _ => True).
Proof.
  unfold request_allowed. apply safe_bind, safe_gets. intros _. apply safe_bind, safe_gets. intros _.
  destruct (s_rateLimiter s) as [rl|]; [|by apply safe_ret].
  destruct (EnableRateLimiting (s_policy s)); [|by apply safe_ret].
  apply safe_bind, safe_gets. intros _.
  destruct (conn_AllowRequest _ _ _ _ rl) as [[ok t'] rl'].
  apply safe_bind, safe_modify; [apply inv_upd_limiter|done|]. intros _. by apply safe_ret.
Qed.

Lemma answer_safe pol tun P `{!FSInv F FD rooted (writable_by pol) P} (s : Srv) i call body :
  safe pol tun P s (answer p i call body) (fun _ _ => True).
Proof.
  unfold answer. apply safe_bind. eapply safe_mono; [apply read_to_safe|]. intros _ s0 _ _.
  apply safe_bind. eapply safe_mono; [apply request_allowed_safe|]. intros ok s1 _ _.
  destruct ok; simpl.
  - eapply safe_mono; [by apply HandleCall_safe|done].
  - apply safe_bind. eapply safe_mono; [apply record_safe|]. intros _ s2 _ _. by apply safe_ret.
Qed.

Lemma answer_served s i call body :
  server_ok s -> exists r s', answer p i call body s = Some (r, s') /\ served s s'.
Proof. apply safe_served. intros P HP. by apply answer_safe. Qed.

Lemma answer_header i call body :
  returns (F := F) (RL := RL) (fun r => forall reply, r = Ok reply -> reply_Header reply = call_Header call)
    (answer p i call body).
Proof.
  unfold answer. do 2 (apply returns_bind; intros ?). destruct (negb _); [|apply HandleCall_header].
  apply returns_bind. intros _. apply returns_ret. by intros ? [= <-].
Qed.

Lemma cleanup_served s : server_ok s -> served s (cleanup_limiter p s).
Proof.
  intros Hs. unfold cleanup_limiter. destruct (s_rateLimiter s) as [rl|]; [|by apply served_refl].
  split; [|done]. eapply server_ok_of. by apply inv_upd_limiter.
Qed.

(** What the handler leaves of the arguments is a part of them. *)
Lemma answer_unread i call body s r s' :
  answer p i call body s = Some (r, s') -> s_unread s' `suffix_of` body.
Proof.
  unfold answer. intros E. unfold mbind at 1, M_bind at 1 in E. cbn [read_to modify] in E.
  set (s0 := upd_unread body s) in E.
  assert (reads body (ok ← request_allowed p;
    if negb (ok : bool) then
      record RateLimitExceeded ;;
      mret (Ok (mkRPCReply (call_Header call) MSG_DENIED 0 (mkRPCVerifier 0 []) DataNil))
    else HandleCall (draining p i) call body
           (mkAuthContext (RemoteIP p) (RemotePort p) (Credential call) None false 0 0))) as Hr.
  { apply reads_bind; [unfold request_allowed; quiet_go|]. intros ok. unfold record.
    destruct (negb ok); [apply quiet_reads; quiet_go|apply HandleCall_reads]. }
  apply Hr in E as [E|E]; [|done]. by rewrite E.
Qed.

(** Every round consumes input, so fuel beyond its length is never used up. *)
Lemma loop_total {C} `{ConnIOLaws C} fuel i (c : C) (s : Srv) :
  (cio_size c < fuel)%nat -> cio_ok c -> server_ok s ->
  exists c' s', handleConnectionLoop p fuel i c s = Some (c', s') /\ served s s'.
Proof.
  revert i c s. induction fuel as [|fuel IH]; intros i c s Hf Hc Hs; [lia|]. cbn [handleConnectionLoop].
  destruct (cio_read_total c Hc) as (res & c1 & E & Hc1). rewrite E. simpl.
  destruct res as [[call body]|e]; [|by eexists _, s].
  destruct (answer_served s i call body Hs) as (r & s1 & E1 & Hs1). rewrite E1. simpl.
  destruct r as [reply|e]; [|by eexists _, s1].
  destruct (Hc1 call body eq_refl (s_unread s1) (answer_unread _ _ _ _ _ _ E1)) as [Hc2 Hlt].
  destruct (cio_write_total reply (cio_left (s_unread s1) c1) Hc2) as (c3 & E3 & Hc3 & Hsz). rewrite E3. simpl.
  destruct (IH (S i) c3 s1) as (c' & s' & E4 & Hs'); [lia|done|apply Hs1|].
  exists c', s'. split; [exact E4|]. by eapply served_trans.
Qed.

(** A call and its argument bytes, as a client may send them. *)
Definition conforming (x : RPCCall * list byte) : Prop :=
  call_wf x.1 /\ zlen (encode_call x.1 ++ x.2) <= DefaultMaxRecordSize.

Lemma loop_framed calls stream fuel i c s :
  framed ((fun x => encode_call x.1 ++ x.2) <$> calls) stream -> Forall conforming calls ->
  rd_r (reader c) = stream -> MaxRecordSize (reader c) = DefaultMaxRecordSize ->
  0 < maxFragment (writer c) <= MaxFragmentSize -> (length calls < fuel)%nat -> server_ok s ->
  exists replies s' c' out,
    answer_all p i calls s = Some (replies, s') /\
    handleConnectionLoop p fuel i c s = Some (c', s') /\
    wr_w (writer c') = wr_w (writer c) ++ out /\ framed (EncodeRPCReply <$> replies) out /\
    Forall2 (fun r x => reply_Header r = call_Header x.1) replies (take (length replies) calls).
Proof.
  revert stream fuel i c s. induction calls as [|[call args] calls IH]; intros stream fuel i c s Hfr HF Hr Hmr Hm Hfu Hs;
    (destruct fuel as [|fuel]; [simpl in Hfu; lia|]); cbn [handleConnectionLoop answer_all].
  - inversion Hfr; subst. destruct c as [[r ? ? ? ?] w]. simpl in *. subst r.
    eexists [], s, _, []. split; [done|]. split; [done|]. simpl. rewrite app_nil_r.
    split; [done|]. split; constructor.
  - inversion Hfr as [|fs l rs st Hfs Hst Hj Hrec]; subst. apply Forall_cons in HF as [[Hwf Hsz] HF].
    simpl in *. destruct (ReadCall_record c call args fs l st) as (rd & E & Hrd & Hmrd); try done.
    rewrite E. simpl. destruct (answer_served s i call args Hs) as (r & s1 & E1 & Hs1 & _).
    rewrite E1. simpl. pose proof (answer_header i call args _ _ _ E1) as Hh.
    destruct r as [reply|e].
    + destruct (WriteReply_framed reply (mkConn rd (writer c)) Hm) as (gs & g & E2 & Hg & HFg). rewrite E2. simpl.
      destruct (IH st fuel (S i) (mkConn rd (mkWriter (wr_w (writer c) ++ record_bytes gs g)
        (maxFragment (writer c)))) s1) as (replies & s' & c' & out & Ha & El & Hw & Hfo & Hh2); try done; [lia|].
      rewrite Ha, El. simpl. eexists _, s', c', _. split; [done|]. split; [done|]. simpl in Hw.
      rewrite Hw, <- app_assoc. split; [done|]. split.
      * rewrite fmap_cons, <- Hg. by constructor.
      * cbn [length take]. constructor; [by apply Hh|done].
    + eexists [], s1, _, []. split; [done|]. split; [done|]. simpl. rewrite app_nil_r.
      split; [done|]. split; constructor.
Qed.

Lemma conn_limits w : 0 < maxFragment (NewRecordMarkingWriter w) <= MaxFragmentSize.
Proof. done. Qed.

(** ** Properties *)

(** C2: no input breaks a connection.  Whatever bytes a peer sends, with record
    marking or without, the request loop ends, no handler panics, and the
    server it leaves is consistent, under the same options, and with every
    invariant of the wrapped filesystem kept (so its files are untouched when
    the export is read-only). *)
Theorem connection_survives_any_input input s :
  server_ok s ->
  (exists out s', handleConnectionWithRecordMarking p input s = Some (out, s') /\ served s s') /\
  (exists out s', handleConnection p input s = Some (out, s') /\ served s s').
Proof.
  intros Hs. unfold handleConnectionWithRecordMarking, handleConnection. split.
  - destruct (loop_total (S (length input)) 0 (NewRecordMarkingConn input []) s) as (c & s1 & E & Hs1);
      [simpl; lia|apply conn_limits|done|].
    rewrite E. simpl. eexists _, _. split; [done|]. eapply served_trans; [done|]. apply cleanup_served, Hs1.
  - destruct (loop_total (S (length input)) 0 (mkRawConn input []) s) as (c & s1 & E & Hs1); [simpl; lia|done|done|].
    rewrite E. simpl. eexists _, _. split; [done|]. eapply served_trans; [done|]. apply cleanup_served, Hs1.
Qed.

(** C3: a connection is a faithful transport.  When a client sends conforming
    calls, in fragments of its choice, the bytes it gets back are the records
    of the replies to its calls, each carrying the header (and so the
    transaction id) of its call, in the order of the calls and with nothing
    in between, and the server ends in the state those calls lead to.  A call
    that times out gets no reply and ends the connection. *)
Theorem connection_answers_in_order calls input s :
  server_ok s -> framed ((fun x => encode_call x.1 ++ x.2) <$> calls) input -> Forall conforming calls ->
  exists replies s' out,
    answer_all p 0 calls s = Some (replies, s') /\
    handleConnectionWithRecordMarking p input s = Some (out, cleanup_limiter p s') /\
    framed (EncodeRPCReply <$> replies) out /\
    Forall2 (fun r x => reply_Header r = call_Header x.1) replies (take (length replies) calls).
Proof.
  intros Hs Hfr HF. pose proof (framed_length _ _ Hfr) as Hl. rewrite length_fmap in Hl.
  destruct (loop_framed calls input (S (length input)) 0 (NewRecordMarkingConn input []) s)
    as (replies & s' & c' & out & Ha & E & Hw & Hfo & Hh); try done; [lia|].
  exists replies, s', out. split; [done|]. split; [|done].
  unfold handleConnectionWithRecordMarking. rewrite E. simpl in *. by rewrite Hw.
Qed.
End LoopFacts.

(** ** Concrete runs *)

Definition sample_peer : peer := mkPeer "127.0.0.1" 700 "conn-1" (fun _ => false).

(** MNT "/" and LOOKUP "a" under the handle it returns, as user root. *)
Definition sample_cred : RPCCredential := mkRPCCredential AUTH_SYS (encode_authsys (mkAuthSys 0 "h" 0 0 [])).

Definition sample_calls : list (RPCCall * list byte) :=
  [(mkRPCCall (mkRPCMsgHeader 7 RPC_CALL 2 MOUNT_PROGRAM 3 1) sample_cred (mkRPCVerifier 0 []),
    xdrEncodeString "/");
   (mkRPCCall (mkRPCMsgHeader 8 RPC_CALL 2 NFS_PROGRAM 3 3) sample_cred (mkRPCVerifier 0 []),
    dirop_args 1 "a")].

(** The first call is split after ten bytes. *)
Definition sample_input : list byte :=
  match sample_calls with
  | [(c1, a1); (c2, a2)] =>
      record_bytes [take 10 (encode_call c1 ++ a1)] (drop 10 (encode_call c1 ++ a1)) ++
      record_bytes [] (encode_call c2 ++ a2)
  | _ => []
  end.

Lemma sample_input_framed : framed ((fun x => encode_call x.1 ++ x.2) <$> sample_calls) sample_input.
Proof.
  unfold sample_input, sample_calls. cbn [fmap list_fmap fst snd].
  set (r1 := encode_call _ ++ xdrEncodeString _). set (r2 := encode_call _ ++ dirop_args _ _).
  replace r1 with (mjoin [take 10 r1] ++ drop 10 r1) at 1 by (vm_compute; reflexivity).
  change r2 with (mjoin [] ++ r2) at 1. rewrite <- (app_nil_r (record_bytes [] r2)).
  repeat constructor; vm_compute; discriminate.
Qed.

Lemma sample_calls_conforming : Forall conforming sample_calls.
Proof. repeat constructor; vm_compute; discriminate. Qed.

Lemma connection_survives_any_input_witness :
  (exists out s', handleConnectionWithRecordMarking sample_peer [x80; x00; x00; x02; xff; xff]
      (sample_server true) = Some (out, s') /\ served (sample_server true) s') /\
  (exists out s', handleConnection sample_peer [x80; x00; x00; x02; xff; xff]
      (sample_server true) = Some (out, s') /\ served (sample_server true) s').
Proof.
  exact (connection_survives_any_input sample_peer [x80; x00; x00; x02; xff; xff] (sample_server true)
    (sample_server_ok true)).
Defined.

Lemma connection_answers_in_order_witness :
  exists replies s' out,
    answer_all sample_peer 0 sample_calls (sample_server false) = Some (replies, s') /\
    handleConnectionWithRecordMarking sample_peer sample_input (sample_server false)
      = Some (out, cleanup_limiter sample_peer s') /\
    framed (EncodeRPCReply <$> replies) out /\
    Forall2 (fun r x => reply_Header r = call_Header x.1) replies (take (length replies) sample_calls).
Proof.
  exact (connection_answers_in_order sample_peer sample_calls sample_input (sample_server false)
    (sample_server_ok false) sample_input_framed sample_calls_conforming).
Defined.

(** Both calls succeed: the stream carries two accepted replies, with the
    transaction ids 7 and 8 and status NFS_OK. *)
Example connection_run :
  match handleConnectionWithRecordMarking sample_peer sample_input (sample_server false) with
  | Some (out, _) =>
      match ReadRecord (NewRecordMarkingReader out) with
      | Some (Ok r1, rd) =>
          match ReadRecord rd with
          | Some (Ok r2, rd) =>
              (fun r => (ar_xid r, ar_stat r, be_val (take 4 (ar_rest r)))) <$> decode_accepted r1
                = Some (7, SUCCESS, 0) /\
              (fun r => (ar_xid r, ar_stat r, be_val (take 4 (ar_rest r)))) <$> decode_accepted r2
                = Some (8, SUCCESS, 0) /\ rd_r rd = []
          | _ => False
          end
      | _ => False
      end
  | None => False
  end.
Proof. vm_compute. repeat split. Qed.
