(* ===== verification/RawMode.v ===== *)
(** * Connections without record marking (src/server.go handleConnection)

    The mode [Export] uses: calls, arguments and replies follow each other on
    the connection without framing, so the next call is wherever the handler
    of the previous one stopped reading.  The procedures that only inspect read
    all their arguments before anything else, and a stream of such calls is
    answered call by call.  Handlers that refuse a call early do not, and the
    rest of their arguments is taken for the next call. *)

From S2P Require Import Prelude Errors Xdr Attributes Rpc Transport MinHeap FileHandle Lru AttrCache.
From S2P Require Import Path Options NetIP Auth Filesystem DirCache Server RateLimiter Operations.
From S2P Require Import Safety OpsSafe Procs ProcsDir ProcsSafe Reads Sample Service Connection.
Open Scope Z_scope.

(** The arguments of the procedures that inspect, and of LINK, on the wire. *)
Definition dirop_wf (h : Z) (name : string) (args : list byte) : Prop :=
  is_u64 h /\ slen name <= MAX_XDR_STRING_LENGTH /\ contains_nul (bytes_of_string name) = false /\
  args = xdrEncodeFileHandle h ++ xdrEncodeString name.

Definition inspects (proc : Z) (args : list byte) : Prop :=
  match proc with
  | 0 => args = []
  | 1 | 5 | 18 | 19 | 20 => exists h, is_u64 h /\ args = xdrEncodeFileHandle h
  | 3 => exists h name, dirop_wf h name args
  | 4 => exists h access, is_u64 h /\ is_u32 access /\ args = xdrEncodeFileHandle h ++ xdrEncodeUint32 access
  | 6 => exists h offset count, is_u64 h /\ is_u64 offset /\ is_u32 count /\
      args = xdrEncodeFileHandle h ++ xdrEncodeUint64 offset ++ xdrEncodeUint32 count
  | 15 => exists h h' name rest, is_u64 h /\ dirop_wf h' name rest /\ args = xdrEncodeFileHandle h ++ rest
  | 16 => exists h cookie verf count, is_u64 h /\ is_u64 cookie /\ length verf = 8%nat /\ is_u32 count /\
      args = xdrEncodeFileHandle h ++ xdrEncodeUint64 cookie ++ verf ++ xdrEncodeUint32 count
  | 17 => exists h cookie verf dirCount maxCount, is_u64 h /\ is_u64 cookie /\ length verf = 8%nat /\
      is_u32 dirCount /\ is_u32 maxCount /\
      args = xdrEncodeFileHandle h ++ xdrEncodeUint64 cookie ++ verf ++ xdrEncodeUint32 dirCount ++
             xdrEncodeUint32 maxCount
  | _ => False
  end.

Section InSync.
Context {F FD RL : Type} `{SymlinkFileSystem F FD} `{OpLimiter RL} `{Env}.
#[local] Abbreviation M := (M F RL).

(** Afterwards the reader stands at [r]. *)
Definition ends_at {A} (r : list byte) (m : M A) : Prop := forall s a s', m s = Some (a, s') -> s_unread s' = r.

Lemma ends_to {A} r (k : unit -> M A) : quiet (k tt) -> ends_at r (read_to r ≫= k).
Proof. intros Hk s a s' E. unfold mbind, M_bind in E. simpl in E. by apply Hk in E. Qed.

Lemma ends_bind {A B} r (m : M A) (k : A -> M B) : (forall a, ends_at r (k a)) -> ends_at r (m ≫= k).
Proof.
  intros Hk s b s' E. unfold mbind, M_bind in E. destruct (m s) as [[a s1]|]; [|done]. by eapply Hk.
Qed.
End InSync.

Lemma decode_name name (rest : list byte) :
  slen name <= MAX_XDR_STRING_LENGTH -> contains_nul (bytes_of_string name) = false ->
  xdrDecodeString (xdrEncodeString name ++ rest) = (Ok name, rest).
Proof. intros Hl Hn. by apply (xdr_string_roundtrip name rest). Qed.

(** Decode the next argument; after the last one nothing is read. *)
Ltac sync_step :=
  first
    [ rewrite xdrDecodeFileHandle_encode by done
    | rewrite binary_ReadUint64_encode by done
    | rewrite xdrDecodeUint32_encode by done
    | rewrite io_ReadFull_app' by done
    | rewrite decode_name by done ]; cbv beta iota;
  lazymatch goal with
  | |- ends_at ?r (read_to ?r ≫= _) => apply ends_to; unfold with_node; quiet_go
  | |- _ => apply ends_bind; intros ?
  end.
Ltac sync_go := rewrite <- ?app_assoc; repeat sync_step.

Section Sync.
Context {F FD RL : Type} `{SymlinkFileSystem F FD} `{OpLimiter RL} `{Env}.
#[local] Abbreviation ends_at := (ends_at (F := F) (RL := RL)).

Lemma info_in_sync tail h more reply : is_u64 h -> ends_at more (info_reply tail (xdrEncodeFileHandle h ++ more) reply).
Proof. intros Hh. unfold info_reply. sync_go. Qed.

(** A handler of an inspecting procedure stops exactly after its arguments. *)
Lemma handlers_in_sync proc handler args more reply ctx :
  nfsHandlers proc = Some handler -> proc <> 0 -> inspects proc args -> ends_at more (handler (args ++ more) reply ctx).
Proof.
  intros E Hp Hi. unfold nfsHandlers in E. repeat case_match; simplify_eq; cbn [inspects] in Hi; try done;
    unfold dirop_wf in Hi;
    repeat match goal with K : exists _, _ |- _ => destruct K | K : _ /\ _ |- _ => destruct K end; subst;
    unfold handleFsstat, handleFsinfo, handlePathconf, handleGetattr, handleLookup, handleAccess, handleReadlink,
      handleRead, handleReaddir, handleReaddirplus, info_reply; sync_go.
  unfold handleLink, unread. rewrite xdrDecodeFileHandle_encode by done. cbn [snd].
  rewrite xdrDecodeFileHandle_encode by done. cbn [snd]. rewrite decode_name by done. apply ends_to. quiet_go.
Qed.

Lemma bind_inv {A B} (m : M F RL A) (k : A -> M F RL B) s b s' :
  (m ≫= k) s = Some (b, s') -> exists a s1, m s = Some (a, s1) /\ k a s1 = Some (b, s').
Proof. unfold mbind, M_bind. destruct (m s) as [[a s1]|]; [|done]. by exists a, s1. Qed.

Lemma timeout_of_same sel (s : Srv F RL) t s' : timeout_of sel s = Some (t, s') -> s' = s.
Proof.
  unfold timeout_of, mbind, M_bind, gets. destruct (Timeouts (s_tuning s)); [|done]. by intros [= _ <-].
Qed.

(** The origin of the calls of a connection. *)
Definition call_ctx (p : peer) (call : RPCCall) : AuthContext :=
  mkAuthContext (RemoteIP p) (RemotePort p) (Credential call) None false 0 0.

(** A call of an inspecting procedure that the policy admits. *)
Definition admitted (p : peer) (pol : PolicyOptions) (x : RPCCall * list byte) : Prop :=
  call_wf x.1 /\ Program (call_Header x.1) = NFS_PROGRAM /\ Version (call_Header x.1) = NFS_V3 /\
  inspects (Procedure (call_Header x.1)) x.2 /\
  Allowed (fst (ValidateAuthentication (call_ctx p x.1) pol)) = true.

Lemma inspects_known proc args : inspects proc args -> exists handler, nfsHandlers (F := F) (RL := RL) proc = Some handler.
Proof. unfold inspects, nfsHandlers. intros Hi. repeat case_match; try done; by eexists. Qed.

Lemma dispatch_in_sync p pol call args more reply ctx s r s' :
  admitted p pol (call, args) -> s_unread s = args ++ more ->
  dispatch (F := F) (RL := RL) call (args ++ more) reply ctx s = Some (r, s') -> s_unread s' = more.
Proof.
  intros (_ & Hprog & Hv & Hi & _) Hs E. simpl in *. unfold dispatch, handleNFSCall in E.
  rewrite Hprog, Hv in E. cbn in E.
  destruct (inspects_known _ _ Hi) as [handler Eh]. rewrite Eh in E.
  destruct (Z.eq_dec (Procedure (call_Header call)) 0) as [E0|Hne].
  - rewrite E0 in Eh, Hi. simpl in Eh, Hi. subst args. injection Eh as <-. by injection E as <- <-.
  - by apply (handlers_in_sync _ _ args more reply ctx Eh) in E.
Qed.

Lemma HandleCall_in_sync p pol call args more s reply s' :
  admitted p pol (call, args) -> s_policy s = pol -> s_unread s = args ++ more ->
  HandleCall (F := F) (RL := RL) false call (args ++ more) (call_ctx p call) s = Some (Ok reply, s') ->
  s_unread s' = more.
Proof.
  intros Ha <- Hs. pose proof Ha as (_ & _ & _ & _ & Hal). simpl in Hal.
  unfold HandleCall. cbv zeta. intros E.
  apply bind_inv in E as (pol & s1 & [= <- <-] & E).
  apply bind_inv in E as (t & s1 & E1 & E). assert (s1 = s) as -> by by apply timeout_of_same in E1.
  apply bind_inv in E as (deadline & s1 & [= <- <-] & E).
  destruct (ValidateAuthentication (call_ctx p call) (s_policy s)) as [res ctx']. simpl in Hal. rewrite Hal in E.
  cbn [negb] in E. apply bind_inv in E as (expired & s2 & [= <- <-] & E).
  destruct (_ <=? _) in E; [done|]. apply bind_inv in E as (rep & s3 & Ed & E).
  eapply dispatch_in_sync in Ed; [|exact Ha|done]. eapply quiet_tail in E; [by rewrite E|].
  unfold ctx_done. quiet_go.
Qed.
End Sync.

(** ** Streams of calls *)

Definition call_bytes (x : RPCCall * list byte) : list byte := encode_call x.1 ++ x.2.
Definition stream (calls : list (RPCCall * list byte)) : list byte := mjoin (call_bytes <$> calls).

(** The calls as their handlers see them: the reader goes on with the calls
    that follow. *)
Fixpoint with_rest (calls : list (RPCCall * list byte)) : list (RPCCall * list byte) :=
  match calls with
  | [] => []
  | (call, args) :: calls => (call, args ++ stream calls) :: with_rest calls
  end.

Section RawFacts.
Context {F FD RL : Type} `{SymlinkFileSystem F FD} `{OpLimiter RL} `{ConnLimiter RL} `{Env}.
#[local] Abbreviation Srv := (Srv F RL).
Variable p : peer.

Lemma answer_in_sync i call args more (s : Srv) reply s' :
  draining p i = false -> EnableRateLimiting (s_policy s) = false -> admitted p (s_policy s) (call, args) ->
  answer p i call (args ++ more) s = Some (Ok reply, s') -> s_unread s' = more.
Proof.
  intros Hd Hrl Ha E. unfold answer in E. cbv zeta in E.
  apply bind_inv in E as ([] & s1 & [= <-] & E). apply bind_inv in E as (ok & s2 & E2 & E).
  assert (ok = true /\ s2 = upd_unread (args ++ more) s) as [-> ->].
  { unfold request_allowed in E2. apply bind_inv in E2 as (rl & s3 & [= <- <-] & E2).
    apply bind_inv in E2 as (en & s3 & [= <- <-] & E2). simpl in E2. rewrite Hrl in E2.
    destruct (s_rateLimiter s); by injection E2 as <- <-. }
  cbn [negb] in E. rewrite Hd in E. eapply HandleCall_in_sync; [exact Ha| | |exact E]; done.
Qed.

Lemma raw_loop calls fuel i (s : Srv) out :
  server_ok s -> (forall k, draining p k = false) -> EnableRateLimiting (s_policy s) = false ->
  Forall (admitted p (s_policy s)) calls -> (length calls < fuel)%nat ->
  exists replies s' rest, answer_all p i (with_rest calls) s = Some (replies, s') /\
    handleConnectionLoop p fuel i (mkRawConn (stream calls) out) s
      = Some (mkRawConn rest (out ++ mjoin (EncodeRPCReply <$> replies)), s') /\ served s s' /\
    Forall2 (fun r x => reply_Header r = call_Header x.1) replies (take (length replies) calls).
Proof.
  intros Hs Hd Hrl HF. revert fuel i s out Hs Hrl HF.
  induction calls as [|[call args] calls IH]; intros fuel i s out Hs Hrl HF Hfu;
    (destruct fuel as [|fuel]; [simpl in Hfu; lia|]); cbn [handleConnectionLoop answer_all with_rest].
  - exists [], s, []. rewrite app_nil_r. split; [done|]. split; [done|]. split; [by apply served_refl|constructor].
  - apply Forall_cons in HF as [Ha HF]. pose proof Ha as [Hwf _]. simpl in Hwf.
    cbn [cio_ReadCall rawConnIO]. unfold raw_ReadCall. cbn [raw_in raw_out].
    change (stream ((call, args) :: calls)) with (call_bytes (call, args) ++ stream calls).
    unfold call_bytes. cbn [fst snd]. rewrite <- app_assoc, DecodeRPCCall_encode by done. simpl.
    destruct (answer_served p s i call (args ++ stream calls) Hs) as (r & s1 & E1 & Hs1). rewrite E1. simpl.
    destruct r as [reply|e].
    + pose proof (answer_in_sync _ _ _ _ _ _ _ (Hd i) Hrl Ha E1) as Hu. rewrite Hu.
      pose proof (answer_header p i call (args ++ stream calls) _ _ _ E1 reply eq_refl) as Hh.
      pose proof Hs1 as (Hok1 & Hp1 & _).
      destruct (IH fuel (S i) s1 (out ++ EncodeRPCReply reply)) as (replies & s' & rest & Ea & El & Hs' & Hhs);
        [done|by rewrite Hp1|by rewrite Hp1|simpl in Hfu; lia|].
      unfold raw_WriteReply. cbn [raw_in raw_out]. rewrite El, Ea. simpl. eexists _, s', rest. split; [done|].
      split; [by rewrite fmap_cons, <- app_assoc|]. split; [by eapply served_trans|]. by constructor.
    + exists [], s1, (s_unread s1). simpl. rewrite app_nil_r. split; [done|]. split; [done|]. split; [done|constructor].
Qed.

(** ** Properties *)

(** C25: Without record marking, a client that only inspects is served call by
    call: for any sequence of well-formed GETATTR, LOOKUP, ACCESS, READLINK,
    READ, READDIR, READDIRPLUS, FSSTAT, FSINFO, PATHCONF, LINK and NULL calls
    it may make, sent back to back, the reader stands at the next call after
    each of them, and the bytes written are the replies in order, each with the
    header of its call.  This is on a server without rate limiting and while no
    policy update drains requests: a call that is turned away by either is
    answered with its arguments left in the stream. *)
Theorem raw_inspection_in_order calls (s : Srv) :
  server_ok s -> (forall k, draining p k = false) -> EnableRateLimiting (s_policy s) = false ->
  Forall (admitted p (s_policy s)) calls ->
  exists replies s', answer_all p 0 (with_rest calls) s = Some (replies, s') /\
    handleConnection p (stream calls) s = Some (mjoin (EncodeRPCReply <$> replies), cleanup_limiter p s') /\
    served s s' /\
    Forall2 (fun r x => reply_Header r = call_Header x.1) replies (take (length replies) calls).
Proof.
  intros Hs Hd Hrl HF.
  assert (length calls < S (length (stream calls)))%nat as Hl.
  { apply Nat.lt_succ_r. clear. induction calls as [|[call args] calls IH]; [done|].
    change (stream ((call, args) :: calls)) with (call_bytes (call, args) ++ stream calls).
    rewrite length_app. assert (0 < length (call_bytes (call, args)))%nat; [|simpl; lia].
    unfold call_bytes, encode_call. rewrite !length_app. unfold xdrEncodeUint32. rewrite be_bytes_length. lia. }
  destruct (raw_loop calls _ 0 s [] Hs Hd Hrl HF Hl) as (replies & s' & rest & Ea & El & Hs' & Hh).
  exists replies, s'. split; [done|]. split; [|done]. unfold handleConnection. by rewrite El.
Qed.
End RawFacts.

(** ** Concrete runs *)

Definition raw_call (proc : Z) (args : list byte) : RPCCall * list byte :=
  (mkRPCCall (mkRPCMsgHeader proc RPC_CALL 2 NFS_PROGRAM 3 proc) sample_cred (mkRPCVerifier 0 []), args).

(** GETATTR, READ and NULL. *)
Definition sample_inspection : list (RPCCall * list byte) :=
  [raw_call 1 (xdrEncodeFileHandle 1);
   raw_call 6 (xdrEncodeFileHandle 1 ++ xdrEncodeUint64 0 ++ xdrEncodeUint32 10);
   raw_call 0 []].

Lemma raw_inspection_in_order_witness :
  exists replies s', answer_all sample_peer 0 (with_rest sample_inspection) (sample_server false) = Some (replies, s') /\
    handleConnection sample_peer (stream sample_inspection) (sample_server false)
      = Some (mjoin (EncodeRPCReply <$> replies), cleanup_limiter sample_peer s') /\
    served (sample_server false) s' /\
    Forall2 (fun r x => reply_Header r = call_Header x.1) replies (take (length replies) sample_inspection).
Proof.
  refine (raw_inspection_in_order sample_peer sample_inspection (sample_server false) (sample_server_ok false)
    (fun _ => eq_refl) eq_refl _).
  repeat apply Forall_cons_2; [| | |constructor].
  all: split; [repeat split; vm_compute; discriminate|].
  all: split; [reflexivity|]; split; [reflexivity|]; split; [|vm_compute; reflexivity]; cbn.
  - exists 1. split; [split; vm_compute; [discriminate|reflexivity]|reflexivity].
  - exists 1, 0, 10. repeat split; vm_compute; discriminate.
  - reflexivity.
Defined.

(** Whether the bytes written on the unframed connection are the replies to the
    calls. *)
Definition in_sync (readOnly : bool) (calls : list (RPCCall * list byte)) : option bool :=
  '(replies, _) ← answer_all sample_peer 0 calls (sample_server readOnly);
  '(out, _) ← handleConnection sample_peer (stream calls) (sample_server readOnly);
  Some (bool_decide (out = mjoin (EncodeRPCReply <$> replies))).

(** A REMOVE that a read-only export refuses leaves its arguments on the
    stream, where they are taken for the next call: the server answers a call
    with transaction id 8 (the length of the handle) that nobody made. *)
Example raw_refusal_desync :
  in_sync false [raw_call 12 (dirop_args 1 "a"); raw_call 0 []] = Some true /\
  in_sync true [raw_call 12 (dirop_args 1 "a"); raw_call 0 []] = Some false /\
  match handleConnection sample_peer (stream [raw_call 12 (dirop_args 1 "a"); raw_call 0 []]) (sample_server true) with
  | Some (out, _) => be_val (take 4 (drop 36 out)) = 8
  | None => False
  end.
Proof. repeat split; vm_compute; reflexivity. Qed.

(** MKNOD reads its arguments up to the file type only; the attributes and the
    device numbers that follow put the stream out of step. *)
Example raw_mknod_desync :
  in_sync false [raw_call 11 (dirop_args 1 "n" ++ xdrEncodeUint32 4 ++ empty_sattr ++ xdrEncodeUint64 0); raw_call 0 []]
    = Some false.
Proof. vm_compute. reflexivity. Qed.

(** Likewise a CREATE whose name is not acceptable. *)
Example raw_create_desync :
  in_sync false [raw_call 8 (dirop_args 1 ".." ++ xdrEncodeUint32 0 ++ empty_sattr); raw_call 0 []] = Some false.
Proof. vm_compute. reflexivity. Qed.
