(* ===== verification/ReplyTypes.v ===== *)
(** * Every reply is a value of its result type

    The replies of [HandleCall] against the types of [XdrTypes]: what the
    server writes for a call is, as a whole, an RPC reply that carries the
    result of the procedure that was called, on success and on every failure. *)

From S2P Require Import Prelude Errors Xdr Attributes Rpc XdrTypes Transport MinHeap FileHandle Lru AttrCache.
From S2P Require Import Path Options NetIP Auth Filesystem DirCache Server Operations.
From S2P Require Import Procs ProcsDir Sample Service Connection.
Open Scope Z_scope.

(** The bytes of the results. *)
Definition result_bytes (d : ReplyData) : list byte :=
  match d with
  | DataNil => []
  | DataBytes data => data
  | DataAttrs a => encodeFileAttributes a
  | DataString s => xdrEncodeString s
  | DataUint32 v => xdrEncodeUint32 v
  | DataOther => []
  end.

(** The statuses of an accepted call. *)
Definition accept_stat (v : Z) : Prop :=
  v = SUCCESS \/ v = PROG_UNAVAIL \/ v = PROG_MISMATCH \/ v = PROC_UNAVAIL \/ v = GARBAGE_ARGS.

(** A reply before its results are known. *)
Record blank (reply : RPCReply) : Prop := {
  bl_status : Status reply = MSG_ACCEPTED;
  bl_verf : reply_Verifier reply = mkRPCVerifier 0 []
}.

(** An accepted reply with results of type [t]. *)
Record answers (t : xdr) (reply : RPCReply) : Prop := {
  an_blank : blank reply;
  an_stat : accept_stat (AcceptStatus reply);
  an_typed : AcceptStatus reply = SUCCESS -> typed t (result_bytes (Data reply))
}.

(** ** Statuses *)

Lemma failure_mapError err : failure (mapError err).
Proof. split; [apply mapError_u32|apply mapError_not_ok]. Qed.

Lemma failure_validateFilename w name : validateFilename w name <> NFS_OK -> failure (validateFilename w name).
Proof. intros H. split; [|done]. unfold validateFilename in *. repeat case_match; unfold is_u32; vm_compute; done. Qed.

Lemma failure_validateMode m d : validateMode m d <> NFS_OK -> failure (validateMode m d).
Proof. intros H. split; [|done]. unfold validateMode in *. repeat case_match; unfold is_u32; vm_compute; done. Qed.

Lemma failure_rmdir err : failure (rmdir_status err).
Proof. unfold rmdir_status. repeat case_match; try apply failure_mapError; by vm_compute. Qed.

Lemma negb_eqb_ne a b : negb (a =? b) = true -> a <> b.
Proof. intros H%negb_true_iff. by apply Z.eqb_neq. Qed.

#[export] Hint Resolve failure_mapError failure_validateFilename failure_validateMode failure_rmdir negb_eqb_ne : typed_db.
#[export] Hint Extern 10 (failure _) => split; by vm_compute : typed_db.

(** ** Handlers *)

Lemma answers_data t reply b :
  blank reply -> AcceptStatus reply = SUCCESS -> typed t b -> answers t (with_data reply b).
Proof. intros [Hs Hv] Ha Hb. constructor; [done|by left|done]. Qed.

Lemma answers_accept_status t reply v :
  blank reply -> accept_stat v -> v <> SUCCESS -> answers t (set_AcceptStatus reply v).
Proof. intros [Hs Hv] Ha Hne. constructor; done. Qed.

Create HintDb answers_db.

Section Replies.
Context {F FD RL : Type} `{SymlinkFileSystem F FD} `{OpLimiter RL} `{Env}.
#[local] Abbreviation M := (M F RL).
#[local] Abbreviation returns := (returns (F := F) (RL := RL)).
Hypothesis writeVerf_size : length writeVerf = 8%nat.

Variable reply : RPCReply.
Hypothesis Hblank : blank reply.
Hypothesis Hsuccess : AcceptStatus reply = SUCCESS.
Hypothesis Hempty : Data reply = DataNil.

Lemma with_node_answers t handle stale (k : NFSNode -> M RPCReply) :
  answers t stale -> (forall n, returns (answers t) (k n)) -> returns (answers t) (with_node handle stale k).
Proof. intros Hs Hk. apply returns_bind. intros [n|]; [apply Hk|by apply returns_ret]. Qed.

Lemma error_answers ok status : failure status -> answers (Result ok Void) (nfsErrorReply reply status).
Proof. intros Hf. apply answers_data; [done..|]. by apply typed_fail_void. Qed.

Lemma post_op_answers ok status : failure status -> answers (Result ok post_op_attr) (nfsErrorWithPostOp reply status).
Proof. intros Hf. apply answers_data; [done..|]. apply typed_fail; [done|]. apply typed_none. Qed.

Lemma wcc_answers ok status : failure status -> answers (Result ok wcc_data) (nfsErrorWithWcc reply status).
Proof. intros Hf. apply answers_data; [done..|]. apply typed_fail; auto with typed_db. Qed.

Lemma double_wcc_answers ok status :
  failure status -> answers (Result ok (Seq wcc_data wcc_data)) (nfsErrorWithDoubleWcc reply status).
Proof.
  intros Hf. apply answers_data; [done..|]. apply typed_fail; [done|]. rewrite app_assoc.
  auto with typed_db.
Qed.

Lemma post_op_wcc_answers ok status :
  failure status -> answers (Result ok (Seq post_op_attr wcc_data)) (nfsErrorWithPostOpAndWcc reply status).
Proof.
  intros Hf. apply answers_data; [done..|]. apply typed_fail; [done|].
  apply typed_seq; [apply typed_none|auto with typed_db].
Qed.

(** The results the handlers write. *)
Ltac typed_go :=
  first [apply typed_ok | apply typed_fail; [by eauto with typed_db|] | idtac]; typed_split.

Ltac answers_step :=
  match goal with
  | |- returns _ (mret (nfsErrorReply _ _)) => apply returns_ret, error_answers
  | |- returns _ (mret (nfsErrorWithPostOp _ _)) => apply returns_ret, post_op_answers
  | |- returns _ (mret (nfsErrorWithWcc _ _)) => apply returns_ret, wcc_answers
  | |- returns _ (mret (nfsErrorWithDoubleWcc _ _)) => apply returns_ret, double_wcc_answers
  | |- returns _ (mret (nfsErrorWithPostOpAndWcc _ _)) => apply returns_ret, post_op_wcc_answers
  | |- returns _ (mret (with_data _ _)) => apply returns_ret, answers_data; [done|done|typed_go]
  | |- returns _ (mret (set_AcceptStatus _ _)) =>
      apply returns_ret, answers_accept_status; [done|unfold accept_stat; tauto|done]
  | |- returns _ panic => apply returns_panic
  | |- returns _ (_ ≫= _) => apply returns_bind; intros
  | |- returns _ (with_node _ _ _) => apply with_node_answers; intros
  | |- answers _ (nfsErrorReply _ _) => apply error_answers
  | |- answers _ (nfsErrorWithPostOp _ _) => apply post_op_answers
  | |- answers _ (nfsErrorWithWcc _ _) => apply wcc_answers
  | |- answers _ (nfsErrorWithDoubleWcc _ _) => apply double_wcc_answers
  | |- returns _ (match ?x with _ => _ end) => destruct x eqn:?
  | |- returns _ (let '(_, _) := ?x in _) => destruct x eqn:?
  | |- failure _ => by eauto with typed_db
  end.
Ltac answers_go := repeat answers_step.

(** *** The procedures *)

Lemma handleGetattr_answers body ctx : returns (answers (nfs_result 1)) (handleGetattr body reply ctx).
Proof. unfold handleGetattr. cbn [nfs_result]. answers_go. Qed.

Lemma handleSetattr_answers body ctx : returns (answers (nfs_result 2)) (handleSetattr body reply ctx).
Proof. unfold handleSetattr, setattr_size. cbn [nfs_result]. answers_go. Qed.

Lemma handleLookup_answers body ctx : returns (answers (nfs_result 3)) (handleLookup body reply ctx).
Proof. unfold handleLookup, lookup_failed. cbn [nfs_result]. answers_go. Qed.

Lemma handleAccess_answers body ctx : returns (answers (nfs_result 4)) (handleAccess body reply ctx).
Proof. unfold handleAccess. cbn [nfs_result]. answers_go. Qed.

Lemma handleReadlink_answers body ctx : returns (answers (nfs_result 5)) (handleReadlink body reply ctx).
Proof. unfold handleReadlink. cbn [nfs_result]. answers_go. Qed.

Lemma handleRead_answers body ctx : returns (answers (nfs_result 6)) (handleRead body reply ctx).
Proof. unfold handleRead. cbn [nfs_result]. answers_go. Qed.

Lemma typed_verf : typed (Fixed 8) writeVerf.
Proof. by apply typed_fixed. Qed.
#[local] Hint Resolve typed_verf : typed_db.

Lemma handleWrite_answers body ctx : returns (answers (nfs_result 7)) (handleWrite body reply ctx).
Proof. unfold handleWrite. cbn [nfs_result]. answers_go. Qed.

Lemma created_answers handle a pre post : answers created3 (created_reply reply handle a pre post).
Proof. unfold created_reply, created3. apply answers_data; [done|done|typed_go]. Qed.

Lemma dir_failed_answers ok node status pre :
  failure status -> returns (answers (Result ok wcc_data)) (dir_failed node reply status pre).
Proof. intros Hf. unfold dir_failed. answers_go. Qed.

Lemma finish_created_answers node new pre : returns (answers created3) (finish_created node new reply pre).
Proof. unfold finish_created. answers_go. apply returns_ret, created_answers. Qed.

Ltac created_go :=
  repeat first
    [ answers_step
    | apply finish_created_answers
    | apply dir_failed_answers
    | apply returns_ret, created_answers ].

Lemma handleCreate_answers body ctx : returns (answers (nfs_result 8)) (handleCreate body reply ctx).
Proof. unfold handleCreate. cbn [nfs_result]. created_go. Qed.

Lemma handleMkdir_answers body ctx : returns (answers (nfs_result 9)) (handleMkdir body reply ctx).
Proof. unfold handleMkdir. cbn [nfs_result]. created_go. Qed.

Lemma handleSymlink_answers body ctx : returns (answers (nfs_result 10)) (handleSymlink body reply ctx).
Proof. unfold handleSymlink. cbn [nfs_result]. created_go. Qed.

Lemma handleMknod_answers body ctx : returns (answers (nfs_result 11)) (handleMknod body reply ctx).
Proof. unfold handleMknod. cbn [nfs_result]. created_go. Qed.

Lemma handleRemove_answers body ctx : returns (answers (nfs_result 12)) (handleRemove body reply ctx).
Proof. unfold handleRemove. cbn [nfs_result]. created_go. Qed.

Lemma handleRmdir_answers body ctx : returns (answers (nfs_result 13)) (handleRmdir body reply ctx).
Proof. unfold handleRmdir. cbn [nfs_result]. created_go. Qed.

Lemma handleRename_answers body ctx : returns (answers (nfs_result 14)) (handleRename body reply ctx).
Proof. unfold handleRename. cbn [nfs_result]. answers_go. Qed.

Lemma handleLink_answers body ctx : returns (answers (nfs_result 15)) (handleLink body reply ctx).
Proof. unfold handleLink. cbn [nfs_result]. answers_go. Qed.

Lemma info_reply_answers ok tail body :
  typed ok tail -> returns (answers (Result (Seq post_op_attr ok) post_op_attr)) (info_reply tail body reply).
Proof. intros Ht. unfold info_reply. answers_go. Qed.

Lemma handleFsstat_answers body ctx : returns (answers (nfs_result 18)) (handleFsstat body reply ctx).
Proof. apply info_reply_answers. typed_split. Qed.

Lemma handleFsinfo_answers body ctx : returns (answers (nfs_result 19)) (handleFsinfo body reply ctx).
Proof. apply info_reply_answers. typed_split. Qed.

Lemma handlePathconf_answers body ctx : returns (answers (nfs_result 20)) (handlePathconf body reply ctx).
Proof. apply info_reply_answers. typed_split. Qed.

Lemma handleCommit_answers body ctx : returns (answers (nfs_result 21)) (handleCommit body reply ctx).
Proof. unfold handleCommit. cbn [nfs_result]. answers_go. Qed.

(** *** Directories *)

(** A buffer the loops have written: what was there, and entries. *)
Definition extends (t : xdr) (buf : list byte) (r : list byte * bool) : Prop :=
  exists b, r.1 = buf ++ b /\ items t b.

Lemma extends_step t buf x r : typed t x -> extends t (buf ++ xdrEncodeUint32 1 ++ x) r -> extends t buf r.
Proof.
  intros Hx (b & E & Hb). exists (xdrEncodeUint32 1 ++ x ++ b). split; [by rewrite E, <- !app_assoc|].
  by apply items_cons.
Qed.

Lemma extends_refl t buf b : extends t buf (buf, b).
Proof. exists []. split; [by rewrite app_nil_r|constructor]. Qed.

Lemma readdir_loop_items i entries cookie max buf :
  returns (extends entry3 buf) (readdir_loop i entries cookie max buf).
Proof.
  revert i buf. induction entries as [|e rest IH]; intros i buf; [apply returns_ret, extends_refl|].
  cbn [readdir_loop]. destruct (i <? cookie); [apply IH|].
  destruct (max <=? zlen buf); [apply returns_ret, extends_refl|].
  apply returns_bind. intros [a|]; [|apply IH]. intros s r s' E%IH.
  eapply extends_step; [|exact E]. unfold entry3. typed_split.
Qed.

Lemma readdirplus_loop_items i entries cookie max n buf :
  returns (extends entryplus3 buf) (readdirplus_loop i entries cookie max n buf).
Proof.
  revert i n buf. induction entries as [|e rest IH]; intros i n buf; [apply returns_ret, extends_refl|].
  cbn [readdirplus_loop]. destruct (i <? cookie); [apply IH|].
  destruct (_ && _); [apply returns_ret, extends_refl|].
  apply returns_bind. intros [a|]; [|apply IH]. apply returns_bind. intros handle s r s' E%IH.
  unfold readdir_entry in E. rewrite <- !app_assoc in E.
  eapply extends_step; [|exact E]. unfold entryplus3, entry3. typed_split.
Qed.

Lemma readdir_end_answers t attrs verf (m : M (list byte * bool)) :
  length verf = 8%nat -> returns (extends t (readdir_header attrs verf)) m ->
  returns (answers (Result (Seq post_op_attr (Seq (Fixed 8) (Seq (Linked t) Boolean))) post_op_attr))
    (r ← m; mret (readdir_end reply r)).
Proof.
  intros Hv Hm. eapply returns_bind_strong; [exact Hm|]. intros r (b & E & Hb).
  unfold readdir_end. apply returns_ret, answers_data; [done|done|]. rewrite E.
  unfold readdir_header. rewrite <- !app_assoc. apply typed_ok, typed_some_seq; [apply typed_fattr3|].
  apply typed_seq; [by apply typed_fixed|]. rewrite app_assoc.
  apply typed_seq; [by apply typed_linked|]. destruct r.2; [apply typed_false|apply typed_true].
Qed.

Lemma read_exact (n : nat) b (x : list byte) r : io_ReadFull n b = (Ok x, r) -> length x = n.
Proof. by intros [_ ?]%io_ReadFull_Ok. Qed.

Ltac readdir_go :=
  repeat lazymatch goal with
  | |- returns _ (readdir_loop _ _ _ _ _ ≫= _) =>
      eapply readdir_end_answers; [|apply readdir_loop_items]; eapply read_exact; eassumption
  | |- returns _ (readdirplus_loop _ _ _ _ _ _ ≫= _) =>
      eapply readdir_end_answers; [|apply readdirplus_loop_items]; eapply read_exact; eassumption
  | |- _ => answers_step
  end.

Lemma handleReaddir_answers body ctx : returns (answers (nfs_result 16)) (handleReaddir body reply ctx).
Proof. unfold handleReaddir. cbn [nfs_result]. readdir_go. Qed.

Lemma handleReaddirplus_answers body ctx : returns (answers (nfs_result 17)) (handleReaddirplus body reply ctx).
Proof. unfold handleReaddirplus. cbn [nfs_result]. readdir_go. Qed.

(** *** Dispatch *)


#[local] Hint Resolve handleGetattr_answers handleSetattr_answers handleLookup_answers handleAccess_answers
  handleReadlink_answers handleRead_answers handleWrite_answers handleCreate_answers handleMkdir_answers
  handleSymlink_answers handleMknod_answers handleRemove_answers handleRmdir_answers handleRename_answers
  handleLink_answers handleReaddir_answers handleReaddirplus_answers handleFsstat_answers handleFsinfo_answers
  handlePathconf_answers handleCommit_answers : answers_db.






End Replies.

(** ** Whole replies *)

Section Calls.
Context {F FD RL : Type} `{SymlinkFileSystem F FD} `{OpLimiter RL} `{Env}.
#[local] Abbreviation returns := (returns (F := F) (RL := RL)).





End Calls.

(** ** Concrete replies *)

(** The server of [Sample] once "/" was mounted. *)
Definition mounted_server : Srv MemFS.state unit :=
  match HandleCall false (nfs_call MOUNT_PROGRAM 1) (xdrEncodeString "/") root_ctx (sample_server false) with
  | Some (_, s) => s
  | None => sample_server false
  end.

Definition list_root : list byte :=
  xdrEncodeFileHandle 1 ++ xdrEncodeUint64 0 ++ be_bytes 8 0 ++ xdrEncodeUint32 4096 ++ xdrEncodeUint32 4096.


(** The reply carries all three entries. *)
Example readdirplus_reply_size :
  match HandleCall false (nfs_call NFS_PROGRAM 17) list_root root_ctx mounted_server with
  | Some (Ok reply, _) => zlen (EncodeRPCReply reply) = 528
  | _ => False
  end.
Proof. vm_compute. reflexivity. Qed.

(** During a policy update the answer is a status alone: a client that reads
    the results of LOOKUP misses the attributes of the directory. *)
Example drained_reply_ill_typed :
  match HandleCall true (nfs_call NFS_PROGRAM 3) (dirop_args 1 "a") root_ctx mounted_server with
  | Some (Ok reply, _) =>
      result_bytes (Data reply) = xdrEncodeUint32 NFSERR_JUKEBOX /\
      recognise (nfs_result 3) (result_bytes (Data reply)) = None
  | _ => False
  end.
Proof. vm_compute. split; reflexivity. Qed.

(** MNT of MOUNT version 1 is answered with the results of version 3, which are
    not the 32 bytes of a version 1 file handle. *)
Example mount_v1_reply_ill_typed :
  match HandleCall false
          (mkRPCCall (mkRPCMsgHeader 1 RPC_CALL 2 MOUNT_PROGRAM 1 1) (mkRPCCredential AUTH_SYS []) (mkRPCVerifier 0 []))
          (xdrEncodeString "/") root_ctx (sample_server false) with
  | Some (Ok reply, _) =>
      recognise (mount_result 1 1) (result_bytes (Data reply)) = None /\
      recognise (mount_result 3 1) (result_bytes (Data reply)) = Some []
  | _ => False
  end.
Proof. vm_compute. split; reflexivity. Qed.
