(* ===== verification/Updates.v ===== *)
(** * Changing the options of a running server (src/options.go, src/absnfs.go)

    [UpdateTuningOptions], [UpdatePolicyOptions] and [UpdateExportOptions], and
    [Close], between the requests of a running server.  A policy update waits
    for the requests in flight, so it falls between two requests; requests
    that arrive while it waits are the draining ones of [HandleCall].  The
    worker pool and the logger are not part of the state: an update returns the
    calls it makes on them, whose effects are [WorkerPool]'s and [Logger]'s. *)

From S2P Require Import Prelude Errors Xdr Attributes Rpc MinHeap FileHandle Lru AttrCache Path.
From S2P Require Import Options NetIP Auth Filesystem DirCache Server Operations Safety OpsSafe.
From S2P Require Import Procs ProcsDir ProcsSafe Sample Service.
Open Scope Z_scope.

Section Updates.
Context {F FD RL : Type} `{SymlinkFileSystem F FD} `{OpLimiter RL} `{Env}.
#[local] Abbreviation Srv := (Srv F RL).
#[local] Abbreviation M := (M F RL).

Definition upd_tuning (t : TuningOptions) (s : Srv) : Srv :=
  mkSrv (s_fs s) (s_nodes s) (s_nextNode s) (s_fileMap s) (s_attrCache s) (s_dirCache s)
    (s_rateLimiter s) (s_metrics s) t (s_policy s) (s_tick s) (s_unread s).
Definition upd_policy (p : PolicyOptions) (rl : option RL) (s : Srv) : Srv :=
  mkSrv (s_fs s) (s_nodes s) (s_nextNode s) (s_fileMap s) (s_attrCache s) (s_dirCache s)
    rl (s_metrics s) (s_tuning s) p (s_tick s) (s_unread s).

(** A positive value that differs from the old one takes effect. *)
Definition changed_to (updated old : Z) : bool := (0 <? updated) && negb (updated =? old).

Definition tuned_attrCache (old updated : TuningOptions) (c : AttrCache) : AttrCache :=
  let c := if changed_to (AttrCacheSize updated) (AttrCacheSize old)
           then AttrCache_Resize c (AttrCacheSize updated) else c in
  let c := if changed_to (AttrCacheTimeout updated) (AttrCacheTimeout old)
           then AttrCache_UpdateTTL c (AttrCacheTimeout updated) else c in
  if negb (eqb (CacheNegativeLookups updated) (CacheNegativeLookups old))
     || negb (NegativeCacheTimeout updated =? NegativeCacheTimeout old)
  then ConfigureNegativeCaching c (CacheNegativeLookups updated) (NegativeCacheTimeout updated)
  else c.

Definition tuned_dirCache (old updated : TuningOptions) (c : DirCache) : DirCache :=
  let c := if changed_to (DirCacheMaxEntries updated) (DirCacheMaxEntries old)
           then DirCache_Resize c (DirCacheMaxEntries updated) else c in
  if changed_to (DirCacheTimeout updated) (DirCacheTimeout old)
  then DirCache_UpdateTTL c (DirCacheTimeout updated) else c.

(** The calls on the components that are not part of the state: the pool is
    resized ([WorkerPool]), the logger replaced ([Logger.update_logger]). *)
Inductive side_effect := ResizePool (maxWorkers : Z) | ReplaceLogger (config : LogConfig).

Definition pool_effects (old updated : TuningOptions) : list side_effect :=
  if changed_to (MaxWorkers updated) (MaxWorkers old) then [ResizePool (MaxWorkers updated)] else [].

Definition logger_effects (old updated : TuningOptions) : list side_effect :=
  match t_Log updated with
  | Some config => if bool_decide (t_Log old = Some config) then [] else [ReplaceLogger config]
  | None => []
  end.

Definition applyTuningSideEffects (old updated : TuningOptions) : M (list side_effect) :=
  modify (fun s => upd_attrCache (tuned_attrCache old updated (s_attrCache s)) s) ;;
  modify (fun s => upd_dirCache (tuned_dirCache old updated <$> s_dirCache s) s) ;;
  mret (pool_effects old updated ++ logger_effects old updated).

Definition UpdateTuningOptions (fn : TuningOptions -> TuningOptions) : M (list side_effect) :=
  old ← gets s_tuning;
  modify (upd_tuning (fn old)) ;;
  applyTuningSideEffects old (fn old).

Definition UpdatePolicyOptions (newPolicy : PolicyOptions) : M (result unit) :=
  old ← gets s_policy;
  if negb (String.eqb (Squash old) (Squash newPolicy))
  then mret (Err (ErrorString "cannot change Squash mode at runtime"))
  else
    let snapshot := mkPolicy (ReadOnly newPolicy) (Secure newPolicy) (AllowedIPs newPolicy)
      (Squash newPolicy) (MaxFileSize newPolicy) (EnableRateLimiting newPolicy)
      (RateLimitConfig newPolicy) (TLS_Clone <$> p_TLS newPolicy) in
    k ← gets s_tick;
    rl ← gets s_rateLimiter;
    let rl := match EnableRateLimiting newPolicy, RateLimitConfig newPolicy with
              | true, Some c => Some (NewRateLimiter c clock k)
              | true, None => rl
              | false, _ => None
              end in
    modify (upd_policy snapshot rl) ;;
    mret (Ok tt).

(** The tuning half of the new options: time-outs and logging stay when the
    new options give none. *)
Definition new_tuning (newOptions : ExportOptions) (t : TuningOptions) : TuningOptions :=
  let n := tuningFromExportOptions newOptions in
  mkTuning (TransferSize n) (AttrCacheTimeout n) (AttrCacheSize n) (CacheNegativeLookups n)
    (NegativeCacheTimeout n) (EnableDirCache n) (DirCacheTimeout n) (DirCacheMaxEntries n)
    (DirCacheMaxDirSize n) (MaxWorkers n) (MaxConnections n) (IdleTimeout n) (TCPKeepAlive n)
    (TCPNoDelay n) (SendBufferSize n) (ReceiveBufferSize n) (Async n)
    (match t_Log n with None => t_Log t | l => l end)
    (match Timeouts n with None => Timeouts t | x => x end).

Definition UpdateExportOptions (newOptions : ExportOptions) : M (list side_effect * result unit) :=
  effects ← UpdateTuningOptions (new_tuning newOptions);
  currentPolicy ← gets s_policy;
  if negb (bool_decide (o_Squash newOptions = EmptyString)) &&
     negb (String.eqb (o_Squash newOptions) (Squash currentPolicy))
  then mret (effects, Err (ErrorString "cannot change Squash mode at runtime (requires restart)"))
  else
    res ← UpdatePolicyOptions
      (mkPolicy (o_ReadOnly newOptions) (o_Secure newOptions)
         (if 0 <? zlen (o_AllowedIPs newOptions) then o_AllowedIPs newOptions else [])
         (Squash currentPolicy) (o_MaxFileSize newOptions) (o_EnableRateLimiting newOptions)
         (o_RateLimitConfig newOptions) (TLS_Clone <$> o_TLS newOptions));
    mret (effects, res).

Definition GetExportOptions : M ExportOptions :=
  t ← gets s_tuning; p ← gets s_policy; mret (exportOptionsFromSnapshots t p).

(** [Close]: the files of all handles are closed and the caches emptied. *)
Definition Close : M unit :=
  modify (fun s => upd_fileMap (ReleaseAll (s_fileMap s)).2 s) ;;
  modify (fun s => upd_attrCache (AttrCache_Clear (s_attrCache s)) s) ;;
  modify (fun s => upd_dirCache (DirCache_Clear <$> s_dirCache s) s).

(** ** Events *)

(** What reaches a running server, one at a time: a request is answered before
    the next event.  Calls that wait in the queue of the worker pool while an
    update resizes it are those of [WorkerPool]. *)
Inductive event :=
  | Request (r : request)
  | UpdateTuning (fn : TuningOptions -> TuningOptions)
  | UpdatePolicy (p : PolicyOptions)
  | UpdateExport (o : ExportOptions).

Definition handle_event (e : event) (s : Srv) : option Srv :=
  match e with
  | Request r => snd <$> serve s r
  | UpdateTuning fn => snd <$> UpdateTuningOptions fn s
  | UpdatePolicy p => snd <$> UpdatePolicyOptions p s
  | UpdateExport o => snd <$> UpdateExportOptions o s
  end.

Definition handle_events (es : list event) (s : Srv) : option Srv :=
  foldl (fun os e => s ← os; handle_event e s) (Some s) es.

(** Updates that keep the transfer size from being negative and the time-outs
    set.  The code does not check this, and a READ panics without it
    ([Defects.update_clears_transfer_size], [Defects.update_clears_timeouts]). *)
Definition event_ok (e : event) : Prop :=
  match e with
  | UpdateTuning fn => forall t, tuning_ok t -> tuning_ok (fn t)
  | UpdateExport o => 0 <= o_TransferSize o
  | _ => True
  end.

(** Updates that leave a read-only export read-only. *)
Definition event_read_only (e : event) : Prop :=
  match e with
  | UpdatePolicy p => ReadOnly p = true
  | UpdateExport o => o_ReadOnly o = true
  | _ => True
  end.

(** ** Lemmas *)

Lemma ac_inv_if (b : bool) c o c' :
  ac_inv c -> ac_step c o = Some (OutUnit, c') -> ac_inv (if b then c' else c).
Proof. intros Hc E. destruct b; [|done]. by eapply ac_unit_inv. Qed.

Lemma tuned_attrCache_inv old new c : ac_inv c -> ac_inv (tuned_attrCache old new c).
Proof.
  intros Hc. unfold tuned_attrCache. cbv zeta.
  eapply (ac_inv_if _ _ (OpConfigure _ _)); [|done].
  eapply (ac_inv_if _ _ (OpUpdateTTL _)); [|done].
  by eapply (ac_inv_if _ _ (OpResize _)).
Qed.

Lemma tuned_dirCache_inv old new c : dc_inv c -> dc_inv (tuned_dirCache old new c).
Proof.
  intros Hc. unfold tuned_dirCache.
  assert (dc_inv (if changed_to (DirCacheMaxEntries new) (DirCacheMaxEntries old)
                  then DirCache_Resize c (DirCacheMaxEntries new) else c)) as Hc1.
  { destruct (changed_to _ _); [|done]. by apply (dc_step_refines c (DResize (DirCacheMaxEntries new))). }
  destruct (changed_to (DirCacheTimeout new) _); [|done].
  by apply (dc_step_refines _ (DUpdateTTL (DirCacheTimeout new))) in Hc1 as [? _].
Qed.

(** Options can be replaced in a consistent server. *)
Lemma server_ok_policy s p rl : server_ok s -> server_ok (upd_policy p rl s).
Proof. intros []. by constructor. Qed.

Lemma server_ok_tuning s t :
  server_ok s -> tuning_ok t ->
  exists s', UpdateTuningOptions (fun _ => t) s =
      Some (pool_effects (s_tuning s) t ++ logger_effects (s_tuning s) t, s') /\ server_ok s' /\
    s_policy s' = s_policy s /\ s_fs s' = s_fs s.
Proof.
  intros [] Ht. eexists. split; [done|]. split; [|done]. constructor; cbn; try done.
  - by apply tuned_attrCache_inv.
  - intros c Hc. destruct (s_dirCache s) as [d|] eqn:E; [|done]. cbn in Hc. simplify_eq.
    apply tuned_dirCache_inv. by apply si_dir.
Qed.

(** The invariants of the filesystem, as far as the options of [s] go. *)
Definition keeps_invariants (s s' : Srv) : Prop :=
  forall P : F -> Prop, FSInv F FD rooted (writable_by (s_policy s)) P -> P (s_fs s) -> P (s_fs s').

Lemma keeps_invariants_same s s' : s_fs s' = s_fs s -> keeps_invariants s s'.
Proof. intros E P _ Hs. by rewrite E. Qed.

Lemma policy_step p s :
  server_ok s ->
  exists s', (snd <$> UpdatePolicyOptions p s) = Some s' /\ server_ok s' /\
    Squash (s_policy s') = Squash (s_policy s) /\
    keeps_invariants s s' /\
    (ReadOnly (s_policy s) = true -> ReadOnly p = true -> ReadOnly (s_policy s') = true).
Proof.
  intros Hi. unfold UpdatePolicyOptions, gets, mbind, M_bind, mret, M_ret.
  destruct (String.eqb_spec (Squash (s_policy s)) (Squash p)) as [Hq|Hq]; cbn; eexists; (split; [done|]).
  - split; [by apply server_ok_policy|]. split; [done|]. split; [by apply keeps_invariants_same|]. by cbn.
  - split; [done|]. split; [done|]. split; [by apply keeps_invariants_same|done].
Qed.

Lemma event_step e s :
  server_ok s -> event_ok e ->
  exists s', handle_event e s = Some s' /\ server_ok s' /\ Squash (s_policy s') = Squash (s_policy s) /\
    keeps_invariants s s' /\
    (ReadOnly (s_policy s) = true -> event_read_only e -> ReadOnly (s_policy s') = true).
Proof.
  intros Hi He. destruct e as [r|fn|p|o]; cbn [handle_event].
  - destruct (serve_step s r Hi) as (reply & s' & -> & Hs').
    destruct Hs' as (Hi' & Hp & _ & Hk). exists s'. rewrite Hp. by auto.
  - destruct (server_ok_tuning s (fn (s_tuning s)) Hi (He _ (si_tuning_ok _ _ _ _ Hi)))
      as (s' & E & Hi' & Hp & Hf). exists s'. rewrite Hp. apply keeps_invariants_same in Hf.
    change (UpdateTuningOptions fn s) with (UpdateTuningOptions (fun _ => fn (s_tuning s)) s). rewrite E. by auto.
  - by apply policy_step.
  - destruct (server_ok_tuning s (new_tuning o (s_tuning s)) Hi) as (s1 & E & Hi1 & Hp & Hf).
    { split; [exact He|]. cbn. destruct (si_tuning_ok _ _ _ _ Hi) as [_ Ht]. by destruct (o_Timeouts o). }
    change (UpdateTuningOptions (fun _ => new_tuning o (s_tuning s)) s)
      with (UpdateTuningOptions (new_tuning o) s) in E.
    unfold UpdateExportOptions, mbind at 1, M_bind at 1. rewrite E. unfold gets, mbind at 1, M_bind at 1.
    destruct (_ && _); cbn [fmap option_fmap option_map snd mret M_ret].
    + exists s1. rewrite Hp. apply keeps_invariants_same in Hf. by auto.
    + unfold keeps_invariants. rewrite <- Hp, <- Hf. cbn [event_read_only].
      match goal with |- context [UpdatePolicyOptions ?q] => destruct (policy_step q s1 Hi1) as (s2 & E2 & H2) end.
      exists s2. split; [|exact H2]. unfold mbind at 1, M_bind at 1.
      by destruct (UpdatePolicyOptions _ s1) as [[res s2']|].
Qed.

(** The invariants that survive: all that changes of files keep, and on an
    export that stays read-only all that inspection keeps. *)
Definition allowed_by (w readOnly : bool) (es : list event) : Prop :=
  w = true \/ readOnly = true /\ Forall event_read_only es.

Lemma events_ok es s :
  server_ok s -> Forall event_ok es ->
  exists s', handle_events es s = Some s' /\ server_ok s' /\ Squash (s_policy s') = Squash (s_policy s) /\
    forall w P, FSInv F FD rooted w P -> allowed_by w (ReadOnly (s_policy s)) es -> P (s_fs s) -> P (s_fs s').
Proof.
  unfold handle_events. intros Hi Hes. revert s Hi. induction Hes as [|e es He Hes IH]; intros s Hi; [by exists s|].
  destruct (event_step e s Hi He) as (s1 & E & Hi1 & Hsq & Ht & Hro).
  destruct (IH s1 Hi1) as (s' & E' & Hi' & Hsq' & Ht'). exists s'. cbn. rewrite E.
  split; [done|]. split; [done|]. split; [congruence|]. intros w P HP Hal Hs. apply (Ht' w P HP).
  - destruct Hal as [->|[Hr [Hre Hres]%Forall_cons]]; [by left|right; auto].
  - apply (Ht P); [|done]. eapply FSInv_weaken; [done| |exact HP]. unfold writable_by.
    destruct Hal as [->|[-> _]]; done.
Qed.

Lemma New_Squash numCPU o fs t s : New numCPU o fs t = Ok s -> Squash (s_policy s) = o_Squash o.
Proof.
  unfold New, New_options. destruct (_ && _); [done|].
  by destruct (fs_Stat "/" fs) as [[info|e] fs']; [intros [= <-]|].
Qed.

(** ** Properties *)

(** C11: a running server survives live updates that leave it a transfer size
    that is not negative and time-outs.  For any sequence of requests, each
    answered before the next event, and of such changes of the tuning options,
    of the policy and of the export options as a whole, nothing panics, the
    server stays consistent, the squash mode stays what it was, and as long as
    no update makes a read-only export writable its tree does not change.  What
    an update does to the worker pool and the logger is not part of it. *)
Theorem live_updates_safe {Tree} `{!FSLaws F FD Tree} numCPU o fs t s es :
  New numCPU o fs t = Ok s -> Forall event_ok es ->
  exists s', handle_events es s = Some s' /\ server_ok s' /\ Squash (s_policy s') = o_Squash o /\
    (o_ReadOnly o = true -> Forall event_read_only es -> fs_tree (s_fs s') = fs_tree fs).
Proof.
  intros Hs Hes. destruct (events_ok es s (New_ok _ _ _ _ _ Hs) Hes) as (s' & E & Hi & Hsq & Hk).
  exists s'. split; [done|]. split; [done|]. split; [by rewrite Hsq, (New_Squash _ _ _ _ _ Hs)|].
  intros Hro Hes'. apply (Hk false _ (FSInv_tree rooted false (fs_tree fs))); [|intros _|done].
  - right. by rewrite (New_ReadOnly _ _ _ _ _ Hs).
  - by rewrite (New_fs _ _ _ _ _ Hs), stat_tree.
Qed.

(** C10: Whatever the wrapped filesystem guarantees, the server keeps.  An
    invariant that the operations absnfs calls preserve for absolute names
    holds after any sequence of requests and option updates that leave a
    transfer size that is not negative and time-outs; when the
    export is read-only and stays so, it is enough that the operations that
    inspect preserve it. *)
Theorem filesystem_invariants_kept (P : F -> Prop) w numCPU o fs t s es :
  FSInv F FD rooted w P -> P fs -> New numCPU o fs t = Ok s -> Forall event_ok es ->
  allowed_by w (o_ReadOnly o) es ->
  exists s', handle_events es s = Some s' /\ P (s_fs s').
Proof.
  intros HP Hfs Hs Hes Hal. destruct (events_ok es s (New_ok _ _ _ _ _ Hs) Hes) as (s' & E & _ & _ & Hk).
  exists s'. split; [done|]. apply (Hk w P HP).
  - by rewrite (New_ReadOnly _ _ _ _ _ Hs).
  - rewrite (New_fs _ _ _ _ _ Hs). by apply inv_stat.
Qed.

End Updates.

(** ** Concrete runs *)

(** Mount, make the export writable, make a directory, make it read-only. *)
Definition export_with (readOnly : bool) (transferSize : Z) : ExportOptions :=
  mkExport readOnly false [] "none" false 0 transferSize 0 0 true 0 true 0 0 0 0 0 0 false false false 0 0
    false None None None None.

Definition sample_events : list event :=
  [Request (mkRequest false (nfs_call MOUNT_PROGRAM 1) (xdrEncodeString "/") root_ctx);
   UpdateExport (export_with false 4096);
   Request (mkRequest false (nfs_call NFS_PROGRAM 9) (dirop_args 1 "x" ++ empty_sattr) root_ctx);
   UpdateExport (export_with true 4096)].

Lemma live_updates_safe_witness :
  exists s', handle_events sample_events (sample_server true) = Some s' /\ server_ok s' /\
    Squash (s_policy s') = "none"%string /\
    (o_ReadOnly (sample_options true) = true -> Forall event_read_only sample_events -> s_fs s' = sample_fs).
Proof.
  refine (live_updates_safe 4 (sample_options true) sample_fs 0 (sample_server true) sample_events
    (sample_server_New true) _).
  repeat constructor; cbn; lia.
Defined.

(** On a server that is writable for a while, names that are not absolute stay
    as they were. *)
Lemma filesystem_invariants_kept_witness :
  exists s', handle_events sample_events (sample_server true) = Some s' /\
    forall q, ~ rooted q -> (s_fs s' : MemFS.state) !! q = sample_fs !! q.
Proof.
  refine (filesystem_invariants_kept (fun f : MemFS.state => forall q, ~ rooted q -> f !! q = sample_fs !! q) true
    4 (sample_options true) sample_fs 0 (sample_server true) sample_events
    (MemFS.memfs_confined rooted true sample_fs) _ (sample_server_New true) _ _).
  - reflexivity.
  - repeat constructor; cbn; lia.
  - left. reflexivity.
Defined.
