(* ===== verification/OpsFacts.v ===== *)
(** * What the operations do (src/operations.go)

    Functional properties of the operation layer: which attributes GETATTR
    reports, how much a read returns, which cached entries survive a change,
    and which errors a creation can report. *)

From S2P Require Import Prelude Errors Xdr Attributes Rpc MinHeap FileHandle Lru AttrCache Path.
From S2P Require Import Options NetIP Auth Filesystem DirCache Server Operations Safety OpsSafe.
From S2P Require Import Procs ProcsDir ProcsSafe Sample Service.
Open Scope Z_scope.

(** ** Cache entries *)

Definition attr_entry {F RL} (s : Srv F RL) (p : string) : option CachedAttrs :=
  value <$> table (ac_lru (s_attrCache s)) !! p.

Definition dir_entry {F RL} (s : Srv F RL) (p : string) : option CachedDirEntry :=
  s_dirCache s ≫= (fun c => value <$> table (dc_lru c) !! p).

Lemma lru_delete_lookup {V} (c : Lru V) p q :
  table (lru_delete c p) !! q = if decide (p = q) then None else table c !! q.
Proof.
  unfold lru_delete, removeFromAccessLog. cbn [table].
  destruct (decide (p = q)) as [<-|Hne]; [apply lookup_delete_eq|]. rewrite lookup_delete_ne by done.
  destruct (table c !! p) as [e|]; [|done]. destruct (listElement e); [|done]. simpl.
  by rewrite lookup_insert_ne.
Qed.

Lemma foldl_lru_delete_lookup {V} ps (c : Lru V) q :
  table (foldl lru_delete c ps) !! q = if decide (q ∈ ps) then None else table c !! q.
Proof.
  revert c. induction ps as [|p ps IH]; intros c; cbn [foldl];
    [by rewrite decide_False by apply not_elem_of_nil|].
  rewrite IH, lru_delete_lookup. repeat case_decide; set_solver.
Qed.

(** [InvalidateNegativeInDir] drops the negative entries of the children. *)
Lemma invalidate_negative_lookup c d q :
  value <$> table (ac_lru (InvalidateNegativeInDir c d)) !! q =
    e ← value <$> table (ac_lru c) !! q;
    if isNegative e && isChildOf q d then None else Some e.
Proof.
  unfold InvalidateNegativeInDir. cbn [ac_lru ac_with_lru]. rewrite foldl_lru_delete_lookup.
  destruct (table (ac_lru c) !! q) as [e|] eqn:E; [|by case_decide]. simpl.
  case_decide as Hin; rewrite list_elem_of_fmap in Hin.
  - destruct Hin as ([q' y] & -> & [Hf Hy]%list_elem_of_filter). apply elem_of_map_to_list in Hy.
    cbn in *. simplify_eq. by rewrite Hf.
  - destruct (_ && _) eqn:Hf; [|done]. destruct Hin. exists (q, e). split; [done|].
    apply list_elem_of_filter. split; [done|]. by apply elem_of_map_to_list.
Qed.

(** The attributes the cache hands out are never valid any more. *)
Lemma AttrCache_Get_stale c p now now' a ok c' :
  AttrCache_Get c p now now' = Some (Some a, ok, c') -> validUntil a = time_zero.
Proof.
  intros (([a' ok'] & rest) & Er & [= -> -> _])%bind_Some. revert Er. unfold Get_read.
  repeat case_match; intros E; simplify_eq. done.
Qed.

(** What [lru_put] leaves in the table: the new entry or one that was there. *)
Lemma lru_put_sub {V} n (c : Lru V) p v q w :
  lru_inv c -> value <$> table (lru_put n c p v) !! q = Some w ->
  value <$> table c !! q = Some w \/ w = v.
Proof.
  intros Hi Hq. destruct (put_spec n c p v Hi) as [Hi' Ha].
  rewrite <- abs_lookup, Ha in Hq by done. apply a_lookup_elem in Hq; [|rewrite <- Ha; by apply abs_nodup].
  apply a_put_elem in Hq as [Hq|]; [left|by right].
  rewrite <- abs_lookup by done. apply a_lookup_elem; [by apply abs_nodup|done].
Qed.

Lemma wrapped_not_exist msg e : os_IsExist (wrapError msg e) = false.
Proof. reflexivity. Qed.

#[local] Arguments lru_delete : simpl never.
#[local] Arguments InvalidateNegativeInDir : simpl never.

Section Facts.
#[local] Existing Instance FSInv_any.
Context {F FD RL Tree : Type} `{FSLaws F FD Tree} `{OpLimiter RL} `{Env}.
#[local] Abbreviation Srv := (Srv F RL).

(** A cache look-up leaves the filesystem and the nodes alone. *)
Lemma attrCache_Get_run (s : Srv) p :
  ac_inv (s_attrCache s) ->
  exists attrs found s1, attrCache_Get p s = Some ((attrs, found), s1) /\
    s_fs s1 = s_fs s /\ s_nodes s1 = s_nodes s /\
    (forall a, attrs = Some a -> validUntil a = time_zero).
Proof.
  intros Hc. unfold attrCache_Get, time_Now, gets, mbind, M_bind. simpl.
  destruct (get_refines _ p (clock (s_tick s)) (clock (S (s_tick s))) Hc) as (a & ok & c & E & _).
  rewrite E. do 3 eexists. split; [done|]. split; [done|]. split; [done|].
  intros x ->. by eapply AttrCache_Get_stale.
Qed.

(** Checking the deadline only reads the clock and counts the time-out. *)
Lemma timed_out_run (s : Srv) op sel :
  tuning_ok (s_tuning s) ->
  exists b s1, timed_out op sel s = Some (b, s1) /\ s_fs s1 = s_fs s /\ s_nodes s1 = s_nodes s /\
    s_tuning s1 = s_tuning s /\ s_policy s1 = s_policy s /\
    s_attrCache s1 = s_attrCache s /\ s_dirCache s1 = s_dirCache s.
Proof.
  intros [_ [tc Htc]].
  unfold timed_out, timeout_of, with_timeout, ctx_done, time_Now, gets, mbind, M_bind, mret, M_ret.
  rewrite Htc. simpl. case_match; simpl; by eauto 20.
Qed.

(** A look-up of a path that is not cached: on success it names that path and
    adds at most one positive entry to the attribute cache. *)
Lemma Lookup_uncached (s : Srv) p :
  tuning_ok (s_tuning s) -> lru_inv (ac_lru (s_attrCache s)) -> attr_entry s p = None ->
  exists r s', Lookup p s = Some (r, s') /\ s_dirCache s' = s_dirCache s /\
    match r with
    | Ok n => path n = p /\
        forall q e, attr_entry s' q = Some e -> attr_entry s q = Some e \/ isNegative e = false
    | Err e => os_IsExist e = false
    end.
Proof.
  intros Ht Hi Hp. unfold Lookup. case_bool_decide; [by do 2 eexists|].
  destruct (timed_out_run s "LOOKUP" LookupTimeout Ht) as (b & s1 & Eb & Hfs & Hnd & _ & _ & Hac & Hdc).
  unfold mbind at 1, M_bind at 1. rewrite Eb. destruct b; [by do 2 eexists|].
  apply fmap_None in Hp.
  assert (forall now now', AttrCache_Get (s_attrCache s1) p now now' = Some (None, false, s_attrCache s1)) as Hg.
  { intros. unfold AttrCache_Get, Get_read. by rewrite Hac, Hp. }
  unfold attrCache_Get, time_Now, gets, mbind, M_bind. cbn. rewrite Hg. cbn.
  unfold fs_call at 1. cbn. destruct (fs_Lstat p (s_fs s1)) as [[info|err] fs1]; cbn.
  - do 2 eexists. split; [done|]. split; [exact Hdc|]. split; [done|]. intros q e. unfold attr_entry. cbn.
    rewrite Hac. intros [?| ->]%lru_put_sub; [by left|by right|done].
  - destruct (os_IsNotExist err); cbn; do 2 eexists; repeat split; exact Hdc.
Qed.

(** What the cache maintenance after a creation leaves cached. *)
Lemma invalidate_created_run (s : Srv) d p :
  ac_inv (s_attrCache s) ->
  exists s2, invalidate_created d p s = Some (tt, s2) /\ s_tuning s2 = s_tuning s /\
    lru_inv (ac_lru (s_attrCache s2)) /\ dir_entry s2 d = None /\
    forall q, attr_entry s2 q =
      if bool_decide (q = p) then None
      else e ← (if bool_decide (q = d) then None else attr_entry s q);
           if isNegative e && isChildOf q d then None else Some e.
Proof.
  intros Hc. unfold invalidate_created, mbind, M_bind. cbn. eexists. split; [done|]. cbn.
  split; [done|]. split; [|split].
  - apply delete_spec, invalidate_dir_abs. by apply (ac_unit_inv _ (OpInvalidate d) _ Hc).
  - unfold dir_entry. cbn. destruct (s_dirCache s); [|done]. cbn. by rewrite lru_delete_lookup, decide_True.
  - intros q. unfold attr_entry. cbn. rewrite lru_delete_lookup.
    case_decide as Hq; [by rewrite bool_decide_true|]. rewrite bool_decide_false by done.
    rewrite invalidate_negative_lookup. cbn. rewrite lru_delete_lookup.
    by case_decide; case_bool_decide; subst.
Qed.

(** ** Properties *)

(** GETATTR reports the filesystem's current attributes.  Whatever the
    attribute cache holds, the operation returns what [Lstat] reports for the
    node's path at that moment (mode, size, modification time), the file id
    derived from the path and the owner recorded in the node, or the error of
    [Lstat]: a stale cache entry is never served. *)
Theorem getattr_reports_current (s : Srv) n cur :
  server_ok s -> s_nodes s !! node_addr n = Some (Some cur) -> (forall k, time_zero <= clock k) ->
  exists r s', GetAttr n s = Some (r, s') /\
    match (fs_Lstat (path n) (s_fs s)).1 with
    | Ok info => exists t, r = Ok (Refresh (attrs_of_info info (fnv64a (path n)) (Uid cur) (Gid cur)) t)
    | Err err => exists msg, r = Err (wrapError msg err)
    end.
Proof.
  intros Hi Hn Hclk. unfold GetAttr.
  destruct (attrCache_Get_run s (path n) (si_attr _ _ _ _ Hi)) as (attrs & found & s1 & E & Hfs & Hnd & Hv).
  unfold mbind at 1, M_bind at 1. rewrite E. unfold mbind at 1, M_bind at 1. simpl.
  assert ((if found then attrs ≫= (fun a => if IsValid a (clock (s_tick s1)) then Some a else None)
           else None) = None) as ->.
  { destruct found; [|done]. destruct attrs as [a|]; [|done]. simpl. unfold IsValid.
    rewrite (Hv a) by done. specialize (Hclk (s_tick s1)). by destruct (Z.ltb_spec (clock (s_tick s1)) time_zero); [lia|]. }
  unfold mbind at 1, M_bind at 1, fs_call. simpl. rewrite Hfs.
  destruct (fs_Lstat (path n) (s_fs s)) as [[info|err] f]; simpl; [|by eauto].
  unfold mbind, M_bind, node_attrs. simpl. rewrite Hnd, Hn. simpl.
  do 2 eexists. split; [done|]. by eexists.
Qed.

(** A READ returns no more than it was asked for: the data has at most
    [count] bytes, at most the transfer size, and none on a negative offset
    or count; the operation always returns. *)
Theorem read_bounded (s : Srv) n offset count :
  server_ok s -> node_ok s n ->
  exists r s', Read n offset count s = Some (r, s') /\
    match r with
    | Ok data => 0 <= offset /\ 0 <= count /\ zlen data <= Z.min count (TransferSize (s_tuning s))
    | Err _ => True
    end.
Proof.
  intros Hi Hn. destruct (Read_safe _ _ _ s n offset count Hn Hi) as (r & s' & E & _).
  exists r, s'. split; [done|]. destruct r as [data|]; [|done].
  pose proof (si_tuning_ok _ _ _ _ Hi) as [Hts _].
  destruct (timed_out_run s "READ" ReadTimeout (si_tuning_ok _ _ _ _ Hi)) as (b & s1 & Eb & Hfs & _ & Htu & _).
  unfold Read in E. destruct (Z.ltb_spec offset 0); [done|]. destruct (Z.ltb_spec count 0); [done|].
  unfold mbind at 1, M_bind at 1 in E. rewrite Eb in E. destruct b; [done|].
  unfold gets, fs_call, mbind, M_bind, mret, M_ret in E. cbn in E. rewrite Hfs, Htu in E.
  destruct (fs_OpenFile (path n) os_O_RDONLY 0 (s_fs s)) as [[f|e] fs1]; [|done]. cbn in E.
  destruct (f_Stat f fs1) as [[info|e] fs2]; [|by cbn in E; destruct (f_Close f fs2)]. cbn in E.
  set (c := if TransferSize (s_tuning s) <? count then TransferSize (s_tuning s) else count) in E.
  assert (c = Z.min count (TransferSize (s_tuning s))) as Hc
    by (unfold c; destruct (Z.ltb_spec (TransferSize (s_tuning s)) count); lia).
  destruct (Z.leb_spec (fi_Size info - offset) 0).
  { cbn in E. destruct (f_Close f fs2). simplify_eq. unfold zlen; simpl. lia. }
  set (c' := if fi_Size info - offset <? c then fi_Size info - offset else c) in E.
  assert (c' <= c) as Hc' by (unfold c'; destruct (Z.ltb_spec (fi_Size info - offset) c); lia).
  destruct (Z.ltb_spec c' 0); [done|]. cbn in E.
  pose proof (readat_len f c' offset fs2 ltac:(lia)) as Hl.
  destruct (f_ReadAt f c' offset fs2) as [[d err] fs3]. cbn in E, Hl.
  destruct (f_Close f fs3). cbn in E.
  repeat case_match; simplify_eq; lia.
Qed.

(** A successful REMOVE leaves no trace of the entry: the filesystem is the
    one its own removal of [dir/name] leaves, the attributes of the entry and of
    its directory and the listing of the directory are no longer cached, and no
    other cached attribute changes; a failed one leaves both caches alone. *)
Theorem remove_coherent (s : Srv) d name :
  server_ok s ->
  exists r s', Remove d name s = Some (r, s') /\
    match r with
    | Ok _ =>
        ReadOnly (s_policy s) = false /\
        exists p, sanitizePath (path d) name = Ok p /\
          fs_Remove p (s_fs s) = (Ok tt, s_fs s') /\ dir_entry s' (path d) = None /\
          forall q, attr_entry s' q = if bool_decide (q = p \/ q = path d) then None else attr_entry s q
    | Err _ => s_attrCache s' = s_attrCache s /\ s_dirCache s' = s_dirCache s
    end.
Proof.
  intros Hi. unfold Remove. case_bool_decide; [by do 2 eexists|].
  destruct (timed_out_run s "REMOVE" RemoveTimeout (si_tuning_ok _ _ _ _ Hi)) as (b & s1 & Eb & Hfs & _ & _ & _ & Hac & Hdc).
  unfold read_only, gets, mbind, M_bind, mret, M_ret.
  destruct (ReadOnly (s_policy s)); [by do 2 eexists|]. rewrite Eb. destruct b; [by do 2 eexists|].
  destruct (sanitizePath (path d) name) as [p|e]; [|by do 2 eexists].
  unfold fs_call, mbind, M_bind. rewrite Hfs.
  destruct (fs_Remove p (s_fs s)) as [[[]|e] fs1] eqn:Efs; cbn; [|by do 2 eexists].
  do 2 eexists. split; [done|]. split; [done|]. exists p. do 2 (split; [done|]).
  unfold dir_entry, attr_entry. cbn. rewrite Hac, Hdc. split.
  - destruct (s_dirCache s) as [c|]; [|done]. cbn. by rewrite lru_delete_lookup, decide_True.
  - intros q. rewrite !lru_delete_lookup. repeat case_decide; case_bool_decide; naive_solver.
Qed.

(** C30: what a successful RENAME does to the caches, exactly: the filesystem is
    the one its own renaming leaves; the cached listings of the two parent
    directories are dropped, and no other listing, that of a directory
    replaced or moved included, changes; the cached attributes of both
    paths and both directories and the names of either directory cached as
    missing are dropped, and no other cached attribute changes.  A failed one
    leaves both caches alone. *)
Theorem rename_coherent (s : Srv) d name d' name' :
  server_ok s ->
  exists r s', Rename d name d' name' s = Some (r, s') /\
    match r with
    | Ok _ =>
        ReadOnly (s_policy s) = false /\
        exists p p', sanitizePath (path d) name = Ok p /\ sanitizePath (path d') name' = Ok p' /\
          fs_Rename p p' (s_fs s) = (Ok tt, s_fs s') /\
          (forall q, dir_entry s' q = if bool_decide (q = path d \/ q = path d') then None else dir_entry s q) /\
          forall q, attr_entry s' q =
            e ← attr_entry s q;
            if bool_decide (q ∈ [p; p'; path d; path d'])
               || isNegative e && (isChildOf q (path d) || isChildOf q (path d'))
            then None else Some e
    | Err _ => s_attrCache s' = s_attrCache s /\ s_dirCache s' = s_dirCache s
    end.
Proof.
  intros Hi. unfold Rename. destruct (_ || _); [by do 2 eexists|].
  destruct (timed_out_run s "RENAME" RenameTimeout (si_tuning_ok _ _ _ _ Hi)) as (b & s1 & Eb & Hfs & _ & _ & _ & Hac & Hdc).
  unfold read_only, gets, mbind, M_bind, mret, M_ret.
  destruct (ReadOnly (s_policy s)); [by do 2 eexists|]. rewrite Eb. destruct b; [by do 2 eexists|].
  destruct (sanitizePath (path d) name) as [p|e]; [|by do 2 eexists].
  destruct (sanitizePath (path d') name') as [p'|e]; [|by do 2 eexists].
  unfold fs_call, mbind, M_bind. rewrite Hfs.
  destruct (fs_Rename p p' (s_fs s)) as [[[]|e] fs1] eqn:Efs; cbn; [|by do 2 eexists].
  do 2 eexists. split; [done|]. split; [done|]. exists p, p'. do 3 (split; [done|]).
  unfold dir_entry, attr_entry. cbn. rewrite Hac, Hdc.
  split.
  - intros q. destruct (s_dirCache s) as [c|]; [|by case_bool_decide]. cbn. rewrite !lru_delete_lookup.
    repeat case_decide; case_bool_decide; naive_solver.
  - intros q. rewrite !invalidate_negative_lookup. cbn. rewrite !lru_delete_lookup.
    case_bool_decide as Hq; repeat case_decide; try set_solver;
      destruct (table (ac_lru (s_attrCache s)) !! q) as [e|]; cbn; try done.
    destruct (isNegative (value e)) eqn:En, (isChildOf q (path d)); cbn; rewrite ?En; done.
Qed.

(** C29: a successful CREATE hands out a node for [dir/name], made by the
    filesystem's own [Create], and cannot be hidden by a cache: the listing of
    the directory is not cached, and neither the new name nor any other name of
    the directory is cached as missing.  An error is never one that
    [os.IsExist] recognises. *)
Theorem create_coherent (s : Srv) d name a :
  server_ok s ->
  exists r s', Create d name a s = Some (r, s') /\
    match r with
    | Ok n =>
        ReadOnly (s_policy s) = false /\ sanitizePath (path d) name = Ok (path n) /\
        (exists f, (fs_Create (path n) (s_fs s)).1 = Ok f) /\ dir_entry s' (path d) = None /\
        forall q e, q = path n \/ isChildOf q (path d) = true ->
          attr_entry s' q = Some e -> isNegative e = false
    | Err e => os_IsExist e = false
    end.
Proof.
  intros Hi. unfold Create. case_bool_decide; [by do 2 eexists|].
  destruct (timed_out_run s "CREATE" CreateTimeout (si_tuning_ok _ _ _ _ Hi))
    as (b & s1 & Eb & Hfs & _ & Htu & _ & Hac & Hdc).
  unfold read_only, gets, mbind, M_bind, mret, M_ret.
  destruct (ReadOnly (s_policy s)); [by do 2 eexists|]. rewrite Eb. destruct b; [by do 2 eexists|].
  destruct (sanitizePath (path d) name) as [p|e]; [|by do 2 eexists].
  unfold fs_call, mbind, M_bind. rewrite Hfs.
  destruct (fs_Create p (s_fs s)) as [[f|e] fs1] eqn:Efs; cbn; [|by do 2 eexists].
  destruct (f_Close f fs1) as [[e|] fs2]; cbn; [by destruct (fs_Remove p fs2); do 2 eexists|].
  destruct (fs_Chmod p _ fs2) as [[[]|e] fs3]; cbn; [|by destruct (fs_Remove p fs3); do 2 eexists].
  destruct (invalidate_created_run (upd_fs fs3 (upd_fs fs2 (upd_fs fs1 s1))) (path d) p)
    as (s2 & -> & Htu2 & Hi2 & Hd2 & Hent); [cbn; rewrite Hac; apply (si_attr _ _ _ _ Hi)|].
  destruct (Lookup_uncached s2 p) as (r & s' & E & Hdc' & Hr);
    [by rewrite Htu2; cbn; rewrite Htu; apply (si_tuning_ok _ _ _ _ Hi)|done|by rewrite Hent, bool_decide_true|].
  exists r, s'. split; [done|]. destruct r as [n|]; [|done]. destruct Hr as [<- Hr].
  do 2 (split; [done|]). split; [by rewrite Efs; eauto|].
  split; [by unfold dir_entry; rewrite Hdc'|].
  intros q e Hq He. destruct (Hr q e He) as [Ho|]; [|done]. rewrite Hent in Ho.
  case_bool_decide; [done|]. destruct Hq as [|Hq]; [done|]. rewrite Hq in Ho.
  destruct (if bool_decide _ then _ else _) as [x|]; [|done].
  cbn in Ho. destruct (isNegative x) eqn:?; cbn in Ho; by simplify_eq.
Qed.

End Facts.

(** ** Concrete runs *)

Definition root_node : NFSNode := mkNode 0 "/".

Lemma root_node_ok readOnly : node_ok (sample_server readOnly) root_node.
Proof. split; [|reflexivity]. destruct readOnly; vm_compute; by eexists. Qed.

Lemma sample_clock_after_zero k : time_zero <= clock k.
Proof. unfold clock, sample_env, time_zero, second, ms. lia. Qed.

Lemma getattr_reports_current_witness :
  exists r s', GetAttr root_node (sample_server false) = Some (r, s') /\
    exists info t, (fs_Lstat "/" sample_fs).1 = Ok info /\
      r = Ok (Refresh (attrs_of_info info (fnv64a "/") 0 0) t).
Proof.
  destruct (s_nodes (sample_server false) !! 0%nat) as [[cur|]|] eqn:E; [|by vm_compute in E..].
  destruct (getattr_reports_current (sample_server false) root_node cur (sample_server_ok false) E
    sample_clock_after_zero) as (r & s' & Er & Hr).
  exists r, s'. split; [exact Er|]. vm_compute in E. injection E as <-.
  change (s_fs (sample_server false)) with sample_fs in Hr. change (path root_node) with "/"%string in Hr.
  destruct (fs_Lstat "/" sample_fs) as [[info|e] f] eqn:El; [|by vm_compute in El].
  destruct Hr as [t Hr]. exists info, t. split; [reflexivity|exact Hr].
Defined.

(** A read of 3 bytes at offset 1 of "hello". *)
Lemma read_bounded_witness :
  exists r s', Read (mkNode 0 "/a") 1 3 (sample_server false) = Some (r, s') /\
    match r with Ok data => zlen data <= 3 | Err _ => True end.
Proof.
  destruct (read_bounded (sample_server false) (mkNode 0 "/a") 1 3 (sample_server_ok false))
    as (r & s' & E & Hr).
  { split; [apply (root_node_ok false)|reflexivity]. }
  exists r, s'. split; [exact E|]. destruct r; [lia|exact I].
Defined.

Example read_sample :
  option_map fst (Read (mkNode 0 "/a") 1 3 (sample_server false)) = Some (Ok (bytes_of_string "ell")).
Proof. vm_compute. reflexivity. Qed.

Lemma remove_coherent_witness :
  exists s', Remove root_node "a" (sample_server false) = Some (Ok tt, s') /\
    attr_entry s' "/a" = None /\ dir_entry s' "/" = None.
Proof.
  destruct (remove_coherent (sample_server false) root_node "a" (sample_server_ok false))
    as (r & s' & E & Hr).
  assert (option_map fst (Remove root_node "a" (sample_server false)) = Some (Ok tt)) as E'
    by (vm_compute; reflexivity).
  rewrite E in E'. injection E' as ->. destruct Hr as (_ & p & [= <-] & _ & Hd & Ha).
  exists s'. split; [exact E|]. split; [rewrite Ha; reflexivity|exact Hd].
Defined.

Lemma rename_coherent_witness :
  exists s', Rename root_node "a" root_node "b" (sample_server false) = Some (Ok tt, s') /\
    dir_entry s' "/" = None.
Proof.
  destruct (rename_coherent (sample_server false) root_node "a" root_node "b" (sample_server_ok false))
    as (r & s' & E & Hr).
  assert (option_map fst (Rename root_node "a" root_node "b" (sample_server false)) = Some (Ok tt)) as E'
    by (vm_compute; reflexivity).
  rewrite E in E'. injection E' as ->. destruct Hr as (_ & p & p' & _ & _ & _ & Hd & _).
  exists s'. split; [exact E|]. rewrite Hd. reflexivity.
Defined.

Lemma create_coherent_witness :
  exists n s', Create root_node "n" (mkNFSAttrs 420 0 0 time_zero time_zero 0 0 time_zero)
      (sample_server false) = Some (Ok n, s') /\ path n = "/n"%string /\ dir_entry s' "/" = None.
Proof.
  set (a := mkNFSAttrs 420 0 0 time_zero time_zero 0 0 time_zero).
  destruct (create_coherent (sample_server false) root_node "n" a (sample_server_ok false))
    as (r & s' & E & Hr).
  assert (match option_map fst (Create root_node "n" a (sample_server false)) with
          | Some (Ok _) => True | _ => False end) as E' by (vm_compute; exact I).
  rewrite E in E'. destruct r as [n|]; [|destruct E']. destruct Hr as (_ & [= Hp] & _ & Hd & _).
  exists n, s'. split; [exact E|]. split; [symmetry; exact Hp|exact Hd].
Defined.
