(* ===== verification/Content.v ===== *)
(** * What READ and WRITE do to the contents of files

    The exported filesystem seen as a store of byte strings: [FSContent]
    states what the interface documents of reading and writing at an offset.
    Over any such store the procedures READ and WRITE
    (src/nfs_proc_readwrite.go on src/operations.go) behave as reading and
    overwriting a byte string, and what a client writes it reads back. *)

From S2P Require Import Prelude Errors Xdr Attributes Rpc MinHeap FileHandle Lru AttrCache Path.
From S2P Require Import Options NetIP Auth Filesystem DirCache Server Operations Safety OpsSafe.
From S2P Require Import Procs ProcsDir ProcsSafe Sample Service Handles OpsFacts.
Open Scope Z_scope.

(** ** Byte strings *)

(** [n] bytes of [b] from offset [off]. *)
Definition chunk (off n : Z) (b : list byte) : list byte := take (Z.to_nat n) (drop (Z.to_nat off) b).

(** [b] with [d] written at offset [off]; a gap is filled with zeros. *)
Definition splice (b : list byte) (off : Z) (d : list byte) : list byte :=
  take (Z.to_nat off) (b ++ replicate (Z.to_nat off - length b) x00) ++ d ++ drop (Z.to_nat off + length d) b.

Lemma splice_prefix_length b off : length (take off (b ++ replicate (off - length b) x00)) = off.
Proof. rewrite length_take, length_app, length_replicate. lia. Qed.

Lemma zlen_splice b off d : 0 <= off -> zlen (splice b off d) = Z.max (zlen b) (off + zlen d).
Proof.
  intros. unfold splice, zlen. rewrite !length_app, splice_prefix_length, length_drop. lia.
Qed.

(** What was written at an offset is what is found there. *)
Lemma chunk_splice b off d : chunk off (zlen d) (splice b off d) = d.
Proof.
  unfold chunk, splice, zlen. rewrite drop_app_length' by (symmetry; apply splice_prefix_length).
  by rewrite Nat2Z.id, take_app_length.
Qed.

Lemma zlen_chunk off n b : 0 <= off -> 0 <= n -> zlen (chunk off n b) = Z.min n (Z.max 0 (zlen b - off)).
Proof. intros. unfold chunk, zlen. rewrite length_take, length_drop. lia. Qed.

(** Asking for more than there is finds the rest. *)
Lemma chunk_clamp off n b : 0 <= off -> 0 <= n -> chunk off (Z.min n (zlen b - off)) b = chunk off n b.
Proof.
  intros. unfold chunk, zlen.
  destruct (Z.le_gt_cases n (Z.of_nat (length b) - off)) as [Hle|Hgt]; [by rewrite Z.min_l|].
  rewrite !take_ge; [done|rewrite length_drop; lia..].
Qed.

Lemma chunk_past off n b : zlen b <= off -> chunk off n b = [].
Proof. intros. unfold chunk. rewrite drop_ge by (unfold zlen in *; lia). apply take_nil. Qed.

(** [if len(d) > n { d = d[:n] }] *)
Lemma take_clamp {A} n (d : list A) :
  0 <= n -> (if n <? zlen d then take (Z.to_nat n) d else d) = take (Z.to_nat (Z.min (zlen d) n)) d.
Proof.
  intros. destruct (Z.ltb_spec n (zlen d)) as [Hlt|Hle]; [by rewrite Z.min_r by lia|].
  rewrite Z.min_l by done. unfold zlen. by rewrite Nat2Z.id, firstn_all.
Qed.

(** [if a > b { a = b }] *)
Lemma clamp_min a b : (if b <? a then b else a) = Z.min a b.
Proof. destruct (Z.ltb_spec b a); lia. Qed.

(** ** Filesystems as stores of byte strings *)

(** [contents p s] is what the regular file [p] holds, [fd_opens fd p s] that
    the descriptor [fd] is open on it.  The calls READ and WRITE make change no
    contents but through [f_WriteAt]; sizes are those of the contents;
    [io.ReaderAt] and [io.WriterAt] transfer everything they can unless they
    report an error. *)
Class FSContent (F FD : Type) `{SymlinkFileSystem F FD} := {
  contents : string -> F -> option (list byte);
  fd_opens : FD -> string -> F -> Prop;
  stat_contents : forall p q s, contents q (fs_Stat p s).2 = contents q s;
  lstat_contents : forall p q s, contents q (fs_Lstat p s).2 = contents q s;
  open_contents : forall p flag perm q s, flag = os_O_RDONLY \/ flag = os_O_WRONLY ->
    contents q (fs_OpenFile p flag perm s).2 = contents q s;
  open_opens : forall p flag perm s fd, (fs_OpenFile p flag perm s).1 = Ok fd ->
    fd_opens fd p (fs_OpenFile p flag perm s).2;
  fstat_contents : forall fd q s, contents q (f_Stat fd s).2 = contents q s;
  fstat_opens : forall fd p s, fd_opens fd p s -> fd_opens fd p (f_Stat fd s).2;
  readat_contents : forall fd n off q s, contents q (f_ReadAt fd n off s).2 = contents q s;
  close_contents : forall fd q s, contents q (f_Close fd s).2 = contents q s;
  chtimes_contents : forall p a m q s, contents q (fs_Chtimes p a m s).2 = contents q s;
  lstat_size : forall p s b info, contents p s = Some b -> (fs_Lstat p s).1 = Ok info -> fi_Size info = zlen b;
  fstat_size : forall fd p s b info, fd_opens fd p s -> contents p s = Some b ->
    (f_Stat fd s).1 = Ok info -> fi_Size info = zlen b;
  readat_chunk : forall fd p s b n off d err, fd_opens fd p s -> contents p s = Some b -> 0 <= n -> 0 <= off ->
    (f_ReadAt fd n off s).1 = (d, err) -> err = None \/ err = Some io_EOF -> d = chunk off n b;
  writeat_splice : forall fd p s b off d n, fd_opens fd p s -> contents p s = Some b -> 0 <= off -> d <> [] ->
    (f_WriteAt fd d off s).1 = (n, None) ->
    n = zlen d /\ contents p (f_WriteAt fd d off s).2 = Some (splice b off d)
}.

(** A filesystem whose calls on regular files do not fail. *)
Record reliable {F FD : Type} `{FSContent F FD} : Prop := {
  rel_open : forall p flag perm s b, contents p s = Some b -> is_ok (fs_OpenFile p flag perm s).1 = true;
  rel_lstat : forall p s b, contents p s = Some b -> is_ok (fs_Lstat p s).1 = true;
  rel_fstat : forall fd p s b, fd_opens fd p s -> contents p s = Some b -> is_ok (f_Stat fd s).1 = true;
  rel_readat : forall fd p s b n off, fd_opens fd p s -> contents p s = Some b ->
    (f_ReadAt fd n off s).1.2 = None \/ (f_ReadAt fd n off s).1.2 = Some io_EOF;
  rel_writeat : forall fd p s b off d, fd_opens fd p s -> contents p s = Some b -> (f_WriteAt fd d off s).1.2 = None
}.
Arguments reliable F FD {_ _}.

(** ** The operations *)

Section Contents.
Context {F FD RL : Type} `{FSContent F FD} `{OpLimiter RL} `{Env}.
#[local] Abbreviation Srv := (Srv F RL).
#[local] Abbreviation M := (M F RL).

Definition same_files (f f' : F) : Prop := forall q, contents q f' = contents q f.

#[export] Instance same_files_preorder : PreOrder same_files.
Proof. split; [done|]. intros f1 f2 f3 H12 H23 q. by rewrite H23. Qed.

(** *** The calls, one by one *)

Lemma open_run p flag s b :
  flag = os_O_RDONLY \/ flag = os_O_WRONLY -> contents p s = Some b ->
  exists r f, fs_OpenFile p flag 0 s = (r, f) /\ same_files s f /\
    match r with Ok fd => fd_opens fd p f /\ contents p f = Some b | Err _ => ~ reliable F FD end.
Proof.
  intros Hf Hb. exists (fs_OpenFile p flag 0 s).1, (fs_OpenFile p flag 0 s).2.
  split; [by destruct (fs_OpenFile p flag 0 s)|]. split; [intros q; by apply open_contents|].
  destruct (fs_OpenFile p flag 0 s).1 as [fd|e] eqn:E.
  - split; [by apply open_opens|]. by rewrite open_contents.
  - intros Hr. pose proof (rel_open Hr p flag 0 s b Hb) as Ho. by rewrite E in Ho.
Qed.

Lemma fstat_run fd p s b :
  fd_opens fd p s -> contents p s = Some b ->
  exists r f, f_Stat fd s = (r, f) /\ same_files s f /\ fd_opens fd p f /\ contents p f = Some b /\
    match r with Ok info => fi_Size info = zlen b | Err _ => ~ reliable F FD end.
Proof.
  intros Ho Hb. exists (f_Stat fd s).1, (f_Stat fd s).2.
  split; [by destruct (f_Stat fd s)|]. split; [intros q; apply fstat_contents|].
  split; [by apply fstat_opens|]. split; [by rewrite fstat_contents|].
  destruct (f_Stat fd s).1 as [info|e] eqn:E; [by eapply fstat_size|].
  intros Hr. pose proof (rel_fstat Hr fd p s b Ho Hb) as Hs. by rewrite E in Hs.
Qed.

Lemma readat_run fd p s b n off :
  fd_opens fd p s -> contents p s = Some b -> 0 <= n -> 0 <= off ->
  exists d err f, f_ReadAt fd n off s = ((d, err), f) /\ same_files s f /\
    (err = None \/ err = Some io_EOF -> d = chunk off n b) /\
    (reliable F FD -> err = None \/ err = Some io_EOF).
Proof.
  intros Ho Hb Hn Hoff. exists (f_ReadAt fd n off s).1.1, (f_ReadAt fd n off s).1.2, (f_ReadAt fd n off s).2.
  split; [by destruct (f_ReadAt fd n off s) as [[]]|]. split; [intros q; apply readat_contents|].
  split; [by eapply readat_chunk; [..|apply surjective_pairing]|]. intros Hr. by eapply rel_readat.
Qed.

Lemma writeat_run fd p s b d off :
  fd_opens fd p s -> contents p s = Some b -> 0 <= off -> d <> [] ->
  exists n err f, f_WriteAt fd d off s = ((n, err), f) /\
    (err = None -> n = zlen d /\ contents p f = Some (splice b off d)) /\
    (reliable F FD -> err = None).
Proof.
  intros Ho Hb Hoff Hd. exists (f_WriteAt fd d off s).1.1, (f_WriteAt fd d off s).1.2, (f_WriteAt fd d off s).2.
  split; [by destruct (f_WriteAt fd d off s) as [[]]|]. split.
  - intros He. eapply writeat_splice; eauto. rewrite <- He. apply surjective_pairing.
  - intros Hr. by eapply rel_writeat.
Qed.

(** Calls whose result does not matter. *)
Lemma keeps_files {A} (op : F -> A * F) s :
  (forall q, contents q (op s).2 = contents q s) -> exists a f, op s = (a, f) /\ same_files s f.
Proof. intros Hq. exists (op s).1, (op s).2. split; [apply surjective_pairing|exact Hq]. Qed.

Lemma close_run fd s : exists r f, f_Close fd s = (r, f) /\ same_files s f.
Proof. apply (keeps_files (f_Close fd)). intros. apply close_contents. Qed.

(** *** The operations *)

(** The operation's deadline is not reached between two readings of the clock. *)
Definition prompt (sel : TimeoutConfig -> Z) (t : TuningOptions) : Prop :=
  forall tc k, Timeouts t = Some tc -> clock (S k) < clock k + sel tc.

Lemma timed_out_prompt (s : Srv) op sel b s1 :
  prompt sel (s_tuning s) -> timed_out op sel s = Some (b, s1) -> b = false.
Proof.
  intros Hp. unfold timed_out, timeout_of, with_timeout, ctx_done, time_Now, gets, mbind, M_bind, mret, M_ret.
  simpl. destruct (Timeouts (s_tuning s)) as [tc|] eqn:Et; [|done]. simpl. specialize (Hp tc (s_tick s) Et).
  destruct (Z.leb_spec (clock (s_tick s) + sel tc) (clock (S (s_tick s)))); [lia|]. by intros [= <- <-].
Qed.

(** [GetAttr] reports the size of the contents. *)
Lemma GetAttr_content (s : Srv) n b r s' :
  server_ok s -> (forall k, time_zero <= clock k) -> contents (path n) (s_fs s) = Some b ->
  GetAttr n s = Some (r, s') ->
  same_files (s_fs s) (s_fs s') /\
  match r with Ok a => Size a = zlen b | Err _ => ~ reliable F FD end.
Proof.
  intros Hi Hclk Hb E. unfold GetAttr in E.
  destruct (attrCache_Get_run s (path n) (si_attr _ _ _ _ Hi)) as (attrs & found & s1 & E1 & Hfs & _ & Hv).
  unfold mbind at 1, M_bind at 1 in E. rewrite E1 in E. unfold mbind at 1, M_bind at 1 in E. simpl in E.
  assert ((if found then attrs ≫= (fun a => if IsValid a (clock (s_tick s1)) then Some a else None)
           else None) = None) as Hnone.
  { destruct found; [|done]. destruct attrs as [a|]; [|done]. simpl. unfold IsValid.
    rewrite (Hv a) by done. specialize (Hclk (s_tick s1)).
    by destruct (Z.ltb_spec (clock (s_tick s1)) time_zero); [lia|]. }
  rewrite Hnone in E. unfold mbind at 1, M_bind at 1, fs_call in E. simpl in E. rewrite Hfs in E.
  pose proof (lstat_contents (path n)) as Hc. specialize (Hc) with (s := s_fs s).
  pose proof (lstat_size (path n) (s_fs s) b) as Hz.
  pose proof (fun Hrel : reliable F FD => rel_lstat Hrel (path n) (s_fs s) b Hb) as Hrel.
  destruct (fs_Lstat (path n) (s_fs s)) as [[info|err] f]; simpl in *.
  - unfold mbind, M_bind, node_attrs in E. simpl in E. destruct (s_nodes s1 !! node_addr n); [|done].
    simpl in E. injection E as <- <-. split; [done|]. by apply Hz.
  - injection E as <- <-. split; [done|]. intros Hr. by specialize (Hrel Hr).
Qed.

(** [Read] returns the bytes at the offset, as many as asked for and allowed. *)
Lemma Read_content (s : Srv) n b offset count r s' :
  server_ok s -> contents (path n) (s_fs s) = Some b -> Read n offset count s = Some (r, s') ->
  same_files (s_fs s) (s_fs s') /\
  match r with
  | Ok d => 0 <= offset /\ 0 <= count /\ d = chunk offset (Z.min count (TransferSize (s_tuning s))) b
  | Err _ => reliable F FD -> prompt ReadTimeout (s_tuning s) -> 0 <= offset -> 0 <= count -> False
  end.
Proof.
  intros Hi Hb E. pose proof (si_tuning_ok _ _ _ _ Hi) as [Hts _].
  unfold Read in E. destruct (Z.ltb_spec offset 0); [injection E as <- <-; split; [done|intros; lia]|].
  destruct (Z.ltb_spec count 0); [injection E as <- <-; split; [done|intros; lia]|].
  destruct (timed_out_run s "READ" ReadTimeout (si_tuning_ok _ _ _ _ Hi)) as (t & s1 & Et & Hfs & _ & Htu & _).
  unfold mbind at 1, M_bind at 1 in E. rewrite Et in E. destruct t.
  { injection E as <- <-. rewrite Hfs. split; [done|]. intros _ Hp _ _. by apply timed_out_prompt in Et. }
  unfold gets, fs_call, mbind, M_bind, mret, M_ret in E. cbn in E. rewrite Hfs, Htu, clamp_min in E.
  rewrite <- chunk_clamp by lia. set (c := Z.min count (TransferSize (s_tuning s))) in *.
  destruct (open_run (path n) os_O_RDONLY (s_fs s) b) as (ro & fs1 & Eo & Ho & Hfd); [by left|done|].
  rewrite Eo in E. destruct ro as [f|e]; cbn in E; [destruct Hfd as [Hfd Hb1]|by simplify_eq].
  destruct (fstat_run f (path n) fs1 b Hfd Hb1) as (rs & fs2 & Es & Hs & Hfd2 & Hb2 & Hz).
  rewrite Es in E. destruct (close_run f fs2) as (? & fs4 & Ec & Hc).
  assert (same_files (s_fs s) fs2) as Hs2 by (by etrans).
  assert (same_files (s_fs s) fs4) by (by etrans).
  destruct rs as [info|e]; cbn in E; [rewrite Hz in E|by rewrite Ec in E; simplify_eq].
  destruct (Z.leb_spec (zlen b - offset) 0) as [Hend|Hmore].
  { cbn in E. rewrite Ec in E. simplify_eq. split; [done|]. do 2 (split; [lia|]). by rewrite chunk_past by lia. }
  rewrite clamp_min in E. destruct (Z.ltb_spec (Z.min c (zlen b - offset)) 0); [lia|]. cbn in E.
  destruct (readat_run f (path n) fs2 b (Z.min c (zlen b - offset)) offset Hfd2 Hb2)
    as (d & err & fs3 & Er & Hr & Hd & Hrel); [lia..|].
  rewrite Er in E. cbn in E. destruct (close_run f fs3) as (? & fs5 & Ec' & Hc'). rewrite Ec' in E.
  assert (same_files (s_fs s) fs5) by (etrans; [by eapply Hs2|by etrans]).
  destruct err as [e|]; [case_bool_decide|]; simplify_eq; (split; [done|]); auto.
  intros Hrl. destruct (Hrel Hrl); congruence.
Qed.

(** What [Write] does once the bytes are in the file changes no contents. *)
Lemma after_write_run p n (s s' : Srv) a :
  (attrCache_Invalidate p ;;
   now ← time_Now;
   fs_call (fs_Chtimes p now now) ;;
   st ← fs_call (fs_Stat p);
   match st with Ok info => refresh_size n info | Err _ => mret tt end) s = Some (a, s') ->
  same_files (s_fs s) (s_fs s').
Proof.
  unfold mbind, M_bind, fs_call. cbn.
  destruct (keeps_files (fs_Chtimes p (clock (s_tick s)) (clock (s_tick s))) (s_fs s)) as (a1 & f1 & -> & Hch);
    [intros; apply chtimes_contents|].
  cbn. destruct (keeps_files (fs_Stat p) f1) as (a2 & f2 & -> & Hst); [intros; apply stat_contents|].
  assert (same_files (s_fs s) f2) by (by etrans).
  destruct a2 as [info|e]; [|by intros [= <- <-]]. unfold refresh_size, deref_attrs, node_attrs, mbind, M_bind. cbn.
  destruct (s_nodes s !! node_addr n) as [[x|]|]; [|done..]. by intros [= <- <-].
Qed.

(** [Write] overwrites the bytes at the offset and reports how many. *)
Lemma Write_content (s : Srv) n b offset data k err s' :
  server_ok s -> 0 < TransferSize (s_tuning s) -> data <> [] -> contents (path n) (s_fs s) = Some b ->
  Write n offset data s = Some ((k, err), s') ->
  match err with
  | None => 0 <= offset /\ k = Z.min (zlen data) (TransferSize (s_tuning s)) /\
      contents (path n) (s_fs s') = Some (splice b offset (take (Z.to_nat k) data))
  | Some _ => reliable F FD -> prompt WriteTimeout (s_tuning s) -> 0 <= offset ->
      ReadOnly (s_policy s) = false -> False
  end.
Proof.
  intros Hi Hts Hd Hb E. unfold Write in E.
  destruct (Z.ltb_spec offset 0); [injection E as <- <- <-; intros; lia|].
  unfold mbind at 1, M_bind at 1, read_only, gets in E.
  destruct (ReadOnly (s_policy s)) eqn:Hro; [by injection E as <- <- <-|].
  destruct (timed_out_run s "WRITE" WriteTimeout (si_tuning_ok _ _ _ _ Hi)) as (t & s1 & Et & Hfs & _ & Htu & _).
  unfold mbind at 1, M_bind at 1 in E. rewrite Et in E. destruct t.
  { injection E as <- <- <-. intros _ Hp _ _. by apply timed_out_prompt in Et. }
  unfold mbind at 1, M_bind at 1 in E. rewrite Htu in E.
  destruct (Z.ltb_spec (TransferSize (s_tuning s)) 0); [lia|]. rewrite andb_false_r in E.
  rewrite take_clamp in E by lia. set (k' := Z.min (zlen data) (TransferSize (s_tuning s))) in *.
  set (w := take (Z.to_nat k') data) in *.
  destruct (open_run (path n) os_O_WRONLY (s_fs s) b) as (ro & fs1 & Eo & Ho & Hfd); [by right|done|].
  unfold mbind at 1, M_bind at 1, fs_call at 1 in E. rewrite Hfs, Eo in E.
  destruct ro as [f|e]; [destruct Hfd as [Hfd Hb1]|by injection E as <- <- <-; intros Hr].
  destruct (writeat_run f (path n) fs1 b w offset Hfd Hb1) as (nw & ew & fs2 & Ew & Hw & Hrel); [done|..].
  { intros Hw%(f_equal zlen). unfold w, zlen, k' in *. rewrite length_take in Hw. destruct data; [done|].
    unfold zlen in *. simpl in *. lia. }
  unfold mbind at 1, M_bind at 1, fs_call at 1 in E. cbn in E. rewrite Ew in E. cbn in E.
  destruct ew as [e|]; cbn in E.
  { unfold mbind, M_bind, fs_call in E. cbn in E. destruct (f_Close f fs2). injection E as <- <- <-.
    intros Hr. by specialize (Hrel Hr). }
  destruct (Hw eq_refl) as [-> Hc]. clear Hrel Hw.
  unfold mbind at 1, M_bind at 1 in E.
  match type of E with match ?m with _ => _ end = _ => destruct m as [[[] s3]|] eqn:E3 end; [|done].
  apply after_write_run in E3. cbn in E3.
  unfold mbind, M_bind, fs_call in E. destruct (close_run f (s_fs s3)) as (? & fs4 & Ec & Hcl). rewrite Ec in E.
  injection E as <- <- <-. split; [done|].
  assert (zlen w = k') as Hlen by (unfold w, zlen in *; rewrite length_take; unfold k', zlen; lia).
  rewrite Hlen. split; [done|]. cbn. by rewrite Hcl, E3.
Qed.
End Contents.

(** ** The procedures, as a client sees them *)

(** [READ3args] and [WRITE3args] *)
Definition read_args (h off count : Z) : list byte :=
  xdrEncodeFileHandle h ++ xdrEncodeUint64 off ++ xdrEncodeUint32 count.

Definition write_args (h off stable : Z) (d : list byte) : list byte :=
  xdrEncodeFileHandle h ++ xdrEncodeUint64 off ++ xdrEncodeUint32 (zlen d) ++ xdrEncodeUint32 stable ++
  xdrEncodeUint32 (zlen d) ++ d ++ replicate (Z.to_nat (xdr_pad (zlen d))) x00.

(** Attributes of [n] bytes that may be absent. *)
Definition decode_attr (n : nat) : Dec unit :=
  follows ← xdrDecodeUint32;
  if follows =? 1 then _ ← io_ReadFull n; mret tt else mret tt.

Definition decode_status_ok : Dec unit :=
  status ← xdrDecodeUint32;
  if status =? NFS_OK then mret tt else Dec_fail (ErrorString "refused").

(** [READ3resok]: the data and whether it reaches the end of the file *)
Definition decode_read : Dec (list byte * bool) :=
  _ ← decode_status_ok;
  _ ← decode_attr 84;
  count ← xdrDecodeUint32;
  eof ← xdrDecodeUint32;
  len ← xdrDecodeUint32;
  d ← io_ReadFull (Z.to_nat len);
  _ ← io_ReadFull (Z.to_nat (xdr_pad len));
  if count =? len then mret (d, eof =? 1) else Dec_fail (ErrorString "count").

(** [WRITE3resok]: the number of bytes written *)
Definition decode_write : Dec Z :=
  _ ← decode_status_ok;
  _ ← decode_attr 24;
  _ ← decode_attr 84;
  count ← xdrDecodeUint32;
  _ ← xdrDecodeUint32;
  _ ← io_ReadFull 8;
  mret count.

(** A reply that is read to its end. *)
Definition reply_result {A} (dec : Dec A) (r : RPCReply) : option A :=
  match Data r with
  | DataBytes b => match dec b with (Ok x, []) => Some x | _ => None end
  | _ => None
  end.
Definition read_result : RPCReply -> option (list byte * bool) := reply_result decode_read.
Definition write_result : RPCReply -> option Z := reply_result decode_write.

Lemma decode_status_ok_encode r : decode_status_ok (xdrEncodeUint32 NFS_OK ++ r) = (Ok tt, r).
Proof.
  unfold decode_status_ok, mbind, Dec_bind. by rewrite xdrDecodeUint32_encode by (unfold is_u32, NFS_OK; lia).
Qed.

Lemma decode_attr_encode n a r : length a = n -> decode_attr n (xdrEncodeUint32 1 ++ a ++ r) = (Ok tt, r).
Proof.
  intros Hn. unfold decode_attr, mbind, Dec_bind. rewrite xdrDecodeUint32_encode by (unfold is_u32; lia).
  cbn. by rewrite io_ReadFull_app' by done.
Qed.

(** A reply without the rest of a result is not one. *)
Lemma refused_result {A} (dec : Dec A) reply st rest :
  (exists e r, dec rest = (Err e, r)) ->
  reply_result (_ ← decode_status_ok; dec) (with_data reply (xdrEncodeUint32 st ++ rest)) = None.
Proof.
  intros (e & r & Hdec). unfold reply_result, with_data, decode_status_ok. cbn [Data set_Data].
  unfold mbind, Dec_bind. destruct (xdrDecodeUint32 _) as [[v|e'] r'] eqn:E; [|done].
  apply xdrDecodeUint32_Ok in E as [_ E].
  apply app_inj_1 in E as [_ <-]; [|by unfold xdrEncodeUint32; rewrite !be_bytes_length].
  destruct (v =? NFS_OK); [|done]. unfold mret, Dec_ret. by rewrite Hdec.
Qed.

Lemma refused_read reply st : read_result (nfsErrorWithPostOp reply st) = None.
Proof. apply refused_result. by do 2 eexists. Qed.

Lemma refused_write reply st : write_result (nfsErrorWithWcc reply st) = None.
Proof. apply refused_result. by do 2 eexists. Qed.

Lemma failed_write reply st a a' :
  write_result (with_data reply (xdrEncodeUint32 st ++ encodeWccData a a')) = None.
Proof.
  apply refused_result. unfold encodeWccData, mbind, Dec_bind.
  rewrite decode_attr_encode by apply encodeWccAttr_length. rewrite <- (app_nil_r (encodeFileAttributes a')).
  rewrite decode_attr_encode by apply encodeFileAttributes_length. by do 2 eexists.
Qed.

Lemma answered_read reply a d (eof : bool) :
  zlen d < 2 ^ 32 ->
  read_result (with_data reply (xdrEncodeUint32 NFS_OK ++ xdrEncodeUint32 1 ++ encodeFileAttributes a ++
    xdrEncodeUint32 (zlen d) ++ xdrEncodeUint32 (if eof then 1 else 0) ++
    xdrEncodeUint32 (zlen d) ++ d ++ replicate (Z.to_nat (xdr_pad (zlen d))) x00)) = Some (d, eof).
Proof.
  intros Hd. unfold read_result, reply_result, decode_read. cbn [Data set_Data with_data]. unfold mbind, Dec_bind.
  pose proof (zlen_nonneg d). assert (is_u32 (zlen d)) by (unfold is_u32; lia).
  rewrite decode_status_ok_encode, decode_attr_encode by apply encodeFileAttributes_length.
  rewrite !xdrDecodeUint32_encode by first [done | destruct eof; unfold is_u32; lia].
  rewrite io_ReadFull_app' by (unfold zlen; lia).
  rewrite <- (app_nil_r (replicate _ _)), io_ReadFull_app' by (by rewrite length_replicate).
  rewrite Z.eqb_refl. by destruct eof.
Qed.

Lemma answered_write `{Env} reply a a' k :
  length writeVerf = 8%nat -> is_u32 k ->
  write_result (with_data reply (xdrEncodeUint32 NFS_OK ++ encodeWccData a a' ++
    xdrEncodeUint32 k ++ xdrEncodeUint32 2 ++ writeVerf)) = Some k.
Proof.
  intros Hv Hk. unfold write_result, reply_result, decode_write, encodeWccData. cbn [Data set_Data with_data].
  unfold mbind, Dec_bind. rewrite decode_status_ok_encode, <- !app_assoc.
  rewrite decode_attr_encode by apply encodeWccAttr_length.
  rewrite decode_attr_encode by apply encodeFileAttributes_length.
  rewrite !xdrDecodeUint32_encode by first [done | unfold is_u32; lia].
  by rewrite <- (app_nil_r writeVerf), io_ReadFull_app' by done.
Qed.

Section Calls.
Context {F FD RL : Type} `{FSContent F FD} `{OpLimiter RL} `{Env}.
#[local] Existing Instance FSInv_any.
#[local] Abbreviation Srv := (Srv F RL).
#[local] Abbreviation M := (M F RL).

(** The server goes on consistently, under the same options and with the same
    handles. *)
Definition goes_on (s s' : Srv) : Prop := served s s' /\ s_fileMap s' = s_fileMap s.

Lemma goes_on_trans s1 s2 s3 : goes_on s1 s2 -> goes_on s2 s3 -> goes_on s1 s3.
Proof. intros [? ?] [? ?]. split; [by eapply served_trans|congruence]. Qed.

Lemma goes_on_refl s : server_ok s -> goes_on s s.
Proof. intros. split; [by apply served_refl|done]. Qed.

Lemma goes_on_ok s s' : goes_on s s' -> server_ok s'.
Proof. by intros [[? _] _]. Qed.

Lemma goes_on_unread s s' b : goes_on s s' -> goes_on s (upd_unread b s').
Proof.
  intros Hg. eapply goes_on_trans; [done|]. split; [|done].
  split; [|done]. exact (inv_upd_unread _ _ _ s' b (goes_on_ok s s' Hg)).
Qed.

(** An operation on the node of a handle. *)
Lemma node_op_run {A} (m : M A) (s : Srv) h n :
  server_ok s -> Get (s_fileMap s) h = Some (FNode n) -> within eq m ->
  (forall pol tun P, FSInv F FD rooted (writable_by pol) P -> node_ok s n -> safe pol tun P s m (fun _ _ => True)) ->
  exists a s', m s = Some (a, s') /\ goes_on s s'.
Proof.
  intros Hi Hh Hw Hm. destruct (safe_served s m) as (a & s' & E & Hs); [|done|].
  - intros P HP. apply Hm; [done|]. by apply (si_handles _ _ _ _ Hi h).
  - exists a, s'. split; [done|]. split; [done|]. symmetry. by eapply Hw.
Qed.

(** The limiter decides about large transfers only, and touches no file. *)
Lemma large_limited (s : Srv) count ip op :
  server_ok s ->
  exists lim s', (if 65536 <? count then rate_limited ip op else mret false) s = Some (lim, s') /\
    goes_on s s' /\ s_fs s' = s_fs s /\ (count <= 65536 -> lim = false).
Proof.
  intros Hi. pose proof (goes_on_refl s Hi).
  destruct (Z.ltb_spec 65536 count); [|by do 2 eexists].
  destruct (safe_served s (rate_limited ip op)) as (lim & s' & E & Hs);
    [intros; apply rate_limited_safe|done|]. exists lim, s'. split; [done|].
  split; [split; [done|]; symmetry; by eapply (within_rate_limited eq)|]. split; [|lia].
  unfold rate_limited, record, modify, gets, mbind, M_bind, mret, M_ret in E.
  repeat (case_match; simplify_eq; try done).
Qed.

(** The operations on the node of a handle, from any state the server can be in. *)
Lemma GetAttr_run (s : Srv) h n b :
  server_ok s -> Get (s_fileMap s) h = Some (FNode n) -> (forall k, time_zero <= clock k) ->
  contents (path n) (s_fs s) = Some b ->
  exists r s', GetAttr n s = Some (r, s') /\ goes_on s s' /\ same_files (s_fs s) (s_fs s') /\
    match r with Ok a => Size a = zlen b | Err _ => ~ reliable F FD end.
Proof.
  intros Hi Hh Hclk Hb. destruct (node_op_run (GetAttr n) s h n) as (r & s' & E & Hg); [done..| | |].
  - apply within_GetAttr, _.
  - intros. by apply GetAttr_safe.
  - exists r, s'. split; [done|]. split; [done|]. by eapply GetAttr_content.
Qed.

Lemma Read_run (s : Srv) h n b offset count :
  server_ok s -> Get (s_fileMap s) h = Some (FNode n) -> contents (path n) (s_fs s) = Some b ->
  exists r s', Read n offset count s = Some (r, s') /\ goes_on s s' /\ same_files (s_fs s) (s_fs s') /\
    match r with
    | Ok d => 0 <= offset /\ 0 <= count /\ d = chunk offset (Z.min count (TransferSize (s_tuning s))) b
    | Err _ => reliable F FD -> prompt ReadTimeout (s_tuning s) -> 0 <= offset -> 0 <= count -> False
    end.
Proof.
  intros Hi Hh Hb. destruct (node_op_run (Read n offset count) s h n) as (r & s' & E & Hg); [done..| | |].
  - apply within_Read, _.
  - intros. by apply Read_safe.
  - exists r, s'. split; [done|]. split; [done|]. by eapply Read_content.
Qed.

Lemma Write_run (s : Srv) h n b offset data :
  server_ok s -> Get (s_fileMap s) h = Some (FNode n) -> contents (path n) (s_fs s) = Some b ->
  0 < TransferSize (s_tuning s) -> data <> [] ->
  exists k err s', Write n offset data s = Some ((k, err), s') /\ goes_on s s' /\
    match err with
    | None => 0 <= offset /\ k = Z.min (zlen data) (TransferSize (s_tuning s)) /\
        contents (path n) (s_fs s') = Some (splice b offset (take (Z.to_nat k) data))
    | Some _ => reliable F FD -> prompt WriteTimeout (s_tuning s) -> 0 <= offset ->
        ReadOnly (s_policy s) = false -> False
    end.
Proof.
  intros Hi Hh Hb Hts Hd. destruct (node_op_run (Write n offset data) s h n) as ([k err] & s' & E & Hg); [done..| | |].
  - apply within_Write, _.
  - intros. by apply Write_safe.
  - exists k, err, s'. split; [done|]. split; [done|]. by eapply Write_content.
Qed.

(** *** READ *)

(** What a client is to see of a file that holds [b]. *)
Definition read_spec (off n : Z) (b : list byte) : list byte * bool :=
  let d := chunk off n b in (d, zlen b <=? off + zlen d).

Lemma bind_run {A B} (m : M A) (k : A -> M B) s a s1 : m s = Some (a, s1) -> (m ≫= k) s = k a s1.
Proof. intros E. unfold mbind, M_bind. by rewrite E. Qed.

Lemma with_node_run h stale (k : NFSNode -> M RPCReply) s n :
  Get (s_fileMap s) h = Some (FNode n) -> with_node h stale k s = k n s.
Proof. intros E. unfold with_node, lookupNode, gets, mbind, M_bind. by rewrite E. Qed.

(** The end-of-file test does not overflow. *)
Lemma eof_exact off n b :
  0 <= off < 2 ^ 63 -> 0 <= n -> zlen b < 2 ^ 63 ->
  i64 (off + zlen (chunk off n b)) = off + zlen (chunk off n b).
Proof.
  intros. apply i64_small.
  rewrite zlen_chunk by lia. pose proof (zlen_nonneg b). lia.
Qed.

Lemma i64_nonneg off : is_u64 off -> 0 <= i64 off -> i64 off = off /\ off < 2 ^ 63.
Proof. unfold is_u64, i64. intros. Z.to_euclidean_division_equations. lia. Qed.

(** What READ promises of its reply and of the state it leaves: the files are
    the same, a result is the one of [read_spec], and there is one unless
    something fails. *)
Definition read_promise (s : Srv) (b : list byte) (off count : Z) (r : RPCReply) (s' : Srv) : Prop :=
  goes_on s s' /\ same_files (s_fs s) (s_fs s') /\
  (forall res, read_result r = Some res ->
     off < 2 ^ 63 /\ res = read_spec off (Z.min count (TransferSize (s_tuning s))) b) /\
  (reliable F FD -> prompt ReadTimeout (s_tuning s) -> off < 2 ^ 63 -> count <= 65536 ->
     is_Some (read_result r)).

Lemma read_refused (s s' : Srv) b off count reply st :
  goes_on s s' -> same_files (s_fs s) (s_fs s') ->
  (reliable F FD -> prompt ReadTimeout (s_tuning s) -> off < 2 ^ 63 -> count <= 65536 -> False) ->
  exists r s'', Some (nfsErrorWithPostOp reply st, s') = Some (r, s'') /\ read_promise s b off count r s''.
Proof.
  intros Hg Hsame Hno. do 2 eexists. split; [done|]. do 2 (split; [done|]).
  rewrite refused_read. split; [done|]. intros. by destruct Hno.
Qed.

Lemma handleRead_run (s : Srv) h n b off count reply ctx :
  server_ok s -> (forall k, time_zero <= clock k) -> Get (s_fileMap s) h = Some (FNode n) ->
  contents (path n) (s_fs s) = Some b -> zlen b < 2 ^ 63 -> is_u64 h -> is_u64 off -> is_u32 count ->
  exists r s', handleRead (read_args h off count) reply ctx s = Some (r, s') /\ read_promise s b off count r s'.
Proof.
  intros Hi Hclk Hh Hb Hbl Hhr Hor Hcr. unfold handleRead, read_args.
  rewrite xdrDecodeFileHandle_encode, binary_ReadUint64_encode by done.
  rewrite <- (app_nil_r (xdrEncodeUint32 count)), xdrDecodeUint32_encode by done.
  unfold mbind at 1 2 3, M_bind at 1 2 3, read_to, modify.
  set (s0 := upd_unread [] _). assert (goes_on s s0) as G0 by (by repeat apply goes_on_unread; apply goes_on_refl).
  assert (same_files (s_fs s) (s_fs s0)) as S0 by done.
  destruct (Z.ltb_spec (MaxUint64 - count) off).
  { apply read_refused; [done..|]. unfold MaxUint64, is_u32 in *. intros. lia. }
  destruct (large_limited s0 count (ClientIP ctx) OpTypeReadLarge) as (lim & s1 & E1 & G1 & F1 & Hlim);
    [by eapply goes_on_ok|].
  rewrite (bind_run _ _ _ _ _ E1). apply (goes_on_trans _ _ _ G0) in G1. rewrite <- F1 in S0.
  destruct lim; [apply read_refused; [done..|]; intros; by specialize (Hlim ltac:(done))|].
  assert (Get (s_fileMap s1) h = Some (FNode n)) as Hh1 by (by rewrite (proj2 G1)).
  rewrite (with_node_run _ _ _ _ n Hh1).
  assert (contents (path n) (s_fs s1) = Some b) as Hb1 by (by rewrite S0).
  destruct (Read_run s1 h n b (i64 off) count) as (rd & s2 & E2 & G2 & S2 & Hrd); [by eapply goes_on_ok|done..|].
  rewrite (bind_run _ _ _ _ _ E2). apply (goes_on_trans _ _ _ G1) in G2.
  assert (s_tuning s1 = s_tuning s) as Ht by (by destruct G1 as [(_ & _ & ? & _) _]). rewrite Ht in Hrd.
  assert (same_files (s_fs s) (s_fs s2)) as S2' by (by etrans).
  destruct rd as [d|err].
  2:{ apply read_refused; [done..|]. intros. unfold is_u32, is_u64 in *. apply Hrd; try done; [|lia].
      rewrite i64_small by lia. lia. }
  destruct Hrd as (Ho & _ & ->). apply i64_nonneg in Ho as [Ho Ho']; [|done]. rewrite Ho.
  destruct (GetAttr_run s2 h n b) as (ra & s3 & E3 & G3 & S3 & Hra);
    [by eapply goes_on_ok|by rewrite (proj2 G2)|done|by rewrite S2'|].
  rewrite (bind_run _ _ _ _ _ E3). apply (goes_on_trans _ _ _ G2) in G3.
  assert (same_files (s_fs s) (s_fs s3)) as S3' by (by etrans).
  destruct ra as [a|err]; [|apply read_refused; [done..|]; by intros].
  pose proof (si_tuning_ok _ _ _ _ Hi) as [Hts _]. unfold is_u64, is_u32 in *.
  rewrite Hra, eof_exact by lia.
  do 2 eexists. split; [done|]. do 2 (split; [done|]).
  rewrite answered_read; [|rewrite zlen_chunk by lia; lia]. split; [by intros ? [= <-]|done].
Qed.

(** *** WRITE *)

(** What WRITE promises: a result is the number of bytes that were put into
    the file, and there is one unless something fails. *)
Definition write_promise (s : Srv) p b off d (r : RPCReply) (s' : Srv) : Prop :=
  goes_on s s' /\
  (forall k, write_result r = Some k ->
     off < 2 ^ 63 /\ k = Z.min (zlen d) (TransferSize (s_tuning s)) /\
     contents p (s_fs s') = Some (splice b off (take (Z.to_nat k) d))) /\
  (reliable F FD -> prompt WriteTimeout (s_tuning s) -> ReadOnly (s_policy s) = false -> off < 2 ^ 63 ->
     zlen d <= 65536 -> zlen d <= u32 (TransferSize (s_tuning s)) -> is_Some (write_result r)).

Lemma write_refused (s s' : Srv) p b off d r :
  goes_on s s' -> write_result r = None ->
  (reliable F FD -> prompt WriteTimeout (s_tuning s) -> ReadOnly (s_policy s) = false -> off < 2 ^ 63 ->
     zlen d <= 65536 -> zlen d <= u32 (TransferSize (s_tuning s)) -> False) ->
  exists r' s'', Some (r, s') = Some (r', s'') /\ write_promise s p b off d r' s''.
Proof.
  intros Hg Hr Hno. do 2 eexists. split; [done|]. split; [done|]. rewrite Hr. split; [done|].
  intros. by destruct Hno.
Qed.

(** What is left of WRITE once its arguments are read. *)
Definition write_node (node : NFSNode) (off : Z) (data : list byte) (reply : RPCReply) : M RPCReply :=
  let* preAttrs := GetAttr node else err => mret (nfsErrorWithWcc reply (mapError err)) in
  '(n, werr) ← Write node (i64 off) data;
  match werr with
  | Some err =>
      r ← GetAttr node;
      let postAttrs := match r with Ok a => a | Err _ => preAttrs end in
      mret (with_data reply (xdrEncodeUint32 (mapError err) ++ encodeWccData preAttrs postAttrs))
  | None =>
      let* attrs := GetAttr node else err => mret (nfsErrorWithWcc reply (mapError err)) in
      mret (with_data reply (xdrEncodeUint32 NFS_OK ++ encodeWccData preAttrs attrs ++
        xdrEncodeUint32 n ++ xdrEncodeUint32 2 ++ writeVerf))
  end.

Lemma write_node_run (s s1 : Srv) h n b off d reply :
  goes_on s s1 -> s_fs s1 = s_fs s -> length writeVerf = 8%nat ->
  (forall k, time_zero <= clock k) -> Get (s_fileMap s) h = Some (FNode n) ->
  contents (path n) (s_fs s) = Some b -> 0 < TransferSize (s_tuning s) -> d <> [] -> zlen d < 2 ^ 32 ->
  is_u64 off ->
  exists r s', write_node n off d reply s1 = Some (r, s') /\ write_promise s (path n) b off d r s'.
Proof.
  intros G1 F1 Hv Hclk Hh Hb Hts Hd Hdl Hor. unfold write_node.
  destruct (GetAttr_run s1 h n b) as (ra & s2 & E2 & G2 & S2 & Hra);
    [by eapply goes_on_ok|by rewrite (proj2 G1)|done|by rewrite F1|].
  rewrite (bind_run _ _ _ _ _ E2). apply (goes_on_trans _ _ _ G1) in G2.
  destruct ra as [a|err]; [|apply write_refused; [done|apply refused_write|by intros]].
  pose proof G2 as [(_ & Hpol & Htun & _) Hfm].
  destruct (Write_run s2 h n b (i64 off) d) as (k & err & s3 & E3 & G3 & Hw);
    [by eapply goes_on_ok|by rewrite Hfm|by rewrite S2, F1|by rewrite Htun|done|].
  rewrite (bind_run _ _ _ _ _ E3). apply (goes_on_trans _ _ _ G2) in G3. rewrite Htun, Hpol in Hw.
  destruct err as [e|].
  - destruct (node_op_run (GetAttr n) s3 h n) as (ra & s4 & E4 & G4);
      [by eapply goes_on_ok|by rewrite (proj2 G3)|apply within_GetAttr, _|intros; by apply GetAttr_safe|].
    rewrite (bind_run _ _ _ _ _ E4). apply (goes_on_trans _ _ _ G3) in G4.
    apply write_refused; [done|apply failed_write|]. intros. apply Hw; try done.
    unfold is_u64 in *. rewrite i64_small by lia. lia.
  - destruct Hw as (Ho & Hk & Hc). apply i64_nonneg in Ho as [Ho Ho']; [|done]. rewrite Ho in Hc.
    destruct (GetAttr_run s3 h n (splice b off (take (Z.to_nat k) d))) as (ra & s4 & E4 & G4 & S4 & Hra');
      [by eapply goes_on_ok|by rewrite (proj2 G3)|done|done|].
    rewrite (bind_run _ _ _ _ _ E4). apply (goes_on_trans _ _ _ G3) in G4.
    destruct ra as [a'|err]; [|apply write_refused; [done|apply refused_write|by intros]].
    do 2 eexists. split; [done|]. split; [done|].
    rewrite answered_write; [|done|unfold is_u32; pose proof (zlen_nonneg d); lia].
    split; [intros ? [= <-]|done]. by rewrite S4.
Qed.

Lemma handleWrite_run (s : Srv) h n b off stable d reply ctx :
  server_ok s -> length writeVerf = 8%nat -> (forall k, time_zero <= clock k) ->
  Get (s_fileMap s) h = Some (FNode n) -> contents (path n) (s_fs s) = Some b ->
  0 < TransferSize (s_tuning s) -> d <> [] -> zlen d < 2 ^ 32 -> is_u64 h -> is_u64 off -> is_u32 stable ->
  exists r s', handleWrite (write_args h off stable d) reply ctx s = Some (r, s') /\
    write_promise s (path n) b off d r s'.
Proof.
  intros Hi Hv Hclk Hh Hb Hts Hd Hdl Hhr Hor Hsr. unfold handleWrite, write_args.
  pose proof (goes_on_refl s Hi) as G. pose proof (zlen_nonneg d).
  assert (is_u32 (zlen d)) as Hzr by (unfold is_u32; lia).
  unfold mbind at 1, M_bind at 1, read_only, gets.
  destruct (ReadOnly (s_policy s)) eqn:Hro; [apply write_refused; [done|apply refused_write|congruence]|].
  rewrite xdrDecodeFileHandle_encode, binary_ReadUint64_encode by done.
  rewrite (xdrDecodeUint32_encode (zlen d)), (xdrDecodeUint32_encode stable) by done.
  unfold mbind at 1 2 3 4, M_bind at 1 2 3 4, read_to, modify.
  set (s0 := upd_unread _ _). assert (goes_on s s0) as G0 by (by repeat apply goes_on_unread).
  destruct (Z.ltb_spec (MaxUint64 - zlen d) off).
  { apply write_refused; [done|apply refused_write|]. unfold MaxUint64 in *. lia. }
  destruct (large_limited s0 (zlen d) (ClientIP ctx) OpTypeWriteLarge) as (lim & s1 & E1 & G1 & F1 & Hlim);
    [by eapply goes_on_ok|].
  rewrite (bind_run _ _ _ _ _ E1). apply (goes_on_trans _ _ _ G0) in G1.
  destruct lim; [apply write_refused; [done|apply refused_write|]; intros; by specialize (Hlim ltac:(done))|].
  rewrite xdrDecodeUint32_encode by done. rewrite Z.eqb_refl. cbn [negb].
  unfold mbind at 1 2, M_bind at 1 2. cbn [s_tuning upd_unread].
  assert (s_tuning s1 = s_tuning s) as -> by (by destruct G1 as [(_ & _ & ? & _) _]).
  destruct (Z.ltb_spec (if u32 (TransferSize (s_tuning s)) =? 0 then 1048576 else u32 (TransferSize (s_tuning s)))
    (zlen d)) as [Hbig|_].
  { apply write_refused; [by apply goes_on_unread|apply refused_write|]. intros _ _ _ _ _ Hle.
    destruct d; [done|]. unfold zlen in *. simpl length in *.
    destruct (Z.eqb_spec (u32 (TransferSize (s_tuning s))) 0); lia. }
  rewrite io_ReadFull_app' by (unfold zlen; lia).
  unfold mbind at 1, M_bind at 1.
  match goal with |- context [(?m ≫= _) ?st] =>
    assert (exists s2, m st = Some (tt, s2) /\ goes_on s s2 /\ s_fs s2 = s_fs s) as (s2 & E2 & G2 & F2) end.
  { destruct (0 <? xdr_pad (zlen d)); eexists; (split; [reflexivity|]); (split; [by repeat apply goes_on_unread|exact F1]). }
  rewrite (bind_run _ _ _ _ _ E2), (with_node_run _ _ _ _ n) by (by rewrite (proj2 G2)).
  by apply (write_node_run s s2 h).
Qed.

(** ** Properties *)

(** C6: READ is reading a byte string.  For the handle of a regular file that
    holds [b], and whatever the attribute cache says of it, the procedure
    returns, the files are afterwards what they were, and a successful reply
    carries the bytes of [b] from the offset on, as many as were asked for up to the
    transfer size, with the end-of-file flag set exactly when they reach the
    end of [b].  When the filesystem does not fail, the deadline is not reached
    and the transfer is too small for the limiter, the reply is a successful
    one for every offset a file can have. *)
Theorem read_returns_content (s : Srv) h n b off count reply ctx :
  server_ok s -> (forall k, time_zero <= clock k) -> Get (s_fileMap s) h = Some (FNode n) ->
  contents (path n) (s_fs s) = Some b -> zlen b < 2 ^ 63 -> is_u64 h -> is_u64 off -> is_u32 count ->
  exists r s', handleRead (read_args h off count) reply ctx s = Some (r, s') /\ same_files (s_fs s) (s_fs s') /\
    (forall d eof, read_result r = Some (d, eof) ->
       d = chunk off (Z.min count (TransferSize (s_tuning s))) b /\ eof = (zlen b <=? off + zlen d)) /\
    (reliable F FD -> prompt ReadTimeout (s_tuning s) -> off < 2 ^ 63 -> count <= 65536 ->
       is_Some (read_result r)).
Proof.
  intros Hi Hclk Hh Hb Hbl Hhr Hor Hcr.
  destruct (handleRead_run s h n b off count reply ctx) as (r & s' & E & _ & Hsame & Hres & Hok); [done..|].
  exists r, s'. do 2 (split; [done|]). split; [|done]. intros d eof Hr.
  by apply Hres in Hr as [_ [= -> ->]].
Qed.

(** C7: WRITE is overwriting a byte string.  For the handle of a regular file
    that holds [b], the procedure returns, and after a successful reply the
    file holds [b] with as many bytes of the data as the reply counts written
    at the offset, a gap before it filled with zeros; the count is the length
    of the data up to the transfer size.  When the filesystem does not fail, the
    deadline is not reached, the export is writable and the data is small enough
    for the limiter and the transfer size, the reply is a successful one. *)
Theorem write_stores_content (s : Srv) h n b off stable d reply ctx :
  server_ok s -> length writeVerf = 8%nat -> (forall k, time_zero <= clock k) ->
  Get (s_fileMap s) h = Some (FNode n) -> contents (path n) (s_fs s) = Some b ->
  0 < TransferSize (s_tuning s) -> d <> [] -> zlen d < 2 ^ 32 -> is_u64 h -> is_u64 off -> is_u32 stable ->
  exists r s', handleWrite (write_args h off stable d) reply ctx s = Some (r, s') /\
    (forall k, write_result r = Some k ->
       k = Z.min (zlen d) (TransferSize (s_tuning s)) /\
       contents (path n) (s_fs s') = Some (splice b off (take (Z.to_nat k) d))) /\
    (reliable F FD -> prompt WriteTimeout (s_tuning s) -> ReadOnly (s_policy s) = false -> off < 2 ^ 63 ->
       zlen d <= 65536 -> zlen d <= u32 (TransferSize (s_tuning s)) -> is_Some (write_result r)).
Proof.
  intros Hi Hv Hclk Hh Hb Hts Hd Hdl Hhr Hor Hsr.
  destruct (handleWrite_run s h n b off stable d reply ctx) as (r & s' & E & _ & Hres & Hok); [done..|].
  exists r, s'. split; [done|]. split; [|done]. intros k Hk. by apply Hres in Hk as [_ ?].
Qed.

(** C5: what a client writes it reads back.  On an export that is not read-only,
    with a filesystem that does not fail and deadlines that are not reached, a
    WRITE of data of at most 64 KiB within the transfer size through the handle
    of a regular file reports all of it written, and a READ of the same range
    that follows, whoever sends it, returns exactly that data; both leave the
    file with the data in place of what it held there. *)
Theorem write_then_read (s : Srv) h n b off stable d reply ctx reply' ctx' :
  server_ok s -> length writeVerf = 8%nat -> (forall k, time_zero <= clock k) ->
  reliable F FD -> prompt ReadTimeout (s_tuning s) -> prompt WriteTimeout (s_tuning s) ->
  ReadOnly (s_policy s) = false -> Get (s_fileMap s) h = Some (FNode n) -> contents (path n) (s_fs s) = Some b ->
  d <> [] -> zlen d <= 65536 -> zlen d <= u32 (TransferSize (s_tuning s)) ->
  is_u64 h -> is_u32 stable -> 0 <= off -> zlen (splice b off d) < 2 ^ 63 ->
  exists r1 s1 r2 s2,
    handleWrite (write_args h off stable d) reply ctx s = Some (r1, s1) /\ write_result r1 = Some (zlen d) /\
    handleRead (read_args h off (zlen d)) reply' ctx' s1 = Some (r2, s2) /\
    read_result r2 = Some (d, zlen b <=? off + zlen d) /\
    contents (path n) (s_fs s2) = Some (splice b off d).
Proof.
  intros Hi Hv Hclk Hrel Hpr Hpw Hro Hh Hb Hd Hdl Hdt Hhr Hsr Hoff Hend. pose proof (zlen_nonneg d) as Hd0.
  pose proof (si_tuning_ok _ _ _ _ Hi) as [Hts _].
  assert (zlen d <= TransferSize (s_tuning s)) as Hdt'
    by (unfold u32 in Hdt; pose proof (Z.mod_le (TransferSize (s_tuning s)) (2 ^ 32)); lia).
  assert (zlen d <> 0) as Hd1 by (by destruct d).
  rewrite zlen_splice in Hend by done.
  destruct (handleWrite_run s h n b off stable d reply ctx) as (r1 & s1 & E1 & G1 & Hres1 & Hok1);
    [done..|lia|done|lia|done|unfold is_u64; lia|done|].
  destruct Hok1 as [k Hk]; [done..|lia|done|done|]. destruct (Hres1 k Hk) as (_ & -> & Hc1).
  rewrite Z.min_l in Hk, Hc1 by done. rewrite take_ge in Hc1 by (unfold zlen; lia).
  pose proof G1 as [(Hi1 & _ & Ht1 & _) Hfm].
  destruct (handleRead_run s1 h n (splice b off d) off (zlen d) reply' ctx') as (r2 & s2 & E2 & _ & Hsame & Hres2 & Hok2);
    [done|done|by rewrite Hfm|done|rewrite zlen_splice; lia|done|unfold is_u64; lia|unfold is_u32; lia|].
  destruct Hok2 as [res Hr]; [done|by rewrite Ht1|lia|done|]. destruct (Hres2 res Hr) as [_ ->].
  exists r1, s1, r2, s2. do 3 (split; [done|]). rewrite Hr, Ht1, Z.min_l by done.
  split; [|by rewrite Hsame]. unfold read_spec. rewrite chunk_splice, zlen_splice by done. do 2 f_equal.
  destruct (Z.leb_spec (Z.max (zlen b) (off + zlen d)) (off + zlen d)), (Z.leb_spec (zlen b) (off + zlen d)); lia || done.
Qed.
End Calls.

(** ** A store in memory *)

Definition memfs_contents (p : string) (s : MemFS.state) : option (list byte) :=
  match s !! p with
  | Some (MemFS.mkMNode (MemFS.CFile d) _ _) => Some d
  | _ => None
  end.

(** Chtimes replaces a node by one that holds the same. *)
Lemma memfs_chtimes p a m q (s : MemFS.state) : memfs_contents q (fs_Chtimes p a m s).2 = memfs_contents q s.
Proof.
  simpl. unfold MemFS.with_node, MemFS.store, memfs_contents, MemFS.state in *.
  destruct (s !! p) as [x|] eqn:E; [|done]. simpl. destruct (decide (q = p)) as [->|].
  - rewrite lookup_insert_eq, E. by destruct x.
  - by rewrite lookup_insert_ne by done.
Qed.

Lemma memfs_write (f : MemFS.fd) (s : MemFS.state) b off d n :
  memfs_contents (MemFS.fd_path f) s = Some b -> (f_WriteAt f d off s).1 = (n, None) ->
  n = zlen d /\ memfs_contents (MemFS.fd_path f) (f_WriteAt f d off s).2 = Some (splice b off d).
Proof.
  simpl. unfold memfs_contents, MemFS.state in *. destruct (s !! MemFS.fd_path f) as [[[c| |t] m mt]|] eqn:E; try done.
  simpl. intros [= <-] [= <-]. rewrite lookup_insert_eq. done.
Qed.

#[export] Instance memfs_content : FSContent MemFS.state MemFS.fd.
Proof.
  refine {| contents := memfs_contents; fd_opens := fun f p _ => MemFS.fd_path f = p |};
    try exact memfs_chtimes; intros; simplify_eq;
    try (f_equal; simpl; unfold MemFS.with_node; repeat case_match; done);
    try (by apply memfs_write); simpl in *; unfold MemFS.with_node, memfs_contents, MemFS.info, MemFS.state in *.
  - destruct (s !! p); by simplify_eq/=.
  - destruct (s !! p) as [[[] ? ?]|]; by simplify_eq/=.
  - destruct (s !! MemFS.fd_path fd) as [[[] ? ?]|]; by simplify_eq/=.
  - destruct (s !! MemFS.fd_path fd) as [[[] ? ?]|]; by simplify_eq/=.
Defined.

Lemma memfs_reliable : reliable MemFS.state MemFS.fd.
Proof.
  split; intros; simpl in *; unfold MemFS.with_node, memfs_contents in *; simplify_eq;
    repeat case_match; simplify_eq; simpl; auto.
Qed.

(** A server whose client has mounted the export and looked up "a": handle 2
    is the file "/a", which holds "hello". *)
Definition opened : Srv MemFS.state unit :=
  match serve_all mounted [mkRequest false (nfs_call NFS_PROGRAM 3) (dirop_args 1 "a") root_ctx] with
  | Some (_, s) => s
  | None => mounted
  end.
Definition a_node : NFSNode :=
  match Get (s_fileMap opened) 2 with Some (FNode n) => n | _ => mkNode 0 "" end.
Definition hello : list byte := bytes_of_string "hello".
Definition blank : RPCReply := initial_reply (nfs_call NFS_PROGRAM 6).

Lemma opened_ok : server_ok opened.
Proof.
  destruct (serve_all_ok [mkRequest false (nfs_call NFS_PROGRAM 3) (dirop_args 1 "a") root_ctx] mounted mounted_ok)
    as (replies & s' & E & _ & Hs').
  unfold opened. rewrite E. apply Hs'.
Qed.

Lemma opened_handle : Get (s_fileMap opened) 2 = Some (FNode a_node).
Proof. vm_compute. reflexivity. Qed.
Lemma opened_content : contents (path a_node) (s_fs opened) = Some hello.
Proof. vm_compute. reflexivity. Qed.
Lemma opened_size : TransferSize (s_tuning opened) = 65536.
Proof. vm_compute. reflexivity. Qed.
Lemma sample_verf : length (writeVerf (Env := sample_env)) = 8%nat.
Proof. reflexivity. Qed.
Lemma opened_prompt sel : (forall tc, Timeouts (s_tuning opened) = Some tc -> ms < sel tc) -> prompt sel (s_tuning opened).
Proof. intros Hsel tc k Ht. specialize (Hsel tc Ht). unfold clock, sample_env. lia. Qed.

Lemma opened_path : path a_node = "/a"%string.
Proof. vm_compute. reflexivity. Qed.
Lemma opened_writable : ReadOnly (s_policy opened) = false.
Proof. vm_compute. reflexivity. Qed.
Lemma opened_reads tc : Timeouts (s_tuning opened) = Some tc -> ms < ReadTimeout tc.
Proof. intros E. vm_compute in E. injection E as <-. vm_compute. reflexivity. Qed.
Lemma opened_writes tc : Timeouts (s_tuning opened) = Some tc -> ms < WriteTimeout tc.
Proof. intros E. vm_compute in E. injection E as <-. vm_compute. reflexivity. Qed.

(** Three bytes from offset 1 of "hello". *)
Lemma read_returns_content_witness :
  exists r s', handleRead (read_args 2 1 3) blank root_ctx opened = Some (r, s') /\
    same_files (s_fs opened) (s_fs s') /\ read_result r = Some (bytes_of_string "ell", false).
Proof.
  destruct (read_returns_content opened 2 a_node hello 1 3 blank root_ctx opened_ok sample_clock_after_zero
    opened_handle opened_content) as (r & s' & E & Hsame & Hres & Hok); [vm_compute; done..|].
  exists r, s'. split; [exact E|]. split; [exact Hsame|].
  destruct Hok as [[d eof] Hr]; [exact memfs_reliable|apply opened_prompt, opened_reads|lia|lia|].
  destruct (Hres d eof Hr) as [Hd He]. rewrite Hr, He, Hd, opened_size. vm_compute. reflexivity.
Defined.

(** "J" two bytes past the end. *)
Lemma write_stores_content_witness :
  exists r s', handleWrite (write_args 2 7 2 (bytes_of_string "J")) blank root_ctx opened = Some (r, s') /\
    write_result r = Some 1 /\
    contents "/a" (s_fs s') = Some (hello ++ [x00; x00] ++ bytes_of_string "J").
Proof.
  destruct (write_stores_content opened 2 a_node hello 7 2 (bytes_of_string "J") blank root_ctx opened_ok
    sample_verf sample_clock_after_zero opened_handle opened_content) as (r & s' & E & Hres & Hok);
    [rewrite opened_size; lia|discriminate|vm_compute; done..|].
  exists r, s'. split; [exact E|].
  destruct Hok as [k Hk]; [exact memfs_reliable|apply opened_prompt, opened_writes|exact opened_writable|lia|done|
    rewrite opened_size; done|].
  destruct (Hres k Hk) as [-> Hc]. rewrite opened_size in Hk, Hc. rewrite opened_path in Hc. split; [exact Hk|exact Hc].
Defined.

(** "ello, world" at offset 1 of "hello". *)
Lemma write_then_read_witness :
  exists r1 s1 r2 s2,
    handleWrite (write_args 2 1 2 (bytes_of_string "ello, world")) blank root_ctx opened = Some (r1, s1) /\
    write_result r1 = Some 11 /\
    handleRead (read_args 2 1 11) blank root_ctx s1 = Some (r2, s2) /\
    read_result r2 = Some (bytes_of_string "ello, world", true) /\
    contents "/a" (s_fs s2) = Some (bytes_of_string "hello, world").
Proof.
  destruct (write_then_read opened 2 a_node hello 1 2 (bytes_of_string "ello, world") blank root_ctx blank root_ctx
    opened_ok sample_verf sample_clock_after_zero memfs_reliable (opened_prompt _ opened_reads)
    (opened_prompt _ opened_writes) opened_writable opened_handle opened_content)
    as (r1 & s1 & r2 & s2 & E1 & W & E2 & R & C); [discriminate|done|rewrite opened_size; done|vm_compute; done..|].
  rewrite opened_path in C. exists r1, s1, r2, s2.
  split; [exact E1|]. split; [exact W|]. split; [exact E2|]. split; [exact R|exact C].
Defined.
