(* ===== verification/Defects.v ===== *)
(** * Runs in which the code does not do what it means to

    Each run starts the server of [Sample] ("/" with the file "a" holding
    "hello", the directory "d" and the link "l") and sends it a few calls; the
    statuses of the replies and the tree left behind show the behaviour. *)

From S2P Require Import Prelude Errors Xdr Attributes Rpc MinHeap FileHandle Lru AttrCache Path.
From S2P Require Import Options NetIP Auth Filesystem DirCache Server Operations Safety Procs.
From S2P Require Import ProcsDir Sample Service Updates.
Open Scope Z_scope.

(** The statuses of the replies and the content of a file afterwards. *)
Definition statuses (rs : list (result RPCReply)) : list (option Z) :=
  map (fun x => match x with Ok p => reply_status p | Err _ => None end) rs.

Definition content (p : string) (s : Srv MemFS.state unit) : option MemFS.content :=
  MemFS.n_content <$> (s_fs s : gmap string MemFS.node) !! p.

Definition outcome (p : string) (rs : list request) : option (list (option Z) * option MemFS.content) :=
  '(replies, s) ← serve_all (sample_server false) rs;
  Some (statuses replies, content p s).

Definition mnt : request := mkRequest false (nfs_call MOUNT_PROGRAM 1) (xdrEncodeString "/") root_ctx.
Definition nfs (proc : Z) (args : list byte) : request :=
  mkRequest false (nfs_call NFS_PROGRAM proc) args root_ctx.

(** A GUARDED or EXCLUSIVE CREATE of a name that exists succeeds and truncates
    the file, where RFC 1813 and the comment on the EXCLUSIVE branch ask for
    an error or for the existing file to be left as it is. *)
Theorem create_guarded_truncates :
  outcome "/a" [mnt; nfs 8 (dirop_args 1 "a" ++ xdrEncodeUint32 1 ++ empty_sattr)]
    = Some ([Some NFS_OK; Some NFS_OK], Some (MemFS.CFile [])) /\
  outcome "/a" [mnt; nfs 8 (dirop_args 1 "a" ++ xdrEncodeUint32 2 ++ be_bytes 8 5)]
    = Some ([Some NFS_OK; Some NFS_OK], Some (MemFS.CFile [])).
Proof. vm_compute. split; reflexivity. Qed.

(** A MKDIR of a name that was looked up and found missing makes the directory
    and answers NFSERR_NOENT, since [handleMkdir] does not drop the negative
    entry of the attribute cache. *)
Theorem mkdir_after_failed_lookup :
  outcome "/x" [mnt; nfs 3 (dirop_args 1 "x"); nfs 9 (dirop_args 1 "x" ++ empty_sattr)]
    = Some ([Some NFS_OK; Some NFSERR_NOENT; Some NFSERR_NOENT], Some MemFS.CDir).
Proof. vm_compute. reflexivity. Qed.

(** A SETATTR of the mode of a directory drops the type bits of the node, and
    the next LOOKUP in it answers NFSERR_NOTDIR. *)
Definition mode_sattr (mode : Z) : list byte :=
  xdrEncodeUint32 1 ++ xdrEncodeUint32 mode ++ xdrEncodeUint32 0 ++ xdrEncodeUint32 0 ++
  xdrEncodeUint32 0 ++ xdrEncodeUint32 0 ++ xdrEncodeUint32 0 ++ xdrEncodeUint32 0.

Theorem setattr_mode_unmakes_directory :
  outcome "/a" [mnt; nfs 3 (dirop_args 1 "a");
                nfs 2 (xdrEncodeFileHandle 1 ++ mode_sattr 493);
                nfs 3 (dirop_args 1 "a")]
    = Some ([Some NFS_OK; Some NFS_OK; Some NFS_OK; Some NFSERR_NOTDIR],
            Some (MemFS.CFile (bytes_of_string "hello"))).
Proof. vm_compute. reflexivity. Qed.

(** An update of the export options that does not repeat the transfer size sets
    it to 0, and READ answers NFS_OK with no data for the file "hello": [New]
    replaces sizes that are not set, [UpdateExportOptions] does not.  With a
    negative size the READ panics. *)
Definition read_args (handle offset count : Z) : list byte :=
  xdrEncodeFileHandle handle ++ xdrEncodeUint64 offset ++ xdrEncodeUint32 count.

(** The count field of a successful READ reply: after the status, the
    attributes flag and the 84 bytes of attributes. *)
Definition read_count (r : result RPCReply) : option Z :=
  match r with
  | Ok p => match Data p with DataBytes b => Some (be_val (take 4 (drop 92 b))) | _ => None end
  | Err _ => None
  end.

Definition read_after_update (transferSize : Z) : option (option Z) :=
  '(_, s) ← serve_all (sample_server false) [mnt; nfs 3 (dirop_args 1 "a")];
  s ← handle_event (UpdateExport (export_with false transferSize)) s;
  '(reply, _) ← serve s (nfs 6 (read_args 2 0 100));
  Some (read_count reply).

Theorem update_clears_transfer_size :
  read_after_update 65536 = Some (Some 5) /\ read_after_update 0 = Some (Some 0) /\
  read_after_update (-1) = None.
Proof. vm_compute. repeat split; reflexivity. Qed.

(** A change of the tuning options that clears the time-outs is accepted, and
    the next READ panics. *)
Definition without_timeouts (t : TuningOptions) : TuningOptions :=
  mkTuning (TransferSize t) (AttrCacheTimeout t) (AttrCacheSize t) (CacheNegativeLookups t)
    (NegativeCacheTimeout t) (EnableDirCache t) (DirCacheTimeout t) (DirCacheMaxEntries t)
    (DirCacheMaxDirSize t) (MaxWorkers t) (MaxConnections t) (IdleTimeout t) (TCPKeepAlive t)
    (TCPNoDelay t) (SendBufferSize t) (ReceiveBufferSize t) (Async t) (t_Log t) None.

Theorem update_clears_timeouts :
  ('(_, s) ← serve_all (sample_server false) [mnt; nfs 3 (dirop_args 1 "a")];
   s ← handle_event (UpdateTuning without_timeouts) s;
   Some (Timeouts (s_tuning s), match serve s (nfs 6 (read_args 2 0 100)) with None => true | _ => false end))
  = Some (None, true).
Proof. vm_compute. reflexivity. Qed.

(** A directory renamed over an empty directory whose listing is cached: the
    listing is still the empty one afterwards, since RENAME drops the listings
    of the two parent directories only.  [moving] is MemFS with a renaming that
    takes along what is below the directory. *)
Module Moving.
Definition moved (o n p : string) : string :=
  if String.eqb p o || str_prefix (o +:+ "/") p then n +:+ str_drop (String.length o) p else p.

#[local] Instance moving : SymlinkFileSystem MemFS.state MemFS.fd := {|
  fs_Stat := fs_Stat; fs_Lstat := fs_Lstat; fs_Readlink := fs_Readlink; fs_OpenFile := fs_OpenFile;
  fs_Create := fs_Create; fs_Mkdir := fs_Mkdir; fs_Remove := fs_Remove;
  fs_Rename o n s := (Ok tt, list_to_map (prod_map (moved o n) id <$> map_to_list (delete n s)));
  fs_Symlink := fs_Symlink; fs_Truncate := fs_Truncate; fs_Chmod := fs_Chmod; fs_Chown := fs_Chown;
  fs_Lchown := fs_Lchown; fs_Chtimes := fs_Chtimes; f_Stat := f_Stat; f_ReadAt := f_ReadAt;
  f_WriteAt := f_WriteAt; f_Readdir := f_Readdir; f_Close := f_Close
|}.

Definition readdir (handle : Z) : request :=
  nfs 16 (xdrEncodeFileHandle handle ++ xdrEncodeUint64 0 ++ be_bytes 8 0 ++ xdrEncodeUint32 4096).

(** Whether a successful READDIR reply lists an entry: the word after the
    status, the attributes and the cookie verifier. *)
Definition lists_entry (r : result RPCReply) : option bool :=
  match r with
  | Ok p => match Data p with DataBytes b => Some (be_val (take 4 (drop 100 b)) =? 1) | _ => None end
  | Err _ => None
  end.

Theorem rename_keeps_listing :
  ('(replies, s) ← serve_all (sample_server false)
     [mnt; nfs 3 (dirop_args 1 "d"); nfs 9 (dirop_args 1 "e" ++ empty_sattr);
      nfs 8 (dirop_args 3 "x" ++ xdrEncodeUint32 0 ++ empty_sattr);
      readdir 2; nfs 14 (dirop_args 1 "e" ++ dirop_args 1 "d"); readdir 2];
   Some (statuses replies, lists_entry <$> drop 6 replies, content "/d/x" s, content "/e" s))
  = Some (replicate 7 (Some NFS_OK), [Some false], Some (MemFS.CFile []), None).
Proof. vm_compute. reflexivity. Qed.

(** The same calls without the first READDIR: the entry is listed. *)
Example rename_listing_not_cached :
  ('(replies, s) ← serve_all (sample_server false)
     [mnt; nfs 3 (dirop_args 1 "d"); nfs 9 (dirop_args 1 "e" ++ empty_sattr);
      nfs 8 (dirop_args 3 "x" ++ xdrEncodeUint32 0 ++ empty_sattr);
      nfs 14 (dirop_args 1 "e" ++ dirop_args 1 "d"); readdir 2];
   Some (statuses replies, lists_entry <$> drop 5 replies))
  = Some (replicate 6 (Some NFS_OK), [Some true]).
Proof. vm_compute. reflexivity. Qed.
End Moving.
